(* ===== verification/_CoqProject ===== *)
-Q . S2P
Prelude.v
Store.v
StoreFacts.v
Memory.v
Trace.v
MemoryInv.v
MemoryStep.v
Samples.v
MemoryLease.v
MemoryCommit.v
MemoryHistory.v
MemorySlots.v
MemoryUnused.v
Typed.v
Tables.v
Postgres.v
PgBatch.v
PgRel.v
PgLease.v
PgBlocks.v
PgCommit.v
PgSlots.v
PgRefine.v
PgSchedule.v
PgSerial.v
PgConcurrent.v
SlotSchedule.v
SlotSerial.v
SlotFacts.v
SlotRace.v
SlotProgress.v
SlotSamples.v
Migrations.v
Client.v
StoreTest.v
MemAlias.v
StoreSuite.v
StoreTestFacts.v
Messages.v
Connection.v
ConnFacts.v
ConnSamples.v
ConnSubject.v
ConnFetch.v
ConnSync.v
ConnWire.v
ConnAnswer.v
ConnCommit.v
ConnDurable.v
ConnLease.v
ConnText.v
ConnTyped.v
Login.v
LoginFacts.v
GoStrings.v
Token.v
TokenFacts.v
Config.v
ConnRun.v
ConnPostgres.v
WireRun.v
ConnMany.v
ConnManyRun.v
ConnManyFacts.v
ConnPush.v
ConnManyPg.v
PathMatch.v
SlotHTTP.v
ProtoServer.v
EnvConfig.v
EnvFacts.v
Platform.v
ServerRun.v
