(* ===== verification/Prelude.v ===== *)
(** * sqlite-remote-server: a shallow embedding in Rocq

    The program is a page server in Go: SQLite runs on a client, and this server stores the blocks
    of its databases.  A client opens a WebSocket, logs in by signing a challenge, opens databases
    under a lease, fetches blocks and commits changed ones.  The parts and the files that model
    them, each function named as in the source:

    - The storage contract, [src/internal/store/store.go]: [Store.v] has its data, errors and
      checks, and the interface [Store] as the type class [StoreAPI]; [StoreFacts.v] the lemmas on
      the checks.
    - The memory store, [src/internal/store/memory/memory.go]: [Memory.v].  The state is the two Go
      maps; every operation is a function from the state to the state and an answer.  A mutex makes
      every operation one step, so an execution is a sequence of calls ([Trace.v]: [op], [step],
      [run], [steps]).
    - The PostgreSQL store, [src/internal/store/postgres]: [Tables.v] models the rows and every
      query of [db/queries.sql.go] and [db/batch.go] on finite maps, with constraints, conflicts,
      cascades and the conversions to [bigint]; [Postgres.v] the operations of [postgres.go] as
      transactions in a state and error monad that rolls back on an error.  A string that a [text]
      column cannot hold fails at the first query that has it as a parameter.  There an operation is
      one step; [PgBatch.v] has the loop over the results of the batch of a commit.
      [PgSchedule.v] has the operations on one database again as programs of SQL statements, and
      the database that executes the statements of many transactions interleaved, with row
      locks, under read committed isolation.
    - The same transactions together with those on slots: [SlotSchedule.v], where [Open] locks the slot of
      the owner, and a claim, a deletion and the release of slots lock rows of many databases or slots.
    - The SQL of the migrations, [src/migrations]: [Migrations.v], as functions from the tables of one
      version of the schema to those of the next and back.
    - The byte slices of the memory store: [MemAlias.v] has the operations that take, keep or return
      slices on a heap that the store shares with its clients.
    - The contract tests of the stores, [src/internal/store/storetest/storetest.go]: [StoreTest.v],
      as programs on the interface; [Client.v] says what a program is and how a store runs it.
      [StoreSuite.v] has the test [blocksAreCopies], which is on the heap, and the list of all tests.
    - The sweep of unused databases, [src/server/unused.go]: in [MemoryUnused.v].
    - The messages of the protocol, [src/internal/gen/sqlite_remote/v1] and the error frames of
      [src/internal/protocol/errors.go]: [Messages.v].  Their encoding is the protobuf library's, which
      is a parameter; [ConnWire.v] has the sizes of two frames by the fields of the schema,
      [src/proto/sqlite_remote/v1/sqlite_remote.proto].
    - A connection, [src/internal/protocol/connection.go] and [holders.go]: [Connection.v].  The
      [world] has the store (any instance of [StoreAPI]), the calls made to it, the table of lease
      holders, the databases open on the connection, the frames sent and the pushes to other
      connections; every handler is a function on it, [handle] dispatches a frame and [run_frames] is
      the loop of [run] after the login; [ConnRun.v] has [run] and [serve] as a whole, and [WireRun.v]
      [read] on what the WebSocket delivers.  A store that panics ends the handler and the
      connection ([panics]).  There a
      handler is one step; [ConnMany.v] has the handlers again as programs of effects (store calls,
      critical sections of the table of holders, changes of the connection), which many connections
      and other servers execute interleaved.
    - The login, [src/internal/protocol/login.go] and the login part of [connection.go]: [Login.v].
    - Access tokens, [src/internal/token]: [Token.v].
    - The functions of the Go library on strings, numbers and durations that the code uses:
      [GoStrings.v]; [path.Match]: [PathMatch.v].
    - The slot endpoint, [src/internal/protocol/slot.go]: [SlotHTTP.v].
    - The protocol server, [src/internal/protocol/server.go]: [ProtoServer.v], with the goroutines of
      requests and shutdowns step by step.
    - The configuration, [Config] of [src/server/server.go]: [Config.v]; its environment variables,
      [src/config/config.go]: [EnvConfig.v].
    - The HTTP platform, [src/internal/platform/platform.go], and the routes: [Platform.v].
    - [Run], [openStore] and [newVerifier] of [src/server/server.go], [Migrate] and the command:
      [ServerRun.v], as the list of what they do to the outside and what they return.

    What the theorems show:

    - [MemoryInv.v], [MemoryStep.v]: the invariant of the memory store ([wf_store]) and what one call
      does to one database.  [MemoryLease.v]: when [Open] succeeds, that an ended lease is fenced for
      good, that epochs increase and that errors change nothing.  [MemoryCommit.v]: when [Commit] and
      [Fetch] succeed, that what is committed is what is fetched, and that a repeated commit is
      applied once.  [MemoryHistory.v]: no lost updates, complete change sets, growing versions.
      [MemorySlots.v]: which databases a call may touch and what slots do.  [MemoryUnused.v]: the
      sweep terminates and deletes exactly the unused databases.
    - [PgRel.v] relates tables to memory states; [PgLease.v], [PgBlocks.v], [PgCommit.v] and
      [PgSlots.v] simulate the operations; [PgRefine.v] concludes that the PostgreSQL store answers
      every sequence of calls as the memory store does, so that the theorems on the memory store
      hold for both; and that two behaviours outside the ranges of that theorem differ.  (A third one,
      the byte 0 in a string, is in [ConnPostgres.v].)
    - [PgSerial.v]: the programs of [PgSchedule.v] are the operations of [Postgres.v], and every
      interleaving of them has the effect of these operations one after the other.
      [PgConcurrent.v]: so concurrent transactions on databases, while no slot changes, are
      serializable and refine the memory store, and they do not deadlock; only [Changes], which takes no lock, may see several moments.
    - [SlotSerial.v]: the programs of [SlotSchedule.v] are the operations of [Postgres.v].  [SlotFacts.v]:
      locks exclude each other.  [SlotRace.v]: in every interleaving an [Open] commits only while its key
      holds the slot that it saw, and a claim deletes the databases of the key it replaces.
      [SlotProgress.v]: only statements that take many rows can deadlock.  [SlotSamples.v]: two of them that
      do, and races in which a key that saw no slot, or whose slot is being released, keeps a database.
    - [Migrations.v]: migrating keeps every database and can be undone.
    - [MemAlias.v]: whatever clients write to buffers they passed or got, the store's contents and
      answers are those of [Memory.v].
    - [Typed.v]: the answers of the store fit their Go types.  [Client.v]: a program of store calls
      cannot tell the two stores apart.  [StoreTestFacts.v]: both stores pass the contract tests.
    - [ConnFacts.v]: the calls a connection makes.  [ConnSubject.v]: a connection neither changes nor
      sees the databases of other subjects.  [ConnCommit.v]: a commit in parts reaches the store
      whole or not at all.  [ConnFetch.v]: the frames of a fetch hold the requested blocks.
      [ConnSync.v]: a client that asks for the changes and fetches the rest ends with the current
      database.  [ConnDurable.v]: what a connection acknowledged is what every connection fetches.
      [ConnAnswer.v]: every request is answered under its id, unless it ends the connection.
      [ConnWire.v]: frames fit the limit while the page size is the one of the open.
      [ConnLease.v]: pings keep leases alive.  [ConnTyped.v]: frames and calls fit their types, by a
      simulation that is generic in the store; [ConnPostgres.v] uses it to show that a whole
      connection is served alike on both stores.
    - [ConnText.v]: the strings that a session keeps and sends are UTF-8.  [WireRun.v]: so whatever bytes
      a client sends, all calls are legal and all frames and pushes fit the schema.
      [PgBatch.v]: the batch of a commit is the sequence of its statements.
    - [ConnManyRun.v]: the programs of [ConnMany.v] are the handlers of [Connection.v].
      [ConnManyFacts.v]: the table of holders has entries of live connections only.  [ConnPush.v]: a
      client is told that it lost its lease only if it did.  [ConnManyPg.v]: the interleavings of
      connections are the same on both stores.
    - [ConnRun.v]: no call before a login.  [LoginFacts.v]: what a login proves.  [TokenFacts.v]: what an
      accepted token proves.  [Config.v]: what a valid configuration guarantees.  [SlotHTTP.v]: which
      pages may ask for a slot and what they see.
    - [ProtoServer.v]: in every interleaving of requests and shutdowns nothing panics and the wait
      group counts the requests; a shutdown is final, and all that keeps it from returning is outside of
      the server.
    - [EnvFacts.v]: what is loaded is valid, and every valid configuration of whole days, positive times
      and listable origins can be written as variables and is loaded again.  [ServerRun.v]: a server listens only as configured, [Run] releases what it
      acquired, and when it returns; the command names the variable of every invalid field, but not
      of a database URL that cannot be parsed.
    - [Samples.v] and [ConnSamples.v] hold the concrete states at which theorems with hypotheses are
      applied, and [SlotSamples.v] the interleavings.

    Conventions: integers are [Z] with the wrap-around of their width written out ([u32], [u64],
    [s32], [s64]); a byte slice is an [option] of a list, [None] being [nil]; times are nanoseconds;
    a function that can fail returns [result].  Random bytes, clocks and the iteration order of Go
    maps are arguments.  Theorems on executions are about fewer than 2^64 - 1 calls, since versions
    and epochs are 64-bit counters that grow by at most one per call.

    Fuel: the loop over the blocks of a fetch ([pages_of_run]) gets one more than the number of
    blocks, and [pages_of_run_spec] shows that this is enough; the loop of a sweep ([sweep_loop]) needs
    one round per hundred unused databases and one more, as [sweep_deletes_all] shows;
    [TrimSpace] gets the length of the string, of which every round drops a byte; a duration has at
    most as many parts as characters ([duration_fuel]); a varint of 64 bits has at most ten bytes
    ([varint_size]); [path_Match] gets one more than the length
    of the pattern, and [path_match_iff] shows that it decides the match; the contract tests call
    [DeleteUnused] at most sixteen times in a row, which is enough since they pass.

    Parameters: SHA-256, Ed25519 verification, the JWT library, [json.Unmarshal], [url.Parse], the
    Unicode tables for text that is not ASCII, [proto.Marshal] and [proto.Unmarshal], the precision of
    a timestamp column, the order in which scans of PostgreSQL meet rows, and the results of [net/http],
    of the file system, of the migration library and of the PostgreSQL driver at the start; what is
    relied on is stated as named hypotheses, with an instance in the witness of the theorem.

    Not modelled: the WebSocket library and the timeouts of reads, which appear as what [ws.Read]
    returns; the order in which the frames of a connection and the pushes to it reach its client; the
    generated code that registers the messages with protobuf and that hands queries to the driver
    ([db.go]); running out of memory; limits of PostgreSQL on sizes, such as that of an index entry with a
    very long owner; and logging.  Error texts are represented by the error values. *)

From stdpp Require Export base gmap sets list strings sorting.
From Stdlib Require Export Strings.Byte ZArith Lia.

#[export] Set Default Goal Selector "!".

(** ** Go values

    Byte strings are lists of [Byte.byte].  A Go byte slice may be [nil], which is different from
    an empty slice wherever the code tests [x == nil]: [None] is [nil]. *)

Abbreviation bytes := (list Byte.byte).
Abbreviation slice := (option (list Byte.byte)).

#[export] Instance byte_eq_decision : EqDecision Byte.byte := Byte.byte_eq_dec.

(** The bytes of a slice; those of [nil] are empty. *)
Definition content (s : slice) : bytes := default [] s.

(** Go's [len] on a slice or a string of bytes. *)
Definition zlen {A} (l : list A) : Z := Z.of_nat (length l).
Definition slice_len (s : slice) : Z := zlen (content s).

(** [bytes.Equal]: [nil] and an empty slice are equal. *)
Definition bytes_Equal (a b : slice) : bool := bool_decide (content a = content b).

(** [bytes.Clone]: a copy; [nil] stays [nil]. *)
Definition bytes_Clone (s : slice) : slice := s.

(** [make([]byte, n)] is filled with zeros. *)
Definition zeros (n : Z) : bytes := replicate (Z.to_nat n) x00.

(** ** Machine integers

    Unsigned and signed integers are [Z]; every Go operation that can wrap is written with its
    wrap-around. *)

Definition two16 : Z := 65536.
Definition two31 : Z := 2147483648.
Definition two32 : Z := 4294967296.
Definition two63 : Z := 9223372036854775808.
Definition two64 : Z := 18446744073709551616.

Definition u32 (x : Z) : Z := x mod two32.
Definition u64 (x : Z) : Z := x mod two64.
Definition s64 (x : Z) : Z := (x + two63) mod two64 - two63.
Definition s32 (x : Z) : Z := (x + two31) mod two32 - two31.

Definition in_u32 (x : Z) : Prop := (0 <= x < two32)%Z.
Definition in_u64 (x : Z) : Prop := (0 <= x < two64)%Z.
Definition in_s64 (x : Z) : Prop := (- two63 <= x < two63)%Z.

(** ** Time

    [time.Time] is the number of nanoseconds since Go's zero time (January 1 of the year 1), so
    that the zero value of the struct is [0].  [time.Duration] is a signed 64-bit number of
    nanoseconds.  [Add], [Before] and [After] are exact on [Z]; [Sub] saturates as Go's does. *)

Abbreviation Time := Z (only parsing).
Abbreviation Duration := Z (only parsing).

Definition Nanosecond : Duration := 1.
Definition Microsecond : Duration := 1000.
Definition Millisecond : Duration := 1000000.
Definition Second : Duration := 1000000000.
Definition Minute : Duration := 60 * Second.
Definition Hour : Duration := 60 * Minute.

Definition time_Add (t : Time) (d : Duration) : Time := t + d.
Definition time_Before (t u : Time) : bool := (t <? u)%Z.
Definition time_After (t u : Time) : bool := (u <? t)%Z.
Definition time_IsZero (t : Time) : bool := (t =? 0)%Z.
Definition time_Sub (t u : Time) : Duration :=
  Z.max (- two63) (Z.min (two63 - 1) (t - u)).

(** The Unix epoch in nanoseconds since Go's zero time, and [Time.UnixMilli]. *)
Definition unix_epoch : Time := 62135596800 * Second.
Definition time_UnixMilli (t : Time) : Z := (t - unix_epoch) / Millisecond.

(** ** Strings

    A Go string is a sequence of bytes, as is a [string] here. *)

Definition str_bytes (s : string) : bytes := String.list_byte_of_string s.

Definition byte_Z (b : Byte.byte) : Z := Z.of_N (Byte.to_N b).

(** The byte with a value below 256. *)
Definition byte_of (n : Z) : Byte.byte := default x00 (Byte.of_N (Z.to_N n)).

(** [binary.BigEndian.AppendUint32(nil, n)] *)
Definition be32 (n : Z) : bytes :=
  [byte_of (n / 16777216 mod 256); byte_of (n / 65536 mod 256); byte_of (n / 256 mod 256); byte_of (n mod 256)].

Definition within (lo hi x : Z) : bool := (lo <=? x)%Z && (x <=? hi)%Z.

(** [utf8.ValidString]: shortest encodings of code points that are not surrogates. *)
Fixpoint valid_utf8 (l : list Z) : bool :=
  match l with
  | [] => true
  | a :: l =>
      if within 0 127 a then valid_utf8 l
      else if within 194 223 a then
        match l with
        | b :: l => within 128 191 b && valid_utf8 l
        | _ => false
        end
      else if within 224 239 a then
        match l with
        | b :: c :: l =>
            within (if a =? 224 then 160 else 128)%Z (if a =? 237 then 159 else 191)%Z b &&
            within 128 191 c && valid_utf8 l
        | _ => false
        end
      else if within 240 244 a then
        match l with
        | b :: c :: d :: l =>
            within (if a =? 240 then 144 else 128)%Z (if a =? 244 then 143 else 191)%Z b &&
            within 128 191 c && within 128 191 d && valid_utf8 l
        | _ => false
        end
      else false
  end.

Definition utf8_ValidString (s : string) : bool := valid_utf8 (byte_Z <$> str_bytes s).

(** UTF-8 without the byte 0: what a [text] column of a UTF-8 database can hold. *)
Definition text_ok (s : string) : bool :=
  utf8_ValidString s && forallb (fun b => negb (Byte.eqb b x00)) (str_bytes s).

Definition texts (l : list string) : Prop := forallb text_ok l = true.

Lemma texts_cons s l : texts (s :: l) -> texts [s] /\ texts l.
Proof. unfold texts. simpl. rewrite andb_true_r. by intros ?%andb_true_iff. Qed.

Lemma texts_app l k : texts l -> texts k -> texts (l ++ k).
Proof. unfold texts. rewrite forallb_app. intros -> ->. done. Qed.

(** ASCII strings without the byte 0 are text. *)
Lemma ascii_text (l : bytes) :
  Forall (fun b => (1 <= byte_Z b <= 127)%Z) l -> text_ok (String.string_of_list_byte l) = true.
Proof.
  intros Hl. unfold text_ok, utf8_ValidString, str_bytes. rewrite String.list_byte_of_string_of_list_byte.
  induction Hl as [|b l Hb _ IH]; [done|]. apply andb_true_iff in IH as [IH1 IH2]. apply andb_true_iff. split.
  - rewrite fmap_cons. cbn [valid_utf8]. unfold within.
    by rewrite (proj2 (Z.leb_le 0 _)), (proj2 (Z.leb_le _ 127)) by lia.
  - cbn [forallb]. rewrite IH2. destruct (Byte.eqb b x00) eqn:E; [|done].
    apply Byte.byte_dec_bl in E as ->. by destruct Hb as [Hb _].
Qed.

(** ** Results

    A Go function that returns [(A, error)] returns [Ok a] or [Err e]. *)

Inductive result (E A : Type) : Type :=
| Ok (a : A)
| Err (e : E).
Arguments Ok {E A} a.
Arguments Err {E A} e.

#[export] Instance result_ret {E} : MRet (result E) := fun _ a => Ok a.
#[export] Instance result_bind {E} : MBind (result E) :=
  fun _ _ f r => match r with Ok a => f a | Err e => Err e end.
#[export] Instance result_fmap {E} : FMap (result E) :=
  fun _ _ f r => match r with Ok a => Ok (f a) | Err e => Err e end.

Definition is_Ok {E A} (r : result E A) : Prop := exists a, r = Ok a.

#[export] Instance result_eq_decision {E A} `{EqDecision E} `{EqDecision A} :
  EqDecision (result E A).
Proof. solve_decision. Defined.

(** ** Automation *)

Create HintDb go.

Ltac unfold_ints :=
  unfold in_u32, in_u64, in_s64, u32, u64, s64, s32, two16, two31, two32, two63, two64 in *.

(** [zlia] is [lia] on machine integers, with [mod] and [/] by constants expanded. *)
Ltac zlia := unfold_ints; Z.div_mod_to_equations; lia.

(** Splits the [if]s and [match]es of a hypothesis and drops the impossible branches. *)
Ltac split_hyp H :=
  repeat match type of H with
  | context [match ?x with _ => _ end] =>
      let E := fresh "E" in destruct x eqn:E; simplify_eq/=
  end.

(** Turns boolean tests of the code into propositions. *)
Ltac bool_hyps :=
  repeat match goal with
  | H : (_ && _) = true |- _ => apply andb_true_iff in H as [? ?]
  | H : (_ || _) = false |- _ => apply orb_false_iff in H as [? ?]
  | H : negb _ = true |- _ => apply negb_true_iff in H
  | H : negb _ = false |- _ => apply negb_false_iff in H
  | H : (_ <? _)%Z = true |- _ => apply Z.ltb_lt in H
  | H : (_ <? _)%Z = false |- _ => apply Z.ltb_ge in H
  | H : (_ <=? _)%Z = true |- _ => apply Z.leb_le in H
  | H : (_ <=? _)%Z = false |- _ => apply Z.leb_gt in H
  | H : (_ =? _)%Z = true |- _ => apply Z.eqb_eq in H
  | H : (_ =? _)%Z = false |- _ => apply Z.eqb_neq in H
  | H : bool_decide _ = true |- _ => apply bool_decide_eq_true_1 in H
  | H : bool_decide _ = false |- _ => apply bool_decide_eq_false_1 in H
  end.

(** ** Shared lemmas *)

Lemma u64_small x : in_u64 x -> u64 x = x.
Proof. intros. apply Z.mod_small. exact H. Qed.

Lemma u64_range x : in_u64 (u64 x).
Proof. apply Z.mod_pos_bound. reflexivity. Qed.

Lemma u64_succ x : in_u64 x -> (x < two64 - 1)%Z -> u64 (x + 1) = (x + 1)%Z.
Proof. intros. apply u64_small. zlia. Qed.

Lemma u32_small x : in_u32 x -> u32 x = x.
Proof. zlia. Qed.

Lemma s64_small x : in_s64 x -> s64 x = x.
Proof. zlia. Qed.

(** A conversion to [int64] and back to [uint64] loses nothing. *)
Lemma u64_s64 x : in_u64 x -> u64 (s64 x) = x.
Proof. zlia. Qed.

Lemma s64_range x : in_s64 (s64 x).
Proof. zlia. Qed.

#[export] Hint Resolve u64_range s64_range : go.

Lemma bytes_Equal_spec a b : bytes_Equal a b = true <-> content a = content b.
Proof. unfold bytes_Equal. apply bool_decide_eq_true. Qed.

Lemma bytes_Equal_refl a : bytes_Equal a a = true.
Proof. by apply bytes_Equal_spec. Qed.

Lemma zlen_app {A} (l k : list A) : zlen (l ++ k) = (zlen l + zlen k)%Z.
Proof. unfold zlen. rewrite length_app. lia. Qed.

Lemma zlen_nonneg {A} (l : list A) : (0 <= zlen l)%Z.
Proof. unfold zlen. lia. Qed.

Lemma zlen_zeros n : (0 <= n)%Z -> zlen (zeros n) = n.
Proof. intros. unfold zlen, zeros. rewrite length_replicate. lia. Qed.

Lemma byte_Z_of n : (0 <= n < 256)%Z -> byte_Z (byte_of n) = n.
Proof.
  intros Hn. unfold byte_of, byte_Z. destruct (Byte.of_N (Z.to_N n)) as [b|] eqn:E.
  - simpl. apply Byte.to_of_N in E. rewrite E. lia.
  - apply Byte.of_N_None_iff in E. lia.
Qed.

Lemma byte_Z_range b : (0 <= byte_Z b < 256)%Z.
Proof. unfold byte_Z. pose proof (Byte.to_N_bounded b). lia. Qed.

Lemma byte_Z_inj a b : byte_Z a = byte_Z b -> a = b.
Proof.
  unfold byte_Z. intros H%N2Z.inj. pose proof (Byte.of_to_N a). pose proof (Byte.of_to_N b). congruence.
Qed.

Lemma be32_inj a b : in_u32 a -> in_u32 b -> be32 a = be32 b -> a = b.
Proof.
  intros Ha Hb [= H1 H2 H3 H4].
  apply (f_equal byte_Z) in H1, H2, H3, H4. rewrite !byte_Z_of in H1, H2, H3, H4 by (apply Z.mod_pos_bound; lia).
  zlia.
Qed.

Lemma is_Ok_Ok {E A} (a : A) : is_Ok (Ok (E:=E) a).
Proof. by eexists. Qed.
#[export] Hint Resolve is_Ok_Ok : go.

(** [merge_sort] looks only at the order of the elements of the list. *)
Section merge_sort_ext.
Context {A : Type} (R R' : relation A) `{!RelDecision R} `{!RelDecision R'} (P : A -> Prop).
Hypothesis same_order : forall x y, P x -> P y -> R x y <-> R' x y.

Lemma list_merge_ext l1 : forall l2,
  Forall P l1 -> Forall P l2 -> list_merge R l1 l2 = list_merge R' l1 l2.
Proof.
  induction l1 as [|x l1 IH1]; intros l2 H1 H2; [by destruct l2|].
  induction l2 as [|y l2 IH2]; [done|]. apply Forall_cons in H1 as [Hx H1].
  pose proof H2 as [Hy H2']%Forall_cons. simpl.
  destruct (decide_rel R x y) as [Hr|Hr], (decide_rel R' x y) as [Hr'|Hr'].
  - f_equal. by apply IH1.
  - exfalso. apply Hr'. by apply (same_order x y Hx Hy).
  - exfalso. apply Hr. by apply (same_order x y Hx Hy).
  - f_equal. by apply IH2.
Qed.

Definition stack_all (st : list (option (list A))) : Prop :=
  Forall (fun o => match o with Some l => Forall P l | None => True end) st.

Lemma list_merge_all l1 l2 : Forall P l1 -> Forall P l2 -> Forall P (list_merge R l1 l2).
Proof. intros. rewrite merge_Permutation. by apply Forall_app. Qed.

Lemma merge_list_to_stack_ext (st : list (option (list A))) : forall l : list A,
  stack_all st -> Forall P l ->
  merge_list_to_stack R st l = merge_list_to_stack R' st l /\
  stack_all (merge_list_to_stack R st l).
Proof.
  induction st as [|[l'|] st IH]; intros l Hst Hl; simpl.
  - split; [done|]. by repeat constructor.
  - apply Forall_cons in Hst as [Hl' Hst]. rewrite <- (list_merge_ext l' l) by done.
    destruct (IH (list_merge R l' l) Hst (list_merge_all _ _ Hl' Hl)) as [Heq Hall].
    rewrite Heq in *. split; [done|]. by constructor.
  - apply Forall_cons in Hst as [_ Hst]. split; [done|]. by constructor.
Qed.

Lemma merge_stack_ext st :
  stack_all st -> merge_stack R st = merge_stack R' st /\ Forall P (merge_stack R st).
Proof.
  induction st as [|[l|] st IH]; intros Hst; simpl; [done| |].
  - apply Forall_cons in Hst as [Hl Hst]. destruct (IH Hst) as [Heq Hall].
    rewrite <- Heq, <- list_merge_ext by done. split; [done|]. by apply list_merge_all.
  - apply Forall_cons in Hst as [_ Hst]. by apply IH.
Qed.

Lemma merge_sort_ext l : Forall P l -> merge_sort R l = merge_sort R' l.
Proof.
  unfold merge_sort. assert (stack_all []) as Hst by constructor. revert Hst.
  generalize (@nil (option (list A))). induction l as [|x l IH]; intros st Hst Hl; simpl.
  - by apply merge_stack_ext.
  - apply Forall_cons in Hl as [Hx Hl].
    destruct (merge_list_to_stack_ext st [x] Hst) as [Heq Hall]; [by repeat constructor|].
    rewrite <- Heq. by apply IH.
Qed.
End merge_sort_ext.
