(* ===== verification/Store.v ===== *)
(** * The storage contract: [src/internal/store/store.go]

    The data the stores exchange with the protocol, the errors, the checks that both
    implementations share, and the [Store] interface as a type class.  Reasons of bad requests
    are constructors that carry the arguments of the code's format strings. *)

From S2P Require Import Prelude.

Local Open Scope Z_scope.

(** ** Constants and data *)

Definition MinPageSize : Z := 512.
Definition MaxPageSize : Z := 65536.
Definition ChangeWindow : Z := 1024.

Record Key := mkKey { Subject : string; DBID : string }.

#[export] Instance Key_eq_decision : EqDecision Key.
Proof. solve_decision. Defined.

#[export] Program Instance Key_countable : Countable Key :=
  inj_countable' (fun k => (Subject k, DBID k)) (fun p => mkKey p.1 p.2) _.
Next Obligation. by intros []. Qed.

Record Lease := mkLease { ID : slice; Epoch : Z }.

Record State := mkState {
  PageSize : Z;
  PageCount : Z;
  Version : Z;
  LastCommitID : slice }.

Record Resume := mkResume { LeaseID : slice; LeaseEpoch : Z }.

Record OpenRequest := mkOpenRequest {
  or_Key : Key;
  or_Owner : string;
  or_InstanceID : slice;
  or_PageSize : Z;
  or_Create : bool;
  or_Takeover : bool;
  or_Resume : option Resume;
  or_Now : Time;
  or_TTL : Duration }.

Record OpenResult := mkOpenResult {
  res_Lease : Lease;
  res_State : State;
  res_Revoked : bool }.

Record DeleteRequest := mkDeleteRequest {
  dr_Key : Key;
  dr_Takeover : bool;
  dr_Now : Time }.

Record DeleteResult := mkDeleteResult { del_Epoch : Z; del_Revoked : bool }.

Record Block := mkBlock { Index : Z; Data : bytes }.

Record CommitRequest := mkCommitRequest {
  cr_Key : Key;
  cr_CommitID : slice;
  cr_LeaseEpoch : Z;
  cr_BaseVersion : Z;
  cr_PageCount : Z;
  cr_Blocks : list Block;
  cr_Now : Time;
  cr_TTL : Duration }.

Record ChangeSet := mkChangeSet {
  FromVersion : Z;
  ToVersion : Z;
  cs_Blocks : list Z;
  Complete : bool }.

Record Slot := mkSlot {
  slot_Subject : string;
  slot_Label : string;
  slot_ClaimedAt : Time }.

Record ClaimRequest := mkClaimRequest {
  cl_Owner : string;
  cl_Subject : string;
  cl_Now : Time }.

Record ClaimResult := mkClaimResult {
  cres_Slot : Slot;
  cres_Replaced : option Slot;
  cres_Deleted : list Key }.

(** ** Errors *)

(** One constructor per format string of [store.BadRequest] in the stores and the protocol. *)
Inductive Reason :=
| InvalidPageSize (size : Z)
| PageSizeMismatch (size have : Z)
| CommitIDEmpty
| BlockSize (index size page_size : Z)
| BlockBeyond (index page_count : Z)
| BlockTwice (index : Z)
| RangeBeyond (first beyond page_count : Z)
| VersionAhead (from current : Z)
| RequestReason (text : string).

(** [GoPanic] is no error value of the code: the call panics, with this message of the Go runtime. *)
Inductive Error :=
| ErrNotFound
| ErrFenced
| ErrSlotTaken
| LeaseHeldError (Since : Time)
| VersionConflictError (Current : Z)
| BadRequestError (r : Reason)
| InternalError (text : string)
| GoPanic (text : string).

Definition is_panic (e : Error) : bool := match e with GoPanic _ => true | _ => false end.

#[export] Instance Lease_eq_decision : EqDecision Lease.
Proof. solve_decision. Defined.
#[export] Instance State_eq_decision : EqDecision State.
Proof. solve_decision. Defined.
#[export] Instance OpenResult_eq_decision : EqDecision OpenResult.
Proof. solve_decision. Defined.
#[export] Instance Slot_eq_decision : EqDecision Slot.
Proof. solve_decision. Defined.
#[export] Instance Reason_eq_decision : EqDecision Reason.
Proof. solve_decision. Defined.
#[export] Instance Error_eq_decision : EqDecision Error.
Proof. solve_decision. Defined.

(** ** Checks shared by the stores *)

(** [size&(size-1) == 0] in 32 bits. *)
Definition ValidPageSize (size : Z) : bool :=
  (MinPageSize <=? size) && (size <=? MaxPageSize) && (Z.land size (u32 (size - 1)) =? 0).

(** The loop of [ValidateCommit]; [seen] holds the indexes of the blocks before. *)
Fixpoint validate_blocks (pageSize pageCount : Z) (seen : gset Z) (blocks : list Block) :
    result Error unit :=
  match blocks with
  | [] => Ok tt
  | b :: rest =>
      if negb (zlen (Data b) =? pageSize) then
        Err (BadRequestError (BlockSize (Index b) (zlen (Data b)) pageSize))
      else if pageCount <=? Index b then
        Err (BadRequestError (BlockBeyond (Index b) pageCount))
      else if bool_decide (Index b ∈ seen) then
        Err (BadRequestError (BlockTwice (Index b)))
      else validate_blocks pageSize pageCount ({[Index b]} ∪ seen) rest
  end.

Definition ValidateCommit (pageSize : Z) (req : CommitRequest) : result Error unit :=
  if slice_len (cr_CommitID req) =? 0 then Err (BadRequestError CommitIDEmpty)
  else validate_blocks pageSize (cr_PageCount req) ∅ (cr_Blocks req).

(** [pageCount-first] cannot wrap: it is only evaluated when [first <= pageCount]. *)
Definition CheckRange (first count pageCount : Z) : result Error unit :=
  if (pageCount <? first) || (u64 (pageCount - first) <? count) then
    Err (BadRequestError (RangeBeyond first (u64 (first + count)) pageCount))
  else Ok tt.

(** [make([][]byte, count)] panics when the slice cannot be allocated: on a 64-bit platform an
    allocation has at most 2^48 bytes, and the header of a slice takes 24 ([runtime.makeslice]). *)
Definition maxAlloc : Z := 281474976710656.
Definition sliceHeaderBytes : Z := 24.

Definition makeable (count : Z) : bool := sliceHeaderBytes * count <=? maxAlloc.

Definition make_blocks (count : Z) : result Error unit :=
  if makeable count then Ok tt else Err (GoPanic "makeslice: len out of range").

(** ** The interface

    Every operation takes the state of the store and returns the new state with its answer.
    [Open] takes the random bytes of the lease ID it may grant.  [DeleteUnused] takes the order in
    which the store enumerates its databases: a Go map is ranged over in any order, and
    PostgreSQL returns rows with equal sort keys in any order. *)

Class StoreAPI (S : Type) := {
  st_Open : bytes -> OpenRequest -> S -> S * result Error OpenResult;
  st_Fetch : Key -> Z -> Z -> Z -> S -> result Error (list bytes);
  st_Commit : CommitRequest -> S -> S * result Error Z;
  st_Changes : Key -> Z -> S -> result Error ChangeSet;
  st_Renew : Key -> Z -> Time -> Duration -> S -> S * result Error unit;
  st_Release : Key -> Z -> S -> S * result Error unit;
  st_Delete : DeleteRequest -> S -> S * result Error DeleteResult;
  st_DeleteUnused : list Key -> Time -> Z -> S -> S * (list Key * option Error);
  st_GetSlot : string -> S -> result Error (option Slot);
  st_ClaimSlot : ClaimRequest -> S -> S * result Error ClaimResult;
  st_SetSlotLabel : string -> string -> string -> S -> S * result Error Slot;
  st_DeleteSlot : string -> string -> S -> S * result Error (list Key);
  (** The databases the store has a record of; the enumeration order is an order of these. *)
  st_keys : S -> gset Key }.

(** ** Well-formed requests *)

Definition wf_block (b : Block) : Prop := in_u64 (Index b).

Definition wf_commit (req : CommitRequest) : Prop :=
  in_u64 (cr_LeaseEpoch req) /\ in_u64 (cr_BaseVersion req) /\ in_u64 (cr_PageCount req) /\
  Forall wf_block (cr_Blocks req).
