(* ===== verification/StoreFacts.v ===== *)
(** * Facts about the checks the stores share

    [ValidPageSize], [ValidateCommit] and [CheckRange] of [src/internal/store/store.go] decide
    exactly what their comments say. *)

From S2P Require Import Prelude Store.

Local Open Scope Z_scope.

(** ** Page sizes *)

Lemma ValidPageSize_range size :
  ValidPageSize size = true -> MinPageSize <= size <= MaxPageSize.
Proof. unfold ValidPageSize. intros. bool_hyps. lia. Qed.

(** A positive number shares its top bit with its predecessor unless it is a power of two. *)
Lemma land_pred_pow2 x : 0 < x -> Z.land x (x - 1) = 0 <-> x = 2 ^ Z.log2 x.
Proof.
  intros Hx. pose proof (Z.log2_spec x Hx) as [Hlo Hhi].
  pose proof (Z.log2_nonneg x) as Hk. split.
  - intros Hland. destruct (Z.eq_dec x (2 ^ Z.log2 x)) as [|Hne]; [done|exfalso].
    assert (Z.log2 (x - 1) = Z.log2 x) as Hlog by (apply Z.log2_unique; lia).
    assert (0 < x - 1) as Hx1.
    { assert (0 < 2 ^ Z.log2 x) by (by apply Z.pow_pos_nonneg). lia. }
    assert (Z.testbit (Z.land x (x - 1)) (Z.log2 x) = true) as Hbit.
    { rewrite Z.land_spec, Z.bit_log2 by lia. rewrite <- Hlog at 1.
      by rewrite Z.bit_log2 by lia. }
    rewrite Hland, Z.bits_0 in Hbit. done.
  - intros Heq. rewrite Heq at 1 2. rewrite Z.sub_1_r, <- Z.ones_equiv.
    rewrite Z.land_ones by lia. by apply Z.mod_same, Z.pow_nonzero.
Qed.

Lemma ValidPageSize_pow2 size :
  ValidPageSize size = true <-> exists k, 9 <= k <= 16 /\ size = 2 ^ k.
Proof.
  split.
  - intros Hv. pose proof (ValidPageSize_range _ Hv) as Hr.
    unfold ValidPageSize, MinPageSize, MaxPageSize, u32 in *. bool_hyps.
    rewrite Z.mod_small in * by zlia.
    assert (size = 2 ^ Z.log2 size) as Heq by (apply land_pred_pow2; lia).
    exists (Z.log2 size). split; [|done]. split.
    + apply Z.log2_le_pow2; lia.
    + destruct Hr as [_ Hhi]. apply Z.log2_le_mono in Hhi. by change (Z.log2 65536) with 16 in Hhi.
  - intros (k & Hk & ->).
    assert (k = 9 \/ k = 10 \/ k = 11 \/ k = 12 \/ k = 13 \/ k = 14 \/ k = 15 \/ k = 16)
      as Hc by lia.
    by destruct_or! Hc; subst k.
Qed.

Lemma ValidPageSize_pos size : ValidPageSize size = true -> 512 <= size <= 65536.
Proof. apply ValidPageSize_range. Qed.

#[export] Hint Resolve ValidPageSize_pos : go.

(** ** Commits *)

Definition block_ok (pageSize pageCount : Z) (b : Block) : Prop :=
  zlen (Data b) = pageSize /\ Index b < pageCount.

Lemma validate_blocks_ok ps pc seen bl :
  validate_blocks ps pc seen bl = Ok tt <->
  Forall (block_ok ps pc) bl /\ NoDup (Index <$> bl) /\ Forall (fun b => Index b ∉ seen) bl.
Proof.
  revert seen. induction bl as [|b bl IH]; intros seen; simpl.
  { split; [|done]. repeat split; constructor. }
  rewrite !Forall_cons, NoDup_cons. unfold block_ok at 1.
  destruct (zlen (Data b) =? ps) eqn:E1; simpl; bool_hyps; [|naive_solver].
  destruct (pc <=? Index b) eqn:E2; bool_hyps; [naive_solver lia|].
  case_bool_decide as E3; [naive_solver|].
  rewrite IH, !Forall_forall. setoid_rewrite list_elem_of_fmap.
  split.
  - intros (Hok & Hnd & Hseen). split_and!; [done..| |done|done|].
    + intros (y & Heq & Hy). apply (Hseen y Hy). set_solver.
    + intros x Hx. specialize (Hseen x Hx). set_solver.
  - intros ((_ & Hok) & (Hin & Hnd) & (_ & Hseen)). split_and!; [done..|].
    intros x Hx. rewrite elem_of_union, elem_of_singleton. intros [Heq|Hs].
    + apply Hin. by exists x.
    + by apply (Hseen x Hx).
Qed.

(** The commits that pass: a commit ID, and blocks of the page size, below the page count, each
    index once. *)
Definition commit_ok (pageSize : Z) (req : CommitRequest) : Prop :=
  slice_len (cr_CommitID req) <> 0 /\
  Forall (block_ok pageSize (cr_PageCount req)) (cr_Blocks req) /\
  NoDup (Index <$> cr_Blocks req).

Lemma ValidateCommit_ok ps req : ValidateCommit ps req = Ok tt <-> commit_ok ps req.
Proof.
  unfold ValidateCommit, commit_ok.
  destruct (slice_len (cr_CommitID req) =? 0) eqn:E; bool_hyps; [naive_solver|].
  rewrite validate_blocks_ok. split; [naive_solver|].
  intros (? & ? & ?). split_and!; [done..|]. apply Forall_forall. set_solver.
Qed.

Lemma ValidateCommit_err ps req e :
  ValidateCommit ps req = Err e -> exists r, e = BadRequestError r.
Proof.
  unfold ValidateCommit. case_match; [naive_solver|].
  generalize (∅ : gset Z). induction (cr_Blocks req) as [|b bl IH]; simpl; intros seen Hv.
  { done. }
  repeat case_match; naive_solver.
Qed.

(** ** Ranges *)

Lemma CheckRange_ok first count pageCount :
  in_u64 first -> in_u64 count -> in_u64 pageCount ->
  CheckRange first count pageCount = Ok tt <-> first + count <= pageCount.
Proof.
  intros Hf Hc Hp. unfold CheckRange.
  destruct ((pageCount <? first) || (u64 (pageCount - first) <? count)) eqn:E.
  - split; [done|]. intros Hle. exfalso.
    rewrite u64_small in E by zlia.
    apply orb_true_iff in E as [E|E]; bool_hyps; zlia.
  - bool_hyps. rewrite u64_small in * by zlia. split; [lia|done].
Qed.

Lemma CheckRange_unit first count pageCount u :
  CheckRange first count pageCount = Ok u -> CheckRange first count pageCount = Ok tt.
Proof. by destruct u. Qed.

(** ** Blocks as a map *)

Lemma foldl_insert_lookup (bl : list Block) (m : gmap Z bytes) i :
  NoDup (Index <$> bl) ->
  foldl (fun m b => <[Index b := Data b]> m) m bl !! i =
  match list_find (fun b => Index b = i) bl with
  | Some (_, b) => Some (Data b)
  | None => m !! i
  end.
Proof.
  revert m. induction bl as [|b bl IH]; intros m Hnd; simpl; [done|].
  apply NoDup_cons in Hnd as [Hni Hnd]. rewrite IH by done.
  destruct (decide (Index b = i)) as [<-|Hne]; simpl.
  - destruct (list_find (fun b' => Index b' = Index b) bl) as [[j b']|] eqn:E; simpl.
    + apply list_find_Some in E as (Hj & Heq & _). exfalso. apply Hni. rewrite <- Heq.
      apply list_elem_of_fmap_2. by eapply list_elem_of_lookup_2.
    + by rewrite lookup_insert_eq.
  - destruct (list_find (fun b' => Index b' = i) bl) as [[j b']|]; simpl; [done|].
    by rewrite lookup_insert_ne.
Qed.

Lemma list_find_block (bl : list Block) b :
  NoDup (Index <$> bl) -> b ∈ bl ->
  exists j, list_find (fun b' => Index b' = Index b) bl = Some (j, b).
Proof.
  intros Hnd Hin. apply list_elem_of_lookup in Hin as [j Hj]. exists j.
  apply list_find_Some. split_and!; [done..|]. intros j' b' Hj' Hlt Heq.
  assert (j' = j) as ->; [|lia].
  eapply NoDup_lookup; [done| |]; rewrite list_lookup_fmap; [by rewrite Hj'|].
  rewrite Hj. simpl. by f_equal.
Qed.
