(* ===== verification/Memory.v ===== *)
(** * The memory store: [src/internal/store/memory/memory.go]

    The state is the two Go maps of [Store]; every method holds the mutex for its whole body, so
    it is one function on the state.  A [*database] is only reachable through the map, so an update
    through the pointer is an update of the map entry ([put]).  [Go maps] are [gmap]s. *)

From S2P Require Import Prelude Store.

Local Open Scope Z_scope.

(** ** State *)

Record change := mkChange { version : Z; blocks_of : list Z }.

Record database := mkDatabase {
  deleted : bool;
  state : State;
  blocks : gmap Z bytes;
  changes : list change;
  lease : Lease;
  holder : slice;
  grantedAt : Time;
  expiresAt : Time }.

Record MemStore := mkStore {
  dbs : gmap Key database;
  slots : gmap string Slot }.

Definition New : MemStore := mkStore ∅ ∅.

(** Assignments to fields of a [*database]. *)
Definition set_expires (t : Time) (db : database) : database :=
  mkDatabase (deleted db) (state db) (blocks db) (changes db) (lease db) (holder db)
    (grantedAt db) t.

Definition set_holder (h : slice) (db : database) : database :=
  mkDatabase (deleted db) (state db) (blocks db) (changes db) (lease db) h
    (grantedAt db) (expiresAt db).

Definition put (k : Key) (db : database) (s : MemStore) : MemStore :=
  mkStore (<[k := db]> (dbs s)) (slots s).

Definition put_slot (owner : string) (slot : Slot) (s : MemStore) : MemStore :=
  mkStore (dbs s) (<[owner := slot]> (slots s)).

(** [db.holder != nil && now.Before(db.expiresAt)] *)
Definition active (now : Time) (db : database) : bool :=
  bool_decide (is_Some (holder db)) && time_Before now (expiresAt db).

(** [db.holder == nil || db.lease.Epoch != epoch], the fencing test. *)
Definition fenced (epoch : Z) (db : database) : bool :=
  bool_decide (holder db = None) || negb (Epoch (lease db) =? epoch).

Definition cloneLease (l : Lease) : Lease := mkLease (bytes_Clone (ID l)) (Epoch l).

Definition cloneState (st : State) : State :=
  mkState (PageSize st) (PageCount st) (Version st) (bytes_Clone (LastCommitID st)).

(** ** Open *)

(** The first [switch] of [Open], for a deleted database: it is created anew, empty. *)
Definition revive (req : OpenRequest) (db : database) : result Error database :=
  match or_Resume req with
  | Some _ => Err ErrFenced
  | None =>
      if negb (or_Create req) then Err ErrNotFound
      else if negb (ValidPageSize (or_PageSize req)) then
        Err (BadRequestError (InvalidPageSize (or_PageSize req)))
      else
        Ok (mkDatabase false
              (mkState (or_PageSize req) (PageCount (state db)) (Version (state db))
                 (LastCommitID (state db)))
              (blocks db) (changes db) (lease db) (holder db) (grantedAt db) (expiresAt db))
  end.

Definition new_database (pageSize : Z) : database :=
  mkDatabase false (mkState pageSize 0 0 None) ∅ [] (mkLease None 0) None 0 0.

(** The rest of [Open]: resume the lease, or grant a new one. *)
Definition open_lease (newID : bytes) (req : OpenRequest) (db : database) (s : MemStore) :
    MemStore * result Error OpenResult :=
  let k := or_Key req in
  match or_Resume req with
  | Some r =>
      if fenced (LeaseEpoch r) db || negb (bytes_Equal (ID (lease db)) (LeaseID r)) then
        (s, Err ErrFenced)
      else
        let db := set_expires (time_Add (or_Now req) (or_TTL req)) db in
        (put k db s, Ok (mkOpenResult (cloneLease (lease db)) (cloneState (state db)) false))
  | None =>
      let act := active (or_Now req) db in
      if act && negb (or_Takeover req) && negb (bytes_Equal (holder db) (or_InstanceID req)) then
        (s, Err (LeaseHeldError (grantedAt db)))
      else
        let db := mkDatabase (deleted db) (state db) (blocks db) (changes db)
                    (mkLease (Some newID) (u64 (Epoch (lease db) + 1)))
                    (bytes_Clone (or_InstanceID req)) (or_Now req)
                    (time_Add (or_Now req) (or_TTL req)) in
        (put k db s, Ok (mkOpenResult (cloneLease (lease db)) (cloneState (state db)) act))
  end.

(** Another key holds the slot of the request's owner. *)
Definition slot_taken (req : OpenRequest) (s : MemStore) : bool :=
  match slots s !! or_Owner req with
  | Some slot => negb (bool_decide (or_Owner req = EmptyString)) &&
                 negb (bool_decide (slot_Subject slot = Subject (or_Key req)))
  | None => false
  end.

Definition Open (newID : bytes) (req : OpenRequest) (s : MemStore) :
    MemStore * result Error OpenResult :=
  let k := or_Key req in
  if slot_taken req s then (s, Err ErrSlotTaken)
  else match dbs s !! k with
  | Some db =>
      match (if deleted db then revive req db else Ok db) with
      | Err e => (s, Err e)
      | Ok db =>
          let s := put k db s in
          if negb (or_PageSize req =? 0) && negb (or_PageSize req =? PageSize (state db)) then
            (s, Err (BadRequestError (PageSizeMismatch (or_PageSize req) (PageSize (state db)))))
          else open_lease newID req db s
      end
  | None =>
      if negb (or_Create req) || bool_decide (is_Some (or_Resume req)) then (s, Err ErrNotFound)
      else if negb (ValidPageSize (or_PageSize req)) then
        (s, Err (BadRequestError (InvalidPageSize (or_PageSize req))))
      else
        let db := new_database (or_PageSize req) in
        open_lease newID req db (put k db s)
  end.

(** ** Fetch *)

(** The bytes of one block: a block that was never written reads as zeros. *)
Definition read_block (db : database) (i : Z) : bytes :=
  match blocks db !! i with
  | Some data => data
  | None => zeros (PageSize (state db))
  end.

Definition Fetch (k : Key) (ver first count : Z) (s : MemStore) : result Error (list bytes) :=
  match dbs s !! k with
  | None => Err ErrNotFound
  | Some db =>
      if deleted db then Err ErrNotFound
      else if negb (ver =? Version (state db)) then Err (VersionConflictError (Version (state db)))
      else
        _ ← CheckRange first count (PageCount (state db));
        _ ← make_blocks count;
        Ok ((fun i => read_block db (u64 (first + i))) <$> seqZ 0 count)
  end.

(** ** Commit *)

(** [slices.Sort] on [uint64]s. *)
Definition sort_indexes (l : list Z) : list Z := merge_sort Z.le l.

(** [append] to the change log, then keep the last [ChangeWindow] entries. *)
Definition log_change (c : change) (log : list change) : list change :=
  let log := log ++ [c] in
  if ChangeWindow <? zlen log then drop (Z.to_nat (zlen log - ChangeWindow)) log else log.

Definition apply_commit (req : CommitRequest) (db : database) : database :=
  let written := foldl (fun m b => <[Index b := Data b]> m) (blocks db) (cr_Blocks req) in
  let kept := filter (fun e => e.1 < cr_PageCount req) written in
  let st := mkState (PageSize (state db)) (cr_PageCount req) (u64 (Version (state db) + 1))
              (bytes_Clone (cr_CommitID req)) in
  let touched := sort_indexes (Index <$> cr_Blocks req) in
  mkDatabase (deleted db) st kept (log_change (mkChange (Version st) touched) (changes db))
    (lease db) (holder db) (grantedAt db) (time_Add (cr_Now req) (cr_TTL req)).

(** The request repeats the last commit. *)
Definition repeated (req : CommitRequest) (st : State) : bool :=
  (Version st =? u64 (cr_BaseVersion req + 1)) && (0 <? slice_len (cr_CommitID req)) &&
  bytes_Equal (LastCommitID st) (cr_CommitID req).

Definition Commit (req : CommitRequest) (s : MemStore) : MemStore * result Error Z :=
  let k := cr_Key req in
  match dbs s !! k with
  | None => (s, Err ErrNotFound)
  | Some db =>
      if fenced (cr_LeaseEpoch req) db then (s, Err ErrFenced)
      else if repeated req (state db) then
        (put k (set_expires (time_Add (cr_Now req) (cr_TTL req)) db) s, Ok (Version (state db)))
      else if negb (Version (state db) =? cr_BaseVersion req) then
        (s, Err (VersionConflictError (Version (state db))))
      else match ValidateCommit (PageSize (state db)) req with
      | Err e => (s, Err e)
      | Ok _ =>
          let db := apply_commit req db in
          (put k db s, Ok (Version (state db)))
      end
  end.

(** ** Changes *)

(** The indexes that the entries after [from] changed, sorted and without duplicates. *)
Definition changed_since (from : Z) (log : list change) : list Z :=
  let seen : gset Z :=
    foldl (fun acc c => if version c <=? from then acc
                        else foldl (fun a i => {[i]} ∪ a) acc (blocks_of c)) ∅ log in
  sort_indexes (elements seen).

Definition Changes (k : Key) (from : Z) (s : MemStore) : result Error ChangeSet :=
  match dbs s !! k with
  | None => Err ErrNotFound
  | Some db =>
      let current := Version (state db) in
      if deleted db then Err ErrNotFound
      else if current <? from then Err (BadRequestError (VersionAhead from current))
      else if from =? current then Ok (mkChangeSet from current [] true)
      else match changes db with
      | [] => Ok (mkChangeSet from current [] false)
      | oldest :: _ =>
          if u64 (from + 1) <? version oldest then Ok (mkChangeSet from current [] false)
          else Ok (mkChangeSet from current (changed_since from (changes db)) true)
      end
  end.

(** ** Renew and Release *)

Definition Renew (k : Key) (epoch : Z) (now : Time) (ttl : Duration) (s : MemStore) :
    MemStore * result Error unit :=
  match dbs s !! k with
  | None => (s, Err ErrNotFound)
  | Some db =>
      if fenced epoch db then (s, Err ErrFenced)
      else (put k (set_expires (time_Add now ttl) db) s, Ok tt)
  end.

Definition Release (k : Key) (epoch : Z) (s : MemStore) : MemStore * result Error unit :=
  match dbs s !! k with
  | None => (s, Err ErrNotFound)
  | Some db =>
      if fenced epoch db then (s, Err ErrFenced)
      else (put k (set_holder None db) s, Ok tt)
  end.

(** ** Delete *)

Definition remove (db : database) : database :=
  mkDatabase true (mkState (PageSize (state db)) 0 (u64 (Version (state db) + 1)) None) ∅ []
    (mkLease None (u64 (Epoch (lease db) + 1))) None (grantedAt db) (expiresAt db).

Definition Delete (req : DeleteRequest) (s : MemStore) : MemStore * result Error DeleteResult :=
  let k := dr_Key req in
  match dbs s !! k with
  | None => (s, Ok (mkDeleteResult 0 false))
  | Some db =>
      if deleted db then (s, Ok (mkDeleteResult 0 false))
      else
        let act := active (dr_Now req) db in
        if act && negb (dr_Takeover req) then (s, Err (LeaseHeldError (grantedAt db)))
        else
          let db := remove db in
          (put k db s, Ok (mkDeleteResult (Epoch (lease db)) act))
  end.

(** ** DeleteUnused *)

(** The subjects that hold a slot. *)
Definition slotHolders (s : MemStore) : gset string :=
  list_to_set ((fun e => slot_Subject e.2) <$> map_to_list (slots s)).

Definition hasDatabases (subject : string) (s : MemStore) : bool :=
  existsb (fun e => bool_decide (Subject e.1 = subject) && negb (deleted e.2))
    (map_to_list (dbs s)).

Definition is_unused (cutoff : Time) (s : MemStore) (k : Key) : bool :=
  match dbs s !! k with
  | Some db => negb (deleted db) && time_Before (expiresAt db) cutoff
  | None => false
  end.

(** [expiresAt] of an enumerated key; every key that is compared is in the map. *)
Definition expiry (s : MemStore) (k : Key) : Time :=
  match dbs s !! k with Some db => expiresAt db | None => 0 end.

Definition older (s : MemStore) (a b : Key) : Prop := expiry s a <= expiry s b.

#[export] Instance older_decision s a b : Decision (older s a b) :=
  Z_le_dec (expiry s a) (expiry s b).

(** The unused databases in the order [order] of the map, sorted by expiry and cut at [limit]. *)
Definition select_unused (order : list Key) (cutoff : Time) (limit : Z) (s : MemStore) :
    list Key :=
  let unused := merge_sort (older s) (filter (fun k => is_unused cutoff s k = true) order) in
  if limit <? zlen unused then take (Z.to_nat limit) unused else unused.

Definition delete_one (holders : gset string) (s : MemStore) (k : Key) : MemStore :=
  if bool_decide (Subject k ∈ holders) then mkStore (delete k (dbs s)) (slots s)
  else mkStore (alter remove k (dbs s)) (slots s).

(** Releases the slots claimed before [cutoff] whose key has no databases left. *)
Definition release_slots (cutoff : Time) (s : MemStore) : MemStore :=
  mkStore (dbs s)
    (filter (fun e => negb (time_Before (slot_ClaimedAt e.2) cutoff &&
                            negb (hasDatabases (slot_Subject e.2) s)) = true) (slots s)).

Definition DeleteUnused (order : list Key) (cutoff : Time) (limit : Z) (s : MemStore) :
    MemStore * (list Key * option Error) :=
  let unused := select_unused order cutoff limit s in
  let holders := slotHolders s in
  let s := foldl (delete_one holders) s unused in
  (release_slots cutoff s, (unused, None)).

(** ** Slots *)

Definition GetSlot (owner : string) (s : MemStore) : result Error (option Slot) := Ok (slots s !! owner).

(** [strings.Compare] on the database IDs, as the order of [SortFunc]. *)
Definition by_dbid (a b : Key) : Prop := String.leb (DBID a) (DBID b) = true.

#[export] Instance by_dbid_decision a b : Decision (by_dbid a b) :=
  decide (String.leb (DBID a) (DBID b) = true).

(** [purge]: the map without the databases of [subject], and the keys that were not deleted. *)
Definition purge (subject : string) (s : MemStore) : MemStore * list Key :=
  let gone := filter (fun e => Subject e.1 = subject) (map_to_list (dbs s)) in
  let live := filter (fun e => deleted e.2 = false) gone in
  (mkStore (filter (fun e => Subject e.1 <> subject) (dbs s)) (slots s),
   merge_sort by_dbid live.*1).

Definition ClaimSlot (req : ClaimRequest) (s : MemStore) : MemStore * result Error ClaimResult :=
  let slot := mkSlot (cl_Subject req) EmptyString (cl_Now req) in
  match slots s !! cl_Owner req with
  | Some old =>
      if bool_decide (slot_Subject old = cl_Subject req) then (s, Ok (mkClaimResult old None []))
      else
        let '(s, gone) := purge (slot_Subject old) s in
        (put_slot (cl_Owner req) slot s, Ok (mkClaimResult slot (Some old) gone))
  | None => (put_slot (cl_Owner req) slot s, Ok (mkClaimResult slot None []))
  end.

Definition SetSlotLabel (owner subject label : string) (s : MemStore) :
    MemStore * result Error Slot :=
  match slots s !! owner with
  | None => (s, Err ErrNotFound)
  | Some slot =>
      if negb (bool_decide (slot_Subject slot = subject)) then (s, Err ErrSlotTaken)
      else
        let slot := mkSlot (slot_Subject slot) label (slot_ClaimedAt slot) in
        (put_slot owner slot s, Ok slot)
  end.

Definition DeleteSlot (owner subject : string) (s : MemStore) :
    MemStore * result Error (list Key) :=
  match slots s !! owner with
  | Some slot =>
      if negb (bool_decide (slot_Subject slot = subject)) then (s, Err ErrSlotTaken)
      else
        let '(s, gone) := purge subject (mkStore (dbs s) (delete owner (slots s))) in
        (s, Ok gone)
  | None => let '(s, gone) := purge subject s in (s, Ok gone)
  end.

(** The memory store implements the interface. *)
#[export] Instance MemStore_api : StoreAPI MemStore := {
  st_Open := Open; st_Fetch := Fetch; st_Commit := Commit; st_Changes := Changes;
  st_Renew := Renew; st_Release := Release; st_Delete := Delete;
  st_DeleteUnused := DeleteUnused; st_GetSlot := GetSlot; st_ClaimSlot := ClaimSlot;
  st_SetSlotLabel := SetSlotLabel; st_DeleteSlot := DeleteSlot;
  st_keys := fun s => dom (dbs s) }.
