(* ===== verification/Trace.v ===== *)
(** * Sequences of store operations

    The stores serialise their operations (a mutex in memory, row locks in PostgreSQL, as
    [PgConcurrent.v] shows), so a concurrent execution is a sequence of calls.  [op] is one call with its arguments, [answer]
    what it returned, [run] a sequence of calls.  Everything is generic in the store. *)

From S2P Require Import Prelude Store.

Local Open Scope Z_scope.

Inductive op :=
| OpOpen (newID : bytes) (req : OpenRequest)
| OpFetch (k : Key) (ver first count : Z)
| OpCommit (req : CommitRequest)
| OpChanges (k : Key) (from : Z)
| OpRenew (k : Key) (epoch : Z) (now : Time) (ttl : Duration)
| OpRelease (k : Key) (epoch : Z)
| OpDelete (req : DeleteRequest)
| OpDeleteUnused (order : list Key) (cutoff : Time) (limit : Z)
| OpGetSlot (owner : string)
| OpClaimSlot (req : ClaimRequest)
| OpSetSlotLabel (owner subject label : string)
| OpDeleteSlot (owner subject : string).

Inductive answer :=
| AOpen (r : result Error OpenResult)
| AFetch (r : result Error (list bytes))
| ACommit (r : result Error Z)
| AChanges (r : result Error ChangeSet)
| ARenew (r : result Error unit)
| ARelease (r : result Error unit)
| ADelete (r : result Error DeleteResult)
| ADeleteUnused (r : list Key * option Error)
| AGetSlot (r : result Error (option Slot))
| AClaimSlot (r : result Error ClaimResult)
| ASetSlotLabel (r : result Error Slot)
| ADeleteSlot (r : result Error (list Key)).

Section trace.
Context {S : Type} `{StoreAPI S}.

Definition step (o : op) (s : S) : S * answer :=
  match o with
  | OpOpen newID req => let '(s', r) := st_Open newID req s in (s', AOpen r)
  | OpFetch k v f c => (s, AFetch (st_Fetch k v f c s))
  | OpCommit req => let '(s', r) := st_Commit req s in (s', ACommit r)
  | OpChanges k v => (s, AChanges (st_Changes k v s))
  | OpRenew k e now ttl => let '(s', r) := st_Renew k e now ttl s in (s', ARenew r)
  | OpRelease k e => let '(s', r) := st_Release k e s in (s', ARelease r)
  | OpDelete req => let '(s', r) := st_Delete req s in (s', ADelete r)
  | OpDeleteUnused ord t n => let '(s', r) := st_DeleteUnused ord t n s in (s', ADeleteUnused r)
  | OpGetSlot owner => (s, AGetSlot (st_GetSlot owner s))
  | OpClaimSlot req => let '(s', r) := st_ClaimSlot req s in (s', AClaimSlot r)
  | OpSetSlotLabel o sub l =>
      let '(s', r) := st_SetSlotLabel o sub l s in (s', ASetSlotLabel r)
  | OpDeleteSlot o sub => let '(s', r) := st_DeleteSlot o sub s in (s', ADeleteSlot r)
  end.

(** The strings of a call. *)
Definition op_texts (o : op) : list string :=
  match o with
  | OpOpen _ req => [or_Owner req; Subject (or_Key req); DBID (or_Key req)]
  | OpFetch k _ _ _ | OpChanges k _ | OpRenew k _ _ _ | OpRelease k _ => [Subject k; DBID k]
  | OpCommit req => [Subject (cr_Key req); DBID (cr_Key req)]
  | OpDelete req => [Subject (dr_Key req); DBID (dr_Key req)]
  | OpDeleteUnused _ _ _ => []
  | OpGetSlot owner => [owner]
  | OpClaimSlot req => [cl_Owner req; cl_Subject req]
  | OpSetSlotLabel owner subject label => [owner; subject; label]
  | OpDeleteSlot owner subject => [owner; subject]
  end.

(** The arguments a call can have: unsigned 64-bit numbers, and for [DeleteUnused] an order of
    the databases the store has. *)
Definition legal (o : op) (s : S) : Prop :=
  match o with
  | OpCommit req => wf_commit req
  | OpFetch _ v f c => in_u64 v /\ in_u64 f /\ in_u64 c
  | OpChanges _ v => in_u64 v
  | OpRenew _ e _ _ => in_u64 e
  | OpRelease _ e => in_u64 e
  | OpOpen _ req =>
      in_u32 (or_PageSize req) /\
      match or_Resume req with Some r => in_u64 (LeaseEpoch r) | None => True end
  | OpDeleteUnused ord _ n => NoDup ord /\ list_to_set ord = st_keys s /\ 0 <= n < two31
  | _ => True
  end.

(** [steps ops s answers s']: the legal calls [ops] lead from [s] to [s'] and are answered by
    [answers]. *)
Inductive steps : list op -> S -> list answer -> S -> Prop :=
| steps_nil s : steps [] s [] s
| steps_cons o ops s a s1 answers s2 :
    legal o s -> step o s = (s1, a) -> steps ops s1 answers s2 ->
    steps (o :: ops) s (a :: answers) s2.

(** As [steps], with a property that holds of every state on the way, ends included. *)
Inductive steps_while (P : S -> Prop) : list op -> S -> S -> Prop :=
| while_nil s : P s -> steps_while P [] s s
| while_cons o ops s s1 s2 a :
    P s -> legal o s -> step o s = (s1, a) -> steps_while P ops s1 s2 ->
    steps_while P (o :: ops) s s2.

Fixpoint run (ops : list op) (s : S) : S * list answer :=
  match ops with
  | [] => (s, [])
  | o :: ops =>
      let '(s1, a) := step o s in
      let '(s2, answers) := run ops s1 in
      (s2, a :: answers)
  end.

Lemma steps_run ops s answers s' : steps ops s answers s' -> run ops s = (s', answers).
Proof.
  induction 1 as [|o ops s a s1 answers s2 _ Hs _ IH]; simpl; [done|].
  by rewrite Hs, IH.
Qed.

Lemma steps_app ops1 ops2 s a1 s1 a2 s2 :
  steps ops1 s a1 s1 -> steps ops2 s1 a2 s2 -> steps (ops1 ++ ops2) s (a1 ++ a2) s2.
Proof. induction 1; intros; simpl; [done|]. econstructor; eauto. Qed.

Lemma run_app ops1 ops2 s : (run (ops1 ++ ops2) s).1 = (run ops2 (run ops1 s).1).1.
Proof.
  revert s. induction ops1 as [|o ops1 IH]; intros s; simpl; [done|].
  destruct (step o s) as [s1 a]. specialize (IH s1).
  destruct (run (ops1 ++ ops2) s1), (run ops1 s1). done.
Qed.

Lemma while_here P ops s s' : steps_while P ops s s' -> P s /\ P s'.
Proof. induction 1; naive_solver. Qed.

Lemma while_mono (P Q : S -> Prop) ops s s' :
  (forall s, P s -> Q s) -> steps_while P ops s s' -> steps_while Q ops s s'.
Proof. intros HPQ. induction 1; econstructor; eauto. Qed.

Lemma while_steps P ops s s' :
  steps_while P ops s s' -> exists answers, steps ops s answers s'.
Proof.
  induction 1 as [|o ops s s1 s2 a _ Hl Hs _ [answers IH]]; eexists; by econstructor.
Qed.

(** An invariant indexed by the number of steps. *)
Lemma steps_invariant (I : Z -> S -> Prop) (bound : Z) :
  (forall n o s s' a, n < bound -> I n s -> legal o s -> step o s = (s', a) -> I (n + 1) s') ->
  forall ops s answers s' n,
    steps ops s answers s' -> n + zlen ops <= bound -> I n s -> I (n + zlen ops) s'.
Proof.
  intros Hstep ops s answers s' n Hs. revert n.
  induction Hs as [s|o ops s a s1 answers s2 Hl Hs _ IH]; intros n Hb HI.
  - by rewrite Z.add_0_r.
  - unfold zlen in *; simpl in *.
    replace (n + Z.of_nat (Datatypes.S (length ops)))
      with ((n + 1) + Z.of_nat (length ops)) by lia.
    apply IH; [lia|]. eapply Hstep; [|done..]. lia.
Qed.

(** ** Executions by evaluation *)

#[export] Instance legal_decision o s : Decision (legal o s).
Proof. destruct o as [? req| | | | | | | | | | |]; simpl; try destruct (or_Resume req); apply _. Defined.

Fixpoint legal_run (ops : list op) (s : S) : bool :=
  match ops with
  | [] => true
  | o :: ops => bool_decide (legal o s) && legal_run ops (step o s).1
  end.

Lemma run_check ops s : legal_run ops s = true -> steps ops s (run ops s).2 (run ops s).1.
Proof.
  revert s. induction ops as [|o ops IH]; intros s; simpl; [constructor|].
  intros [Hl Hr]%andb_true_iff. bool_hyps. specialize (IH _ Hr).
  destruct (step o s) as [s1 a] eqn:E. simpl in *.
  destruct (run ops s1) as [s2 answers]. by econstructor.
Qed.

Fixpoint while_run (P : S -> Prop) `{!forall s, Decision (P s)} (ops : list op) (s : S) : bool :=
  match ops with
  | [] => bool_decide (P s)
  | o :: ops => bool_decide (P s) && bool_decide (legal o s) && while_run P ops (step o s).1
  end.

Lemma while_check P `{!forall s, Decision (P s)} ops s :
  while_run P ops s = true -> steps_while P ops s (run ops s).1.
Proof.
  revert s. induction ops as [|o ops IH]; intros s; simpl.
  { intros. bool_hyps. by constructor. }
  intros [[Hp Hl]%andb_true_iff Hr]%andb_true_iff. bool_hyps. specialize (IH _ Hr).
  destruct (step o s) as [s1 a] eqn:E. simpl in *.
  destruct (run ops s1) as [s2 answers]. by econstructor.
Qed.
End trace.
