(* ===== verification/MemoryInv.v ===== *)
(** * The memory store's invariant

    [wf_store n s] holds of every state that at most [n] operations reach: numbers are in range
    and have not wrapped, blocks have the page size and lie below the page count, the change log
    lists consecutive versions up to the current one, and a deleted database is empty and has no
    holder.  Every operation preserves it, so it holds of every reachable state. *)

From S2P Require Import Prelude Store StoreFacts Memory Trace.

Local Open Scope Z_scope.

(** ** The invariant *)

(** The log holds the last versions up to [v], one entry each, oldest first. *)
Definition log_ok (v : Z) (log : list change) : Prop :=
  zlen log <= ChangeWindow /\ zlen log <= v /\
  forall j c, log !! j = Some c -> version c = v - (zlen log - 1 - Z.of_nat j).

Definition entry_ok (c : change) : Prop :=
  NoDup (blocks_of c) /\ Sorted Z.le (blocks_of c) /\ Forall in_u64 (blocks_of c).

Record wf_db (n : Z) (db : database) : Prop := {
  wf_epoch : 0 <= Epoch (lease db) <= n;
  wf_version : 0 <= Version (state db) <= n;
  wf_pagecount : in_u64 (PageCount (state db));
  wf_pagesize : ValidPageSize (PageSize (state db)) = true;
  wf_blocks : map_Forall (fun i d => 0 <= i < PageCount (state db) /\
                                     zlen d = PageSize (state db)) (blocks db);
  wf_log : log_ok (Version (state db)) (changes db);
  wf_entries : Forall entry_ok (changes db);
  wf_deleted : deleted db = true ->
    PageCount (state db) = 0 /\ blocks db = ∅ /\ changes db = [] /\
    LastCommitID (state db) = None /\ holder db = None /\ ID (lease db) = None }.

Definition wf_store (n : Z) (s : MemStore) : Prop := map_Forall (fun _ => wf_db n) (dbs s).

(** ** Structural lemmas *)

Lemma wf_db_mono n m db : n <= m -> wf_db n db -> wf_db m db.
Proof. intros Hle []. constructor; try done; lia. Qed.

Lemma wf_store_mono n m s : n <= m -> wf_store n s -> wf_store m s.
Proof. intros Hle Hs k db Hk. eapply wf_db_mono; [done|]. by eapply Hs. Qed.

Lemma wf_lookup n s k db : wf_store n s -> dbs s !! k = Some db -> wf_db n db.
Proof. intros Hs Hk. by eapply Hs. Qed.

Lemma wf_put n k db s : wf_store n s -> wf_db n db -> wf_store n (put k db s).
Proof. intros Hs Hdb. apply map_Forall_insert_2; done. Qed.

Lemma wf_slots n m sl : wf_store n (mkStore m sl) <-> map_Forall (fun _ => wf_db n) m.
Proof. done. Qed.

Lemma wf_submap n s m sl :
  wf_store n s -> (forall k db, m !! k = Some db -> dbs s !! k = Some db) ->
  wf_store n (mkStore m sl).
Proof. intros Hs Hsub k db Hk. eapply Hs, Hsub, Hk. Qed.

#[export] Hint Resolve wf_put wf_store_mono : go.

Lemma wf_new n : wf_store n New.
Proof. apply map_Forall_empty. Qed.

(** [put] on a key, seen through a lookup. *)
Lemma lookup_put k db s k' :
  dbs (put k db s) !! k' = if decide (k = k') then Some db else dbs s !! k'.
Proof. apply lookup_insert. Qed.

Lemma put_same k db s : dbs s !! k = Some db -> put k db s = s.
Proof. intros Hk. destruct s. unfold put. simpl in *. by rewrite insert_id. Qed.

Lemma put_put k db db' s : put k db' (put k db s) = put k db' s.
Proof. unfold put. simpl. by rewrite insert_insert_eq. Qed.

(** Fields a lease update leaves alone. *)
Lemma wf_set_expires n t db : wf_db n db -> wf_db n (set_expires t db).
Proof. by intros []. Qed.

Lemma wf_set_holder_None n db : wf_db n db -> wf_db n (set_holder None db).
Proof. intros []. constructor; try done. naive_solver. Qed.

Lemma wf_new_database n ps : 0 <= n -> ValidPageSize ps = true -> wf_db n (new_database ps).
Proof.
  intros Hn Hps. constructor; simpl; try done; try zlia.
  all: split_and!; done.
Qed.

#[export] Hint Resolve wf_set_expires wf_set_holder_None wf_new_database : go.

(** ** The change log *)

Lemma log_ok_nil v : 0 <= v -> log_ok v [].
Proof. intros. split_and!; [done|done|]. intros j c Hj. by rewrite lookup_nil in Hj. Qed.

Lemma log_ok_snoc v log c :
  log_ok v log -> version c = v + 1 -> zlen log < ChangeWindow -> log_ok (v + 1) (log ++ [c]).
Proof.
  intros (Hw & Hv & Hj) Hc Hlt. unfold log_ok. rewrite zlen_app. change (zlen [c]) with 1.
  split_and!; [lia|lia|]. intros j c' Hl.
  apply lookup_app_Some in Hl as [Hl|[Hge Hl]].
  - apply Hj in Hl. lia.
  - apply list_lookup_singleton_Some in Hl as [Hz <-]. unfold zlen in *. lia.
Qed.

Lemma log_ok_drop1 v c log : log_ok v (c :: log) -> log_ok v log.
Proof.
  unfold log_ok, zlen. simpl. intros (Hw & Hv & Hj). split_and!; [lia|lia|].
  intros j c' Hl. specialize (Hj (S j) c' Hl). lia.
Qed.

Lemma log_ok_change v log c :
  log_ok v log -> version c = v + 1 -> log_ok (v + 1) (log_change c log).
Proof.
  intros Hok Hc. unfold log_change. rewrite zlen_app. change (zlen [c]) with 1.
  destruct (ChangeWindow <? zlen log + 1) eqn:E; bool_hyps; [|apply log_ok_snoc; [done..|lia]].
  pose proof Hok as (Hw & _ & _). unfold ChangeWindow in *.
  destruct log as [|c0 log]; [unfold zlen in E; simpl in E; lia|].
  replace (zlen (c0 :: log) + 1 - 1024) with 1 by lia. simpl.
  rewrite drop_0. apply log_ok_snoc; [by eapply log_ok_drop1|done|].
  unfold zlen, ChangeWindow in *. simpl in *. lia.
Qed.

Lemma Forall_log_change (P : change -> Prop) c log :
  P c -> Forall P log -> Forall P (log_change c log).
Proof.
  intros Hc Hl. assert (Forall P (log ++ [c])) by (apply Forall_app; auto).
  unfold log_change. case_match; [by apply Forall_drop|done].
Qed.

(** ** Commit *)

Lemma sort_indexes_perm l : sort_indexes l ≡ₚ l.
Proof. apply merge_sort_Permutation. Qed.

Lemma sort_indexes_sorted l : Sorted Z.le (sort_indexes l).
Proof. apply Sorted_merge_sort. intros x y. lia. Qed.

Lemma entry_ok_commit v req ps :
  wf_commit req -> commit_ok ps req ->
  entry_ok (mkChange v (sort_indexes (Index <$> cr_Blocks req))).
Proof.
  intros (_ & _ & Hpc & Hb) (_ & Hok & Hnd). split_and!; simpl.
  - by rewrite sort_indexes_perm.
  - apply sort_indexes_sorted.
  - rewrite sort_indexes_perm, Forall_fmap. done.
Qed.

Lemma written_blocks ps req (m : gmap Z bytes) (Q : Z -> bytes -> Prop) :
  commit_ok ps req -> map_Forall Q m ->
  Forall (fun b => Q (Index b) (Data b)) (cr_Blocks req) ->
  map_Forall Q (foldl (fun m b => <[Index b := Data b]> m) m (cr_Blocks req)).
Proof.
  intros (_ & _ & _) Hm. revert m Hm.
  induction (cr_Blocks req) as [|b bl IH]; intros m Hm Hq; simpl; [done|].
  apply Forall_cons in Hq as [Hb Hq]. apply IH; [|done]. by apply map_Forall_insert_2.
Qed.

Lemma wf_apply_commit n req db :
  n < two64 - 1 -> wf_commit req -> commit_ok (PageSize (state db)) req ->
  deleted db = false -> wf_db n db -> wf_db (n + 1) (apply_commit req db).
Proof.
  intros Hn Hreq Hok Hdel [He Hv Hpc Hps Hbl Hlog Hent _].
  assert (u64 (Version (state db) + 1) = Version (state db) + 1) as Hver by (apply u64_small; zlia).
  constructor; simpl; try done.
  - lia.
  - lia.
  - apply Hreq.
  - apply map_Forall_lookup. intros i d Hl.
    apply map_lookup_filter_Some in Hl as [Hl Hlt]. simpl in *.
    assert (0 <= i /\ zlen d = PageSize (state db)) as [? ?]; [|done].
    clear Hlt. revert i d Hl. apply map_Forall_lookup. eapply written_blocks; [done| |].
    + intros i d Hl. apply Hbl in Hl. lia.
    + destruct Hok as (_ & Hb & _). destruct Hreq as (_ & _ & _ & Hw).
      apply Forall_forall. intros b Hin. rewrite Forall_forall in Hb, Hw.
      specialize (Hb b Hin) as [? ?]. specialize (Hw b Hin). unfold wf_block in *. zlia.
  - rewrite Hver. by apply log_ok_change.
  - apply Forall_log_change; [|done]. by eapply entry_ok_commit.
  - congruence.
Qed.

(** A database with a holder is not deleted. *)
Lemma held_live n db : wf_db n db -> is_Some (holder db) -> deleted db = false.
Proof.
  intros [] [h Hh]. destruct (deleted db); [|done].
  destruct wf_deleted0 as (_ & _ & _ & _ & Hn & _); [done|]. congruence.
Qed.

Lemma not_fenced epoch db :
  fenced epoch db = false <-> is_Some (holder db) /\ Epoch (lease db) = epoch.
Proof.
  unfold fenced. rewrite orb_false_iff, negb_false_iff, Z.eqb_eq, bool_decide_eq_false.
  by rewrite <- not_eq_None_Some.
Qed.

Lemma not_fenced_live n epoch db :
  wf_db n db -> fenced epoch db = false -> deleted db = false.
Proof. intros Hwf [Hh _]%not_fenced. by eapply held_live. Qed.

Lemma wf_Commit n req s s' r :
  n < two64 - 1 -> wf_store n s -> wf_commit req -> Commit req s = (s', r) -> wf_store (n + 1) s'.
Proof.
  intros Hn Hs Hreq HC. assert (wf_store (n + 1) s) as Hs1 by (eapply wf_store_mono; [|done]; lia).
  unfold Commit in HC. destruct (dbs s !! cr_Key req) as [db|] eqn:Hk; [|by simplify_eq].
  pose proof (wf_lookup _ _ _ _ Hs Hk) as Hdb.
  destruct (fenced _ _) eqn:Hf; [by simplify_eq|].
  pose proof (not_fenced_live _ _ _ Hdb Hf) as Hlive.
  destruct (repeated _ _); simplify_eq.
  { apply wf_put; [done|]. apply wf_set_expires. eapply wf_db_mono; [|done]. lia. }
  destruct (negb _); [by simplify_eq|].
  destruct (ValidateCommit _ _) as [[]|] eqn:Hval; [|by simplify_eq].
  apply ValidateCommit_ok in Hval. simplify_eq. apply wf_put; [done|].
  by apply wf_apply_commit.
Qed.

(** ** Open *)

Lemma wf_revive n req db db' :
  wf_db n db -> deleted db = true -> revive req db = Ok db' ->
  wf_db n db' /\ deleted db' = false /\ PageSize (state db') = or_PageSize req /\
  or_Resume req = None /\ ValidPageSize (or_PageSize req) = true /\ or_Create req = true /\
  db' = mkDatabase false
          (mkState (or_PageSize req) 0 (Version (state db)) None) ∅ [] (lease db) None
          (grantedAt db) (expiresAt db).
Proof.
  intros [] Hd Hr. unfold revive in Hr. split_hyp Hr. bool_hyps.
  destruct wf_deleted0 as (Hpc & Hbl & Hch & Hlast & Hh & Hid); [done|].
  split; [|split_and!; try done; by rewrite Hpc, Hlast, Hbl, Hch, Hh].
  constructor; simpl; try done. by rewrite Hbl.
Qed.

(** The database an [Open] works on: the stored one, a revived one or a new one. *)
Inductive open_start (req : OpenRequest) (s : MemStore) : database -> Prop :=
| start_live db : dbs s !! or_Key req = Some db -> deleted db = false ->
    (or_PageSize req = 0 \/ or_PageSize req = PageSize (state db)) -> open_start req s db
| start_revived db db' : dbs s !! or_Key req = Some db -> deleted db = true ->
    revive req db = Ok db' -> open_start req s db'
| start_new : dbs s !! or_Key req = None -> or_Create req = true -> or_Resume req = None ->
    ValidPageSize (or_PageSize req) = true -> open_start req s (new_database (or_PageSize req)).

Lemma wf_open_start n req s db :
  0 <= n -> wf_store n s -> open_start req s db -> wf_db n db /\ deleted db = false.
Proof.
  intros Hn Hs [db' Hk Hd _|db0 db' Hk Hd Hr|Hk _ _ Hv].
  - split; [by eapply wf_lookup|done].
  - pose proof (wf_lookup _ _ _ _ Hs Hk) as Hw. eapply wf_revive in Hw; naive_solver.
  - split; [by apply wf_new_database|done].
Qed.

(** An [Open] fails without a change, or works on its start database. *)
Lemma Open_cases n newID req s :
  wf_store n s ->
  (exists e, Open newID req s = (s, Err e)) \/
  (slot_taken req s = false /\ exists db, open_start req s db /\
   Open newID req s = open_lease newID req db (put (or_Key req) db s)).
Proof.
  intros Hs. unfold Open. destruct (slot_taken req s); [by eauto|].
  destruct (dbs s !! or_Key req) as [db|] eqn:Hk.
  - pose proof (wf_lookup _ _ _ _ Hs Hk) as Hdb. destruct (deleted db) eqn:Hd.
    + destruct (revive req db) as [db'|e] eqn:Hr; [|by eauto].
      pose proof (wf_revive _ _ _ _ Hdb Hd Hr) as (_ & _ & Hps & _).
      rewrite Hps, Z.eqb_refl, andb_false_r. right. split; [done|]. exists db'.
      split; [by eapply start_revived|done].
    + destruct (_ && _) eqn:Hps.
      * left. eexists. by rewrite put_same.
      * right. split; [done|]. exists db. split; [|done]. apply start_live; [done..|].
        apply andb_false_iff in Hps as [Hps|Hps]; bool_hyps; auto.
  - destruct (_ || _) eqn:Hc; [by eauto|].
    apply orb_false_iff in Hc as [Hc Hres]. bool_hyps.
    destruct (negb _) eqn:Hv; [by eauto|]. bool_hyps.
    right. split; [done|]. eexists. split; [|done]. apply start_new; [done..| |done].
    destruct (or_Resume req); [|done]. exfalso. by apply Hres.
Qed.

Lemma start_active req s n db :
  wf_store n s -> open_start req s db ->
  (dbs s !! or_Key req = Some db /\ deleted db = false) \/
  (holder db = None /\ or_Resume req = None).
Proof.
  intros Hs [db' Hk Hd _|db0 db' Hk Hd Hr|Hk Hc Hres Hv]; [by left|right..].
  - pose proof (wf_lookup _ _ _ _ Hs Hk) as Hw.
    destruct (wf_revive _ _ _ _ Hw Hd Hr) as (_ & _ & _ & Hres & _ & _ & ->). done.
  - done.
Qed.

(** An [Open] that fails changes nothing. *)
Lemma Open_error n newID req s s' e :
  wf_store n s -> Open newID req s = (s', Err e) -> s' = s.
Proof.
  intros Hs HO. destruct (Open_cases n newID req s Hs) as [[e' Heq]|(_ & db & Hst & Heq)];
    [congruence|]. rewrite Heq in HO. clear Heq.
  destruct (start_active _ _ _ _ Hs Hst) as [[Hk Hd]|[Hh Hres]].
  - rewrite put_same in HO by done. unfold open_lease in HO. split_hyp HO; done.
  - unfold open_lease, active in HO. rewrite Hres, Hh in HO. done.
Qed.

(** What a successful [Open] leaves: the start database with its lease resumed or renewed. *)
Lemma Open_ok n newID req s s' res :
  wf_store n s -> Open newID req s = (s', Ok res) ->
  exists db db', open_start req s db /\ slot_taken req s = false /\
    s' = put (or_Key req) db' s /\
    res_Lease res = lease db' /\ res_State res = state db' /\ state db' = state db /\
    blocks db' = blocks db /\ changes db' = changes db /\ deleted db' = deleted db /\
    expiresAt db' = or_Now req + or_TTL req /\
    match or_Resume req with
    | Some r => lease db' = lease db /\ holder db' = holder db /\ grantedAt db' = grantedAt db /\
        is_Some (holder db) /\ Epoch (lease db) = LeaseEpoch r /\
        content (ID (lease db)) = content (LeaseID r) /\ res_Revoked res = false
    | None => lease db' = mkLease (Some newID) (u64 (Epoch (lease db) + 1)) /\
        holder db' = or_InstanceID req /\ grantedAt db' = or_Now req /\
        res_Revoked res = active (or_Now req) db /\
        (active (or_Now req) db = true ->
         or_Takeover req = true \/ content (holder db) = content (or_InstanceID req))
    end.
Proof.
  intros Hs HO. destruct (Open_cases n newID req s Hs) as [[e' Heq]|(Hslot & db & Hst & Heq)];
    [congruence|]. rewrite Heq in HO. clear Heq. unfold open_lease in HO.
  destruct (or_Resume req) as [r|].
  - destruct (_ || _) eqn:Hf; [done|]. apply orb_false_iff in Hf as [Hf Hid].
    apply not_fenced in Hf as [Hh Hep]. bool_hyps. apply bytes_Equal_spec in Hid.
    simplify_eq. exists db, (set_expires (time_Add (or_Now req) (or_TTL req)) db).
    rewrite put_put. split_and!; try done; by destruct db as [? [] ? ? []].
  - destruct (_ && _) eqn:Hact; [done|]. injection HO as <- <-. rewrite put_put.
    eexists db, _. split_and!; try done; [by destruct db as [? [] ? ? []]|].
    intros Ha. rewrite Ha in Hact. simpl in Hact. apply andb_false_iff in Hact as [Ht|Hi]; bool_hyps.
    + auto.
    + right. by apply bytes_Equal_spec.
Qed.

Lemma wf_Open n newID req s s' r :
  0 <= n < two64 - 1 -> wf_store n s -> Open newID req s = (s', r) -> wf_store (n + 1) s'.
Proof.
  intros Hn Hs HO. assert (wf_store (n + 1) s) as Hs1 by (eapply wf_store_mono; [|done]; lia).
  destruct r as [res|e]; [|by rewrite (Open_error _ _ _ _ _ _ Hs HO)].
  destruct (Open_ok _ _ _ _ _ _ Hs HO)
    as (db & db' & Hst & _ & -> & _ & _ & Hstate & Hbl & Hch & Hdel & _ & Hres).
  apply wf_put; [done|].
  destruct (wf_open_start n req s db) as [Hdb Hlive]; [lia|done|done|].
  assert (Epoch (lease db') = Epoch (lease db) \/ Epoch (lease db') = Epoch (lease db) + 1) as He.
  { destruct (or_Resume req).
    - left. destruct Hres as [-> _]. done.
    - right. destruct Hres as [-> _]. simpl. pose proof (wf_epoch _ _ Hdb). apply u64_succ; zlia. }
  destruct Hdb as [? ? ? ? ? ? ? _].
  constructor; rewrite ?Hstate, ?Hbl, ?Hch; try done; try lia. congruence.
Qed.

(** ** Delete and DeleteUnused *)

Lemma wf_remove n db : n < two64 - 1 -> wf_db n db -> wf_db (n + 1) (remove db).
Proof.
  intros Hn [He Hv _ Hps _ _ _ _].
  assert (u64 (Version (state db) + 1) = Version (state db) + 1) as Hver by (apply u64_small; zlia).
  assert (u64 (Epoch (lease db) + 1) = Epoch (lease db) + 1) as Hep by (apply u64_small; zlia).
  constructor; simpl; rewrite ?Hver, ?Hep; try done; try lia.
  apply log_ok_nil. lia.
Qed.

(** The databases after the loop of [DeleteUnused]. *)
Lemma foldl_delete_one holders l s k :
  NoDup l ->
  dbs (foldl (delete_one holders) s l) !! k =
  if decide (k ∈ l) then
    if decide (Subject k ∈ holders) then None else remove <$> dbs s !! k
  else dbs s !! k.
Proof.
  revert s. induction l as [|k0 l IH]; intros s Hnd.
  { rewrite decide_False; [done|set_solver]. }
  apply NoDup_cons in Hnd as [Hni Hnd]. cbn [foldl]. rewrite IH by done. unfold delete_one.
  destruct (decide (k = k0)) as [->|Hne].
  - rewrite (decide_False (P := k0 ∈ l)) by done.
    rewrite (decide_True (P := k0 ∈ k0 :: l)) by set_solver.
    case_bool_decide as Hh; simpl.
    + rewrite decide_True by done. apply lookup_delete_eq.
    + rewrite decide_False by done. apply lookup_alter_eq.
  - assert (dbs (if bool_decide (Subject k0 ∈ holders)
                 then {| dbs := delete k0 (dbs s); slots := slots s |}
                 else {| dbs := alter remove k0 (dbs s); slots := slots s |}) !! k
            = dbs s !! k) as ->.
    { case_bool_decide; simpl; [by rewrite lookup_delete_ne|by rewrite lookup_alter_ne]. }
    destruct (decide (k ∈ l)) as [Hl|Hl].
    + by rewrite (decide_True (P := k ∈ k0 :: l)) by set_solver.
    + by rewrite (decide_False (P := k ∈ k0 :: l)) by set_solver.
Qed.

Lemma foldl_delete_one_slots holders l s :
  slots (foldl (delete_one holders) s l) = slots s.
Proof.
  revert s. induction l as [|k l IH]; intros s; simpl; [done|].
  rewrite IH. unfold delete_one. by case_match.
Qed.

Lemma select_unused_NoDup order cutoff limit s :
  NoDup order -> NoDup (select_unused order cutoff limit s).
Proof.
  intros Hnd. unfold select_unused.
  assert (NoDup (merge_sort (older s) (filter (fun k => is_unused cutoff s k = true) order))).
  { rewrite merge_sort_Permutation. by apply NoDup_filter. }
  case_match; [|done]. by eapply sublist_NoDup, sublist_take.
Qed.

Lemma select_unused_elem order cutoff limit s k :
  k ∈ select_unused order cutoff limit s -> is_unused cutoff s k = true /\ k ∈ order.
Proof.
  unfold select_unused. intros Hk.
  assert (k ∈ merge_sort (older s) (filter (fun k => is_unused cutoff s k = true) order)) as Hin.
  { case_match; [by eapply elem_of_take in Hk as (i & Hi & _); eapply list_elem_of_lookup_2|done]. }
  rewrite merge_sort_Permutation in Hin. by apply list_elem_of_filter in Hin.
Qed.

Lemma wf_DeleteUnused n order cutoff limit s s' r :
  n < two64 - 1 -> wf_store n s -> NoDup order ->
  DeleteUnused order cutoff limit s = (s', r) -> wf_store (n + 1) s'.
Proof.
  intros Hn Hs Hnd HD. unfold DeleteUnused in HD. injection HD as <- _.
  intros k db Hk. unfold release_slots in Hk. simpl in Hk.
  rewrite foldl_delete_one in Hk by (by apply select_unused_NoDup).
  repeat case_decide; [done| |].
  - apply fmap_Some in Hk as (db0 & Hk & ->). apply wf_remove; [done|]. by eapply wf_lookup.
  - eapply wf_db_mono; [|by eapply wf_lookup]. lia.
Qed.

(** ** Every operation preserves the invariant *)

Lemma wf_purge n subject s s' gone :
  wf_store n s -> purge subject s = (s', gone) -> wf_store n s'.
Proof.
  intros Hs HP. unfold purge in HP. injection HP as <- _.
  eapply wf_submap; [done|]. intros k db Hk. by apply map_lookup_filter_Some in Hk as [Hk _].
Qed.

Lemma wf_step n o s s' a :
  0 <= n < two64 - 1 -> wf_store n s -> legal o s -> step o s = (s', a) -> wf_store (n + 1) s'.
Proof.
  intros Hn Hs Hl Hstep.
  assert (wf_store (n + 1) s) as Hs1 by (eapply wf_store_mono; [|done]; lia).
  destruct o; simpl in Hstep, Hl; try (by simplify_eq).
  - destruct (Open newID req s) eqn:E. simplify_eq. by eapply wf_Open.
  - destruct (Commit req s) eqn:E. simplify_eq. eapply wf_Commit; [|done..]. lia.
  - unfold Renew in Hstep. repeat case_match; simplify_eq; eauto using wf_lookup with go.
  - unfold Release in Hstep. repeat case_match; simplify_eq; eauto using wf_lookup with go.
  - unfold Delete in Hstep. repeat case_match; simplify_eq; eauto with go.
    apply wf_put; [done|]. apply wf_remove; [lia|]. by eapply wf_lookup.
  - destruct (DeleteUnused order cutoff limit s) eqn:E. simplify_eq.
    eapply wf_DeleteUnused; [|done| |done]; [lia|apply Hl].
  - unfold ClaimSlot in Hstep. destruct (slots s !! _) as [old|]; [|by simplify_eq].
    destruct (bool_decide _); [by simplify_eq|].
    destruct (purge _ s) as [s1 gone] eqn:E. simplify_eq.
    by apply (wf_purge _ _ _ _ _ Hs1 E).
  - unfold SetSlotLabel in Hstep. repeat case_match; by simplify_eq.
  - unfold DeleteSlot in Hstep. destruct (slots s !! _) as [slot|].
    + destruct (negb _); [by simplify_eq|]. destruct (purge _ _) eqn:E. simplify_eq.
      by eapply (wf_purge (n + 1)) in E.
    + destruct (purge _ _) eqn:E. simplify_eq. by eapply (wf_purge (n + 1)) in E.
Qed.

Lemma wf_steps ops s answers s' n :
  steps ops s answers s' -> 0 <= n -> n + zlen ops <= two64 - 1 ->
  wf_store n s -> wf_store (n + zlen ops) s'.
Proof.
  intros Hs Hn Hb Hwf.
  eapply (steps_invariant (fun n s => 0 <= n /\ wf_store n s) (two64 - 1)); [|done..].
  intros m o t t' a Hm [H0 Hw] Hl Ht. split; [lia|]. by eapply wf_step.
Qed.

(** Every state that fewer than [2^64] calls on an empty store reach is well formed. *)
Lemma wf_reachable ops answers s :
  steps ops New answers s -> zlen ops < two64 -> wf_store (zlen ops) s.
Proof.
  intros Hs Hb. apply (wf_steps ops New answers s 0 Hs); [lia..|apply wf_new].
Qed.

