(* ===== verification/MemoryStep.v ===== *)
(** * One database of the memory store as a state machine

    [db_step] lists the transitions a database record can make.  [step_db] shows that every
    operation of the store, seen from one key, is one of them, so facts about the life of a
    database are proved by induction on its transitions. *)

From S2P Require Import Prelude Store StoreFacts Memory Trace MemoryInv.

Local Open Scope Z_scope.

Inductive db_step : database -> database -> Prop :=
| step_same db : db_step db db
| step_extend t db : is_Some (holder db) -> db_step db (set_expires t db)
| step_release db : is_Some (holder db) -> db_step db (set_holder None db)
| step_grant newID inst now t db :
    deleted db = false ->
    db_step db (mkDatabase false (state db) (blocks db) (changes db)
                  (mkLease (Some newID) (u64 (Epoch (lease db) + 1))) inst now t)
| step_recreate newID inst now t ps db :
    deleted db = true -> ValidPageSize ps = true ->
    db_step db (mkDatabase false (mkState ps 0 (Version (state db)) None) ∅ []
                  (mkLease (Some newID) (u64 (Epoch (lease db) + 1))) inst now t)
| step_commit req db :
    wf_commit req -> deleted db = false -> is_Some (holder db) ->
    Epoch (lease db) = cr_LeaseEpoch req -> Version (state db) = cr_BaseVersion req ->
    commit_ok (PageSize (state db)) req ->
    db_step db (apply_commit req db)
| step_remove db : deleted db = false -> db_step db (remove db).

(** ** Operations as transitions *)

Lemma Open_db_step n newID req s s' r k db db' :
  wf_store n s -> Open newID req s = (s', r) ->
  dbs s !! k = Some db -> dbs s' !! k = Some db' -> db_step db db'.
Proof.
  intros Hs HO Hk Hk'. destruct r as [res|e].
  2:{ rewrite (Open_error _ _ _ _ _ _ Hs HO) in Hk'. simplify_eq. constructor. }
  destruct (Open_ok _ _ _ _ _ _ Hs HO)
    as (db0 & db1 & Hst & _ & -> & _ & _ & Hstate & Hbl & Hch & Hdel & Hexp & Hres).
  rewrite lookup_put in Hk'. case_decide as Hkey; [|simplify_eq; constructor].
  subst k. simplify_eq.
  destruct Hst as [db2 Hk2 Hd _|db2 db3 Hk2 Hd Hr|Hk2 _ _ _]; [| |congruence];
    rewrite Hk in Hk2; simplify_eq.
  - destruct db' as [d1 st1 b1 c1 l1 h1 g1 e1]. simpl in *. subst.
    destruct (or_Resume req).
    + destruct Hres as (-> & -> & -> & Hh & _). rewrite Hd. rewrite <- Hd at 1.
      replace (mkDatabase _ _ _ _ _ _ _ _)
        with (set_expires (or_Now req + or_TTL req) db2) by done.
      by constructor.
    + destruct Hres as (-> & -> & -> & _). rewrite Hd. by constructor.
  - pose proof (wf_lookup _ _ _ _ Hs Hk) as Hw.
    destruct (wf_revive _ _ _ _ Hw Hd Hr) as (_ & _ & _ & Hn & Hv & _ & ->).
    rewrite Hn in Hres. destruct db' as [d1 st1 b1 c1 l1 h1 g1 e1]. simpl in *. subst.
    destruct Hres as (-> & -> & -> & _). by constructor.
Qed.

Lemma Commit_db_step n req s s' r k db db' :
  wf_store n s -> wf_commit req -> Commit req s = (s', r) ->
  dbs s !! k = Some db -> dbs s' !! k = Some db' -> db_step db db'.
Proof.
  intros Hs Hreq HC Hk Hk'. unfold Commit in HC.
  destruct (dbs s !! cr_Key req) as [db0|] eqn:Hk0; [|simplify_eq; constructor].
  destruct (fenced _ _) eqn:Hf; [simplify_eq; constructor|].
  pose proof (wf_lookup _ _ _ _ Hs Hk0) as Hw.
  pose proof (not_fenced_live _ _ _ Hw Hf) as Hlive. apply not_fenced in Hf as [Hh He].
  destruct (repeated _ _).
  { injection HC as <- _. rewrite lookup_put in Hk'. case_decide; simplify_eq; by constructor. }
  destruct (negb _) eqn:Hv; [simplify_eq; constructor|]. bool_hyps.
  destruct (ValidateCommit _ _) as [[]|] eqn:Hval; [|simplify_eq; constructor].
  apply ValidateCommit_ok in Hval. injection HC as <- _.
  rewrite lookup_put in Hk'. case_decide; simplify_eq; by constructor.
Qed.

Lemma purge_lookup subject s s' gone k db :
  purge subject s = (s', gone) ->
  dbs s' !! k = Some db <-> dbs s !! k = Some db /\ Subject k <> subject.
Proof. intros HP. unfold purge in HP. injection HP as <- _. apply map_lookup_filter_Some. Qed.

Lemma step_db n o s s' a k db db' :
  wf_store n s -> legal o s -> step o s = (s', a) ->
  dbs s !! k = Some db -> dbs s' !! k = Some db' -> db_step db db'.
Proof.
  intros Hs Hl Hstep Hk Hk'. destruct o; simpl in Hstep, Hl; try (simplify_eq; constructor; fail).
  - destruct (Open newID req s) eqn:E. simplify_eq. by eapply Open_db_step.
  - destruct (Commit req s) eqn:E. simplify_eq. by eapply Commit_db_step.
  - unfold Renew in Hstep. destruct (dbs s !! k0) as [db0|] eqn:Hk0; [|simplify_eq; constructor].
    destruct (fenced _ _) eqn:Hf; [simplify_eq; constructor|]. apply not_fenced in Hf as [Hh _].
    injection Hstep as <- _. rewrite lookup_put in Hk'. case_decide; simplify_eq; by constructor.
  - unfold Release in Hstep. destruct (dbs s !! k0) as [db0|] eqn:Hk0; [|simplify_eq; constructor].
    destruct (fenced _ _) eqn:Hf; [simplify_eq; constructor|]. apply not_fenced in Hf as [Hh _].
    injection Hstep as <- _. rewrite lookup_put in Hk'. case_decide; simplify_eq; by constructor.
  - unfold Delete in Hstep. destruct (dbs s !! _) as [db0|] eqn:Hk0; [|simplify_eq; constructor].
    destruct (deleted db0) eqn:Hd; [simplify_eq; constructor|].
    destruct (_ && _); [simplify_eq; constructor|].
    injection Hstep as <- _. rewrite lookup_put in Hk'. case_decide; simplify_eq; by constructor.
  - unfold DeleteUnused in Hstep. injection Hstep as <- _. unfold release_slots in Hk'. simpl in Hk'.
    rewrite foldl_delete_one in Hk' by (apply select_unused_NoDup, Hl).
    case_decide as Hin; [|simplify_eq; constructor].
    case_decide; [done|]. rewrite Hk in Hk'. simpl in Hk'. simplify_eq.
    apply select_unused_elem in Hin as [Hu _]. unfold is_unused in Hu. rewrite Hk in Hu. bool_hyps.
    by constructor.
  - unfold ClaimSlot in Hstep. destruct (slots s !! _) as [old|]; [|simplify_eq/=; constructor].
    destruct (bool_decide _); [simplify_eq; constructor|].
    destruct (purge _ s) as [s1 gone] eqn:E. injection Hstep as <- _. simpl in Hk'.
    eapply purge_lookup in E. rewrite E in Hk'. destruct Hk'. simplify_eq. constructor.
  - unfold SetSlotLabel in Hstep. repeat case_match; simplify_eq/=; apply step_same.
  - unfold DeleteSlot in Hstep. destruct (slots s !! _) as [slot|].
    + destruct (negb _); [simplify_eq; constructor|]. destruct (purge _ _) eqn:E. simplify_eq.
      eapply purge_lookup in E. rewrite E in Hk'. destruct Hk'. simplify_eq/=. constructor.
    + destruct (purge _ _) eqn:E. simplify_eq.
      eapply purge_lookup in E. rewrite E in Hk'. destruct Hk'. simplify_eq/=. constructor.
Qed.

(** ** Life of one database *)

Definition has (k : Key) (s : MemStore) : Prop := is_Some (dbs s !! k).

(** A relation that every transition of a well-formed database extends relates the ends of an
    execution that keeps the record of [k]. *)
Lemma life_ind (R : database -> Prop) k (Q : database -> Prop) :
  (forall n db db', n < two64 - 1 -> wf_db n db -> wf_db (n + 1) db' -> Q db -> Q db' ->
     db_step db db' -> R db -> R db') ->
  forall ops s s' n db,
    steps_while (fun s => exists db, dbs s !! k = Some db /\ Q db) ops s s' ->
    0 <= n -> n + zlen ops < two64 -> wf_store n s ->
    dbs s !! k = Some db -> R db ->
    exists db', dbs s' !! k = Some db' /\ R db' /\ wf_db (n + zlen ops) db'.
Proof.
  intros Hstep ops s s' n db Hs. revert n db.
  induction Hs as [s (db1 & Hk1 & Hq)|o ops s s1 s2 a (db1 & Hk1 & Hq) Hl Hst Hrest IH];
    intros n db Hn Hb Hwf Hk HR.
  - exists db. split_and!; [done..|]. rewrite Z.add_0_r. by eapply wf_lookup.
  - unfold zlen in *. simpl in *.
    destruct (while_here _ _ _ _ Hrest) as [(db2 & Hk2 & Hq2) _].
    assert (wf_store (n + 1) s1) as Hwf1 by (eapply wf_step; [|done..]; zlia).
    replace (n + Z.of_nat (S (length ops))) with ((n + 1) + Z.of_nat (length ops)) by lia.
    assert (db1 = db) as -> by congruence. apply (IH (n + 1) db2); [lia|lia|done|done|].
    eapply (Hstep n db db2); [zlia| | |done|done| |done].
    + exact (wf_lookup _ _ _ _ Hwf Hk).
    + exact (wf_lookup _ _ _ _ Hwf1 Hk2).
    + exact (step_db _ _ _ _ _ _ _ _ Hwf Hl Hst Hk Hk2).
Qed.
