(* ===== verification/Samples.v ===== *)
(** * Sample executions

    Concrete requests and reachable states of the memory store, at which the theorems are applied. *)

From S2P Require Import Prelude Store StoreFacts Memory Trace MemoryInv MemoryStep.

Local Open Scope Z_scope.
Local Open Scope string_scope.

Definition page (b : Byte.byte) : bytes := replicate 512 b.

Definition kA : Key := mkKey "alice" "main".
Definition kB : Key := mkKey "bob" "main".

(** Opens of [k] by instance [inst] at [now] microseconds, with a lease of 100 microseconds. *)
Definition open_at (k : Key) (inst : Byte.byte) (takeover : bool) (now : Z) : OpenRequest :=
  mkOpenRequest k "" (Some [inst]) 512 true takeover None (now * Microsecond) (100 * Microsecond).

Definition commit_at (k : Key) (id : Byte.byte) (epoch base pages : Z) (bs : list Block) (now : Z) :
    CommitRequest :=
  mkCommitRequest k (Some [id]) epoch base pages bs (now * Microsecond) (100 * Microsecond).

(** A database of three pages at version 1 under lease 1 of instance 1. *)
Definition c1 : CommitRequest :=
  commit_at kA x61 1 0 3 [mkBlock 0 (page x01); mkBlock 2 (page x02)] 1001.
Definition c2 : CommitRequest := commit_at kA x62 1 1 4 [mkBlock 1 (page x03)] 1002.
Definition ops1 : list op := [OpOpen [x0a] (open_at kA x01 false 1000); OpCommit c1].
Definition s1 : MemStore := (run ops1 New).1.
Definition db1 : database := default (new_database 512) (dbs s1 !! kA).

(** A second instance takes the lease over. *)
Definition take2 : OpenRequest := open_at kA x02 true 1010.
Definition s2 : MemStore := (Open [x0b] take2 s1).1.
Definition db2 : database := default (new_database 512) (dbs s2 !! kA).

(** Instance 2 commits, another subject opens a database. *)
Definition c3 : CommitRequest := commit_at kA x63 2 1 4 [mkBlock 1 (page x04)] 1011.
Definition ops3 : list op := [OpCommit c3; OpOpen [x0c] (open_at kB x05 false 1012)].
Definition s3 : MemStore := (run ops3 s2).1.
Definition db3 : database := default (new_database 512) (dbs s3 !! kA).

Lemma s1_steps : steps ops1 New (run ops1 New).2 s1.
Proof. apply run_check. vm_compute. reflexivity. Qed.

Definition ops2 : list op := ops1 ++ [OpOpen [x0b] take2].

Lemma s2_steps : steps ops2 New (run ops2 New).2 s2.
Proof.
  replace s2 with (run ops2 New).1 by (vm_compute; reflexivity).
  apply run_check. vm_compute. reflexivity.
Qed.

Lemma s1_wf : wf_store 2 s1.
Proof. apply (wf_reachable _ _ _ s1_steps). reflexivity. Qed.

Lemma s2_wf : wf_store 3 s2.
Proof. apply (wf_reachable _ _ _ s2_steps). reflexivity. Qed.

#[export] Instance has_decision k s : Decision (has k s).
Proof. unfold has. apply _. Defined.

Lemma s3_while : steps_while (has kA) ops3 s2 s3.
Proof. apply (while_check (has kA) ops3 s2). vm_compute. reflexivity. Qed.

Lemma wf_c (k : Key) (id : Byte.byte) (epoch base pages : Z) (bs : list Block) (now : Z) :
  bool_decide (wf_commit (commit_at k id epoch base pages bs now)) = true ->
  wf_commit (commit_at k id epoch base pages bs now).
Proof. apply bool_decide_eq_true_1. Qed.

(** Bob holds the slot of owner "o" and has a database; alice claims the slot. *)
Definition claim (subject : string) : ClaimRequest := mkClaimRequest "o" subject (1020 * Microsecond).
Definition ops4 : list op :=
  ops1 ++ [OpOpen [x0c] (open_at kB x05 false 1012); OpClaimSlot (claim "bob")].
Definition s4 : MemStore := (run ops4 New).1.

Lemma s4_steps : steps ops4 New (run ops4 New).2 s4.
Proof. apply run_check. vm_compute. reflexivity. Qed.

Lemma s4_wf : wf_store 4 s4.
Proof. apply (wf_reachable _ _ _ s4_steps). reflexivity. Qed.
