(* ===== verification/MemoryLease.v ===== *)
(** * Leases and fencing in the memory store

    When [Open] succeeds, that a failed call changes nothing, and that an epoch that was taken
    over, released or deleted is refused for the rest of the database's life. *)

From S2P Require Import Prelude Store StoreFacts Memory Trace MemoryInv MemoryStep Samples.

Local Open Scope Z_scope.

(** ** When Open succeeds *)

(** What the contract asks of an [Open] of a missing or deleted database. *)
Definition creates (req : OpenRequest) : Prop :=
  or_Create req = true /\ or_Resume req = None /\ ValidPageSize (or_PageSize req) = true.

(** What the contract asks of an [Open]. *)
Definition open_allowed (req : OpenRequest) (s : MemStore) : Prop :=
  (forall slot, slots s !! or_Owner req = Some slot -> or_Owner req <> EmptyString ->
     slot_Subject slot = Subject (or_Key req)) /\
  match dbs s !! or_Key req with
  | None => creates req
  | Some db =>
      if deleted db then creates req
      else
        (or_PageSize req = 0 \/ or_PageSize req = PageSize (state db)) /\
        match or_Resume req with
        | Some r => is_Some (holder db) /\ Epoch (lease db) = LeaseEpoch r /\
                    content (ID (lease db)) = content (LeaseID r)
        | None => or_Takeover req = true \/ holder db = None \/
                  expiresAt db <= or_Now req \/ content (holder db) = content (or_InstanceID req)
        end
  end.

Lemma slot_taken_false req s :
  slot_taken req s = false <->
  forall slot, slots s !! or_Owner req = Some slot -> or_Owner req <> EmptyString ->
    slot_Subject slot = Subject (or_Key req).
Proof.
  unfold slot_taken. destruct (slots s !! or_Owner req) as [slot|] eqn:E; [|naive_solver].
  rewrite andb_false_iff, !negb_false_iff, !bool_decide_eq_true. split.
  - intros [?|?] slot' Hs Hne; simplify_eq; done.
  - intros Ht. destruct (decide (or_Owner req = EmptyString)); [by left|right; by apply Ht].
Qed.

Lemma active_false now db :
  active now db = false <-> holder db = None \/ expiresAt db <= now.
Proof.
  unfold active, time_Before. rewrite andb_false_iff, bool_decide_eq_false, Z.ltb_ge.
  by rewrite <- eq_None_not_Some.
Qed.

Lemma active_true now db :
  active now db = true <-> is_Some (holder db) /\ now < expiresAt db.
Proof.
  unfold active, time_Before. by rewrite andb_true_iff, bool_decide_eq_true, Z.ltb_lt.
Qed.

(** The lease part of [Open] succeeds exactly when it may. *)
Lemma open_lease_ok newID req db s :
  is_Ok (open_lease newID req db s).2 <->
  match or_Resume req with
  | Some r => is_Some (holder db) /\ Epoch (lease db) = LeaseEpoch r /\
              content (ID (lease db)) = content (LeaseID r)
  | None => or_Takeover req = true \/ holder db = None \/
            expiresAt db <= or_Now req \/ content (holder db) = content (or_InstanceID req)
  end.
Proof.
  unfold open_lease, is_Ok. destruct (or_Resume req) as [r|].
  - destruct (_ || _) eqn:Hf; simpl.
    + apply orb_true_iff in Hf as [Hf|Hf]; split; try naive_solver; intros (Hh & He & Hid); exfalso.
      * rewrite (proj2 (not_fenced _ _) (conj Hh He)) in Hf. done.
      * bool_hyps. apply bytes_Equal_spec in Hid. congruence.
    + apply orb_false_iff in Hf as [[Hh He]%not_fenced Hid]. bool_hyps.
      apply bytes_Equal_spec in Hid. naive_solver.
  - destruct (_ && _) eqn:Ha; simpl.
    + bool_hyps. split; [naive_solver|]. intros Hor. exfalso.
      apply active_true in H as [[h Hh] Hlt].
      destruct Hor as [?|[?|[?|Hc]]]; [congruence|congruence|lia|].
      apply bytes_Equal_spec in Hc. congruence.
    + split; [intros _|eauto]. apply andb_false_iff in Ha as [[Ha|Ha]%andb_false_iff|Ha]; bool_hyps.
      * apply active_false in Ha. naive_solver.
      * by left.
      * right; right; right. by apply bytes_Equal_spec.
Qed.

Lemma open_new_ok newID req db s :
  or_Resume req = None -> holder db = None -> is_Ok (open_lease newID req db s).2.
Proof. intros Hr Hh. apply open_lease_ok. rewrite Hr. auto. Qed.

(** C37: [Open] succeeds exactly when the contract allows it: no other key holds the owner's slot;
    a missing or deleted database is opened only with Create, without Resume and with a valid page
    size; an existing one only with page size 0 or its own,
    and either by resuming the lease that is current or, without Resume, by takeover, after the
    lease was released or has expired, or by the instance that holds it. *)
Theorem open_ok_iff (n : Z) (newID : bytes) (req : OpenRequest) (s : MemStore) :
  wf_store n s -> is_Ok (Open newID req s).2 <-> open_allowed req s.
Proof.
  intros Hwf. unfold open_allowed, creates. rewrite <- slot_taken_false. unfold Open.
  destruct (slot_taken req s); [unfold is_Ok; naive_solver|].
  destruct (dbs s !! or_Key req) as [db|] eqn:Hk.
  - destruct (deleted db) eqn:Hd.
    + destruct (revive req db) as [db'|e] eqn:Hr.
      * destruct (wf_revive _ _ _ _ (wf_lookup _ _ _ _ Hwf Hk) Hd Hr)
          as (_ & _ & Hps & Hres & Hv & Hc & ->). simpl.
        rewrite Z.eqb_refl, andb_false_r.
        split; [done|intros _]. by apply open_new_ok.
      * split; [by intros [a Ha]|]. intros (_ & Hc & Hres & Hv). exfalso.
        unfold revive in Hr. by rewrite Hres, Hc, Hv in Hr.
    + destruct (_ && _) eqn:Hps.
      * bool_hyps. unfold is_Ok. naive_solver.
      * rewrite open_lease_ok. apply andb_false_iff in Hps as [?|?]; bool_hyps; naive_solver.
  - destruct (or_Create req); simpl; [|unfold is_Ok; naive_solver].
    case_bool_decide as Hres.
    { split; [by intros [a Ha]|]. intros (_ & _ & Hn & _). rewrite Hn in Hres. by destruct Hres. }
    apply eq_None_not_Some in Hres.
    destruct (ValidPageSize _) eqn:Hv; simpl; [|unfold is_Ok; naive_solver].
    split; [done|intros _]. by apply open_new_ok.
Qed.

Lemma open_ok_iff_witness :
  open_allowed take2 s1 /\ ~ open_allowed (open_at kA x02 false 1010) s1 /\
  is_Ok (Open [x0b] take2 s1).2.
Proof.
  split_and!.
  - apply (open_ok_iff 2 [x0b] take2 s1 s1_wf). eexists. vm_compute. reflexivity.
  - intros [res H]%(open_ok_iff 2 [x0b] (open_at kA x02 false 1010) s1 s1_wf).
    vm_compute in H. discriminate H.
  - eexists. vm_compute. reflexivity.
Defined.

(** ** Failed calls *)

Definition failed (a : answer) : bool :=
  match a with
  | AOpen (Err _) | AFetch (Err _) | ACommit (Err _) | AChanges (Err _) | ARenew (Err _)
  | ARelease (Err _) | ADelete (Err _) | AClaimSlot (Err _) | ASetSlotLabel (Err _)
  | ADeleteSlot (Err _) => true
  | _ => false
  end.

(** A call that returns an error leaves the memory store exactly as it was, whatever the call
    and however far it got. *)
Theorem error_changes_nothing (n : Z) (o : op) (s s' : MemStore) (a : answer) :
  wf_store n s -> step o s = (s', a) -> failed a = true -> s' = s.
Proof.
  intros Hwf Hstep Hf. destruct o; simpl in Hstep; try (by simplify_eq).
  - destruct (Open newID req s) as [s1 [|]] eqn:E; simplify_eq/=; try done. by eapply Open_error.
  - unfold Commit in Hstep. repeat case_match; by simplify_eq/=.
  - unfold Renew in Hstep. repeat case_match; by simplify_eq/=.
  - unfold Release in Hstep. repeat case_match; by simplify_eq/=.
  - unfold Delete in Hstep. repeat case_match; by simplify_eq/=.
  - unfold ClaimSlot in Hstep. repeat case_match; by simplify_eq/=.
  - unfold SetSlotLabel in Hstep. repeat case_match; by simplify_eq/=.
  - unfold DeleteSlot in Hstep. repeat case_match; by simplify_eq/=.
Qed.

Lemma error_changes_nothing_witness :
  step (OpCommit c1) s2 = (s2, ACommit (Err ErrFenced)).
Proof.
  destruct (step (OpCommit c1) s2) as [t a] eqn:E.
  assert (a = ACommit (Err ErrFenced)) as ->.
  { transitivity (step (OpCommit c1) s2).2; [by rewrite E|vm_compute; reflexivity]. }
  f_equal. apply (error_changes_nothing 3 (OpCommit c1) s2 t _ s2_wf E). reflexivity.
Defined.

(** ** Fencing *)

(** An epoch that the database has left behind. *)
Definition stale (e : Z) (db : database) : Prop :=
  e < Epoch (lease db) \/ (e = Epoch (lease db) /\ holder db = None).

Lemma stale_fenced e db : stale e db -> fenced e db = true.
Proof.
  unfold stale, fenced. intros [Hlt|[_ Hh]].
  - apply orb_true_iff. right. apply negb_true_iff, Z.eqb_neq. lia.
  - by rewrite Hh, bool_decide_true.
Qed.

(** The epoch of a database never decreases, and increases with every new lease. *)
Lemma step_epoch n db db' :
  n < two64 - 1 -> wf_db n db -> db_step db db' ->
  (lease db' = lease db /\ (holder db' = holder db \/ holder db' = None)) \/
  Epoch (lease db') = Epoch (lease db) + 1.
Proof.
  intros Hn Hwf Hs. pose proof (wf_epoch _ _ Hwf) as He.
  assert (u64 (Epoch (lease db) + 1) = Epoch (lease db) + 1) as Hu by (apply u64_small; zlia).
  inv Hs; simpl; rewrite ?Hu; auto.
Qed.

Lemma step_stale n e db db' :
  n < two64 - 1 -> wf_db n db -> db_step db db' -> stale e db -> stale e db'.
Proof.
  intros Hn Hwf Hs Hst. destruct (step_epoch _ _ _ Hn Hwf Hs) as [[Hl Hh]|He]; unfold stale in *.
  - rewrite Hl. naive_solver congruence.
  - lia.
Qed.

(** All ways to use a lease epoch on a database. *)
Definition refused (k : Key) (e : Z) (s : MemStore) : Prop :=
  (forall req, cr_Key req = k -> cr_LeaseEpoch req = e -> Commit req s = (s, Err ErrFenced)) /\
  (forall now ttl, Renew k e now ttl s = (s, Err ErrFenced)) /\
  Release k e s = (s, Err ErrFenced) /\
  (forall newID req r, or_Key req = k -> or_Resume req = Some r -> LeaseEpoch r = e ->
     exists err, Open newID req s = (s, Err err)).

Lemma stale_refused n k e s db :
  wf_store n s -> dbs s !! k = Some db -> stale e db -> refused k e s.
Proof.
  intros Hwf Hk Hst. pose proof (stale_fenced _ _ Hst) as Hf. split_and!.
  - intros req <- <-. unfold Commit. by rewrite Hk, Hf.
  - intros now ttl. unfold Renew. by rewrite Hk, Hf.
  - unfold Release. by rewrite Hk, Hf.
  - intros newID req r <- Hr <-. destruct (Open newID req s) as [s' [res|err]] eqn:HO.
    + exfalso. destruct (Open_ok _ _ _ _ _ _ Hwf HO)
        as (db0 & db' & Hs & _ & _ & _ & _ & _ & _ & _ & _ & _ & Hres).
      rewrite Hr in Hres. destruct Hres as (_ & _ & _ & Hh & He & _).
      destruct (start_active _ _ _ _ Hwf Hs) as [[Hk0 _]|[Hn _]].
      * simplify_eq. unfold stale in Hst. destruct Hh. naive_solver lia.
      * destruct Hh. congruence.
    + exists err. by rewrite (Open_error _ _ _ _ _ _ Hwf HO).
Qed.

(** C1: Fencing holds for the rest of a database's life.  From any reachable state in which the
    epoch [e] of database [k] has been left behind (a newer lease was granted, or the lease was
    released or the database deleted), after any further calls by any clients, in any order, that
    do not drop the record of [k], every commit, renewal, release and resume with epoch [e] is
    refused and changes nothing.  The bound says that the 64-bit counters have not wrapped. *)
Theorem stale_lease_fenced_forever (ops0 ops : list op) (answers : list answer)
    (s s' : MemStore) (k : Key) (db : database) (e : Z) :
  steps ops0 New answers s -> dbs s !! k = Some db -> stale e db ->
  steps_while (has k) ops s s' -> zlen ops0 + zlen ops < two64 ->
  refused k e s'.
Proof.
  intros H0 Hk Hst Hw Hb. pose proof (zlen_nonneg ops0). pose proof (zlen_nonneg ops).
  assert (wf_store (zlen ops0) s) as Hwf by (eapply wf_reachable; [done|lia]).
  destruct (life_ind (stale e) k (fun _ => True)) with (ops := ops) (s := s) (s' := s')
    (n := zlen ops0) (db := db) as (db' & Hk' & Hst' & _); try done.
  - intros m d d' Hm Hd _ _ _ Hstep. by eapply step_stale.
  - eapply while_mono; [|done]. intros t [d Hd]. by exists d.
  - destruct (while_steps _ _ _ _ Hw) as [answers' Hs'].
    eapply stale_refused; [|done..]. apply (wf_steps ops s answers' s' (zlen ops0)); [done|lia|lia|done].
Qed.

Lemma stale_lease_fenced_forever_witness : stale 1 db2 /\ refused kA 1 s3.
Proof.
  assert (stale 1 db2) as H by (left; vm_compute; reflexivity). split; [exact H|].
  apply (stale_lease_fenced_forever ops2 ops3 _ s2 s3 kA db2 1 s2_steps); try exact H.
  - vm_compute. reflexivity.
  - exact s3_while.
  - vm_compute. reflexivity.
Defined.

(** ** How a lease ends *)

(** The calls that end the lease of database [k] with epoch [e]. *)
Inductive ends_lease (k : Key) (e : Z) (s : MemStore) : MemStore -> Prop :=
| ends_granted newID req s' res :
    or_Key req = k -> or_Resume req = None -> Open newID req s = (s', Ok res) -> ends_lease k e s s'
| ends_released s' : Release k e s = (s', Ok tt) -> ends_lease k e s s'
| ends_deleted req s' r :
    dr_Key req = k -> Delete req s = (s', Ok r) -> ends_lease k e s s'
| ends_unused order cutoff limit s' keys :
    NoDup order -> DeleteUnused order cutoff limit s = (s', (keys, None)) -> k ∈ keys ->
    Subject k ∉ slotHolders s -> ends_lease k e s s'.

Lemma DeleteUnused_lookup order cutoff limit s k :
  NoDup order ->
  dbs (DeleteUnused order cutoff limit s).1 !! k =
  if decide (k ∈ select_unused order cutoff limit s) then
    if decide (Subject k ∈ slotHolders s) then None else remove <$> dbs s !! k
  else dbs s !! k.
Proof.
  intros Hnd. unfold DeleteUnused, release_slots. simpl.
  by rewrite foldl_delete_one by (by apply select_unused_NoDup).
Qed.

Lemma stale_remove n e db :
  n < two64 - 1 -> wf_db n db -> e <= Epoch (lease db) -> stale e (remove db).
Proof.
  intros Hn Hwf He. pose proof (wf_epoch _ _ Hwf). left. simpl. rewrite u64_small; zlia.
Qed.

(** Every way to end a lease leaves its epoch behind: when another lease is granted (by takeover,
    after expiry or to the same instance), when the holder releases it, when the
    database is deleted and when it is deleted as unused, the old epoch is stale. *)
Theorem ended_lease_is_stale (n : Z) (k : Key) (s s' : MemStore) (db : database) :
  wf_store n s -> 0 <= n < two64 - 1 -> dbs s !! k = Some db -> is_Some (holder db) ->
  ends_lease k (Epoch (lease db)) s s' ->
  exists db', dbs s' !! k = Some db' /\ stale (Epoch (lease db)) db'.
Proof.
  intros Hwf Hn Hk Hh Hends. pose proof (wf_lookup _ _ _ _ Hwf Hk) as Hdb.
  pose proof (held_live _ _ Hdb Hh) as Hlive. pose proof (wf_epoch _ _ Hdb) as He.
  destruct Hends as [newID req s' res <- Hres HO|s' HR|req s' r <- HD|order cutoff limit s' keys Hnd HD Hin Hns].
  - destruct (Open_ok _ _ _ _ _ _ Hwf HO) as (db0 & db' & Hst & _ & -> & _ & _ & _ & _ & _ & _ & _ & Hl).
    rewrite Hres in Hl. destruct Hl as (Hl & _). exists db'. rewrite lookup_put, decide_True by done.
    split; [done|]. left. rewrite Hl. simpl.
    destruct Hst as [db0 Hk0 _ _|db0 db1 Hk0 Hd _|Hk0 _ _ _]; simplify_eq; [|congruence]. rewrite u64_small; zlia.
  - unfold Release in HR. rewrite Hk in HR. destruct (fenced _ _); simplify_eq. exists (set_holder None db).
    rewrite lookup_put, decide_True by done. split; [done|]. right. done.
  - unfold Delete in HD. rewrite Hk, Hlive in HD. destruct (_ && _); simplify_eq.
    exists (remove db). rewrite lookup_put, decide_True by done. split; [done|].
    apply (stale_remove n); [lia|done|lia].
  - pose proof (DeleteUnused_lookup order cutoff limit s k Hnd) as Hl. rewrite HD in Hl. simpl in Hl.
    unfold DeleteUnused in HD. injection HD as _ <-. rewrite decide_True in Hl by done.
    rewrite decide_False in Hl by done. rewrite Hk in Hl. exists (remove db). split; [done|].
    apply (stale_remove n); [lia|done|lia].
Qed.

Lemma ended_lease_is_stale_witness : exists db', dbs s2 !! kA = Some db' /\ stale 1 db'.
Proof.
  apply (ended_lease_is_stale 2 kA s1 s2 db1 s1_wf).
  - split; vm_compute; congruence.
  - vm_compute. reflexivity.
  - eexists. vm_compute. reflexivity.
  - apply (ends_granted kA 1 s1 [x0b] take2 s2 (mkOpenResult (lease db2) (state db2) true));
      vm_compute; reflexivity.
Defined.

(** A lease epoch is granted once.  If a call grants a lease on database [k] and, after any
    further calls that keep the record of [k], another call grants one, the second epoch is greater
    than the first: no two grants can be confused, also not across a deletion and a new creation. *)
Theorem granted_epochs_increase (ops0 ops : list op) (answers : list answer)
    (s0 s1 s2 s3 : MemStore) (id1 id2 : bytes) (req1 req2 : OpenRequest) (r1 r2 : OpenResult) :
  steps ops0 New answers s0 -> zlen ops0 + zlen ops + 1 < two64 - 1 ->
  or_Key req1 = or_Key req2 -> or_Resume req2 = None ->
  Open id1 req1 s0 = (s1, Ok r1) -> steps_while (has (or_Key req1)) ops s1 s2 ->
  Open id2 req2 s2 = (s3, Ok r2) ->
  Epoch (res_Lease r1) < Epoch (res_Lease r2).
Proof.
  intros H0 Hb Hkey Hres HO1 Hw HO2. pose proof (zlen_nonneg ops0). pose proof (zlen_nonneg ops).
  assert (wf_store (zlen ops0) s0) as Hwf0 by (eapply wf_reachable; [done|lia]).
  assert (wf_store (zlen ops0 + 1) s1) as Hwf1.
  { apply (wf_Open (zlen ops0) id1 req1 s0 s1 (Ok r1)); [lia|done..]. }
  destruct (Open_ok _ _ _ _ _ _ Hwf0 HO1) as (d0 & db1 & _ & _ & Hs1 & Hl1 & _).
  destruct (life_ind (fun db => Epoch (lease db1) <= Epoch (lease db)) (or_Key req1) (fun _ => True))
    with (ops := ops) (s := s1) (s' := s2) (n := zlen ops0 + 1) (db := db1)
    as (db2 & Hk2 & Hle & Hd2); try done; try lia.
  - intros m d d' Hm Hd _ _ _ Hs Hle.
    destruct (step_epoch _ _ _ Hm Hd Hs) as [[-> _] | ->]; lia.
  - eapply while_mono; [|done]. intros t [d Hd]. by exists d.
  - by rewrite Hs1, lookup_put, decide_True.
  - destruct (while_steps _ _ _ _ Hw) as [answers' Hs'].
    assert (wf_store (zlen ops0 + 1 + zlen ops) s2) as Hwf2
      by (apply (wf_steps ops s1 answers' s2); [done|lia|lia|done]).
    destruct (Open_ok _ _ _ _ _ _ Hwf2 HO2) as (d2 & db3 & Hst & _ & _ & Hl2 & _ & _ & _ & _ & _ & _ & Hg).
    rewrite Hres in Hg. destruct Hg as (Hg & _). rewrite Hl1, Hl2, Hg. simpl. rewrite Hkey in Hk2.
    pose proof (wf_epoch _ _ Hd2). assert (Epoch (lease d2) = Epoch (lease db2)) as ->.
    { destruct Hst as [d2 Hk _ _|d2 d3 Hk Hd Hr|Hk _ _ _]; [congruence| |congruence].
      destruct (wf_revive _ _ _ _ (wf_lookup _ _ _ _ Hwf2 Hk) Hd Hr) as (_ & _ & _ & _ & _ & _ & ->).
      rewrite Hk2 in Hk. by simplify_eq. }
    rewrite u64_small; zlia.
Qed.

Lemma granted_epochs_increase_witness :
  exists r1 r2 t, Open [x0a] (open_at kA x01 false 1000) New = (t, Ok r1) /\
    (Open [x0b] take2 s1).2 = Ok r2 /\ Epoch (res_Lease r1) < Epoch (res_Lease r2).
Proof.
  pose (o1 := open_at kA x01 false 1000). pose (t := (Open [x0a] o1 New).1).
  exists (mkOpenResult (mkLease (Some [x0a]) 1) (mkState 512 0 0 None) false).
  exists (mkOpenResult (lease db2) (state db2) true), t.
  split_and!; [vm_compute; reflexivity..|].
  apply (granted_epochs_increase [] [OpCommit c1] [] New t s1 s2 [x0a] [x0b] o1 take2).
  - constructor.
  - vm_compute. reflexivity.
  - reflexivity.
  - reflexivity.
  - vm_compute. reflexivity.
  - replace s1 with (run [OpCommit c1] t).1 by (vm_compute; reflexivity).
    apply (while_check (has kA) [OpCommit c1] t). vm_compute. reflexivity.
  - vm_compute. reflexivity.
Defined.
