(* ===== verification/MemoryCommit.v ===== *)
(** * Commits, fetches and the change log of the memory store *)

From S2P Require Import Prelude Store StoreFacts Memory Trace MemoryInv MemoryStep Samples.

Local Open Scope Z_scope.

(** ** When Commit succeeds *)

(** The stored database already is the result of the request. *)
Definition already_applied (req : CommitRequest) (db : database) : Prop :=
  Version (state db) = cr_BaseVersion req + 1 /\ slice_len (cr_CommitID req) <> 0 /\
  content (LastCommitID (state db)) = content (cr_CommitID req).

(** The request applies to the stored database. *)
Definition applies (req : CommitRequest) (db : database) : Prop :=
  Version (state db) = cr_BaseVersion req /\ commit_ok (PageSize (state db)) req.

Lemma repeated_spec req st :
  in_u64 (cr_BaseVersion req) -> cr_BaseVersion req + 1 < two64 ->
  repeated req st = true <->
  Version st = cr_BaseVersion req + 1 /\ slice_len (cr_CommitID req) <> 0 /\
  content (LastCommitID st) = content (cr_CommitID req).
Proof.
  intros Hb Hlt. unfold repeated. rewrite u64_small by zlia.
  rewrite !andb_true_iff, Z.eqb_eq, Z.ltb_lt, bytes_Equal_spec.
  pose proof (zlen_nonneg (content (cr_CommitID req))). unfold slice_len. intuition lia.
Qed.

Lemma Commit_spec req s v :
  wf_commit req -> cr_BaseVersion req + 1 < two64 ->
  (Commit req s).2 = Ok v <->
  v = cr_BaseVersion req + 1 /\
  exists db, dbs s !! cr_Key req = Some db /\ is_Some (holder db) /\
    Epoch (lease db) = cr_LeaseEpoch req /\ (already_applied req db \/ applies req db).
Proof.
  intros (_ & Hb & _ & _) Hlt. unfold Commit.
  destruct (dbs s !! cr_Key req) as [db|]; [|naive_solver].
  destruct (fenced _ _) eqn:Hf.
  { split; [done|]. intros (_ & db' & [= <-] & Hh & He & _).
    by rewrite (proj2 (not_fenced _ _) (conj Hh He)) in Hf. }
  apply not_fenced in Hf as [Hh He].
  pose proof (repeated_spec req (state db) Hb Hlt) as Hrep.
  destruct (repeated req (state db)) eqn:Hr.
  { destruct Hrep as [Ha _]. specialize (Ha eq_refl). simpl. split.
    - intros [= <-]. split; [apply Ha|]. exists db. by split_and!; [| | |left].
    - intros [-> _]. f_equal. apply Ha. }
  assert (~ already_applied req db) as Hna by (intros Ha; by apply Hrep in Ha).
  destruct (Z.eqb_spec (Version (state db)) (cr_BaseVersion req)) as [Hv|Hv]; simpl.
  - pose proof (ValidateCommit_ok (PageSize (state db)) req) as Hval.
    unfold applies. destruct (ValidateCommit _ _) as [[]|e]; simpl.
    + rewrite Hv, u64_small by zlia. naive_solver.
    + split; [done|]. intros (_ & db' & [= <-] & _ & _ & [?|[_ Hok]]); [done|].
      by apply Hval in Hok.
  - split; [done|]. intros (_ & db' & [= <-] & _ & _ & [?|[? _]]); done.
Qed.

(** C14: [Commit] succeeds exactly when the caller holds the lease with the current epoch and the
    commit either repeats the last one (same commit ID, one version ahead of its base) or is based
    on the current version and has a commit ID and blocks of the page size, below the new page
    count, each index once.  The version it returns is always the base version plus one. *)
Theorem commit_ok_iff (req : CommitRequest) (s : MemStore) (v : Z) :
  wf_commit req -> cr_BaseVersion req + 1 < two64 ->
  (Commit req s).2 = Ok v <->
  v = cr_BaseVersion req + 1 /\
  exists db, dbs s !! cr_Key req = Some db /\ is_Some (holder db) /\
    Epoch (lease db) = cr_LeaseEpoch req /\ (already_applied req db \/ applies req db).
Proof. apply Commit_spec. Qed.

Lemma commit_ok_iff_witness : (Commit c2 s1).2 = Ok 2.
Proof.
  apply (commit_ok_iff c2 s1 2).
  - apply wf_c. vm_compute. reflexivity.
  - vm_compute. reflexivity.
  - split; [reflexivity|]. exists db1. split_and!; [vm_compute; reflexivity|eexists; vm_compute; reflexivity|vm_compute; reflexivity|].
    right. split; [vm_compute; reflexivity|].
    apply ValidateCommit_ok. vm_compute. reflexivity.
Defined.

(** ** What a commit writes *)

(** Block [i] after the commit: the block of the commit, or the block before, or zeros where the
    file has grown. *)
Definition overlay (req : CommitRequest) (db : database) (i : Z) : bytes :=
  match list_find (fun b => Index b = i) (cr_Blocks req) with
  | Some (_, b) => Data b
  | None => if i <? PageCount (state db) then read_block db i else zeros (PageSize (state db))
  end.

Lemma read_block_beyond n db i :
  wf_db n db -> PageCount (state db) <= i -> read_block db i = zeros (PageSize (state db)).
Proof.
  intros Hwf Hi. unfold read_block. destruct (blocks db !! i) eqn:E; [|done].
  apply (wf_blocks _ _ Hwf) in E. lia.
Qed.

Lemma read_block_size n db i : wf_db n db -> zlen (read_block db i) = PageSize (state db).
Proof.
  intros Hwf. unfold read_block. destruct (blocks db !! i) eqn:E.
  - apply (wf_blocks _ _ Hwf _ _ E).
  - apply zlen_zeros. pose proof (ValidPageSize_range _ (wf_pagesize _ _ Hwf)).
    unfold MinPageSize in *. lia.
Qed.

Lemma read_block_commit n req db i :
  wf_db n db -> commit_ok (PageSize (state db)) req -> i < cr_PageCount req ->
  read_block (apply_commit req db) i = overlay req db i.
Proof.
  intros Hwf (_ & _ & Hnd) Hi. unfold read_block at 1, overlay. simpl.
  rewrite map_lookup_filter, foldl_insert_lookup by done.
  destruct (list_find _ _) as [[j b]|]; simpl.
  { by rewrite option_guard_True by (simpl; lia). }
  destruct (blocks db !! i) as [d|] eqn:E; simpl.
  - rewrite option_guard_True by (simpl; lia).
    pose proof (proj1 (wf_blocks _ _ Hwf _ _ E)) as Hlt. unfold read_block. rewrite E.
    rewrite (proj2 (Z.ltb_lt _ _)) by lia. done.
  - unfold read_block. rewrite E. by case_match.
Qed.

Lemma Commit_applied n req s s' v db :
  wf_store n s -> n < two64 - 1 -> wf_commit req -> dbs s !! cr_Key req = Some db ->
  Version (state db) = cr_BaseVersion req -> Commit req s = (s', Ok v) ->
  v = cr_BaseVersion req + 1 /\ s' = put (cr_Key req) (apply_commit req db) s /\
  commit_ok (PageSize (state db)) req /\ deleted db = false.
Proof.
  intros Hwf Hn (He & Hb & Hc & Hbl) Hk Hv HC. unfold Commit in HC. rewrite Hk in HC.
  pose proof (wf_lookup _ _ _ _ Hwf Hk) as Hdb. pose proof (wf_version _ _ Hdb).
  destruct (fenced _ _) eqn:Hf; [done|]. pose proof (not_fenced_live _ _ _ Hdb Hf) as Hlive.
  destruct (repeated _ _) eqn:Hr.
  { apply repeated_spec in Hr as (? & _); [lia|zlia..]. }
  rewrite Hv, Z.eqb_refl in HC. simpl in HC.
  destruct (ValidateCommit _ _) as [[]|e] eqn:Hval; [|done].
  injection HC as <- <-. apply ValidateCommit_ok in Hval. split_and!; try done.
  rewrite Hv. apply u64_small. zlia.
Qed.

Lemma Fetch_ok k ver first count s db :
  dbs s !! k = Some db -> deleted db = false -> ver = Version (state db) ->
  in_u64 first -> in_u64 count -> in_u64 (PageCount (state db)) ->
  first + count <= PageCount (state db) -> makeable count = true ->
  Fetch k ver first count s = Ok ((fun i => read_block db (first + i)) <$> seqZ 0 count).
Proof.
  intros Hk Hd -> Hf Hc Hp Hle Hmk. unfold Fetch. rewrite Hk, Hd, Z.eqb_refl. simpl.
  rewrite (proj2 (CheckRange_ok first count (PageCount (state db)) Hf Hc Hp)) by done.
  unfold make_blocks. rewrite Hmk. simpl. f_equal. apply list_fmap_ext. intros j i Hj. apply lookup_seqZ in Hj as [-> Hlt].
  by rewrite u64_small by zlia.
Qed.

(** What a client commits is what everyone fetches.  After a commit is applied, fetching any
    range below the new page count at the version the commit returned yields, block by block, the
    committed data, the data from before for blocks the commit did not write, and zeros where the
    file has grown; blocks at or beyond the new page count are gone. *)
Theorem commit_then_fetch (n : Z) (req : CommitRequest) (s s' : MemStore) (db : database)
    (v first count : Z) :
  wf_store n s -> n < two64 - 1 -> wf_commit req ->
  dbs s !! cr_Key req = Some db -> Version (state db) = cr_BaseVersion req ->
  Commit req s = (s', Ok v) ->
  0 <= first -> 0 <= count -> first + count <= cr_PageCount req -> makeable count = true ->
  Fetch (cr_Key req) v first count s' =
    Ok ((fun i => overlay req db (first + i)) <$> seqZ 0 count) /\
  forall i, cr_PageCount req <= i -> blocks (apply_commit req db) !! i = None.
Proof.
  intros Hwf Hn Hreq Hk Hv HC Hf Hc Hle.
  destruct (Commit_applied _ _ _ _ _ _ Hwf Hn Hreq Hk Hv HC) as (-> & -> & Hok & Hlive).
  pose proof (wf_lookup _ _ _ _ Hwf Hk) as Hdb. pose proof (wf_version _ _ Hdb).
  destruct Hreq as (_ & _ & Hpc & _). split.
  - assert (dbs (put (cr_Key req) (apply_commit req db) s) !! cr_Key req =
            Some (apply_commit req db)) as Hk' by (by rewrite lookup_put, decide_True).
    rewrite (Fetch_ok _ _ _ _ _ _ Hk'); simpl; try done; try zlia.
    f_equal. apply list_fmap_ext. intros j i Hj. apply lookup_seqZ in Hj as [-> Hlt].
    apply (read_block_commit n); [done..|lia].
  - intros i Hi. apply map_lookup_filter_None_2. right. intros d _. simpl. lia.
Qed.

Lemma commit_then_fetch_witness :
  Fetch kA 2 0 4 (Commit c2 s1).1 = Ok [page x01; page x03; page x02; page x00].
Proof.
  destruct (commit_then_fetch 2 c2 s1 (Commit c2 s1).1 db1 2 0 4) as [H _].
  - exact s1_wf.
  - vm_compute. reflexivity.
  - apply wf_c. vm_compute. reflexivity.
  - vm_compute. reflexivity.
  - vm_compute. reflexivity.
  - vm_compute. reflexivity.
  - lia.
  - lia.
  - simpl. lia.
  - reflexivity.
  - etransitivity; [exact H|]. vm_compute. reflexivity.
Defined.

(** A commit that a client sends again because the acknowledgement was lost is not applied
    twice: sent again right after it succeeded, at any later time, it returns the same version, and
    the store differs only in the lease's expiry. *)
Theorem commit_retry (n : Z) (req : CommitRequest) (s s' : MemStore) (v now : Z) :
  wf_store n s -> n < two64 - 1 -> wf_commit req -> cr_BaseVersion req + 1 < two64 ->
  Commit req s = (s', Ok v) ->
  exists db', dbs s' !! cr_Key req = Some db' /\
    Commit (mkCommitRequest (cr_Key req) (cr_CommitID req) (cr_LeaseEpoch req) (cr_BaseVersion req)
              (cr_PageCount req) (cr_Blocks req) now (cr_TTL req)) s' =
    (put (cr_Key req) (set_expires (now + cr_TTL req) db') s', Ok v).
Proof.
  intros Hwf Hn Hreq Hlt HC. pose proof (Commit_spec req s v Hreq Hlt) as Hiff.
  rewrite HC in Hiff. destruct (proj1 Hiff eq_refl) as (Hv & db & Hk & Hh & He & Hor).
  assert (exists db', dbs s' !! cr_Key req = Some db' /\ is_Some (holder db') /\
            Epoch (lease db') = cr_LeaseEpoch req /\ already_applied req db') as Hdb'.
  { destruct Hor as [Ha|[Hb Hok]].
    - unfold Commit in HC. rewrite Hk, (proj2 (not_fenced _ _) (conj Hh He)) in HC.
      rewrite (proj2 (repeated_spec req (state db) (proj1 (proj2 Hreq)) Hlt)) in HC by done.
      injection HC as <- _. eexists. by rewrite lookup_put, decide_True by done.
    - destruct (Commit_applied _ _ _ _ _ _ Hwf Hn Hreq Hk Hb HC) as (_ & -> & _ & _).
      eexists. rewrite lookup_put, decide_True by done. split_and!; try done.
      unfold already_applied. simpl. rewrite Hb. destruct Hok as (Hid & _). split_and!; [|done..].
      apply u64_small. pose proof (proj1 (proj2 Hreq)). zlia. }
  destruct Hdb' as (db' & Hk' & Hh' & He' & Ha'). exists db'. split; [done|].
  unfold Commit. simpl. rewrite Hk', (proj2 (not_fenced _ _) (conj Hh' He')).
  set (req' := mkCommitRequest _ _ _ _ _ _ _ _).
  rewrite (proj2 (repeated_spec req' (state db') (proj1 (proj2 Hreq)) Hlt)) by done.
  f_equal. f_equal. by destruct Ha' as [-> _].
Qed.

Lemma commit_retry_witness :
  exists db', dbs (Commit c2 s1).1 !! kA = Some db' /\
    Commit (commit_at kA x62 1 1 4 [mkBlock 1 (page x03)] 1050) (Commit c2 s1).1 =
    (put kA (set_expires 1150000 db') (Commit c2 s1).1, Ok 2).
Proof.
  apply (commit_retry 2 c2 s1 (Commit c2 s1).1 2 1050000).
  - exact s1_wf.
  - vm_compute. reflexivity.
  - apply wf_c. vm_compute. reflexivity.
  - vm_compute. reflexivity.
  - vm_compute. reflexivity.
Defined.

(** [Fetch] succeeds exactly for an existing database, at its current version and for a range
    that ends at or before the page count, and returns that range block by block, every block with
    the page size and zeros where nothing was written.  The end of the range is computed without
    wrap-around: no choice of 64-bit numbers reads beyond the file. *)
Theorem fetch_ok_iff (n : Z) (k : Key) (ver first count : Z) (s : MemStore) (data : list bytes) :
  wf_store n s -> in_u64 first -> in_u64 count ->
  Fetch k ver first count s = Ok data <->
  exists db, dbs s !! k = Some db /\ deleted db = false /\ ver = Version (state db) /\
    first + count <= PageCount (state db) /\ makeable count = true /\
    data = (fun i => read_block db (first + i)) <$> seqZ 0 count /\
    Forall (fun b => zlen b = PageSize (state db)) data.
Proof.
  intros Hwf Hf Hc. split.
  - intros HF. pose proof HF as HF0. unfold Fetch in HF0.
    destruct (dbs s !! k) as [db|] eqn:Hk; [|done]. pose proof (wf_lookup _ _ _ _ Hwf Hk) as Hdb.
    destruct (deleted db) eqn:Hd; [done|]. destruct (ver =? Version (state db)) eqn:Hv; [|done].
    bool_hyps. simpl in HF0. destruct (CheckRange _ _ _) as [u|] eqn:Hr; [|done].
    apply CheckRange_unit in Hr. pose proof (wf_pagecount _ _ Hdb).
    apply CheckRange_ok in Hr; [|done..].
    destruct (make_blocks count) eqn:Hmk; [|done]. unfold make_blocks in Hmk. destruct (makeable count) eqn:Hm; [|done].
    rewrite (Fetch_ok _ _ _ _ _ _ Hk Hd Hv) in HF by done. injection HF as <-.
    exists db. split_and!; try done. apply Forall_fmap, Forall_forall. intros i _.
    apply (read_block_size n db). done.
  - intros (db & Hk & Hd & Hv & Hle & Hm & -> & _). pose proof (wf_lookup _ _ _ _ Hwf Hk) as Hdb.
    apply Fetch_ok; try done. apply (wf_pagecount _ _ Hdb).
Qed.

Lemma fetch_ok_iff_witness :
  Fetch kA 1 1 2 s1 = Ok [page x00; page x02] /\
  forall data, Fetch kA 1 2 18446744073709551615 s1 <> Ok data.
Proof.
  split.
  - apply (fetch_ok_iff 2 kA 1 1 2 s1 _ s1_wf); [split; vm_compute; congruence..|].
    exists db1. split_and!; try (vm_compute; reflexivity). { vm_compute. congruence. }
    repeat constructor.
  - intros data H. apply (fetch_ok_iff 2 kA 1 2 _ s1 data s1_wf) in H;
      [|split; vm_compute; congruence..].
    destruct H as (db & Hk & _ & _ & Hle & _ & _).
    assert (db = db1) as -> by (vm_compute in Hk; injection Hk as <-; vm_compute; reflexivity).
    vm_compute in Hle. congruence.
Defined.
