(* ===== verification/MemoryHistory.v ===== *)
(** * The history of a database: no lost updates, and the change log

    Facts about executions of the memory store, by induction on the life of one database. *)

From S2P Require Import Prelude Store StoreFacts Memory Trace MemoryInv MemoryStep MemoryLease MemoryCommit Samples.

Local Open Scope Z_scope.

(** ** No lost updates *)

(** Version [v] was made by the commit [id], and either still is current or was superseded. *)
Definition made_by (v : Z) (id : bytes) (db : database) : Prop :=
  v < Version (state db) \/
  (Version (state db) = v /\ content (LastCommitID (state db)) = id /\ deleted db = false).

Lemma step_version n db db' :
  n < two64 - 1 -> wf_db n db -> db_step db db' ->
  Version (state db) <= Version (state db') <= Version (state db) + 1.
Proof.
  intros Hn Hwf Hs. pose proof (wf_version _ _ Hwf) as Hv.
  assert (u64 (Version (state db) + 1) = Version (state db) + 1) as Hu by (apply u64_small; zlia).
  inv Hs; simpl; rewrite ?Hu; lia.
Qed.

Lemma step_made_by n v id db db' :
  n < two64 - 1 -> wf_db n db -> db_step db db' -> made_by v id db -> made_by v id db'.
Proof.
  intros Hn Hwf Hs [Hlt|(Hv & Hid & Hd)].
  { left. pose proof (step_version _ _ _ Hn Hwf Hs). lia. }
  pose proof (wf_version _ _ Hwf) as Hver.
  assert (u64 (Version (state db) + 1) = Version (state db) + 1) as Hu by (apply u64_small; zlia).
  unfold made_by. inv Hs; simpl; rewrite ?Hu; try (right; done); try (left; lia). congruence.
Qed.

Lemma Commit_error req s s' e : Commit req s = (s', Err e) -> s' = s.
Proof. unfold Commit. intros HC. repeat case_match; by simplify_eq. Qed.

(** C8: No update is lost.  Once a commit based on a version has been applied, no commit with
    another commit ID and the same base version ever succeeds again, by whichever client, under
    whichever lease and after whatever calls, as long as the database keeps its record: it fails and
    changes nothing. *)
Theorem no_lost_update (ops0 ops : list op) (answers : list answer) (s1 s2 s3 : MemStore)
    (req1 req2 : CommitRequest) (db : database) (v : Z) :
  steps ops0 New answers s1 -> wf_commit req1 -> wf_commit req2 ->
  dbs s1 !! cr_Key req1 = Some db -> Version (state db) = cr_BaseVersion req1 ->
  Commit req1 s1 = (s2, Ok v) ->
  steps_while (has (cr_Key req1)) ops s2 s3 -> zlen ops0 + 1 + zlen ops < two64 ->
  cr_Key req2 = cr_Key req1 -> cr_BaseVersion req2 = cr_BaseVersion req1 ->
  content (cr_CommitID req2) <> content (cr_CommitID req1) ->
  exists e, Commit req2 s3 = (s3, Err e).
Proof.
  intros H0 Hw1 Hw2 Hk Hv HC Hw Hb Hkey Hbase Hid.
  pose proof (zlen_nonneg ops0). pose proof (zlen_nonneg ops).
  assert (wf_store (zlen ops0) s1) as Hwf by (eapply wf_reachable; [done|lia]).
  pose proof (wf_version _ _ (wf_lookup _ _ _ _ Hwf Hk)) as Hver.
  destruct (Commit_applied _ _ _ _ _ _ Hwf ltac:(lia) Hw1 Hk Hv HC) as (Hv1 & Hs2 & Hok & Hlive).
  assert (wf_store (zlen ops0 + 1) s2) as Hwf2 by (apply (wf_Commit _ req1 s1 s2 (Ok v)); [lia|done..]).
  destruct (life_ind (made_by v (content (cr_CommitID req1))) (cr_Key req1) (fun _ => True))
    with (ops := ops) (s := s2) (s' := s3) (n := zlen ops0 + 1) (db := apply_commit req1 db)
    as (db' & Hk' & Hmade & _); try done; try lia.
  - intros m d d' Hm Hd _ _ _. by apply (step_made_by m).
  - eapply while_mono; [|done]. intros t [d Hd]. by exists d.
  - by rewrite Hs2, lookup_put, decide_True.
  - right. simpl. split_and!; [|done|done]. rewrite Hv, Hv1. apply u64_small. zlia.
  - destruct (Commit req2 s3) as [s4 [v2|e]] eqn:HC2.
    + exfalso. pose proof (Commit_spec req2 s3 v2 Hw2 ltac:(lia)) as Hspec. rewrite HC2 in Hspec.
      destruct (proj1 Hspec eq_refl) as (_ & db2 & Hk2 & _ & _ & Hor). rewrite Hkey in Hk2.
      simplify_eq. unfold already_applied, applies, made_by in *. rewrite Hbase in Hor.
      destruct Hmade as [Hlt|(Heq & Hlast & _)], Hor as [(Ha & _ & Hc)|[Ha _]]; try lia. congruence.
    + exists e. by rewrite (Commit_error _ _ _ _ HC2).
Qed.

Lemma no_lost_update_witness :
  exists e, Commit (commit_at kA x7a 2 0 9 [] 1015) s3 = (s3, Err e).
Proof.
  pose (o1 := OpOpen [x0a] (open_at kA x01 false 1000)). pose (t := (run [o1] New).1).
  pose (later := OpOpen [x0b] take2 :: ops3).
  apply (no_lost_update [o1] later (run [o1] New).2 t s1 s3 c1
           (commit_at kA x7a 2 0 9 [] 1015) (default (new_database 512) (dbs t !! kA)) 1).
  - apply run_check. vm_compute. reflexivity.
  - apply wf_c. vm_compute. reflexivity.
  - apply wf_c. vm_compute. reflexivity.
  - vm_compute. reflexivity.
  - vm_compute. reflexivity.
  - vm_compute. reflexivity.
  - replace s3 with (run later s1).1 by (vm_compute; reflexivity).
    apply (while_check (has kA) later s1). vm_compute. reflexivity.
  - vm_compute. reflexivity.
  - reflexivity.
  - reflexivity.
  - vm_compute. congruence.
Defined.

(** ** The change log *)

Lemma foldl_union_elem (l : list Z) (acc : gset Z) i :
  i ∈ foldl (fun a j => {[j]} ∪ a) acc l <-> i ∈ l \/ i ∈ acc.
Proof. revert acc. induction l as [|j l IH]; intros acc; simpl; [set_solver|]. rewrite IH. set_solver. Qed.

Lemma changed_since_elem from log i :
  i ∈ changed_since from log <-> exists c, c ∈ log /\ from < version c /\ i ∈ blocks_of c.
Proof.
  unfold changed_since. rewrite sort_indexes_perm, elem_of_elements.
  assert (forall acc : gset Z,
    i ∈ foldl (fun acc c => if version c <=? from then acc
                            else foldl (fun a j => {[j]} ∪ a) acc (blocks_of c)) acc log <->
    (exists c, c ∈ log /\ from < version c /\ i ∈ blocks_of c) \/ i ∈ acc) as Hgen.
  { induction log as [|c log IH]; intros acc; simpl; [set_solver|].
    rewrite IH. destruct (version c <=? from) eqn:E; bool_hyps.
    - setoid_rewrite elem_of_cons. naive_solver lia.
    - rewrite foldl_union_elem. setoid_rewrite elem_of_cons. naive_solver. }
  rewrite Hgen. set_solver.
Qed.

(** The log still covers every version after [v]. *)
Definition reaches (v : Z) (db : database) : Prop :=
  Version (state db) = v \/ exists c rest, changes db = c :: rest /\ version c <= v + 1.

Lemma Changes_complete n k from s db cs :
  wf_store n s -> n < two64 -> dbs s !! k = Some db -> 0 <= from ->
  Changes k from s = Ok cs ->
  deleted db = false /\ from <= Version (state db) /\ FromVersion cs = from /\
  ToVersion cs = Version (state db) /\ (Complete cs = true <-> reaches from db) /\
  (Complete cs = true ->
     forall i, i ∈ cs_Blocks cs <-> i ∈ changed_since from (changes db)) /\
  (Complete cs = false -> cs_Blocks cs = []).
Proof.
  intros Hwf Hn Hk Hf HC. pose proof (wf_lookup _ _ _ _ Hwf Hk) as Hdb.
  pose proof (wf_version _ _ Hdb) as Hv. unfold Changes in HC. rewrite Hk in HC.
  destruct (deleted db); [done|]. destruct (_ <? from) eqn:E; [done|]. bool_hyps.
  pose proof (wf_log _ _ Hdb) as (_ & _ & Hlog).
  destruct (Z.eqb_spec from (Version (state db))) as [Heq|Hne].
  { injection HC as <-. unfold reaches. simpl.
    split; [done|]. split; [lia|]. split; [done|]. split; [done|].
    split; [by split; [left|]|]. split; [|done]. intros _ i. rewrite changed_since_elem. split; [set_solver|].
    intros (c & Hc & Hlt & _). apply list_elem_of_lookup in Hc as [j Hj].
    pose proof (lookup_lt_Some _ _ _ Hj). apply Hlog in Hj. unfold zlen in Hj. lia. }
  unfold reaches. destruct (changes db) as [|c0 rest] eqn:Hch.
  { injection HC as <-. simpl.
    split; [done|]. split; [lia|]. split; [done|]. split; [done|]. split; [|done].
    split; [done|]. naive_solver lia. }
  rewrite u64_small in HC by zlia.
  destruct (_ <? version c0) eqn:Hc0; bool_hyps; injection HC as <-; simpl.
  - split; [done|]. split; [lia|]. split; [done|]. split; [done|]. split; [|done].
    split; [done|]. naive_solver lia.
  - split; [done|]. split; [lia|]. split; [done|]. split; [done|]. split; [|done].
    split; [|done]. intros _. right. eauto.
Qed.

(** Appending to the log drops at most its first entry. *)
Lemma log_change_cases c log :
  zlen log <= ChangeWindow ->
  log_change c log = log ++ [c] \/
  exists c0 rest, log = c0 :: rest /\ log_change c log = rest ++ [c].
Proof.
  intros Hl. unfold log_change. rewrite zlen_app. change (zlen [c]) with 1.
  destruct (ChangeWindow <? zlen log + 1) eqn:E; bool_hyps; [|by left].
  unfold ChangeWindow in *. destruct log as [|c0 rest].
  - unfold zlen in E. simpl in E. lia.
  - right. exists c0, rest. split; [done|].
    by replace (zlen (c0 :: rest) + 1 - 1024) with 1 by lia.
Qed.

Lemma log_head_next v c0 c1 rest : log_ok v (c0 :: c1 :: rest) -> version c1 = version c0 + 1.
Proof.
  intros (_ & _ & Hj). pose proof (Hj 0%nat c0 eq_refl). pose proof (Hj 1%nat c1 eq_refl). lia.
Qed.

(** A commit that leaves the log reaching back to [v] found it so, and dropped no entry after
    [v]. *)
Lemma reaches_commit n v req db :
  n < two64 - 1 -> wf_db n db -> v <= Version (state db) ->
  reaches v (apply_commit req db) ->
  reaches v db /\
  forall i, i ∈ changed_since v (changes db) \/ i ∈ Index <$> cr_Blocks req ->
    i ∈ changed_since v (changes (apply_commit req db)).
Proof.
  intros Hn Hwf Hv Hr. pose proof (wf_version _ _ Hwf) as Hver. pose proof (wf_log _ _ Hwf) as Hlog.
  assert (u64 (Version (state db) + 1) = Version (state db) + 1) as Hu by (apply u64_small; zlia).
  destruct Hr as [Hr|(c & rest' & Hlog' & Hc)]; [simpl in Hr; lia|].
  simpl in Hlog'. rewrite Hu in Hlog'.
  set (new := mkChange (Version (state db) + 1) (sort_indexes (Index <$> cr_Blocks req))) in *.
  assert (forall i, i ∈ Index <$> cr_Blocks req -> i ∈ blocks_of new) as Hnew.
  { intros i Hi. simpl. by rewrite sort_indexes_perm. }
  assert (new ∈ log_change new (changes db)) as Hin.
  { destruct (log_change_cases new (changes db)) as [->|(? & ? & _ & ->)]; [apply Hlog|set_solver..]. }
  assert (forall c', c' ∈ changes db -> c' ∈ log_change new (changes db) \/ version c' <= v)
    as Hkeep.
  { intros c' Hc'. destruct (log_change_cases new (changes db)) as [->|(c0 & rest & Heq & Hlc)];
      [apply Hlog|set_solver|]. rewrite Hlc. rewrite Heq in Hc', Hlog.
    apply elem_of_cons in Hc' as [->|?]; [|set_solver]. right.
    rewrite Hlog' in Hlc. destruct rest as [|c1 rest]; simpl in Hlc; simplify_eq.
    - destruct Hlog as (_ & _ & Hj). specialize (Hj 0%nat c0 eq_refl). simpl in Hj.
      unfold zlen in Hj. simpl in *. lia.
    - pose proof (log_head_next _ _ _ _ Hlog). lia. }
  split.
  - destruct (log_change_cases new (changes db)) as [Hlc|(c0 & rest & Heq & Hlc)]; [apply Hlog| |].
    + rewrite Hlog' in Hlc. destruct (changes db) as [|c0 rest] eqn:Hch; simpl in Hlc; simplify_eq.
      * left. simpl in Hc. lia.
      * right. rewrite Hch. eauto.
    + right. exists c0, rest. split; [done|]. rewrite Heq in Hlog.
      rewrite Hlog' in Hlc. destruct rest as [|c1 rest]; simpl in Hlc; simplify_eq.
      * destruct Hlog as (_ & _ & Hj). specialize (Hj 0%nat c0 eq_refl).
        unfold zlen in Hj. simpl in *. lia.
      * pose proof (log_head_next _ _ _ _ Hlog). lia.
  - intros i. cbn [changes apply_commit]. rewrite !changed_since_elem. simpl. rewrite Hu. fold new.
    intros [(c' & Hc' & Hlt & Hi)|Hi].
    + destruct (Hkeep c' Hc') as [?|?]; [by exists c'|lia].
    + exists new. split_and!; [done|simpl; lia|by apply Hnew].
Qed.

(** What the change log promises about block [i] since the database was [db0]. *)
Definition log_covers (db0 : database) (i : Z) (db : database) : Prop :=
  Version (state db0) <= Version (state db) /\
  (reaches (Version (state db0)) db ->
   PageSize (state db) = PageSize (state db0) /\
   (i ∉ changed_since (Version (state db0)) (changes db) -> blocks db !! i = blocks db0 !! i)).

Lemma step_log_covers n db0 i db db' :
  n < two64 - 1 -> wf_db n db -> 0 <= i -> i < PageCount (state db) -> i < PageCount (state db') ->
  db_step db db' -> log_covers db0 i db -> log_covers db0 i db'.
Proof.
  intros Hn Hwf Hi Hlt Hlt' Hs [Hv Hc].
  pose proof (step_version _ _ _ Hn Hwf Hs) as Hver. split; [lia|].
  inv Hs; try exact Hc.
  - destruct (wf_deleted _ _ Hwf) as (Hpc & _); [done|]. lia.
  - intros Hr. destruct (reaches_commit _ _ _ _ Hn Hwf Hv Hr) as [Hr0 Hin].
    destruct (Hc Hr0) as [Hps Hbl]. split; [done|]. intros Hni.
    rewrite <- Hbl by (intros Hx; apply Hni, Hin; by left).
    assert (i ∉ Index <$> cr_Blocks req) as Hnb by (intros Hx; apply Hni, Hin; by right).
    simpl. rewrite map_lookup_filter, foldl_insert_lookup by apply H4.
    destruct (list_find _ _) as [[j b]|] eqn:Hf.
    { exfalso. apply list_find_Some in Hf as (Hj & <- & _). apply Hnb.
      apply list_elem_of_fmap_2. by eapply list_elem_of_lookup_2. }
    destruct (blocks db !! i); simpl; [|done]. simpl in Hlt'. by rewrite option_guard_True.
  - simpl in Hlt'. lia.
Qed.

(** Database [k] exists and has more than [i] pages. *)
Definition has_block (k : Key) (i : Z) (s : MemStore) : Prop :=
  exists db, dbs s !! k = Some db /\ i < PageCount (state db).

Lemma log_covers_since ops0 ops answers s0 s1 k db0 db1 i :
  steps ops0 New answers s0 -> dbs s0 !! k = Some db0 -> 0 <= i -> steps_while (has_block k i) ops s0 s1 ->
  zlen ops0 + zlen ops < two64 -> dbs s1 !! k = Some db1 -> log_covers db0 i db1.
Proof.
  intros H0 Hk0 Hi Hw Hb Hk1. pose proof (zlen_nonneg ops0). pose proof (zlen_nonneg ops).
  assert (wf_store (zlen ops0) s0) as Hwf by (eapply wf_reachable; [done|lia]).
  destruct (life_ind (log_covers db0 i) k (fun db => i < PageCount (state db)))
    with (ops := ops) (s := s0) (s' := s1) (n := zlen ops0) (db := db0)
    as (db & Hk & Hcov & _); try done.
  - intros m d d' Hm Hd _ Hq Hq'. by apply (step_log_covers m).
  - by simplify_eq.
Qed.

(** A block that a complete change set does not list is that of the copy. *)
Lemma unlisted_block n s k db0 db i cs :
  wf_store n s -> n < two64 -> 0 <= Version (state db0) -> dbs s !! k = Some db -> log_covers db0 i db ->
  Changes k (Version (state db0)) s = Ok cs -> Complete cs = true -> i ∉ cs_Blocks cs ->
  read_block db i = read_block db0 i /\ PageSize (state db) = PageSize (state db0).
Proof.
  intros Hwf Hn Hv Hk [_ Hcov] HC Hcomp Hni.
  destruct (Changes_complete _ _ _ _ _ _ Hwf Hn Hk Hv HC) as (_ & _ & _ & _ & Hreach & Hblocks & _).
  destruct (Hcov (proj1 Hreach Hcomp)) as [Hps Hbl].
  unfold read_block. rewrite Hps, Hbl; [done|]. by rewrite <- Hblocks.
Qed.

(** C17: A complete change set tells a client which blocks of its copy are stale.  Take a client
    whose copy is a reachable state [s0] of database [k], and any later state.  If the store then
    reports the changes since the client's version as complete, a block that the set does not list
    and that stayed below the page count all the time has the same content as in the copy, and
    the page size is the same. *)
Theorem change_set_covers (ops0 ops : list op) (answers : list answer) (s0 s1 : MemStore)
    (k : Key) (db0 db1 : database) (i : Z) (cs : ChangeSet) :
  steps ops0 New answers s0 -> dbs s0 !! k = Some db0 -> 0 <= i ->
  steps_while (has_block k i) ops s0 s1 ->
  zlen ops0 + zlen ops < two64 -> dbs s1 !! k = Some db1 ->
  Changes k (Version (state db0)) s1 = Ok cs -> Complete cs = true -> i ∉ cs_Blocks cs ->
  read_block db1 i = read_block db0 i /\ PageSize (state db1) = PageSize (state db0).
Proof.
  intros H0 Hk0 Hi Hw Hb Hk1. pose proof (zlen_nonneg ops0). pose proof (zlen_nonneg ops).
  assert (wf_store (zlen ops0) s0) as Hwf by (eapply wf_reachable; [done|lia]).
  destruct (while_steps _ _ _ _ Hw) as [answers' Hs'].
  apply (unlisted_block (zlen ops0 + zlen ops)); [|done| |done|by eapply log_covers_since].
  - eapply (wf_steps ops s0 answers' s1 (zlen ops0)); [done|lia..|done].
  - pose proof (wf_version _ _ (wf_lookup _ _ _ _ Hwf Hk0)). lia.
Qed.

#[export] Instance has_block_decision k i s : Decision (has_block k i s).
Proof.
  destruct (dbs s !! k) as [db|] eqn:E; [|right; intros (db & H & _); congruence].
  destruct (decide (i < PageCount (state db))) as [H|H]; [left; by exists db|].
  right. intros (db' & H' & Hlt). congruence.
Defined.

Lemma change_set_covers_witness :
  Changes kA 1 s3 = Ok (mkChangeSet 1 2 [1] true) /\
  read_block db3 2 = read_block db1 2 /\ PageSize (state db3) = PageSize (state db1).
Proof.
  split; [vm_compute; reflexivity|]. pose (later := OpOpen [x0b] take2 :: ops3).
  apply (change_set_covers ops1 later (run ops1 New).2 s1 s3 kA db1 db3 2
           (mkChangeSet 1 2 [1] true)).
  - exact s1_steps.
  - vm_compute. reflexivity.
  - lia.
  - replace s3 with (run later s1).1 by (vm_compute; reflexivity).
    apply (while_check (has_block kA 2) later s1). vm_compute. reflexivity.
  - vm_compute. reflexivity.
  - vm_compute. reflexivity.
  - vm_compute. reflexivity.
  - reflexivity.
  - set_solver.
Defined.

(** ** Deletion and the change log *)

(** The change log never spans a deletion.  Once a database has been deleted, no later change
    set since a version from before the deletion is reported as complete, also after the database was
    created and committed to again: a client with a copy of the deleted database has to discard it. *)
Theorem deletion_ends_change_log (ops0 ops : list op) (answers : list answer) (s0 s1 s2 : MemStore)
    (req : DeleteRequest) (r : DeleteResult) (db0 : database) (from : Z) (cs : ChangeSet) :
  steps ops0 New answers s0 -> dbs s0 !! dr_Key req = Some db0 -> deleted db0 = false ->
  Delete req s0 = (s1, Ok r) ->
  steps_while (has (dr_Key req)) ops s1 s2 -> zlen ops0 + 1 + zlen ops < two64 ->
  0 <= from <= Version (state db0) -> Changes (dr_Key req) from s2 = Ok cs ->
  Complete cs = false /\ cs_Blocks cs = [].
Proof.
  intros H0 Hk0 Hd HD Hw Hb Hf HC. pose proof (zlen_nonneg ops0). pose proof (zlen_nonneg ops).
  assert (wf_store (zlen ops0) s0) as Hwf by (eapply wf_reachable; [done|lia]).
  pose proof (wf_lookup _ _ _ _ Hwf Hk0) as Hdb0. pose proof (wf_version _ _ Hdb0) as Hv0.
  assert (s1 = put (dr_Key req) (remove db0) s0) as ->.
  { unfold Delete in HD. rewrite Hk0, Hd in HD. case_match; by simplify_eq. }
  assert (wf_db (zlen ops0 + 1) (remove db0)) as Hwfr by (apply wf_remove; [lia|done]).
  assert (wf_store (zlen ops0 + 1) (put (dr_Key req) (remove db0) s0)) as Hwf1.
  { apply wf_put; [|done]. eapply wf_store_mono; [|done]. lia. }
  destruct (while_steps _ _ _ _ Hw) as [answers' Hs'].
  assert (wf_store (zlen ops0 + 1 + zlen ops) s2) as Hwf2
    by (eapply (wf_steps ops _ answers' s2 (zlen ops0 + 1)); [done|lia..|done]).
  destruct (life_ind (fun db => from < Version (state db) /\ ~ reaches from db) (dr_Key req)
              (fun _ => True))
    with (ops := ops) (s := put (dr_Key req) (remove db0) s0) (s' := s2) (n := zlen ops0 + 1)
         (db := remove db0) as (db & Hk & [Hlt Hnr] & _); try done; try lia.
  - intros m d d' Hm Hd1 _ _ _ Hs [Hlt Hnr]. pose proof (step_version _ _ _ Hm Hd1 Hs).
    split; [lia|]. intros Hr. apply Hnr. inv Hs; try exact Hr.
    + destruct Hr as [Hr|(c & rest & Hr & _)]; [by left|done].
    + by eapply reaches_commit; [|done|..]; [done|lia|].
    + destruct Hr as [Hr|(c & rest & Hr & _)]; [|done]. simpl in *. lia.
  - eapply while_mono; [|done]. intros t [d Hd']. by exists d.
  - by rewrite lookup_put, decide_True.
  - simpl. rewrite u64_small by zlia. split; [lia|]. unfold reaches. simpl.
    rewrite u64_small by zlia. intros [?|(c & rest & ? & _)]; [lia|done].
  - destruct (Changes_complete _ _ _ _ _ _ Hwf2 ltac:(lia) Hk (proj1 Hf) HC)
      as (_ & _ & _ & _ & Hreach & _ & Hempty).
    destruct (Complete cs); [exfalso; by apply Hnr, Hreach|]. auto.
Qed.

Lemma deletion_ends_change_log_witness :
  exists cs t, Changes kA 1 t = Ok cs /\ Complete cs = false /\ cs_Blocks cs = [].
Proof.
  pose (d := mkDeleteRequest kA true (1003 * Microsecond)). pose (t0 := (Delete d s1).1).
  pose (again := [OpOpen [x0d] (open_at kA x01 false 1004);
                  OpCommit (commit_at kA x64 3 2 1 [mkBlock 0 (page x07)] 1005)]).
  exists (mkChangeSet 1 3 [] false), (run again t0).1. split; [vm_compute; reflexivity|].
  apply (deletion_ends_change_log ops1 again (run ops1 New).2 s1 t0 (run again t0).1 d
           (mkDeleteResult 2 true) db1 1).
  - exact s1_steps.
  - vm_compute. reflexivity.
  - vm_compute. reflexivity.
  - vm_compute. reflexivity.
  - apply (while_check (has kA) again t0). vm_compute. reflexivity.
  - vm_compute. reflexivity.
  - split; vm_compute; congruence.
  - vm_compute. reflexivity.
Defined.

(** ** A block that was truncated and grew back *)

Definition grow_and_shrink : list op :=
  [OpOpen [x0a] (open_at kA x01 false 1000);
   OpCommit (commit_at kA x61 1 0 3 [mkBlock 0 (page x01); mkBlock 1 (page x02)] 1001);
   OpCommit (commit_at kA x62 1 1 1 [] 1002);
   OpCommit (commit_at kA x63 1 2 3 [] 1003)].

(** The side condition of the change set theorem is needed: a change set that is reported as
    complete does not list blocks that a commit truncated away and a later commit grew back.  A database
    of three pages is cut to one page and grown to three again without writing pages: the
    change set since the first version is complete and empty, but page 1 now reads as zeros. *)
Theorem truncated_block_not_in_change_set :
  let before := (run (take 2 grow_and_shrink) New).1 in
  let after := (run grow_and_shrink New).1 in
  Changes kA 1 after = Ok (mkChangeSet 1 3 [] true) /\
  Fetch kA 1 1 1 before = Ok [page x02] /\ Fetch kA 3 1 1 after = Ok [page x00].
Proof. vm_compute. split_and!; reflexivity. Qed.

(** ** The invariant of reachable states *)

(** Every state that fewer than 2^64 calls on an empty store reach is well formed: versions and
    epochs have not wrapped, every stored block lies below the page count and has the page size, page
    sizes are valid, the change log holds at most 1024 consecutive versions up to the current one, with
    sorted indexes without duplicates, and a deleted database is empty and has no holder. *)
Theorem reachable_stores_are_wf (ops : list op) (answers : list answer) (s : MemStore) :
  steps ops New answers s -> zlen ops < two64 -> wf_store (zlen ops) s.
Proof. apply wf_reachable. Qed.

Lemma reachable_stores_are_wf_witness : wf_store 4 s4.
Proof. apply (reachable_stores_are_wf ops4 _ s4 s4_steps). reflexivity. Defined.

(** Versions and lease epochs never go back while a database keeps its record, also across
    deletion and new creation, and the version grows by at most one with each call. *)
Theorem versions_and_epochs_grow (ops0 ops : list op) (answers : list answer) (s s' : MemStore)
    (k : Key) (db : database) :
  steps ops0 New answers s -> dbs s !! k = Some db -> steps_while (has k) ops s s' ->
  zlen ops0 + zlen ops < two64 ->
  exists db', dbs s' !! k = Some db' /\ Epoch (lease db) <= Epoch (lease db') /\
    Version (state db) <= Version (state db') <= Version (state db) + zlen ops.
Proof.
  intros H0 Hk Hw Hb. pose proof (zlen_nonneg ops0).
  assert (wf_store (zlen ops0) s) as Hwf by (eapply wf_reachable; [done|pose proof (zlen_nonneg ops); lia]).
  revert H Hb Hwf Hk. generalize (zlen ops0) as n. clear H0. revert db.
  induction Hw as [s _|o ops s t s' a Hh Hl Hst Hrest IH]; intros db n Hn Hb Hwf Hk.
  { exists db. unfold zlen. simpl. split_and!; [done|lia..]. }
  pose proof (zlen_nonneg ops). change (zlen (o :: ops)) with (Z.of_nat (S (length ops))) in *.
  unfold zlen in *. destruct (while_here _ _ _ _ Hrest) as [[d Hd] _].
  assert (wf_store (n + 1) t) as Hwf1 by (eapply wf_step; [|done..]; zlia).
  pose proof (step_db _ _ _ _ _ _ _ _ Hwf Hl Hst Hk Hd) as Hs.
  pose proof (wf_lookup _ _ _ _ Hwf Hk) as Hdb.
  assert (n < two64 - 1) as Hn1 by lia. pose proof (step_version _ _ _ Hn1 Hdb Hs).
  assert (Epoch (lease db) <= Epoch (lease d))
    by (destruct (step_epoch _ _ _ Hn1 Hdb Hs) as [[-> _] | ->]; lia).
  destruct (IH d (n + 1)) as (db' & Hk' & He & Hv); [lia|lia|done|done|].
  exists db'. split_and!; [done|lia..].
Qed.

Lemma versions_and_epochs_grow_witness :
  exists db', dbs s3 !! kA = Some db' /\ Epoch (lease db2) <= Epoch (lease db') /\
    Version (state db2) <= Version (state db') <= Version (state db2) + 2.
Proof.
  apply (versions_and_epochs_grow ops2 ops3 _ s2 s3 kA db2 s2_steps).
  - vm_compute. reflexivity.
  - exact s3_while.
  - vm_compute. reflexivity.
Defined.
