(* ===== verification/MemorySlots.v ===== *)
(** * Slots, isolation and the loss of records in the memory store

    Which databases a call may touch, which calls drop a database's record, and what claiming and
    deleting a slot do. *)

From S2P Require Import Prelude Store StoreFacts Memory Trace MemoryInv MemoryStep MemoryLease Samples.

Local Open Scope Z_scope.
Local Open Scope string_scope.

(** ** Frame: what a call may touch *)

(** The subject whose databases a slot call deletes. *)
Definition purged (o : op) (s : MemStore) : option string :=
  match o with
  | OpClaimSlot req =>
      slot ← slots s !! cl_Owner req;
      if decide (slot_Subject slot = cl_Subject req) then None else Some (slot_Subject slot)
  | OpDeleteSlot owner subject =>
      match slots s !! owner with
      | Some slot => if decide (slot_Subject slot = subject) then Some subject else None
      | None => Some subject
      end
  | _ => None
  end.

(** The databases a call is about. *)
Definition touches (o : op) (s : MemStore) (k : Key) : Prop :=
  match o with
  | OpOpen _ req => or_Key req = k
  | OpCommit req => cr_Key req = k
  | OpRenew k' _ _ _ | OpRelease k' _ => k' = k
  | OpDelete req => dr_Key req = k
  | OpDeleteUnused _ cutoff _ => is_unused cutoff s k = true
  | OpClaimSlot _ | OpDeleteSlot _ _ => purged o s = Some (Subject k)
  | _ => False
  end.

(** The calls that remove the whole record of [k], with its epoch and version. *)
Definition drops (o : op) (s : MemStore) (k : Key) : Prop :=
  match o with
  | OpDeleteUnused ord cutoff n => k ∈ select_unused ord cutoff n s /\ Subject k ∈ slotHolders s
  | _ => purged o s = Some (Subject k)
  end.

Lemma purge_dbs subject s k :
  dbs (purge subject s).1 !! k = if decide (Subject k = subject) then None else dbs s !! k.
Proof.
  unfold purge. simpl. rewrite map_lookup_filter. destruct (dbs s !! k); simpl; [|by case_decide].
  case_decide as Hs; [by rewrite option_guard_False by tauto|by rewrite option_guard_True].
Qed.

#[local] Opaque purge DeleteUnused.

Lemma slot_call_dbs o s k :
  match o with OpClaimSlot _ | OpDeleteSlot _ _ => True | _ => False end ->
  dbs (step o s).1 !! k = if decide (purged o s = Some (Subject k)) then None else dbs s !! k.
Proof.
  destruct o as [| | | | | | | | |req| |owner subject]; intros []; simpl; unfold purged.
  - unfold ClaimSlot. destruct (slots s !! cl_Owner req) as [old|]; simpl; [|done].
    destruct (decide (slot_Subject old = cl_Subject req)).
    + rewrite bool_decide_true by done. done.
    + rewrite bool_decide_false by done. pose proof (purge_dbs (slot_Subject old) s k) as Hp.
      destruct (purge _ s) as [s1 gone]. unfold put_slot. simpl in *. rewrite Hp.
      repeat case_decide; naive_solver congruence.
  - unfold DeleteSlot. destruct (slots s !! owner) as [slot|]; simpl.
    + destruct (decide (slot_Subject slot = subject)).
      * rewrite bool_decide_true by done. simpl.
        pose proof (purge_dbs subject (mkStore (dbs s) (delete owner (slots s))) k) as Hp.
        destruct (purge _ _) as [s1 gone]. simpl in *. rewrite Hp.
        repeat case_decide; naive_solver congruence.
      * by rewrite bool_decide_false by done.
    + pose proof (purge_dbs subject s k) as Hp. destruct (purge _ _) as [s1 gone]. simpl in *.
      rewrite Hp. repeat case_decide; naive_solver congruence.
Qed.

Lemma Open_other n newID req s k :
  wf_store n s -> or_Key req <> k -> dbs (Open newID req s).1 !! k = dbs s !! k.
Proof.
  intros Hwf Hne. destruct (Open newID req s) as [s' [res|e]] eqn:HO; simpl.
  - destruct (Open_ok _ _ _ _ _ _ Hwf HO) as (? & db' & _ & _ & -> & _).
    by rewrite lookup_put, decide_False.
  - by rewrite (Open_error _ _ _ _ _ _ Hwf HO).
Qed.

Lemma step_other n o s k :
  wf_store n s -> match o with OpDeleteUnused ord _ _ => NoDup ord | _ => True end ->
  ~ touches o s k -> dbs (step o s).1 !! k = dbs s !! k.
Proof.
  intros Hwf Hl Hnt. destruct o; simpl in Hnt; try done.
  - simpl. pose proof (Open_other n newID req s k Hwf Hnt). by destruct (Open newID req s).
  - simpl. unfold Commit. repeat case_match; simplify_eq; try done; by apply lookup_insert_ne.
  - simpl. unfold Renew. repeat case_match; simplify_eq; try done; by apply lookup_insert_ne.
  - simpl. unfold Release. repeat case_match; simplify_eq; try done; by apply lookup_insert_ne.
  - simpl. unfold Delete. repeat case_match; simplify_eq; try done; by apply lookup_insert_ne.
  - simpl. pose proof (DeleteUnused_lookup order cutoff limit s k Hl) as Hd.
    destruct (DeleteUnused _ _ _ _). simpl in *. rewrite Hd, decide_False; [done|].
    intros [? _]%select_unused_elem. done.
  - rewrite slot_call_dbs by done. by rewrite decide_False.
  - simpl. unfold SetSlotLabel. repeat case_match; by simplify_eq.
  - rewrite slot_call_dbs by done. by rewrite decide_False.
Qed.

(** Calls are isolated.  A call changes only the databases it is about: [Open], [Commit],
    [Renew], [Release] and [Delete] the one with their key, [DeleteUnused] only databases whose lease
    expired before the cutoff, [ClaimSlot] and [DeleteSlot] only those of the subject that loses the
    slot; all other calls change no database. *)
Theorem step_isolated (n : Z) (o : op) (s s' : MemStore) (a : answer) (k : Key) :
  wf_store n s -> legal o s -> step o s = (s', a) -> ~ touches o s k ->
  dbs s' !! k = dbs s !! k.
Proof.
  intros Hwf Hl Hstep Hnt. assert (s' = (step o s).1) as -> by by rewrite Hstep.
  apply (step_other n); try done. destruct o; try done. apply Hl.
Qed.

Lemma step_isolated_witness :
  dbs (step (OpClaimSlot (claim "alice")) s4).1 !! kA = dbs s4 !! kA /\
  dbs (step (OpClaimSlot (claim "alice")) s4).1 !! kB = None.
Proof.
  split; [|vm_compute; reflexivity].
  apply (step_isolated 4 (OpClaimSlot (claim "alice")) s4 _
           (step (OpClaimSlot (claim "alice")) s4).2 kA s4_wf).
  - exact I.
  - by destruct (step _ s4).
  - vm_compute. congruence.
Defined.

Lemma keeps_put k k' db s : has k s -> has k (put k' db s).
Proof. unfold has. rewrite lookup_put. case_decide; [by eexists|done]. Qed.
#[export] Hint Resolve keeps_put : go.

Lemma Open_keeps n newID req s k : wf_store n s -> has k s -> has k (Open newID req s).1.
Proof.
  intros Hwf Hh. destruct (Open newID req s) as [s' [res|e]] eqn:HO; simpl.
  - destruct (Open_ok _ _ _ _ _ _ Hwf HO) as (? & db' & _ & _ & -> & _). by apply keeps_put.
  - by rewrite (Open_error _ _ _ _ _ _ Hwf HO).
Qed.

Lemma Commit_keeps req s k : has k s -> has k (Commit req s).1.
Proof. intros. unfold Commit. repeat case_match; simpl; eauto with go. Qed.

Lemma Renew_keeps k' e now ttl s k : has k s -> has k (Renew k' e now ttl s).1.
Proof. intros. unfold Renew. repeat case_match; simpl; eauto with go. Qed.

Lemma Release_keeps k' e s k : has k s -> has k (Release k' e s).1.
Proof. intros. unfold Release. repeat case_match; simpl; eauto with go. Qed.

Lemma Delete_keeps req s k : has k s -> has k (Delete req s).1.
Proof. intros. unfold Delete. repeat case_match; simpl; eauto with go. Qed.

Lemma SetSlotLabel_keeps owner subject label s k :
  has k s -> has k (SetSlotLabel owner subject label s).1.
Proof. intros. unfold SetSlotLabel. repeat case_match; simpl; eauto with go. Qed.

(** A call that keeps every record, from its lemma. *)
Ltac kept lem :=
  simpl; let H := fresh in pose proof lem as H;
  match type of H with has _ (?c).1 => destruct c; simpl in *; split; [by intros []|done] end.

(** The record of a database, with its lease epoch and version, is lost in exactly three ways:
    another key claims the slot of its subject, its subject's slot is deleted, or [DeleteUnused]
    selects it while its subject holds a slot.  Every other call, deletion included, keeps it. *)
Theorem record_lost_iff (n : Z) (o : op) (s s' : MemStore) (a : answer) (k : Key) :
  wf_store n s -> legal o s -> step o s = (s', a) -> has k s ->
  ~ has k s' <-> drops o s k.
Proof.
  intros Hwf Hl Hstep Hh. assert (s' = (step o s).1) as -> by by rewrite Hstep. clear Hstep.
  destruct o; try (simpl; split; [by intros []|done]).
  - kept (Open_keeps n newID req s k Hwf Hh).
  - kept (Commit_keeps req s k Hh).
  - kept (Renew_keeps k0 epoch now ttl s k Hh).
  - kept (Release_keeps k0 epoch s k Hh).
  - kept (Delete_keeps req s k Hh).
  - simpl. pose proof (DeleteUnused_lookup order cutoff limit s k (proj1 Hl)) as Hd.
    destruct (DeleteUnused _ _ _ _). unfold has in *. simpl in *. rewrite Hd. clear Hd.
    rewrite <- eq_None_not_Some. destruct Hh as [db Hk]. rewrite Hk.
    repeat case_decide; naive_solver.
  - unfold has, drops. rewrite slot_call_dbs by done. rewrite <- eq_None_not_Some.
    destruct Hh as [db Hk]. case_decide; naive_solver congruence.
  - kept (SetSlotLabel_keeps owner subject label s k Hh).
  - unfold has, drops. rewrite slot_call_dbs by done. rewrite <- eq_None_not_Some.
    destruct Hh as [db Hk]. case_decide; naive_solver congruence.
Qed.

Lemma record_lost_iff_witness : ~ has kB (step (OpClaimSlot (claim "alice")) s4).1.
Proof.
  apply (record_lost_iff 4 (OpClaimSlot (claim "alice")) s4 _
           (step (OpClaimSlot (claim "alice")) s4).2 kB s4_wf).
  - exact I.
  - by destruct (step _ s4).
  - eexists. vm_compute. reflexivity.
  - vm_compute. reflexivity.
Defined.

(** ** Slots *)

#[local] Transparent purge.

(** [gone] lists the databases of [subject] that exist, each once, in the order of their IDs. *)
Definition lists_databases (subject : string) (s : MemStore) (gone : list Key) : Prop :=
  NoDup gone /\ Sorted by_dbid gone /\
  forall k, k ∈ gone <->
    Subject k = subject /\ exists db, dbs s !! k = Some db /\ deleted db = false.

Lemma purge_gone subject s : lists_databases subject s (purge subject s).2.
Proof.
  unfold purge. simpl. split_and!.
  - rewrite merge_sort_Permutation. eapply sublist_NoDup; [apply (NoDup_fst_map_to_list (dbs s))|].
    apply fmap_sublist. etrans; apply sublist_filter.
  - apply Sorted_merge_sort. intros a b. apply String.leb_total.
  - intros k. rewrite merge_sort_Permutation, list_elem_of_fmap. split.
    + intros ([k' db] & -> & Hin). apply list_elem_of_filter in Hin as [Hd Hin].
      apply list_elem_of_filter in Hin as [Hs Hin]. apply elem_of_map_to_list in Hin. eauto.
    + intros (Hs & db & Hk & Hd). exists (k, db). split; [done|].
      rewrite !list_elem_of_filter, elem_of_map_to_list. done.
Qed.

Lemma purge_slots subject s s' gone : purge subject s = (s', gone) -> slots s' = slots s.
Proof. intros Hp. unfold purge in Hp. by injection Hp as <- _. Qed.

#[local] Opaque purge.

Lemma slot_refuses owner slot subject s :
  slots s !! owner = Some slot -> slot_Subject slot <> subject -> owner <> EmptyString ->
  (forall newID req, or_Owner req = owner -> Subject (or_Key req) = subject ->
     Open newID req s = (s, Err ErrSlotTaken)) /\
  (forall label, SetSlotLabel owner subject label s = (s, Err ErrSlotTaken)) /\
  DeleteSlot owner subject s = (s, Err ErrSlotTaken).
Proof.
  intros Hs Hne Ho. split_and!.
  - intros newID req <- <-. unfold Open, slot_taken. rewrite Hs.
    by rewrite !bool_decide_false by done.
  - intros label. unfold SetSlotLabel. by rewrite Hs, bool_decide_false.
  - unfold DeleteSlot. by rewrite Hs, bool_decide_false.
Qed.

(** Claiming a slot passes it to the claiming key and deletes exactly the databases of the key
    that loses it.  The claim always succeeds; afterwards the owner's slot is the one returned,
    other owners' slots are unchanged, the databases of the replaced key are gone without a record and all
    others unchanged, and the call lists exactly the replaced key's existing databases.  Every other
    key is then refused at the owner's slot: it can open no database with it, nor
    label or delete it. *)
Theorem claim_slot_spec (req : ClaimRequest) (s s' : MemStore) (r : result Error ClaimResult) :
  ClaimSlot req s = (s', r) ->
  exists res, r = Ok res /\ slot_Subject (cres_Slot res) = cl_Subject req /\
    slots s' = <[cl_Owner req := cres_Slot res]> (slots s) /\
    cres_Replaced res =
      (slot ← slots s !! cl_Owner req;
       if decide (slot_Subject slot = cl_Subject req) then None else Some slot) /\
    match cres_Replaced res with
    | None => dbs s' = dbs s /\ cres_Deleted res = []
    | Some old =>
        (forall k, dbs s' !! k = if decide (Subject k = slot_Subject old) then None else dbs s !! k) /\
        lists_databases (slot_Subject old) s (cres_Deleted res)
    end /\
    (cl_Owner req <> EmptyString -> forall other, other <> cl_Subject req ->
       (forall newID oreq, or_Owner oreq = cl_Owner req -> Subject (or_Key oreq) = other ->
          Open newID oreq s' = (s', Err ErrSlotTaken)) /\
       (forall label, SetSlotLabel (cl_Owner req) other label s' = (s', Err ErrSlotTaken)) /\
       DeleteSlot (cl_Owner req) other s' = (s', Err ErrSlotTaken)).
Proof.
  intros HC.
  assert (exists res, r = Ok res /\ slot_Subject (cres_Slot res) = cl_Subject req /\
            slots s' = <[cl_Owner req := cres_Slot res]> (slots s) /\
            cres_Replaced res = (slot ← slots s !! cl_Owner req;
              if decide (slot_Subject slot = cl_Subject req) then None else Some slot) /\
            match cres_Replaced res with
            | None => dbs s' = dbs s /\ cres_Deleted res = []
            | Some old => s' = put_slot (cl_Owner req) (cres_Slot res) (purge (slot_Subject old) s).1 /\
                          cres_Deleted res = (purge (slot_Subject old) s).2
            end) as (res & -> & Hsub & Hslots & Hrep & Hdel).
  { unfold ClaimSlot in HC. destruct (slots s !! cl_Owner req) as [old|] eqn:E; simpl.
    - case_bool_decide as Hd.
      + injection HC as <- <-. eexists. split; [done|]. simpl. rewrite decide_True by done.
        by rewrite insert_id.
      + destruct (purge (slot_Subject old) s) as [s1 gone] eqn:Hp. injection HC as <- <-.
        eexists. split; [done|]. simpl. rewrite decide_False by done. rewrite Hp.
        split_and!; try done. by rewrite (purge_slots _ _ _ _ Hp).
    - injection HC as <- <-. by eexists. }
  exists res. split_and!; try done.
  - destruct (cres_Replaced res); [|done]. destruct Hdel as [-> ->].
    split; [intros k; apply purge_dbs|apply purge_gone].
  - intros Ho other Hne. apply (slot_refuses _ (cres_Slot res)); [|congruence|done].
    rewrite Hslots. apply lookup_insert_eq.
Qed.

Lemma claim_slot_spec_witness :
  exists res, (ClaimSlot (claim "alice") s4).2 = Ok res /\ slot_Subject (cres_Slot res) = "alice" /\
    cres_Deleted res = [kB].
Proof.
  destruct (claim_slot_spec (claim "alice") s4 _ _ (surjective_pairing _))
    as (res & Hr & Hs & _).
  exists res. split_and!; [done|done|]. vm_compute in Hr. injection Hr as <-. reflexivity.
Defined.

(** Deleting a slot releases it and deletes exactly the databases of the calling key; if another
    key holds the slot, nothing changes. *)
Theorem delete_slot_spec (owner subject : string) (s s' : MemStore) (r : result Error (list Key)) :
  DeleteSlot owner subject s = (s', r) ->
  match slots s !! owner with
  | Some slot => slot_Subject slot = subject
  | None => True
  end /\ (exists gone, r = Ok gone /\ lists_databases subject s gone) /\
    slots s' = delete owner (slots s) /\
    (forall k, dbs s' !! k = if decide (Subject k = subject) then None else dbs s !! k)
  \/ (exists slot, slots s !! owner = Some slot /\ slot_Subject slot <> subject) /\
     s' = s /\ r = Err ErrSlotTaken.
Proof.
  intros HD. unfold DeleteSlot in HD.
  pose proof (purge_gone subject) as Hgone. pose proof (purge_dbs subject) as Hdbs.
  destruct (slots s !! owner) as [slot|] eqn:E.
  - case_bool_decide as Hs; simpl in HD; [left|right; naive_solver].
    specialize (Hgone (mkStore (dbs s) (delete owner (slots s)))).
    specialize (Hdbs (mkStore (dbs s) (delete owner (slots s)))).
    destruct (purge _ _) as [s1 gone] eqn:Hp. simplify_eq/=.
    assert (slots s' = delete owner (slots s)) as Hsl by (apply (purge_slots _ _ _ _ Hp)).
    split_and!; [done| |done|done]. eexists. split; [done|]. exact Hgone.
  - left. specialize (Hgone s). specialize (Hdbs s).
    destruct (purge _ _) as [s1 gone] eqn:Hp. simplify_eq/=.
    assert (slots s' = slots s) as Hsl by (apply (purge_slots _ _ _ _ Hp)).
    split_and!; [done| |by rewrite Hsl, delete_id|done]. eauto.
Qed.

Lemma delete_slot_spec_witness :
  (DeleteSlot "o" "bob" s4).2 = Ok [kB] /\ slots (DeleteSlot "o" "bob" s4).1 = ∅ /\
  DeleteSlot "o" "alice" s4 = (s4, Err ErrSlotTaken).
Proof.
  split_and!; [vm_compute; reflexivity| |].
  - destruct (delete_slot_spec "o" "bob" s4 _ _ (surjective_pairing _))
      as [(_ & _ & -> & _)|(_ & _ & H)]; [vm_compute; reflexivity|].
    vm_compute in H. discriminate H.
  - destruct (delete_slot_spec "o" "alice" s4 _ _ (surjective_pairing _))
      as [(H & _)|(_ & Hs & Hr)]; [vm_compute in H; discriminate H|].
    rewrite (surjective_pairing (DeleteSlot _ _ _)). by rewrite Hs, Hr.
Defined.

(** ** A purge restarts the epochs *)

(** Alice opens her database and claims the slot; bob takes the slot, alice takes it back, and another
    instance of hers opens the database anew. *)
Definition ops_purge : list op :=
  [OpOpen [x0a] (open_at kA x01 false 1000); OpClaimSlot (claim "alice"); OpClaimSlot (claim "bob");
   OpClaimSlot (claim "alice"); OpOpen [x0b] (open_at kA x02 false 1030)].

(** A session from before a purge is not fenced: a purge drops the record with its epoch, the new
    database starts again at epoch 1, and a commit of the first session, which also has epoch 1,
    succeeds. *)
Theorem purged_epoch_reused :
  (Commit (commit_at kA x61 1 0 1 [mkBlock 0 (page x01)] 1040) (run ops_purge New).1).2 = Ok 1 /\
  (Commit (commit_at kA x61 1 0 1 [mkBlock 0 (page x01)] 1040) (run (take 3 ops_purge) New).1).2 = Err ErrNotFound.
Proof. split; vm_compute; reflexivity. Qed.
