(* ===== verification/MemoryUnused.v ===== *)
(** * Deleting unused databases: [memory.Store.DeleteUnused] and [src/server/unused.go]

    [DeleteUnused] deletes the oldest databases whose lease expired before a cutoff; the server's
    [sweep] calls it until a batch is not full. *)

From S2P Require Import Prelude Store StoreFacts Memory Trace MemoryInv MemoryStep MemoryLease Samples.

Local Open Scope Z_scope.

(** ** The sweep of the server *)

Definition sweepInterval : Duration := Hour.
Definition sweepBatch : Z := 100.

Section sweep.
Context {S : Type} `{StoreAPI S}.
(** The order in which the store enumerates its databases at each call. *)
Variable order : S -> list Key.

(** The loop of [sweep]; [None] when [fuel] calls were not enough. *)
Fixpoint sweep_loop (fuel : nat) (cutoff : Time) (deleted : Z) (s : S) :
    option (S * (Z * option Error)) :=
  match fuel with
  | O => None
  | Datatypes.S fuel =>
      let '(s, (keys, err)) := st_DeleteUnused (order s) cutoff sweepBatch s in
      let deleted := deleted + zlen keys in
      if bool_decide (is_Some err) || (zlen keys <? sweepBatch) then Some (s, (deleted, err))
      else sweep_loop fuel cutoff deleted s
  end.

Definition sweep (fuel : nat) (cutoff : Time) (s : S) : option (S * (Z * option Error)) :=
  sweep_loop fuel cutoff 0 s.

(** [deleteUnused]: one sweep at each of the times [nows], with the count since the start. *)
Fixpoint deleteUnused (fuel : nat) (after : Duration) (nows : list Time) (total : Z) (s : S) :
    option (S * Z) :=
  match nows with
  | [] => Some (s, total)
  | now :: nows =>
      '(s, (n, _)) ← sweep fuel (time_Add now (- after)) s;
      deleteUnused fuel after nows (u64 (total + u64 n)) s
  end.
End sweep.

(** ** What DeleteUnused selects *)

(** The databases that count as unused. *)
Definition unused_keys (cutoff : Time) (s : MemStore) : gset Key :=
  filter (fun k => is_unused cutoff s k = true) (dom (dbs s)).

Lemma is_unused_dom cutoff s k : is_unused cutoff s k = true -> k ∈ dom (dbs s).
Proof. unfold is_unused. rewrite elem_of_dom. by destruct (dbs s !! k). Qed.

Lemma elem_of_unused cutoff s k : k ∈ unused_keys cutoff s <-> is_unused cutoff s k = true.
Proof.
  unfold unused_keys. rewrite elem_of_filter. split; [tauto|]. eauto using is_unused_dom.
Qed.

(** The sorted list before it is cut at the limit. *)
Definition all_unused (order : list Key) (cutoff : Time) (s : MemStore) : list Key :=
  merge_sort (older s) (filter (fun k => is_unused cutoff s k = true) order).

Lemma select_unused_take order cutoff limit s :
  0 <= limit ->
  select_unused order cutoff limit s = take (Z.to_nat limit) (all_unused order cutoff s).
Proof.
  intros Hl. unfold select_unused. fold (all_unused order cutoff s).
  destruct (_ <? _) eqn:E; [done|]. bool_hyps. unfold zlen in E. rewrite take_ge by lia. done.
Qed.

Lemma all_unused_facts order cutoff s :
  NoDup order -> list_to_set order = dom (dbs s) ->
  NoDup (all_unused order cutoff s) /\ StronglySorted (older s) (all_unused order cutoff s) /\
  list_to_set (all_unused order cutoff s) = unused_keys cutoff s.
Proof.
  intros Hnd Hdom. unfold all_unused. split_and!.
  - rewrite merge_sort_Permutation. by apply NoDup_filter.
  - apply StronglySorted_merge_sort.
    + intros a b c. unfold older. lia.
    + intros a b. unfold older. lia.
  - apply set_eq. intros k. rewrite elem_of_list_to_set, merge_sort_Permutation, list_elem_of_filter.
    rewrite elem_of_unused. split; [tauto|]. intros Hu. split; [done|].
    apply is_unused_dom in Hu. rewrite <- Hdom in Hu. by apply elem_of_list_to_set in Hu.
Qed.

Lemma hasDatabases_spec subject s :
  hasDatabases subject s = true <->
  exists k db, Subject k = subject /\ dbs s !! k = Some db /\ deleted db = false.
Proof.
  unfold hasDatabases. rewrite existsb_exists. split.
  - intros ([k db] & Hin & Hb). simpl in Hb. bool_hyps.
    apply list_elem_of_In, elem_of_map_to_list in Hin. eauto.
  - intros (k & db & Hs & Hk & Hd). exists (k, db). simpl. rewrite Hd, bool_decide_true by done.
    split; [|done]. by apply list_elem_of_In, elem_of_map_to_list.
Qed.

Lemma sorted_take_drop {A} (R : relation A) l n a b :
  StronglySorted R l -> a ∈ take n l -> b ∈ drop n l -> R a b.
Proof.
  intros Hs Ha Hb. rewrite <- (take_drop n l) in Hs.
  eapply StronglySorted_app_1_elem_of; [exact Hs|done|done].
Qed.

(** What [DeleteUnused] returns and leaves. *)
Record deleted_unused (cutoff : Time) (limit : Z) (s s' : MemStore) (keys : list Key) : Prop := {
  du_NoDup : NoDup keys;
  du_sorted : StronglySorted (older s) keys;
  du_unused : list_to_set keys ⊆ unused_keys cutoff s;
  du_count : zlen keys = Z.min limit (Z.of_nat (size (unused_keys cutoff s)));
  du_oldest : forall a b, a ∈ keys -> b ∈ unused_keys cutoff s -> b ∉ keys -> older s a b;
  du_dbs : forall k, dbs s' !! k =
    if decide (k ∈ keys) then
      if decide (Subject k ∈ slotHolders s) then None else remove <$> dbs s !! k
    else dbs s !! k;
  du_slots : forall owner slot, slots s' !! owner = Some slot <->
    slots s !! owner = Some slot /\
    (cutoff <= slot_ClaimedAt slot \/
     exists k db, Subject k = slot_Subject slot /\ dbs s' !! k = Some db /\ deleted db = false) }.

Lemma DeleteUnused_deletes order cutoff limit s :
  NoDup order -> list_to_set order = dom (dbs s) -> 0 <= limit ->
  exists s' keys, DeleteUnused order cutoff limit s = (s', (keys, None)) /\
    deleted_unused cutoff limit s s' keys.
Proof.
  intros Hnd Hdom Hl. destruct (all_unused_facts order cutoff s Hnd Hdom) as (Hnda & Hsort & Hset).
  eexists _, (select_unused order cutoff limit s). split; [done|].
  rewrite select_unused_take by done. set (all := all_unused order cutoff s) in *.
  assert (Forall (fun k => k ∈ unused_keys cutoff s) all) as Hall.
  { apply Forall_forall. intros k Hk. rewrite <- Hset. by apply elem_of_list_to_set. }
  constructor.
  - eapply sublist_NoDup; [done|]. apply sublist_take.
  - rewrite <- (take_drop (Z.to_nat limit) all) in Hsort.
    by eapply StronglySorted_app_1_l.
  - intros k Hk. apply elem_of_list_to_set in Hk. rewrite Forall_forall in Hall.
    apply Hall. by eapply elem_of_sublist; [|apply sublist_take].
  - unfold zlen. rewrite length_take, <- Hset, size_list_to_set by done. lia.
  - intros a b Ha Hb Hnb. eapply sorted_take_drop; [done|exact Ha|].
    rewrite <- Hset in Hb. apply elem_of_list_to_set in Hb.
    rewrite <- (take_drop (Z.to_nat limit) all) in Hb. apply elem_of_app in Hb as [?|?]; done.
  - intros k. unfold release_slots. cbn [dbs]. rewrite foldl_delete_one; [done|].
    eapply sublist_NoDup; [done|]. apply sublist_take.
  - intros owner slot. unfold release_slots. cbn [slots dbs].
    rewrite map_lookup_filter_Some, foldl_delete_one_slots. simpl.
    rewrite <- hasDatabases_spec, negb_true_iff, andb_false_iff, negb_false_iff.
    unfold time_Before. rewrite Z.ltb_ge. unfold hasDatabases. done.
Qed.

(** An enumeration of the store's map. *)
Definition enumerates (order : MemStore -> list Key) : Prop :=
  forall s, NoDup (order s) /\ list_to_set (order s) = dom (dbs s).

(** The map's own order. *)
Definition key_order (s : MemStore) : list Key := elements (dom (dbs s)).

Lemma key_order_enumerates : enumerates key_order.
Proof. intros s. unfold key_order. split; [apply NoDup_elements|apply list_to_set_elements_L]. Qed.

(** [DeleteUnused] deletes exactly the databases it should.  It returns without error the
    [limit] unused databases whose leases expired first, or all of them if there are fewer, each once
    and oldest first; it deletes these and changes no other database, without
    leaving a record where the subject holds a slot; and it releases exactly the slots that
    were claimed before the cutoff and whose key has no databases left. *)
Theorem delete_unused_spec (order : list Key) (cutoff : Time) (limit : Z) (s : MemStore) :
  legal (OpDeleteUnused order cutoff limit) s ->
  exists s' keys, DeleteUnused order cutoff limit s = (s', (keys, None)) /\
    deleted_unused cutoff limit s s' keys.
Proof. intros (Hnd & Hdom & Hl). apply DeleteUnused_deletes; [done|done|lia]. Qed.

Lemma delete_unused_spec_witness :
  exists t keys, DeleteUnused (key_order s4) 1105000 1 s4 = (t, (keys, None)) /\
    deleted_unused 1105000 1 s4 t keys /\ keys = [kA].
Proof.
  destruct (delete_unused_spec (key_order s4) 1105000 1 s4) as (t & keys & HD & Hdu).
  - destruct (key_order_enumerates s4). split_and!; [done|done|lia|reflexivity].
  - exists t, keys. split_and!; [done|done|].
    transitivity (DeleteUnused (key_order s4) 1105000 1 s4).2.1; [by rewrite HD|vm_compute; reflexivity].
Defined.

(** ** The sweep reaches every unused database *)

(** The databases that are still unused after a call. *)
Lemma unused_after cutoff limit s s' keys :
  deleted_unused cutoff limit s s' keys ->
  unused_keys cutoff s' = unused_keys cutoff s ∖ list_to_set keys.
Proof.
  intros Hdu. apply set_eq. intros k. rewrite elem_of_difference, !elem_of_unused, elem_of_list_to_set.
  unfold is_unused. rewrite (du_dbs _ _ _ _ _ Hdu). destruct (decide (k ∈ keys)) as [Hin|Hin].
  - split; [|tauto]. case_decide; [done|]. destruct (dbs s !! k); simpl; done.
  - tauto.
Qed.

Lemma unused_after_size cutoff limit s s' keys :
  deleted_unused cutoff limit s s' keys ->
  Z.of_nat (size (unused_keys cutoff s')) = Z.of_nat (size (unused_keys cutoff s)) - zlen keys.
Proof.
  intros Hdu. rewrite (unused_after _ _ _ _ _ Hdu).
  rewrite size_difference by apply (du_unused _ _ _ _ _ Hdu).
  rewrite size_list_to_set by apply (du_NoDup _ _ _ _ _ Hdu).
  pose proof (subseteq_size _ _ (du_unused _ _ _ _ _ Hdu)) as Hle.
  rewrite size_list_to_set in Hle by apply (du_NoDup _ _ _ _ _ Hdu). unfold zlen. lia.
Qed.

Lemma elem_of_slotHolders subject s :
  subject ∈ slotHolders s <-> exists owner slot, slots s !! owner = Some slot /\ slot_Subject slot = subject.
Proof.
  unfold slotHolders. rewrite elem_of_list_to_set, list_elem_of_fmap. split.
  - intros ([o slot] & -> & Hin%elem_of_map_to_list). by exists o, slot.
  - intros (o & slot & Ho & <-). exists (o, slot). split; [done|by apply elem_of_map_to_list].
Qed.

(** The key of a slot that is not released still has databases, or the slot is new. *)
Definition slot_kept (cutoff : Time) (s' : MemStore) (slot : Slot) : Prop :=
  cutoff <= slot_ClaimedAt slot \/
  exists k db, Subject k = slot_Subject slot /\ dbs s' !! k = Some db /\ deleted db = false.

(** What calls of [DeleteUnused] leave that have deleted all unused databases. *)
Record swept (cutoff : Time) (s s' : MemStore) : Prop := {
  sw_dbs : forall k, dbs s' !! k =
    if decide (k ∈ unused_keys cutoff s) then
      if decide (Subject k ∈ slotHolders s) then None else remove <$> dbs s !! k
    else dbs s !! k;
  sw_slots : forall owner slot, slots s' !! owner = Some slot <->
    slots s !! owner = Some slot /\ slot_kept cutoff s' slot }.

(** A key keeps its slots as long as it has an unused database. *)
Lemma holders_after cutoff limit s s1 keys k :
  deleted_unused cutoff limit s s1 keys -> k ∈ unused_keys cutoff s1 ->
  Subject k ∈ slotHolders s1 <-> Subject k ∈ slotHolders s.
Proof.
  intros Hdu Hk. rewrite !elem_of_slotHolders. apply elem_of_unused in Hk. unfold is_unused in Hk.
  destruct (dbs s1 !! k) as [db|] eqn:Hdb; [|done]. apply andb_true_iff in Hk as [Hd%negb_true_iff _].
  split; intros (o & slot & Ho & Hs); exists o, slot; (split; [|done]); apply (du_slots _ _ _ _ _ Hdu); [done|].
  split; [done|]. right. by exists k, db.
Qed.

Lemma swept_batch cutoff limit s s1 s2 keys :
  deleted_unused cutoff limit s s1 keys -> swept cutoff s1 s2 -> swept cutoff s s2.
Proof.
  intros Hdu Hsw. pose proof (unused_after _ _ _ _ _ Hdu) as Hrest. pose proof (du_unused _ _ _ _ _ Hdu) as Hsub. split.
  - intros k. rewrite (sw_dbs _ _ _ Hsw). destruct (decide (k ∈ unused_keys cutoff s1)) as [H1|H1].
    + assert (k ∈ unused_keys cutoff s /\ k ∉ keys) as [H0 Hk] by set_solver. rewrite (decide_True _ _ H0).
      rewrite (du_dbs _ _ _ _ _ Hdu), (decide_False _ _ Hk). apply decide_ext. by eapply holders_after.
    + rewrite (du_dbs _ _ _ _ _ Hdu). destruct (decide (k ∈ keys)) as [Hk|Hk].
      * rewrite (decide_True (P := k ∈ unused_keys cutoff s)); [done|]. apply Hsub. by apply elem_of_list_to_set.
      * rewrite (decide_False (P := k ∈ unused_keys cutoff s)); [done|]. set_solver.
  - intros o slot. rewrite (sw_slots _ _ _ Hsw), (du_slots _ _ _ _ _ Hdu). split; [tauto|].
    intros [Ho Hkept]. split_and!; [done| |done]. destruct Hkept as [?|(k & db & Hk & Hdb & Hd)]; [by left|right].
    exists k, db. split_and!; [done| |done]. rewrite (sw_dbs _ _ _ Hsw) in Hdb. repeat case_decide; try done.
    apply fmap_Some in Hdb as (db0 & _ & ->). done.
Qed.

Lemma swept_last cutoff limit s s1 keys :
  deleted_unused cutoff limit s s1 keys -> unused_keys cutoff s1 = ∅ -> swept cutoff s s1.
Proof.
  intros Hdu He. pose proof (unused_after _ _ _ _ _ Hdu) as Hrest. pose proof (du_unused _ _ _ _ _ Hdu) as Hsub. split.
  - intros k. rewrite (du_dbs _ _ _ _ _ Hdu). destruct (decide (k ∈ keys)) as [Hk|Hk].
    + rewrite (decide_True (P := k ∈ unused_keys cutoff s)); [done|]. apply Hsub. by apply elem_of_list_to_set.
    + rewrite (decide_False (P := k ∈ unused_keys cutoff s)); [done|]. set_solver.
  - apply (du_slots _ _ _ _ _ Hdu).
Qed.

Lemma sweep_loop_total order cutoff : enumerates order -> forall fuel s deleted,
  (size (unused_keys cutoff s) < fuel * Z.to_nat sweepBatch)%nat ->
  exists s', sweep_loop order fuel cutoff deleted s =
      Some (s', (deleted + Z.of_nat (size (unused_keys cutoff s)), None)) /\ swept cutoff s s'.
Proof.
  intros Hord. unfold sweepBatch. induction fuel as [|fuel IH]; intros s deleted Hf; [lia|].
  destruct (Hord s) as [Hnd Hdom].
  destruct (DeleteUnused_deletes (order s) cutoff 100 s Hnd Hdom) as (s1 & keys & HD & Hdu); [lia|].
  pose proof (du_count _ _ _ _ _ Hdu) as Hcount. pose proof (unused_after_size _ _ _ _ _ Hdu) as Hsize.
  cbn [sweep_loop st_DeleteUnused MemStore_api]. unfold sweepBatch. rewrite HD.
  rewrite bool_decide_false by (by intros []). simpl.
  destruct (zlen keys <? 100) eqn:E; bool_hyps.
  - exists s1. split; [do 3 f_equal; lia|]. eapply swept_last; [done|]. apply leibniz_equiv, size_empty_inv. lia.
  - destruct (IH s1 (deleted + zlen keys)) as (s2 & Hs2 & Hsw); [lia|].
    exists s2. split; [|by eapply swept_batch]. rewrite Hs2. do 3 f_equal. lia.
Qed.

(** A database without content, lease and history, whose version and epoch go on. *)
Record emptied (db db' : database) : Prop := {
  em_deleted : deleted db' = true;
  em_blocks : blocks db' = ∅;
  em_changes : changes db' = [];
  em_pages : PageCount (state db') = 0;
  em_commit : LastCommitID (state db') = None;
  em_holder : holder db' = None;
  em_lease : lease db' = mkLease None (u64 (Epoch (lease db) + 1));
  em_version : Version (state db') = u64 (Version (state db) + 1) }.

(** C40: A sweep terminates and deletes exactly the unused databases.  One call of [DeleteUnused] per hundred
    unused databases and one more are enough: the sweep returns, without error, the number of databases
    that were unused.  Of each of them nothing is left if its key holds a slot, and otherwise only
    a record without content, under the next epoch and version; every other database is as it was.
    A slot is released if it was claimed before the cutoff and its key has no database left, and no
    other slot is changed. *)
Theorem sweep_deletes_all (order : MemStore -> list Key) (cutoff : Time) (fuel : nat) (s : MemStore) :
  enumerates order ->
  (size (unused_keys cutoff s) / Z.to_nat sweepBatch < fuel)%nat ->
  exists s', sweep order fuel cutoff s = Some (s', (Z.of_nat (size (unused_keys cutoff s)), None)) /\
    (forall k db, k ∈ unused_keys cutoff s -> dbs s !! k = Some db ->
       if decide (Subject k ∈ slotHolders s) then dbs s' !! k = None
       else exists db', dbs s' !! k = Some db' /\ emptied db db') /\
    (forall k, k ∉ unused_keys cutoff s -> dbs s' !! k = dbs s !! k) /\
    (forall owner slot, slots s' !! owner = Some slot <-> slots s !! owner = Some slot /\ slot_kept cutoff s' slot).
Proof.
  intros Hord Hf. destruct (sweep_loop_total order cutoff Hord fuel s 0) as (s' & Hs & Hsw).
  { change (Z.to_nat sweepBatch) with 100%nat in *. set (m := size (unused_keys cutoff s)) in *.
    pose proof (Nat.div_mod_eq m 100). pose proof (Nat.mod_upper_bound m 100). lia. }
  exists s'. split_and!; [exact Hs| | |apply (sw_slots _ _ _ Hsw)].
  - intros k db Hk Hdb. rewrite (sw_dbs _ _ _ Hsw), (decide_True _ _ Hk), Hdb. case_decide; [done|].
    eexists. split; [done|]. by constructor.
  - intros k Hk. by rewrite (sw_dbs _ _ _ Hsw), (decide_False _ _ Hk).
Qed.

Lemma sweep_deletes_all_witness :
  exists t, sweep key_order 1 1200000 s4 = Some (t, (2, None)) /\
    exists db', dbs t !! kA = Some db' /\ deleted db' = true /\ blocks db' = ∅.
Proof.
  destruct (sweep_deletes_all key_order 1200000 1 s4) as (t & Ht & Hdel & _).
  - exact key_order_enumerates.
  - vm_compute. lia.
  - exists t. split; [etransitivity; [exact Ht|]; vm_compute; reflexivity|].
    destruct (dbs s4 !! kA) as [db|] eqn:Hdb; [|vm_compute in Hdb; discriminate Hdb].
    specialize (Hdel kA db). rewrite decide_False in Hdel.
    + destruct Hdel as (db' & Hk & He); [|done|exists db'; split; [done|split; apply He]].
      apply elem_of_unused. vm_compute. reflexivity.
    + apply (bool_decide_eq_false_1 (Subject kA ∈ slotHolders s4)). vm_compute. reflexivity.
Defined.
