(* ===== verification/Typed.v ===== *)
(** * The types of the answers

    What a caller may assume about an answer of the store without looking at its state: it has the
    kind of the call, every number is in the range of its machine type, page sizes are valid, a
    fetch returns as many blocks as were asked for, all of one valid page size, a change set is
    strictly ascending, and a deletion of unused databases returns at most its limit. *)

From S2P Require Import Prelude Store StoreFacts Memory Trace MemoryInv MemoryStep MemoryCommit MemoryHistory Samples.

Local Open Scope Z_scope.

Definition typed_error (e : Error) : Prop :=
  match e with VersionConflictError c => in_u64 c | _ => True end.

Definition typed_result {A} (P : A -> Prop) (r : result Error A) : Prop :=
  match r with Ok a => P a | Err e => typed_error e end.

Definition typed_open (r : OpenResult) : Prop :=
  in_u64 (Epoch (res_Lease r)) /\ in_u64 (Version (res_State r)) /\ in_u64 (PageCount (res_State r)) /\
  ValidPageSize (PageSize (res_State r)) = true.

Definition typed_blocks (count : Z) (bs : list bytes) : Prop :=
  zlen bs = count /\ exists size, ValidPageSize size = true /\ Forall (fun b => zlen b = size) bs.

Definition typed_changes (from : Z) (cs : ChangeSet) : Prop :=
  FromVersion cs = from /\ from <= ToVersion cs /\ in_u64 (ToVersion cs) /\
  Forall in_u64 (cs_Blocks cs) /\ StronglySorted Z.lt (cs_Blocks cs).

Definition typed_answer (o : op) (a : answer) : Prop :=
  match o, a with
  | OpOpen _ _, AOpen r => typed_result typed_open r
  | OpFetch _ _ _ count, AFetch r => typed_result (typed_blocks count) r
  | OpCommit _, ACommit r => typed_result in_u64 r
  | OpChanges _ from, AChanges r => typed_result (typed_changes from) r
  | OpRenew _ _ _ _, ARenew r => typed_result (fun _ => True) r
  | OpRelease _ _, ARelease r => typed_result (fun _ => True) r
  | OpDelete _, ADelete r => typed_result (fun d => in_u64 (del_Epoch d)) r
  | OpDeleteUnused _ _ limit, ADeleteUnused r => NoDup r.1 /\ zlen r.1 <= limit /\ r.2 = None
  | OpGetSlot _, AGetSlot r => typed_result (fun _ => True) r
  | OpClaimSlot _, AClaimSlot r => typed_result (fun c => NoDup (cres_Deleted c)) r
  | OpSetSlotLabel _ _ _, ASetSlotLabel r => typed_result (fun _ => True) r
  | OpDeleteSlot _ _, ADeleteSlot r => typed_result (fun keys => NoDup keys) r
  | _, _ => False
  end.

(** ** Sorted lists of numbers *)

Lemma strictly_sorted l : NoDup l -> Sorted Z.le l -> StronglySorted Z.lt l.
Proof.
  intros Hnd Hs%Sorted_StronglySorted; [|intros ???; lia].
  induction Hs as [|x l _ IH Hle]; [constructor|]. apply NoDup_cons in Hnd as [Hx Hnd].
  constructor; [by apply IH|]. apply Forall_forall. intros y Hy. rewrite Forall_forall in Hle.
  specialize (Hle y Hy). assert (x <> y) by (intros ->; done). lia.
Qed.

Lemma changed_since_sorted from log : StronglySorted Z.lt (changed_since from log).
Proof.
  apply strictly_sorted; [|apply sort_indexes_sorted].
  unfold changed_since. rewrite sort_indexes_perm. apply NoDup_elements.
Qed.

Lemma changed_since_typed from log : Forall entry_ok log -> Forall in_u64 (changed_since from log).
Proof.
  intros Hent. apply Forall_forall. intros i (c & Hc & _ & Hi)%changed_since_elem.
  rewrite Forall_forall in Hent. destruct (Hent c Hc) as (_ & _ & Hall). rewrite Forall_forall in Hall. auto.
Qed.

Lemma purge_NoDup subject s : NoDup (purge subject s).2.
Proof.
  unfold purge. simpl. rewrite merge_sort_Permutation.
  apply (sublist_NoDup _ (map_to_list (dbs s)).*1); [apply NoDup_fst_map_to_list|].
  apply fmap_sublist. etrans; apply sublist_filter.
Qed.

(** ** The calls *)

Section typed.
Variables (n : Z) (s : MemStore).
Hypothesis small : 0 <= n < two64 - 1.
Hypothesis wf : wf_store n s.

Lemma version_typed k db : dbs s !! k = Some db -> in_u64 (Version (state db)).
Proof. intros Hk. pose proof (wf_version _ _ (wf_lookup _ _ _ _ wf Hk)). zlia. Qed.

Lemma epoch_typed k db : dbs s !! k = Some db -> in_u64 (Epoch (lease db)).
Proof. intros Hk. pose proof (wf_epoch _ _ (wf_lookup _ _ _ _ wf Hk)). zlia. Qed.

Lemma Open_errors_typed newID req : match (Open newID req s).2 with Ok _ => True | Err e => typed_error e end.
Proof. unfold Open, open_lease, revive. repeat case_match; simplify_eq/=; done. Qed.

Lemma Open_typed newID req : typed_result typed_open (Open newID req s).2.
Proof.
  pose proof (Open_errors_typed newID req) as He.
  destruct (Open newID req s) as [s' [res|e]] eqn:HO; [|done]. simpl.
  destruct (Open_ok n newID req s s' res wf HO)
    as (db & db' & Hst & _ & _ & Hl & Hs & Hss & _ & _ & _ & _ & Hres).
  destruct (wf_open_start n req s db) as [[] _]; [lia|done|done|].
  unfold typed_open. rewrite Hl, Hs, Hss. split_and!; try done; try zlia.
  destruct (or_Resume req); [|destruct Hres as [-> _]; apply u64_range].
  destruct Hres as [-> _]. zlia.
Qed.

Lemma Fetch_typed k ver first count :
  in_u64 count -> typed_result (typed_blocks count) (Fetch k ver first count s).
Proof.
  intros Hc. unfold Fetch. destruct (dbs s !! k) as [db|] eqn:Hk; [|done].
  destruct (deleted db); [done|]. destruct (negb _); [by eapply version_typed|].
  unfold CheckRange. destruct (_ || _); [done|]. unfold make_blocks. simpl. destruct (makeable count); [|done]. simpl. split.
  - unfold zlen. rewrite length_fmap, length_seqZ. zlia.
  - pose proof (wf_lookup _ _ _ _ wf Hk) as Hdb. exists (PageSize (state db)). split; [apply Hdb|].
    apply Forall_forall. intros b Hb. apply list_elem_of_fmap in Hb as (i & -> & _).
    by eapply read_block_size.
Qed.

Lemma Commit_typed req : typed_result in_u64 (Commit req s).2.
Proof.
  unfold Commit. destruct (dbs s !! cr_Key req) as [db|] eqn:Hk; [|done].
  destruct (fenced _ _); [done|]. destruct (repeated _ _); [by eapply version_typed|].
  destruct (negb _); [by eapply version_typed|].
  destruct (ValidateCommit _ _) as [u|e] eqn:E; [apply u64_range|]. simpl.
  by destruct (ValidateCommit_err _ _ _ E) as [r ->].
Qed.

Lemma Changes_typed k from : typed_result (typed_changes from) (Changes k from s).
Proof.
  unfold Changes. destruct (dbs s !! k) as [db|] eqn:Hk; [|done].
  pose proof (version_typed _ _ Hk) as Hv. pose proof (wf_entries _ _ (wf_lookup _ _ _ _ wf Hk)) as Hent.
  destruct (deleted db); [done|]. destruct (Z.ltb_spec (Version (state db)) from); [done|].
  assert (typed_changes from (mkChangeSet from (Version (state db)) [] true)) as Hnil
    by (unfold typed_changes; simpl; repeat (split || constructor); done || zlia).
  destruct (_ =? _); [done|]. destruct (changes db) as [|c log]; [done|]. destruct (_ <? _); [done|].
  simpl. split_and!; [done|done|done| |apply changed_since_sorted]. by apply changed_since_typed.
Qed.

Lemma Delete_typed req : typed_result (fun d => in_u64 (del_Epoch d)) (Delete req s).2.
Proof.
  unfold Delete. destruct (dbs s !! dr_Key req) as [db|] eqn:Hk; [|simpl; zlia].
  destruct (deleted db); [simpl; zlia|]. destruct (_ && _); [done|]. apply u64_range.
Qed.

Lemma select_unused_length order cutoff limit :
  0 <= limit -> zlen (select_unused order cutoff limit s) <= limit.
Proof.
  intros Hl. unfold select_unused. destruct (Z.ltb_spec limit (zlen (merge_sort (older s)
    (filter (fun k => is_unused cutoff s k = true) order)))); [|done].
  unfold zlen in *. rewrite length_take. lia.
Qed.

Lemma step_typed o : legal o s -> typed_answer o (step o s).2.
Proof.
  intros Hl. destruct o; cbn [step st_Open st_Fetch st_Commit st_Changes st_Renew st_Release st_Delete
    st_DeleteUnused st_GetSlot st_ClaimSlot st_SetSlotLabel st_DeleteSlot MemStore_api].
  - pose proof (Open_typed newID req). by destruct (Open _ _ _).
  - apply Fetch_typed, Hl.
  - pose proof (Commit_typed req). by destruct (Commit _ _).
  - apply Changes_typed.
  - unfold Renew. by repeat case_match; simplify_eq/=.
  - unfold Release. by repeat case_match; simplify_eq/=.
  - pose proof (Delete_typed req). by destruct (Delete _ _).
  - destruct Hl as (Hnd & _ & Hlim). simpl. split_and!; [|by apply select_unused_length; lia|done].
    by apply select_unused_NoDup.
  - done.
  - unfold ClaimSlot. destruct (slots s !! cl_Owner req) as [old|]; [|simpl; constructor].
    destruct (bool_decide _); [simpl; constructor|].
    pose proof (purge_NoDup (slot_Subject old) s). by destruct (purge _ _).
  - unfold SetSlotLabel. by repeat case_match; simplify_eq/=.
  - unfold DeleteSlot. destruct (slots s !! owner) as [old|].
    + destruct (negb _); [done|].
      pose proof (purge_NoDup subject (mkStore (dbs s) (delete owner (slots s)))). by destruct (purge _ _).
    + pose proof (purge_NoDup subject s). by destruct (purge _ _).
Qed.
End typed.

Lemma steps_typed ops s answers s' n :
  0 <= n -> n + zlen ops < two64 -> wf_store n s -> steps ops s answers s' ->
  Forall2 typed_answer ops answers.
Proof.
  intros Hn Hb Hwf Hs. revert n Hn Hb Hwf.
  induction Hs as [s|o ops s a s1 answers s2 Hl Hstep _ IH]; intros n Hn Hb Hwf; [constructor|].
  unfold zlen in *. simpl in *. constructor.
  - pose proof (step_typed n s ltac:(lia) Hwf o Hl) as Ht. by rewrite Hstep in Ht.
  - apply (IH (n + 1)); [lia|lia|]. eapply wf_step; [|done..]. zlia.
Qed.

(** Every answer has its type.  In every execution of the memory store each call is answered by an
    answer of its own kind whose numbers fit their machine types: an open returns a valid page
    size, a fetch exactly the number of blocks asked for and all of one valid size, a change set is
    strictly ascending and starts where the caller asked, and a deletion of unused databases
    returns distinct keys, at most its limit. *)
Theorem answers_are_typed (ops : list op) (answers : list answer) (s : MemStore) :
  steps ops New answers s -> zlen ops < two64 - 1 -> Forall2 typed_answer ops answers.
Proof. intros Hs Hb. apply (steps_typed ops New answers s 0); [lia|lia|apply wf_new|done]. Qed.

Lemma answers_are_typed_witness : Forall2 typed_answer ops4 (run ops4 New).2.
Proof. apply (answers_are_typed ops4 (run ops4 New).2 s4 s4_steps). vm_compute. reflexivity. Defined.
