(* ===== verification/Tables.v ===== *)
(** * The PostgreSQL tables and queries: [src/internal/store/postgres/db]

    The tables of the schema are finite maps from their primary keys; a query is a function on the
    tables.  A transaction is a computation in a state and error monad: an error rolls everything
    back.  A query marked [:one] returns [None] where pgx returns [ErrNoRows].

    A [text] column takes UTF-8 without the byte 0.  A query with another string as a parameter fails
    ([text_params]); the operations of [Postgres.v] check their strings where they pass them to their
    first query, and the queries here are those that succeed.

    PostgreSQL itself is not part of the sources.  What a [timestamptz] column returns for a time
    that was stored in it is the parameter [ts_column], with the documented precision of one
    microsecond as the law [ts_exact]; the order of rows that a query leaves open is an argument. *)

From S2P Require Import Prelude Store.

Local Open Scope Z_scope.

(** ** Columns *)

Class Timestamptz := {
  ts_column : Time -> Time;
  ts_exact : forall t, t mod Microsecond = 0 -> ts_column t = t }.

(** [pgtype.Timestamptz]: [None] is NULL. *)
Abbreviation timestamptz := (option Time).

(** [x + 1] on a [bigint] column; PostgreSQL reports an overflow as an error. *)
Definition bigint_succ (x : Z) : result Error Z :=
  if x + 1 <? two63 then Ok (x + 1) else Err (InternalError "bigint out of range").

(** ** Rows: [models.go] *)

Record Database := mkRow {
  d_PageSize : Z;
  d_PageCount : Z;
  d_Version : Z;
  d_LastCommitID : slice;
  d_LeaseEpoch : Z;
  d_LeaseID : slice;
  d_LeaseHolder : slice;
  d_LeaseGranted : timestamptz;
  d_LeaseExpires : timestamptz;
  d_Deleted : bool }.

Record SlotRow := mkSlotRow {
  s_Subject : string;
  s_Label : string;
  s_ClaimedAt : Time }.

(** The primary keys are the keys of the maps: [(subject, db_id)], [(subject, db_id, idx, part)],
    [(subject, db_id, version)] and [owner]. *)
Record Tables := mkTables {
  databases : gmap Key Database;
  block_parts : gmap (Key * Z * Z) bytes;
  change_log : gmap (Key * Z) (list Z);
  slot_rows : gmap string SlotRow }.

Definition empty_tables : Tables := mkTables ∅ ∅ ∅ ∅.

(** ** Transactions *)

Definition Tx (A : Type) : Type := Tables -> result Error (A * Tables).

#[export] Instance Tx_ret : MRet Tx := fun _ a t => Ok (a, t).
#[export] Instance Tx_bind : MBind Tx := fun _ _ f x t =>
  match x t with Ok (a, t') => f a t' | Err e => Err e end.

Definition fail {A} (e : Error) : Tx A := fun _ => Err e.

Definition lift {A} (r : result Error A) : Tx A := fun t =>
  match r with Ok a => Ok (a, t) | Err e => Err e end.

(** A query that only reads. *)
Definition reading {A} (f : Tables -> A) : Tx A := fun t => Ok (f t, t).

Definition writing (f : Tables -> Tables) : Tx unit := fun t => Ok (tt, f t).

Definition set_databases (m : gmap Key Database) (t : Tables) : Tables :=
  mkTables m (block_parts t) (change_log t) (slot_rows t).
Definition set_blocks (m : gmap (Key * Z * Z) bytes) (t : Tables) : Tables :=
  mkTables (databases t) m (change_log t) (slot_rows t).
Definition set_changes (m : gmap (Key * Z) (list Z)) (t : Tables) : Tables :=
  mkTables (databases t) (block_parts t) m (slot_rows t).
Definition set_slots (m : gmap string SlotRow) (t : Tables) : Tables :=
  mkTables (databases t) (block_parts t) (change_log t) m.

(** ** Text parameters *)

(** PostgreSQL's error 22021; its text is no part of the model. *)
Definition invalid_text : Error := InternalError "invalid byte sequence for encoding UTF8".

(** The conversion of the strings of a query, without its effect. *)
Definition text_params (l : list string) : Tx unit :=
  if forallb text_ok l then mret tt else fail invalid_text.

(** A computation whose first query has these strings as parameters. *)
Definition with_text {A} (l : list string) (q : Tx A) : Tx A := _ ← text_params l; q.

Definition key_text (k : Key) : list string := [Subject k; DBID k].

Lemma with_text_ok {A} l (q : Tx A) t : texts l -> with_text l q t = q t.
Proof. intros Hl. unfold texts in Hl. unfold with_text, text_params. by rewrite Hl. Qed.

Lemma with_text_bad {A} l (q : Tx A) t : forallb text_ok l = false -> with_text l q t = Err invalid_text.
Proof. intros Hl. unfold with_text, text_params. by rewrite Hl. Qed.

#[global] Arguments with_text : simpl never.

(** ** Queries on one database *)

(** [UPDATE databases SET ... WHERE subject = $1 AND db_id = $2 RETURNING ...] *)
Definition update_database {A} (k : Key) (f : Database -> result Error Database)
    (ret : Database -> A) : Tx (option A) := fun t =>
  match databases t !! k with
  | None => Ok (None, t)
  | Some row =>
      match f row with
      | Err e => Err e
      | Ok row' => Ok (Some (ret row'), set_databases (<[k := row']> (databases t)) t)
      end
  end.

(** A query of one row whose absence is an error of the caller. *)
Definition one {A} (q : Tx (option A)) : Tx A :=
  r ← q; match r with Some a => mret a | None => fail (InternalError "no rows in result set") end.

Definition LockDatabase (k : Key) : Tx (option Database) := reading (fun t => databases t !! k).
Definition GetDatabase (k : Key) : Tx (option Database) := reading (fun t => databases t !! k).
Definition DatabaseExists (k : Key) : Tx bool :=
  reading (fun t => bool_decide (is_Some (databases t !! k))).

Definition CreateDatabase (k : Key) (pageSize : Z) : Tx (option Database) := fun t =>
  match databases t !! k with
  | Some _ => Ok (None, t)
  | None =>
      let row := mkRow pageSize 0 0 None 0 None None None None false in
      Ok (Some row, set_databases (<[k := row]> (databases t)) t)
  end.

Definition ReviveDatabase (k : Key) (pageSize : Z) : Tx (option Database) :=
  update_database k
    (fun r => Ok (mkRow pageSize (d_PageCount r) (d_Version r) (d_LastCommitID r) (d_LeaseEpoch r)
                    (d_LeaseID r) (d_LeaseHolder r) (d_LeaseGranted r) (d_LeaseExpires r) false))
    (fun r => r).

Definition GrantLease (k : Key) (id holder : slice) (granted expires : timestamptz) :
    Tx (option Z) :=
  update_database k
    (fun r => epoch ← bigint_succ (d_LeaseEpoch r);
       Ok (mkRow (d_PageSize r) (d_PageCount r) (d_Version r) (d_LastCommitID r) epoch
             id holder granted expires (d_Deleted r)))
    d_LeaseEpoch.

Definition ApplyCommit (k : Key) (pageCount : Z) (lastCommitID : slice) (expires : timestamptz) :
    Tx (option Z) :=
  update_database k
    (fun r => version ← bigint_succ (d_Version r);
       Ok (mkRow (d_PageSize r) pageCount version lastCommitID (d_LeaseEpoch r)
             (d_LeaseID r) (d_LeaseHolder r) (d_LeaseGranted r) expires (d_Deleted r)))
    d_Version.

Definition DeleteDatabase (k : Key) : Tx (option Z) :=
  update_database k
    (fun r => version ← bigint_succ (d_Version r); epoch ← bigint_succ (d_LeaseEpoch r);
       Ok (mkRow (d_PageSize r) 0 version None epoch None None None None true))
    d_LeaseEpoch.

(** The [WHERE] clause of the two lease updates. *)
Definition lease_matches (epoch : Z) (r : Database) : bool :=
  (d_LeaseEpoch r =? epoch) && bool_decide (is_Some (d_LeaseHolder r)).

(** [:execrows]: the number of rows changed. *)
Definition update_lease (k : Key) (epoch : Z) (f : Database -> Database) : Tx Z := fun t =>
  match databases t !! k with
  | Some row =>
      if lease_matches epoch row then Ok (1, set_databases (<[k := f row]> (databases t)) t)
      else Ok (0, t)
  | None => Ok (0, t)
  end.

Definition ExtendLease (k : Key) (epoch : Z) (expires : timestamptz) : Tx Z :=
  update_lease k epoch (fun r =>
    mkRow (d_PageSize r) (d_PageCount r) (d_Version r) (d_LastCommitID r) (d_LeaseEpoch r)
      (d_LeaseID r) (d_LeaseHolder r) (d_LeaseGranted r) expires (d_Deleted r)).

Definition ReleaseLease (k : Key) (epoch : Z) : Tx Z :=
  update_lease k epoch (fun r =>
    mkRow (d_PageSize r) (d_PageCount r) (d_Version r) (d_LastCommitID r) (d_LeaseEpoch r)
      (d_LeaseID r) None (d_LeaseGranted r) (d_LeaseExpires r) (d_Deleted r)).

(** ** Blocks and changes *)

Record PutBlocksParams := mkPutBlocks { pb_Idx : Z; pb_Part : Z; pb_Data : bytes }.

(** One statement of the batch: [INSERT ... ON CONFLICT DO UPDATE]. *)
Definition put_part (k : Key) (p : PutBlocksParams) (m : gmap (Key * Z * Z) bytes) :=
  <[(k, pb_Idx p, pb_Part p) := pb_Data p]> m.

Definition PutBlocks (k : Key) (params : list PutBlocksParams) : Tx unit :=
  writing (fun t => set_blocks (foldl (fun m p => put_part k p m) (block_parts t) params) t).

Definition DeleteBlocksFrom (k : Key) (idx : Z) : Tx unit :=
  writing (fun t =>
    set_blocks (filter (fun e => ~ (e.1.1.1 = k /\ idx <= e.1.1.2)) (block_parts t)) t).

Record FetchBlocksRow := mkFetchRow { fb_Idx : Z; fb_Part : Z; fb_Data : bytes }.

(** [ORDER BY idx, part] *)
Definition fetch_order (a b : FetchBlocksRow) : Prop :=
  fb_Idx a < fb_Idx b \/ (fb_Idx a = fb_Idx b /\ fb_Part a <= fb_Part b).

#[export] Instance fetch_order_decision a b : Decision (fetch_order a b).
Proof. unfold fetch_order. apply _. Defined.

Definition FetchBlocks (k : Key) (first beyond : Z) : Tx (list FetchBlocksRow) :=
  reading (fun t =>
    merge_sort fetch_order
      ((fun e => mkFetchRow e.1.1.2 e.1.2 e.2) <$>
         filter (fun e => e.1.1.1 = k /\ first <= e.1.1.2 /\ e.1.1.2 < beyond)
           (map_to_list (block_parts t)))).

Definition RecordChange (k : Key) (version : Z) (blocks : list Z) : Tx unit :=
  writing (fun t =>
    match change_log t !! (k, version) with
    | Some _ => t
    | None => set_changes (<[(k, version) := blocks]> (change_log t)) t
    end).

Definition PruneChanges (k : Key) (version : Z) : Tx unit :=
  writing (fun t =>
    set_changes (filter (fun e => ~ (e.1.1 = k /\ e.1.2 <= version)) (change_log t)) t).

Definition DeleteChanges (k : Key) : Tx unit :=
  writing (fun t => set_changes (filter (fun e => e.1.1 <> k) (change_log t)) t).

(** The versions in the change log of [k]. *)
Definition logged (k : Key) (t : Tables) : list Z :=
  (fun e => e.1.2) <$> filter (fun e => e.1.1 = k) (map_to_list (change_log t)).

(** [coalesce(min(version), 0)] *)
Definition OldestChange (k : Key) : Tx Z :=
  reading (fun t =>
    match logged k t with
    | [] => 0
    | v :: vs => foldr Z.min v vs
    end).

Record ChangedSinceRow := mkChangedSince { ch_Version : Z; ch_Blocks : list Z }.

Definition change_order (a b : ChangedSinceRow) : Prop := ch_Version a <= ch_Version b.

#[export] Instance change_order_decision a b : Decision (change_order a b).
Proof. unfold change_order. apply _. Defined.

Definition ChangedSince (k : Key) (version : Z) : Tx (list ChangedSinceRow) :=
  reading (fun t =>
    merge_sort change_order
      ((fun e => mkChangedSince e.1.2 e.2) <$>
         filter (fun e => e.1.1 = k /\ version < e.1.2) (map_to_list (change_log t)))).

(** ** Queries on many databases *)

(** [DELETE FROM databases]: the rows that refer to a deleted one go with it. *)
Definition delete_databases (gone : Key -> Prop) `{!forall k, Decision (gone k)} (t : Tables) :
    Tables :=
  mkTables (filter (fun e => ~ gone e.1) (databases t))
    (filter (fun e => ~ gone e.1.1.1) (block_parts t))
    (filter (fun e => ~ gone e.1.1) (change_log t)) (slot_rows t).

Definition PurgeDatabase (k : Key) : Tx unit := writing (delete_databases (fun k' => k' = k)).

Record PurgeSubjectRow := mkPurgeRow { pr_DbID : string; pr_Deleted : bool }.

Definition PurgeSubject (subject : string) : Tx (list PurgeSubjectRow) := fun t =>
  Ok ((fun e => mkPurgeRow (DBID e.1) (d_Deleted e.2)) <$>
        filter (fun e => Subject e.1 = subject) (map_to_list (databases t)),
      delete_databases (fun k => Subject k = subject) t).

(** [NOT deleted AND lease_expires < $1]; a comparison with NULL is not true. *)
Definition row_unused (cutoff : Time) (t : Tables) (k : Key) : bool :=
  match databases t !! k with
  | Some r => negb (d_Deleted r) &&
      match d_LeaseExpires r with Some e => time_Before e cutoff | None => false end
  | None => false
  end.

Definition lease_order (t : Tables) (a b : Key) : Prop :=
  default 0 (r ← databases t !! a; d_LeaseExpires r) <=
  default 0 (r ← databases t !! b; d_LeaseExpires r).

#[export] Instance lease_order_decision t a b : Decision (lease_order t a b).
Proof. unfold lease_order. apply _. Defined.

(** [order] is the order in which the scan meets the rows. *)
Definition UnusedDatabases (order : list Key) (cutoff : Time) (limit : Z) : Tx (list Key) :=
  reading (fun t =>
    take (Z.to_nat limit)
      (merge_sort (lease_order t) (filter (fun k => row_unused cutoff t k = true) order))).

(** ** Slots *)

Definition GetSlot (owner : string) : Tx (option SlotRow) := reading (fun t => slot_rows t !! owner).
Definition LockSlot (owner : string) : Tx (option SlotRow) := reading (fun t => slot_rows t !! owner).
Definition ShareSlot (owner : string) : Tx (option SlotRow) := reading (fun t => slot_rows t !! owner).

Definition InsertSlot (owner subject label : string) (claimedAt : Time) : Tx (option SlotRow) :=
  fun t =>
    match slot_rows t !! owner with
    | Some _ => Ok (None, t)
    | None =>
        let row := mkSlotRow subject label claimedAt in
        Ok (Some row, set_slots (<[owner := row]> (slot_rows t)) t)
    end.

Definition UpdateSlot (owner subject label : string) (claimedAt : Time) : Tx (option SlotRow) :=
  fun t =>
    match slot_rows t !! owner with
    | None => Ok (None, t)
    | Some _ =>
        let row := mkSlotRow subject label claimedAt in
        Ok (Some row, set_slots (<[owner := row]> (slot_rows t)) t)
    end.

Definition SetSlotLabel (owner subject label : string) : Tx (option SlotRow) := fun t =>
  match slot_rows t !! owner with
  | Some r =>
      if decide (s_Subject r = subject) then
        let row := mkSlotRow (s_Subject r) label (s_ClaimedAt r) in
        Ok (Some row, set_slots (<[owner := row]> (slot_rows t)) t)
      else Ok (None, t)
  | None => Ok (None, t)
  end.

Definition DeleteSlotOf (owner : string) : Tx unit :=
  writing (fun t => set_slots (delete owner (slot_rows t)) t).

Definition HoldsSlot (subject : string) : Tx bool :=
  reading (fun t => existsb (fun e => bool_decide (s_Subject e.2 = subject)) (map_to_list (slot_rows t))).

(** [EXISTS (SELECT 1 FROM databases d WHERE d.subject = subject AND NOT d.deleted)] *)
Definition has_live (subject : string) (t : Tables) : bool :=
  existsb (fun e => bool_decide (Subject e.1 = subject) && negb (d_Deleted e.2))
    (map_to_list (databases t)).

Definition ReleaseUnusedSlots (claimedAt : Time) : Tx unit :=
  writing (fun t =>
    set_slots (filter (fun e => ~ (s_ClaimedAt e.2 < claimedAt /\ has_live (s_Subject e.2) t = false))
                 (slot_rows t)) t).
