(* ===== verification/Postgres.v ===== *)
(** * The PostgreSQL store: [src/internal/store/postgres/postgres.go]

    The operations of the store as transactions on the tables of [Tables].  An operation is one step on
    the tables; [PgSchedule.v] has the statements of concurrent transactions interleaved.  [Changes],
    which takes no lock and runs its three queries in a read-committed transaction, is also given
    with a state per statement. *)

From S2P Require Import Prelude Store Tables.

Local Open Scope Z_scope.

(** ** Helpers *)

Definition partBytes : Z := 1024.

(** [inTx]: an error rolls the transaction back. *)
Definition inTx {A} (f : Tx A) (t : Tables) : Tables * result Error A :=
  match f t with
  | Ok (a, t') => (t', Ok a)
  | Err e => (t, Err e)
  end.

(** The text check of the first query, out of the way. *)
Lemma inTx_text {A} l (q : Tx A) t : texts l -> inTx (with_text l q) t = inTx q t.
Proof. intros Hl. unfold inTx. by rewrite with_text_ok. Qed.

Section postgres.
Context `{Timestamptz}.

Definition timestamp (t : Time) : timestamptz := Some (ts_column t).

Definition holds (row : Database) (epoch : Z) : bool :=
  bool_decide (is_Some (d_LeaseHolder row)) && (u64 (d_LeaseEpoch row) =? epoch).

Definition leaseOf (row : Database) : Lease := mkLease (d_LeaseID row) (u64 (d_LeaseEpoch row)).

Definition stateOf (row : Database) : State :=
  mkState (u32 (d_PageSize row)) (u64 (d_PageCount row)) (u64 (d_Version row)) (d_LastCommitID row).

Definition slotOf (row : SlotRow) : Slot :=
  mkSlot (s_Subject row) (s_Label row) (s_ClaimedAt row).

(** [row.LeaseHolder != nil && row.LeaseExpires.Valid && now.Before(row.LeaseExpires.Time)] *)
Definition row_active (now : Time) (row : Database) : bool :=
  bool_decide (is_Some (d_LeaseHolder row)) &&
  match d_LeaseExpires row with Some e => time_Before now e | None => false end.

(** [row.LeaseGranted.Time]; the time of NULL is the zero time. *)
Definition granted_time (row : Database) : Time := default 0 (d_LeaseGranted row).

(** ** Open *)

Definition createDatabase (req : OpenRequest) : Tx Database :=
  if negb (or_Create req) || bool_decide (is_Some (or_Resume req)) then fail ErrNotFound
  else if negb (ValidPageSize (or_PageSize req)) then
    fail (BadRequestError (InvalidPageSize (or_PageSize req)))
  else
    row ← CreateDatabase (or_Key req) (s32 (or_PageSize req));
    match row with
    | Some row => mret row
    | None => one (LockDatabase (or_Key req))
    end.

Definition reviveDatabase (req : OpenRequest) : Tx Database :=
  match or_Resume req with
  | Some _ => fail ErrFenced
  | None =>
      if negb (or_Create req) then fail ErrNotFound
      else if negb (ValidPageSize (or_PageSize req)) then
        fail (BadRequestError (InvalidPageSize (or_PageSize req)))
      else one (ReviveDatabase (or_Key req) (s32 (or_PageSize req)))
  end.

Definition share_slot (req : OpenRequest) : Tx unit :=
  if bool_decide (or_Owner req = EmptyString) then mret tt
  else
    slot ← with_text [or_Owner req] (ShareSlot (or_Owner req));
    match slot with
    | None => mret tt
    | Some slot =>
        if bool_decide (s_Subject slot = Subject (or_Key req)) then mret tt else fail ErrSlotTaken
    end.

(** The row the lease is granted on. *)
Definition open_row (req : OpenRequest) : Tx Database :=
  row ← with_text (key_text (or_Key req)) (LockDatabase (or_Key req));
  row ← (match row with Some row => mret row | None => createDatabase req end : Tx Database);
  if d_Deleted row then reviveDatabase req
  else if negb (or_PageSize req =? 0) && negb (u32 (d_PageSize row) =? or_PageSize req) then
    fail (BadRequestError (PageSizeMismatch (or_PageSize req) (d_PageSize row)))
  else mret row.

Definition open_tx (newID : bytes) (req : OpenRequest) : Tx OpenResult :=
  _ ← share_slot req;
  row ← open_row req;
  match or_Resume req with
  | Some r =>
      if negb (holds row (LeaseEpoch r)) || negb (bytes_Equal (d_LeaseID row) (LeaseID r)) then
        fail ErrFenced
      else
        _ ← ExtendLease (or_Key req) (d_LeaseEpoch row)
              (timestamp (time_Add (or_Now req) (or_TTL req)));
        mret (mkOpenResult (leaseOf row) (stateOf row) false)
  | None =>
      let active := row_active (or_Now req) row in
      if active && negb (or_Takeover req) &&
         negb (bytes_Equal (d_LeaseHolder row) (or_InstanceID req)) then
        fail (LeaseHeldError (granted_time row))
      else
        epoch ← one (GrantLease (or_Key req) (Some newID) (bytes_Clone (or_InstanceID req))
                       (timestamp (or_Now req)) (timestamp (time_Add (or_Now req) (or_TTL req))));
        mret (mkOpenResult (mkLease (Some newID) (u64 epoch)) (stateOf row) active)
  end.

Definition Open (newID : bytes) (req : OpenRequest) : Tables -> Tables * result Error OpenResult :=
  inTx (open_tx newID req).

(** ** Fetch *)

(** [copy(block[at:], data)]; a slice bound beyond the block would panic. *)
Definition copy_part (at_ : Z) (data block : bytes) : option bytes :=
  if (0 <=? at_) && (at_ <=? zlen block) then
    let n := Z.to_nat at_ in
    let data := take (length block - n) data in
    Some (take n block ++ data ++ drop (n + length data) block)
  else None.

Definition copy_row (first : Z) (blocks : list bytes) (row : FetchBlocksRow) : option (list bytes) :=
  let i := Z.to_nat (u64 (u64 (fb_Idx row) - first)) in
  block ← blocks !! i;
  block ← copy_part (fb_Part row * partBytes) (fb_Data row) block;
  Some (<[i := block]> blocks).

Fixpoint copy_rows (first : Z) (blocks : list bytes) (rows : list FetchBlocksRow) :
    option (list bytes) :=
  match rows with
  | [] => Some blocks
  | row :: rows => blocks ← copy_row first blocks row; copy_rows first blocks rows
  end.

Definition fetch_tx (k : Key) (ver first count : Z) : Tx (list bytes) :=
  row ← GetDatabase k;
  match row with
  | None => fail ErrNotFound
  | Some row =>
      if d_Deleted row then fail ErrNotFound
      else if negb (ver =? u64 (d_Version row)) then
        fail (VersionConflictError (u64 (d_Version row)))
      else
        _ ← lift (CheckRange first count (u64 (d_PageCount row)));
        written ← FetchBlocks k (s64 first) (s64 (u64 (first + count)));
        _ ← lift (make_blocks count);
        match copy_rows first (replicate (Z.to_nat count) (zeros (d_PageSize row))) written with
        | Some blocks => mret blocks
        | None => fail (GoPanic "slice bounds out of range")
        end
  end.

Definition Fetch (k : Key) (ver first count : Z) (t : Tables) : result Error (list bytes) :=
  (inTx (with_text (key_text k) (fetch_tx k ver first count)) t).2.

(** ** Commit *)

(** The parts of one block: [for at := 0; at < len(data); at += partBytes]. *)
Definition block_params (b : Block) : list PutBlocksParams :=
  (fun p => mkPutBlocks (s64 (Index b)) p
              (take (Z.to_nat partBytes) (drop (Z.to_nat (p * partBytes)) (Data b)))) <$>
    seqZ 0 ((zlen (Data b) + partBytes - 1) / partBytes).

Definition putBlocks (req : CommitRequest) : Tx unit :=
  match cr_Blocks req with
  | [] => mret tt
  | _ => PutBlocks (cr_Key req) (b ← cr_Blocks req; block_params b)
  end.

Definition recordChange (k : Key) (version : Z) (blocks : list Block) : Tx unit :=
  let touched := merge_sort Z.le ((fun b => s64 (Index b)) <$> blocks) in
  _ ← RecordChange k (s64 version) touched;
  if version <=? ChangeWindow then mret tt
  else PruneChanges k (s64 (u64 (version - ChangeWindow))).

Definition commit_tx (req : CommitRequest) : Tx Z :=
  let k := cr_Key req in
  row ← LockDatabase k;
  match row with
  | None => fail ErrNotFound
  | Some row =>
      if negb (holds row (cr_LeaseEpoch req)) then fail ErrFenced
      else
        let expires := timestamp (time_Add (cr_Now req) (cr_TTL req)) in
        if (u64 (d_Version row) =? u64 (cr_BaseVersion req + 1)) &&
           (0 <? slice_len (cr_CommitID req)) &&
           bytes_Equal (d_LastCommitID row) (cr_CommitID req) then
          _ ← ExtendLease k (d_LeaseEpoch row) expires;
          mret (u64 (d_Version row))
        else if negb (u64 (d_Version row) =? cr_BaseVersion req) then
          fail (VersionConflictError (u64 (d_Version row)))
        else
          _ ← lift (ValidateCommit (u32 (d_PageSize row)) req);
          _ ← putBlocks req;
          _ ← DeleteBlocksFrom k (s64 (cr_PageCount req));
          applied ← one (ApplyCommit k (s64 (cr_PageCount req)) (bytes_Clone (cr_CommitID req)) expires);
          _ ← recordChange k (u64 applied) (cr_Blocks req);
          mret (u64 applied)
  end.

Definition Commit (req : CommitRequest) : Tables -> Tables * result Error Z :=
  inTx (with_text (key_text (cr_Key req)) (commit_tx req)).

(** ** Changes *)

(** The set of indexes in the rows. *)
Definition rows_changed (rows : list ChangedSinceRow) : list Z :=
  let seen : gset Z :=
    foldl (fun acc r => foldl (fun a i => {[u64 i]} ∪ a) acc (ch_Blocks r)) ∅ rows in
  merge_sort Z.le (elements seen).

(** [Changes] with a state per statement: every query of a read-committed transaction sees what was
    committed before it. *)
Definition changes_at (k : Key) (from : Z) (t1 t2 t3 : Tables) : result Error ChangeSet :=
  match databases t1 !! k with
  | None => Err ErrNotFound
  | Some row =>
      if d_Deleted row then Err ErrNotFound
      else
        let current := u64 (d_Version row) in
        if current <? from then Err (BadRequestError (VersionAhead from current))
        else if from =? current then Ok (mkChangeSet from current [] true)
        else
          '(oldest, _) ← OldestChange k t2;
          if (oldest =? 0) || (u64 (from + 1) <? u64 oldest) then
            Ok (mkChangeSet from current [] false)
          else
            '(rows, _) ← ChangedSince k (s64 from) t3;
            Ok (mkChangeSet from current (rows_changed rows) true)
  end.

(** The transaction without other transactions in between. *)
Definition Changes (k : Key) (from : Z) (t : Tables) : result Error ChangeSet :=
  if forallb text_ok (key_text k) then changes_at k from t t t else Err invalid_text.

(** ** Renew and Release *)

Definition whyNoRow (k : Key) (rows : Z) : Tx unit :=
  if 0 <? rows then mret tt
  else
    exists_ ← DatabaseExists k;
    if negb exists_ then fail ErrNotFound else fail ErrFenced.

Definition Renew (k : Key) (epoch : Z) (now : Time) (ttl : Duration) :
    Tables -> Tables * result Error unit :=
  inTx (with_text (key_text k)
          (rows ← ExtendLease k (s64 epoch) (timestamp (time_Add now ttl)); whyNoRow k rows)).

Definition Release (k : Key) (epoch : Z) : Tables -> Tables * result Error unit :=
  inTx (with_text (key_text k) (rows ← ReleaseLease k (s64 epoch); whyNoRow k rows)).

(** ** Delete and DeleteUnused *)

Definition remove (k : Key) : Tx Z :=
  _ ← DeleteBlocksFrom k 0;
  _ ← DeleteChanges k;
  epoch ← one (DeleteDatabase k);
  mret (u64 epoch).

Definition delete_tx (req : DeleteRequest) : Tx DeleteResult :=
  row ← LockDatabase (dr_Key req);
  match row with
  | None => mret (mkDeleteResult 0 false)
  | Some row =>
      if d_Deleted row then mret (mkDeleteResult 0 false)
      else
        let active := row_active (dr_Now req) row in
        if active && negb (dr_Takeover req) then fail (LeaseHeldError (granted_time row))
        else
          epoch ← remove (dr_Key req);
          mret (mkDeleteResult epoch active)
  end.

Definition Delete (req : DeleteRequest) : Tables -> Tables * result Error DeleteResult :=
  inTx (with_text (key_text (dr_Key req)) (delete_tx req)).

(** The transaction for one candidate: whether it was removed. *)
Definition unused_tx (cutoff : Time) (k : Key) : Tx bool :=
  row ← one (LockDatabase k);
  if d_Deleted row ||
     negb (match d_LeaseExpires row with Some e => time_Before e cutoff | None => false end) then
    mret false
  else
    hold ← HoldsSlot (Subject k);
    _ ← (if hold : bool then PurgeDatabase k else _ ← remove k; mret tt : Tx unit);
    mret true.

(** The loop over the candidates, one transaction each. *)
Fixpoint delete_candidates (cutoff : Time) (candidates deleted : list Key) (t : Tables) :
    Tables * (list Key * option Error) :=
  match candidates with
  | [] => (t, (deleted, None))
  | k :: rest =>
      match inTx (unused_tx cutoff k) t with
      | (t, Err e) => (t, (deleted, Some e))
      | (t, Ok removed) =>
          delete_candidates cutoff rest (if removed : bool then deleted ++ [k] else deleted) t
      end
  end.

Definition DeleteUnused (order : list Key) (cutoff : Time) (limit : Z) (t : Tables) :
    Tables * (list Key * option Error) :=
  match inTx (UnusedDatabases order (ts_column cutoff) (s32 (Z.min limit 1073741824))) t with
  | (t, Err e) => (t, ([], Some e))
  | (t, Ok candidates) =>
      match delete_candidates cutoff candidates [] t with
      | (t, (deleted, Some e)) => (t, (deleted, Some e))
      | (t, (deleted, None)) =>
          match inTx (ReleaseUnusedSlots (ts_column cutoff)) t with
          | (t, Err e) => (t, (deleted, Some e))
          | (t, Ok _) => (t, (deleted, None))
          end
      end
  end.

(** ** Slots *)

Definition GetSlot (owner : string) (t : Tables) : result Error (option Slot) :=
  match (inTx (with_text [owner] (Tables.GetSlot owner)) t).2 with
  | Ok row => Ok (slotOf <$> row)
  | Err e => Err e
  end.

Definition by_dbid (a b : Key) : Prop := String.leb (DBID a) (DBID b) = true.

#[export] Instance by_dbid_decision a b : Decision (by_dbid a b) :=
  decide (String.leb (DBID a) (DBID b) = true).

Definition keysOf (subject : string) (purged : list PurgeSubjectRow) : list Key :=
  merge_sort by_dbid
    ((fun r => mkKey subject (pr_DbID r)) <$> filter (fun r => pr_Deleted r = false) purged).

(** The owner's slot row, inserted if there is none: [inl] when this call inserted it. *)
Definition lock_or_insert (req : ClaimRequest) : Tx (SlotRow + SlotRow) :=
  row ← LockSlot (cl_Owner req);
  match row with
  | Some row => mret (inr row)
  | None =>
      row ← InsertSlot (cl_Owner req) (cl_Subject req) EmptyString (ts_column (cl_Now req));
      match row with
      | Some row => mret (inl row)
      | None => row ← one (LockSlot (cl_Owner req)); mret (inr row)
      end
  end.

Definition claim_tx (req : ClaimRequest) : Tx ClaimResult :=
  slot ← lock_or_insert req;
  match slot with
  | inl row => mret (mkClaimResult (slotOf row) None [])
  | inr row =>
      if bool_decide (s_Subject row = cl_Subject req) then mret (mkClaimResult (slotOf row) None [])
      else
        purged ← PurgeSubject (s_Subject row);
        updated ← one (UpdateSlot (cl_Owner req) (cl_Subject req) EmptyString (ts_column (cl_Now req)));
        mret (mkClaimResult (slotOf updated) (Some (slotOf row)) (keysOf (s_Subject row) purged))
  end.

(** The subject goes into the row only if it is another one, and a row that has it is text. *)
Definition ClaimSlot (req : ClaimRequest) : Tables -> Tables * result Error ClaimResult :=
  inTx (with_text [cl_Owner req; cl_Subject req] (claim_tx req)).

Definition SetSlotLabel (owner subject label : string) (t : Tables) : Tables * result Error Slot :=
  match inTx (with_text [owner; subject; label] (Tables.SetSlotLabel owner subject label)) t with
  | (t, Ok (Some row)) => (t, Ok (slotOf row))
  | (t, Err e) => (t, Err e)
  | (t, Ok None) =>
      match GetSlot owner t with
      | Err e => (t, Err e)
      | Ok (Some _) => (t, Err ErrSlotTaken)
      | Ok None => (t, Err ErrNotFound)
      end
  end.

Definition delete_slot_tx (owner subject : string) : Tx (list Key) :=
  row ← LockSlot owner;
  _ ← (match row with
       | None => mret tt
       | Some row =>
           if bool_decide (s_Subject row = subject) then DeleteSlotOf owner else fail ErrSlotTaken
       end : Tx unit);
  purged ← with_text [subject] (PurgeSubject subject);
  mret (keysOf subject purged).

Definition DeleteSlot (owner subject : string) : Tables -> Tables * result Error (list Key) :=
  inTx (with_text [owner] (delete_slot_tx owner subject)).
End postgres.

(** The PostgreSQL store implements the interface. *)
#[export] Instance Tables_api `{Timestamptz} : StoreAPI Tables := {
  st_Open := Open; st_Fetch := Fetch; st_Commit := Commit; st_Changes := Changes;
  st_Renew := Renew; st_Release := Release; st_Delete := Delete;
  st_DeleteUnused := DeleteUnused; st_GetSlot := GetSlot; st_ClaimSlot := ClaimSlot;
  st_SetSlotLabel := SetSlotLabel; st_DeleteSlot := DeleteSlot;
  st_keys := fun t => dom (databases t) }.
