(* ===== verification/PgBatch.v ===== *)
(** * The batch of a commit: [src/internal/store/postgres/db/batch.go]

    The parts of a commit are sent in one pipelined batch; [Exec] hands the result of every statement to
    a callback, and [putBlocks] keeps the first error.  The results are those of a driver that runs
    the statements in order.  The transaction of [Tables.v] stops at the first error; here the loop
    over all results is shown to give the same. *)

From S2P Require Import Prelude Store Tables Postgres.

Local Open Scope Z_scope.

(** The results of the statements that are still to be read, and whether the batch was closed. *)
Record PutBlocksBatchResults := mkBatch { br : list (option Error); tot : nat; closed : bool }.

Definition ErrBatchAlreadyClosed : Error := InternalError "batch already closed".

(** The driver has no result for a statement that was not queued. *)
Definition no_result : Error := InternalError "no result".

Definition br_Exec (b : PutBlocksBatchResults) : option Error * PutBlocksBatchResults :=
  match br b with
  | [] => (Some no_result, b)
  | err :: rest => (err, mkBatch rest (tot b) (closed b))
  end.

(** [for t := 0; t < b.tot; t++], with the callback as a function on its own state. *)
Fixpoint Exec_loop {R} (f : nat -> option Error -> R -> R) (rounds t : nat) (b : PutBlocksBatchResults) (r : R) : R :=
  match rounds with
  | O => r
  | S rounds =>
      if closed b then Exec_loop f rounds (S t) b (f t (Some ErrBatchAlreadyClosed) r)
      else let '(err, b) := br_Exec b in Exec_loop f rounds (S t) b (f t err r)
  end.

Definition Exec {R} (f : nat -> option Error -> R -> R) (b : PutBlocksBatchResults) (r : R) : R :=
  Exec_loop f (tot b) 0 b r.

Definition Close (b : PutBlocksBatchResults) : PutBlocksBatchResults := mkBatch (br b) (tot b) true.

(** The callback of [putBlocks]: the first error stays. *)
Definition keep_first (_ : nat) (err : option Error) (failed : option Error) : option Error :=
  match err, failed with
  | Some _, None => err
  | _, _ => failed
  end.

(** ** The server's side: the statements one after the other, the rest is refused after an error *)

Definition aborted : Error := InternalError "current transaction is aborted".

Fixpoint run_batch (stmts : list (Tx unit)) (t : Tables) : list (option Error) * option Tables :=
  match stmts with
  | [] => ([], Some t)
  | stmt :: rest =>
      match stmt t with
      | Ok (_, t) => let '(results, t) := run_batch rest t in (None :: results, t)
      | Err e => (Some e :: ((fun _ => Some aborted) <$> rest), None)
      end
  end.

(** What [putBlocks] makes of it, as a transaction. *)
Definition batch_tx (stmts : list (Tx unit)) : Tx unit := fun t =>
  let '(results, t') := run_batch stmts t in
  match Exec keep_first (mkBatch results (length stmts) false) None, t' with
  | Some e, _ => Err e
  | None, Some t' => Ok (tt, t')
  | None, None => Err aborted
  end.

(** The statements of a commit. *)
Definition part_stmts (k : Key) (params : list PutBlocksParams) : list (Tx unit) :=
  (fun p => writing (fun t => set_blocks (put_part k p (block_parts t)) t)) <$> params.

(** ** Facts *)

Lemma Exec_loop_first results : forall t rest n failed,
  Exec_loop keep_first (length results) t (mkBatch (results ++ rest) n false) failed =
  match failed with Some _ => failed | None => head (omap id results) end.
Proof.
  induction results as [|[e|] results IH]; intros t rest n failed; simpl; [by destruct failed|..];
    rewrite IH; by destruct failed.
Qed.

(** The first error of any statement is the error of the commit. *)
Lemma batch_first_error results :
  Exec keep_first (mkBatch results (length results) false) None = head (omap id results).
Proof. unfold Exec. simpl. rewrite <- (app_nil_r results) at 2. apply Exec_loop_first. Qed.

Lemma run_batch_length stmts : forall t, length (run_batch stmts t).1 = length stmts.
Proof.
  induction stmts as [|stmt stmts IH]; intros t; simpl; [done|]. destruct (stmt t) as [[[] t']|e]; simpl.
  - specialize (IH t'). destruct (run_batch stmts t'). simpl in *. by rewrite IH.
  - by rewrite length_fmap.
Qed.

(** The batch is the sequence of its statements, each after the success of the one before. *)
Lemma batch_is_sequence stmts : forall t, batch_tx stmts t = foldr (fun stmt tx => stmt ≫= fun _ => tx) (mret tt) stmts t.
Proof.
  assert (forall stmts t, batch_tx stmts t =
    match head (omap id (run_batch stmts t).1), (run_batch stmts t).2 with
    | Some e, _ => Err e | None, Some t' => Ok (tt, t') | None, None => Err aborted end) as Hb.
  { intros l t. unfold batch_tx. pose proof (run_batch_length l t) as Hl. destruct (run_batch l t) as [r t'].
    cbn [fst snd] in *. by rewrite <- Hl, batch_first_error. }
  induction stmts as [|stmt stmts IH]; intros t; [done|]. rewrite Hb. cbn [run_batch foldr].
  unfold mbind, Tx_bind. destruct (stmt t) as [[[] t']|e]; [|done]. rewrite <- IH, Hb. by destruct (run_batch stmts t').
Qed.

(** With statements that succeed it is the query of [Tables.v]. *)
Lemma batch_PutBlocks k params t : batch_tx (part_stmts k params) t = PutBlocks k params t.
Proof.
  rewrite batch_is_sequence. unfold part_stmts, PutBlocks, writing. revert t.
  induction params as [|p params IH]; intros t; [by destruct t|].
  cbn [fmap list_fmap foldr]. unfold mbind at 1, Tx_bind at 1. cbn. rewrite IH. by destruct t.
Qed.

(** Nothing is read from a batch that was closed. *)
Lemma closed_batch b f (r : nat) t : tot b = S t -> f = (fun _ err n => match err with Some _ => S n | None => n end) ->
  Exec f (Close b) r = (r + S t)%nat.
Proof.
  intros Ht ->. unfold Exec. simpl. rewrite Ht. generalize 0%nat. generalize (S t). clear Ht t.
  intros n. revert r. induction n as [|n IH]; intros r k; simpl; [lia|]. rewrite IH. lia.
Qed.
