(* ===== verification/PgRel.v ===== *)
(** * The relation between the PostgreSQL store and the memory store

    [rel t s]: the tables [t] hold what the memory store's state [s] holds.  A block is the sequence of
    its parts of 1024 bytes, an entry of the change log a row, and the lease columns are the fields
    of the record; the times of a deleted database are not kept. *)

From S2P Require Import Prelude Store StoreFacts Memory Trace MemoryInv Tables Postgres.

Local Open Scope Z_scope.

(** ** The relation *)

(** Part [p] of a block. *)
Definition part_of (data : bytes) (p : Z) : option bytes :=
  if (0 <=? p) && (p * partBytes <? zlen data) then
    Some (take (Z.to_nat partBytes) (drop (Z.to_nat (p * partBytes)) data))
  else None.

(** The entry of the change log for version [v]. *)
Definition log_at (v : Z) (log : list change) : option (list Z) :=
  (fun x => blocks_of x.2) <$> list_find (fun c => version c = v) log.

(** The columns of a row, without the times of the lease. *)
Record rel_row (row : Database) (db : database) : Prop := {
  rr_pagesize : d_PageSize row = PageSize (state db);
  rr_pagecount : d_PageCount row = PageCount (state db);
  rr_small : PageCount (state db) < two63;
  rr_version : d_Version row = Version (state db);
  rr_last : d_LastCommitID row = LastCommitID (state db);
  rr_epoch : d_LeaseEpoch row = Epoch (lease db);
  rr_id : d_LeaseID row = ID (lease db);
  rr_holder : d_LeaseHolder row = holder db;
  rr_deleted : d_Deleted row = deleted db }.

Definition rel_times (row : Database) (db : database) : Prop :=
  d_LeaseGranted row = Some (grantedAt db) /\ d_LeaseExpires row = Some (expiresAt db).

Definition rel_blocks (k : Key) (t : Tables) (m : gmap Z bytes) : Prop :=
  forall i p, block_parts t !! (k, i, p) = (data ← m !! i; part_of data p).

Definition rel_log (k : Key) (t : Tables) (log : list change) : Prop :=
  forall v, change_log t !! (k, v) = log_at v log.

Definition rel_key (k : Key) (t : Tables) (s : MemStore) : Prop :=
  match databases t !! k, dbs s !! k with
  | Some row, Some db =>
      rel_row row db /\ (deleted db = false -> rel_times row db) /\
      rel_blocks k t (blocks db) /\ rel_log k t (changes db)
  | None, None => rel_blocks k t ∅ /\ rel_log k t []
  | _, _ => False
  end.

Definition rel_slots (t : Tables) (s : MemStore) : Prop :=
  forall owner, slotOf <$> slot_rows t !! owner = slots s !! owner.

Definition rel (t : Tables) (s : MemStore) : Prop := (forall k, rel_key k t s) /\ rel_slots t s.

(** ** Structural lemmas *)

Lemma rel_empty : rel empty_tables New.
Proof. split; [intros k; unfold rel_key; simpl; split; intros ?; done|intros o; done]. Qed.

Lemma rel_lookup t s k db :
  rel t s -> dbs s !! k = Some db ->
  exists row, databases t !! k = Some row /\ rel_row row db /\
    (deleted db = false -> rel_times row db) /\
    rel_blocks k t (blocks db) /\ rel_log k t (changes db).
Proof.
  intros [Hr _] Hk. specialize (Hr k). unfold rel_key in Hr. rewrite Hk in Hr.
  destruct (databases t !! k) as [row|]; [|done]. exists row. split; [done|]. exact Hr.
Qed.

Lemma rel_missing t s k :
  rel t s -> dbs s !! k = None ->
  databases t !! k = None /\ rel_blocks k t ∅ /\ rel_log k t [].
Proof.
  intros [Hr _] Hk. specialize (Hr k). unfold rel_key in Hr. rewrite Hk in Hr.
  by destruct (databases t !! k).
Qed.

(** What the relation reads at one key. *)
Definition same_at (k : Key) (t t' : Tables) : Prop :=
  databases t' !! k = databases t !! k /\
  (forall i p, block_parts t' !! (k, i, p) = block_parts t !! (k, i, p)) /\
  (forall v, change_log t' !! (k, v) = change_log t !! (k, v)).

Lemma rel_key_frame k t t' s s' :
  same_at k t t' -> dbs s' !! k = dbs s !! k -> rel_key k t s -> rel_key k t' s'.
Proof.
  intros (Hd & Hb & Hc) Hs. unfold rel_key, rel_blocks, rel_log. rewrite Hd, Hs.
  destruct (databases t !! k), (dbs s !! k); try done.
  - intros (? & ? & HB & HC). split_and!; try done; intros *; [by rewrite Hb|by rewrite Hc].
  - intros [HB HC]. split; intros *; [by rewrite Hb|by rewrite Hc].
Qed.

(** An update of the tables at key [k] that matches an update of the record of [k]. *)
Lemma rel_update k t t' s row db :
  rel t s -> (forall k', k' <> k -> same_at k' t t') -> slot_rows t' = slot_rows t ->
  databases t' !! k = Some row -> rel_row row db -> (deleted db = false -> rel_times row db) ->
  rel_blocks k t' (blocks db) -> rel_log k t' (changes db) ->
  rel t' (put k db s).
Proof.
  intros [Hr Hsl] Hsame Hslots Hk Hrow Htimes Hb Hl. split.
  - intros k'. destruct (decide (k' = k)) as [->|Hne].
    + unfold rel_key. rewrite Hk, lookup_put, decide_True by done. done.
    + apply (rel_key_frame k' t t' s); [by apply Hsame| |apply Hr].
      by rewrite lookup_put, decide_False.
  - intros o. rewrite Hslots. apply Hsl.
Qed.

Lemma rel_set_row k t s row db :
  rel t s -> rel_row row db -> (deleted db = false -> rel_times row db) ->
  rel_blocks k t (blocks db) -> rel_log k t (changes db) ->
  rel (set_databases (<[k := row]> (databases t)) t) (put k db s).
Proof.
  intros Hr Hrow Ht Hb Hl. apply (rel_update k t _ s row db); try done.
  - intros k' Hne. split_and!; try done. apply lookup_insert_ne. done.
  - apply lookup_insert_eq.
Qed.

(** ** Numbers that fit a [bigint] *)

Lemma bigint_succ_ok n x :
  n < two63 - 1 -> x <= n -> bigint_succ x = Ok (x + 1).
Proof. intros Hn Hx. unfold bigint_succ. by rewrite (proj2 (Z.ltb_lt _ _)) by lia. Qed.

Lemma u64_nat63 x : 0 <= x < two63 -> u64 x = x.
Proof. zlia. Qed.

Lemma s64_nat63 x : 0 <= x < two63 -> s64 x = x.
Proof. zlia. Qed.

(** An unsigned number equals a [bigint] that is not negative exactly if its conversion does. *)
Lemma s64_eqb x y : in_u64 x -> 0 <= y < two63 -> (y =? s64 x) = (y =? x).
Proof.
  intros Hx Hy. apply eq_bool_prop_intro. rewrite !Is_true_true, !Z.eqb_eq. zlia.
Qed.

(** The numbers of a row under the invariant. *)
Lemma rel_row_numbers n row db :
  n < two63 - 1 -> wf_db n db -> rel_row row db ->
  u64 (d_Version row) = Version (state db) /\ u64 (d_LeaseEpoch row) = Epoch (lease db) /\
  u64 (d_PageCount row) = PageCount (state db) /\ u32 (d_PageSize row) = PageSize (state db) /\
  bigint_succ (d_Version row) = Ok (Version (state db) + 1) /\
  bigint_succ (d_LeaseEpoch row) = Ok (Epoch (lease db) + 1).
Proof.
  intros Hn Hwf [Hps Hpc Hsm Hv _ He _ _ _]. rewrite Hps, Hpc, Hv, He.
  pose proof (wf_version _ _ Hwf). pose proof (wf_epoch _ _ Hwf).
  pose proof (wf_pagecount _ _ Hwf).
  pose proof (ValidPageSize_pos _ (wf_pagesize _ _ Hwf)).
  split_and!; try (eapply bigint_succ_ok; [exact Hn|lia]); zlia.
Qed.

Lemma rel_holds n row db epoch :
  n < two63 - 1 -> wf_db n db -> rel_row row db -> holds row epoch = negb (fenced epoch db).
Proof.
  intros Hn Hwf Hr. unfold holds, fenced.
  destruct (rel_row_numbers _ _ _ Hn Hwf Hr) as (_ & -> & _). rewrite (rr_holder _ _ Hr).
  rewrite negb_orb, negb_involutive. f_equal.
  rewrite <- bool_decide_not. apply bool_decide_ext. by rewrite not_eq_None_Some.
Qed.

Lemma rel_active row db now :
  rel_row row db -> (holder db = None \/ rel_times row db) -> row_active now row = active now db.
Proof.
  intros Hr Ht. unfold row_active, active. rewrite (rr_holder _ _ Hr).
  destruct Ht as [Hn|[_ He]].
  - rewrite Hn. by rewrite bool_decide_false by (by intros []).
  - by rewrite He.
Qed.

Lemma rel_state n row db :
  n < two63 - 1 -> wf_db n db -> rel_row row db -> stateOf row = state db.
Proof.
  intros Hn Hwf Hr. destruct (rel_row_numbers _ _ _ Hn Hwf Hr) as (Hv & _ & Hpc & Hps & _).
  unfold stateOf. rewrite Hv, Hpc, Hps, (rr_last _ _ Hr). by destruct (state db).
Qed.

Lemma rel_lease n row db :
  n < two63 - 1 -> wf_db n db -> rel_row row db -> leaseOf row = lease db.
Proof.
  intros Hn Hwf Hr. destruct (rel_row_numbers _ _ _ Hn Hwf Hr) as (_ & He & _).
  unfold leaseOf. rewrite He, (rr_id _ _ Hr). by destruct (lease db).
Qed.
