(* ===== verification/PgLease.v ===== *)
(** * The PostgreSQL store simulates the memory store: leases and deletion *)

From S2P Require Import Prelude Store StoreFacts Memory Trace MemoryInv Tables Postgres PgRel.

Local Open Scope Z_scope.

(** Unfolds the transaction monad. *)
Ltac tx :=
  unfold inTx, one, reading, writing, fail, lift, mbind, mret, Tx_bind, Tx_ret in *; simpl in *.

(** A simulated call: the same answer, and related states. *)
Definition simulates {A} (p : Tables * result Error A) (m : MemStore * result Error A) : Prop :=
  p.2 = m.2 /\ rel p.1 m.1.

Lemma cloneLease_id l : cloneLease l = l.
Proof. by destruct l. Qed.

Lemma cloneState_id st : cloneState st = st.
Proof. by destruct st. Qed.

Section leases.
Context `{!Timestamptz}.

(** ** Open *)

Lemma share_slot_sim req t s :
  texts [or_Owner req] -> rel t s ->
  share_slot req t = if slot_taken req s then Err ErrSlotTaken else Ok (tt, t).
Proof.
  intros Htx [_ Hsl]. specialize (Hsl (or_Owner req)). unfold share_slot, slot_taken, ShareSlot. tx.
  rewrite <- Hsl. case_bool_decide; [|rewrite with_text_ok by done]; destruct (slot_rows t !! or_Owner req) as [row|]; simpl;
    try done. by case_bool_decide.
Qed.

Lemma s32_valid ps : ValidPageSize ps = true -> s32 ps = ps.
Proof. intros Hv. pose proof (ValidPageSize_pos _ Hv). zlia. Qed.

(** The row [Open] works on, and the record the memory store works on. *)
Lemma open_row_sim n newID req t s :
  0 <= n < two63 - 1 -> wf_store n s -> rel t s -> texts (key_text (or_Key req)) -> slot_taken req s = false ->
  (exists e, open_row req t = Err e /\ Memory.Open newID req s = (s, Err e)) \/
  (exists row db,
     open_row req t = Ok (row, set_databases (<[or_Key req := row]> (databases t)) t) /\
     Memory.Open newID req s = open_lease newID req db (put (or_Key req) db s) /\
     wf_db n db /\ rel_row row db /\ rel_blocks (or_Key req) t (blocks db) /\
     rel_log (or_Key req) t (changes db) /\ deleted db = false /\
     ((rel_times row db /\ dbs s !! or_Key req = Some db) \/ (holder db = None /\ or_Resume req = None))).
Proof.
  intros Hn Hwf Hr Htx Hslot. unfold open_row, Memory.Open, LockDatabase. rewrite Hslot. tx.
  rewrite with_text_ok by done.
  destruct (dbs s !! or_Key req) as [db|] eqn:Hk.
  - destruct (rel_lookup _ _ _ _ Hr Hk) as (row & Hrow & Hrr & Ht & Hb & Hl). rewrite Hrow.
    pose proof (wf_lookup _ _ _ _ Hwf Hk) as Hdb. pose proof (rr_deleted _ _ Hrr) as Hd.
    rewrite Hd. destruct (deleted db) eqn:Hdel.
    + unfold reviveDatabase, revive. tx. destruct (or_Resume req) as [r|] eqn:Hres; [by eauto|].
      destruct (negb (or_Create req)) eqn:Hc; [by eauto|].
      destruct (negb (ValidPageSize _)) eqn:Hv; [by eauto|]. bool_hyps.
      unfold ReviveDatabase, update_database. rewrite Hrow. tx.
      rewrite Z.eqb_refl, andb_false_r. right. eexists _, _. split; [done|]. split; [done|].
      destruct (wf_deleted _ _ Hdb Hdel) as (Hpc & Hbl & Hch & Hlast & Hh & Hid).
      pose proof (wf_pagesize _ _ Hdb). pose proof (wf_epoch _ _ Hdb). pose proof (wf_version _ _ Hdb).
      split_and!; try done.
      * apply (wf_revive n req db); try done. unfold revive. rewrite Hres, Hc, Hv. done.
      * destruct Hrr. constructor; simpl; try done. by apply s32_valid.
      * right. done.
    + destruct (rel_row_numbers _ _ _ (proj2 Hn) Hdb Hrr) as (_ & _ & _ & Hps & _).
      rewrite Hps, (rr_pagesize _ _ Hrr).
      rewrite (Z.eqb_sym (PageSize (state db))). destruct (_ && _) eqn:Hm.
      * left. eexists. split; [done|]. by rewrite put_same.
      * right. exists row, db. split_and!; try done.
        -- rewrite insert_id by done. by destruct t.
        -- left. split; [by apply Ht|done].
  - destruct (rel_missing _ _ _ Hr Hk) as (Hrow & Hb & Hl). rewrite Hrow.
    unfold createDatabase. tx.
    destruct (_ || _) eqn:Hc; [by eauto|]. apply orb_false_iff in Hc as [Hc Hres]. bool_hyps.
    apply eq_None_not_Some in Hres.
    destruct (negb (ValidPageSize _)) eqn:Hv; [by eauto|]. bool_hyps.
    unfold CreateDatabase. rewrite Hrow. tx. pose proof (ValidPageSize_pos _ Hv).
    rewrite (s32_valid _ Hv), (u32_small (or_PageSize req)), Z.eqb_refl, andb_false_r by zlia.
    right. eexists _, (new_database (or_PageSize req)). split; [done|]. split; [done|].
    split_and!; try done.
    * apply wf_new_database; [lia|done].
    * right. done.
Qed.

(** What the relation keeps of a stored time. *)
Definition aligned (t : Z) : Prop := t mod Microsecond = 0.

Lemma ts_aligned t : aligned t -> ts_column t = t.
Proof. apply ts_exact. Qed.

Lemma aligned_add t d : aligned t -> aligned d -> aligned (time_Add t d).
Proof. unfold aligned, time_Add, Microsecond. intros. Z.div_mod_to_equations. lia. Qed.

(** Extending a lease. *)
Lemma extend_sim n k t s row db e :
  n < two63 - 1 -> wf_db n db -> rel t s -> dbs s !! k = Some db -> databases t !! k = Some row ->
  is_Some (holder db) -> aligned e ->
  exists t', ExtendLease k (d_LeaseEpoch row) (timestamp e) t = Ok (1, t') /\
    rel t' (put k (set_expires e db) s).
Proof.
  intros Hn Hwf Hr Hk Hrow Hh He.
  destruct (rel_lookup _ _ _ _ Hr Hk) as (row' & Hrow' & Hrr & Ht & Hb & Hl). simplify_eq.
  unfold ExtendLease, update_lease, lease_matches. rewrite Hrow, Z.eqb_refl.
  rewrite (rr_holder _ _ Hrr), bool_decide_true by done. simpl. eexists. split; [done|].
  assert (deleted db = false) as Hd by (by eapply held_live).
  apply rel_set_row; try done.
  - by destruct Hrr.
  - intros _. split; simpl; [by apply Ht|]. unfold timestamp. by rewrite ts_aligned.
Qed.

Lemma Open_sim n newID req t s :
  0 <= n < two63 - 1 -> wf_store n s -> rel t s -> texts (op_texts (OpOpen newID req)) ->
  aligned (or_Now req) -> aligned (or_TTL req) ->
  simulates (Postgres.Open newID req t) (Memory.Open newID req s).
Proof.
  intros Hn Hwf Hr [Htx Hkt]%texts_cons Hnow Httl. unfold Postgres.Open, open_tx. tx.
  rewrite (share_slot_sim req t s Htx Hr). destruct (slot_taken req s) eqn:Hslot.
  { unfold Memory.Open. by rewrite Hslot. }
  destruct (open_row_sim n newID req t s Hn Hwf Hr Hkt Hslot)
    as [(e & -> & ->)|(row & db & -> & -> & Hdb & Hrr & Hb & Hl & Hd & Ht)]; [done|].
  destruct (rel_row_numbers _ _ _ (proj2 Hn) Hdb Hrr) as (_ & He & _ & _ & _ & Hsucc).
  unfold open_lease. destruct (or_Resume req) as [r|] eqn:Hres.
  - destruct Ht as [[Ht Hk]|[_ ?]]; [|done]. rewrite (put_same _ _ _ Hk).
    destruct (rel_lookup _ _ _ _ Hr Hk) as (row' & Hrow' & Hrr' & _).
    rewrite (rel_holds n row db) by (done || lia). rewrite negb_involutive, (rr_id _ _ Hrr).
    destruct (_ || _) eqn:Hf; [done|]. apply orb_false_iff in Hf as [[Hh _]%not_fenced _].
    destruct (extend_sim n (or_Key req) (set_databases (<[or_Key req:=row]> (databases t)) t)
                s row db (time_Add (or_Now req) (or_TTL req)))
      as (t' & -> & Hr'); try done; [lia| |apply lookup_insert_eq|by apply aligned_add|].
    + rewrite <- (put_same _ _ _ Hk). by apply rel_set_row.
    + split; [|done]. simpl. rewrite cloneLease_id, cloneState_id.
      by rewrite (rel_lease n row db), (rel_state n row db) by (done || lia).
  - assert (holder db = None \/ rel_times row db) as Ht' by naive_solver.
    rewrite (rel_active _ _ _ Hrr Ht'), (rr_holder _ _ Hrr).
    destruct (_ && _) eqn:Hact.
    + apply andb_true_iff in Hact as [[Ha _]%andb_true_iff _].
      apply andb_true_iff in Ha as [Ha _]. bool_hyps. destruct Ht as [[[Hg _] Hk]|[Hn' _]].
      * split; [|by rewrite put_same]. simpl. unfold granted_time. by rewrite Hg.
      * rewrite Hn' in Ha. by destruct Ha.
    + unfold GrantLease, update_database. simpl. rewrite lookup_insert_eq, Hsucc. tx.
      split; simpl.
      * rewrite cloneLease_id, cloneState_id, (rel_state n row db) by (done || lia). repeat f_equal.
      * rewrite put_put. unfold set_databases. simpl. rewrite insert_insert_eq.
        apply rel_set_row; try done.
        -- pose proof (wf_epoch _ _ Hdb). destruct Hrr. constructor; simpl; try done. zlia.
        -- intros _. unfold timestamp, rel_times. simpl.
           rewrite !ts_aligned by (done || by apply aligned_add). done.
Qed.

(** ** Renew and Release *)

Lemma lease_matches_sim n row db epoch :
  n < two63 - 1 -> wf_db n db -> rel_row row db -> in_u64 epoch ->
  lease_matches (s64 epoch) row = negb (fenced epoch db).
Proof.
  intros Hn Hwf Hr He. unfold lease_matches, fenced. pose proof (wf_epoch _ _ Hwf).
  rewrite (rr_holder _ _ Hr), (rr_epoch _ _ Hr), s64_eqb by (done || lia).
  rewrite negb_orb, negb_involutive, andb_comm. f_equal.
  rewrite <- bool_decide_not. apply bool_decide_ext. by rewrite not_eq_None_Some.
Qed.

(** Both lease updates: [f] on the row and [g] on the record agree. *)
Lemma update_lease_sim n k epoch f g t s :
  n < two63 - 1 -> wf_store n s -> rel t s -> in_u64 epoch ->
  (forall row db, rel_row row db -> rel_times row db ->
     rel_row (f row) (g db) /\ rel_times (f row) (g db)) ->
  (forall db, deleted (g db) = deleted db /\ blocks (g db) = blocks db /\ changes (g db) = changes db) ->
  simulates (inTx (rows ← update_lease k (s64 epoch) f; whyNoRow k rows) t)
    (match dbs s !! k with
     | None => (s, Err ErrNotFound)
     | Some db => if fenced epoch db then (s, Err ErrFenced) else (put k (g db) s, Ok tt)
     end).
Proof.
  intros Hn Hwf Hr He Hfg Hg. unfold update_lease, whyNoRow, DatabaseExists. tx.
  destruct (dbs s !! k) as [db|] eqn:Hk.
  - destruct (rel_lookup _ _ _ _ Hr Hk) as (row & Hrow & Hrr & Ht & Hb & Hl). rewrite Hrow.
    pose proof (wf_lookup _ _ _ _ Hwf Hk) as Hdb.
    rewrite (lease_matches_sim n row db epoch Hn Hdb Hrr He).
    destruct (fenced epoch db) eqn:Hf; simpl.
    { rewrite Hrow, bool_decide_true by done. done. }
    pose proof (not_fenced_live _ _ _ Hdb Hf) as Hd. destruct (Hfg row db Hrr (Ht Hd)) as [Hrr' Ht'].
    destruct (Hg db) as (_ & Hbl & Hch). split; [done|].
    apply rel_set_row; try done; [by rewrite Hbl|by rewrite Hch].
  - destruct (rel_missing _ _ _ Hr Hk) as (Hrow & _). rewrite Hrow. simpl.
    rewrite Hrow, bool_decide_false by (by intros []). done.
Qed.

Lemma Renew_sim n k epoch now ttl t s :
  n < two63 - 1 -> wf_store n s -> rel t s -> texts (key_text k) -> in_u64 epoch -> aligned now -> aligned ttl ->
  simulates (Postgres.Renew k epoch now ttl t) (Memory.Renew k epoch now ttl s).
Proof.
  intros Hn Hwf Hr Htx He Hnow Httl. unfold Postgres.Renew. rewrite inTx_text by done. apply (update_lease_sim n); try done.
  intros row db [] [Hg Hx]. split; [done|]. split; simpl; [done|].
  unfold timestamp. by rewrite ts_aligned by (by apply aligned_add).
Qed.

Lemma Release_sim n k epoch t s :
  n < two63 - 1 -> wf_store n s -> rel t s -> texts (key_text k) -> in_u64 epoch ->
  simulates (Postgres.Release k epoch t) (Memory.Release k epoch s).
Proof.
  intros Hn Hwf Hr Htx He. unfold Postgres.Release. rewrite inTx_text by done. apply (update_lease_sim n); try done.
  intros row db [] [Hg Hx]. by split.
Qed.

(** ** Delete *)

Lemma remove_sim n k t s db :
  n < two63 - 1 -> wf_db n db -> rel t s -> dbs s !! k = Some db ->
  exists t', Postgres.remove k t = Ok (u64 (Epoch (lease db) + 1), t') /\
    rel t' (put k (Memory.remove db) s) /\ slot_rows t' = slot_rows t.
Proof.
  intros Hn Hdb Hr Hk.
  destruct (rel_lookup _ _ _ _ Hr Hk) as (row & Hrow & Hrr & _ & Hb & Hl).
  destruct (rel_row_numbers _ _ _ Hn Hdb Hrr) as (_ & _ & _ & _ & Hv & He).
  unfold Postgres.remove, DeleteBlocksFrom, DeleteChanges, DeleteDatabase, update_database. tx.
  rewrite Hrow. rewrite Hv, He. simpl. eexists. split; [done|]. split; [|done].
  pose proof (wf_epoch _ _ Hdb). pose proof (wf_version _ _ Hdb).
  eapply (rel_update k t _ s); [done| | |apply lookup_insert_eq|..].
  - intros k' Hne. split_and!; simpl.
    + by rewrite lookup_insert_ne.
    + intros i p. rewrite map_lookup_filter. destruct (block_parts t !! _); simpl; [|done].
      rewrite option_guard_True; [done|]. intros [? _]. done.
    + intros v. rewrite map_lookup_filter. destruct (change_log t !! _); simpl; [|done].
      by rewrite option_guard_True.
  - done.
  - destruct Hrr. constructor; simpl; try done; zlia.
  - done.
  - intros i p. simpl. rewrite map_lookup_filter, Hb.
    destruct (blocks db !! i) as [data|] eqn:Hi; simpl; [|done].
    destruct (part_of data p); simpl; [|done]. rewrite option_guard_False; [done|].
    intros Hx. apply Hx. split; [done|]. apply (wf_blocks _ _ Hdb _ _ Hi).
  - intros v. simpl. rewrite map_lookup_filter. destruct (change_log t !! _); simpl; [|done].
    by rewrite option_guard_False by tauto.
Qed.

Lemma Delete_sim n req t s :
  n < two63 - 1 -> wf_store n s -> rel t s -> texts (key_text (dr_Key req)) ->
  simulates (Postgres.Delete req t) (Memory.Delete req s).
Proof.
  intros Hn Hwf Hr Htx. unfold Postgres.Delete. rewrite inTx_text by done. unfold delete_tx, Memory.Delete, LockDatabase. tx.
  destruct (dbs s !! dr_Key req) as [db|] eqn:Hk.
  - destruct (rel_lookup _ _ _ _ Hr Hk) as (row & Hrow & Hrr & Ht & _). rewrite Hrow.
    rewrite (rr_deleted _ _ Hrr). destruct (deleted db) eqn:Hd; [done|].
    specialize (Ht eq_refl). rewrite (rel_active _ _ _ Hrr (or_intror Ht)).
    destruct (_ && _).
    + split; [|done]. simpl. unfold granted_time. by rewrite (proj1 Ht).
    + destruct (remove_sim n _ t s db Hn (wf_lookup _ _ _ _ Hwf Hk) Hr Hk) as (t' & -> & Hr' & _). done.
  - destruct (rel_missing _ _ _ Hr Hk) as (Hrow & _). by rewrite Hrow.
Qed.
End leases.
