(* ===== verification/PgBlocks.v ===== *)
(** * The PostgreSQL store simulates the memory store: blocks

    A block is stored as parts of 1024 bytes; [Fetch] copies the parts back to their offsets.  The
    lemmas about reading hold for the parts in any order, so they do not depend on [ORDER BY]. *)

From S2P Require Import Prelude Store StoreFacts Memory Trace MemoryInv MemoryCommit Tables Postgres PgRel PgLease.

Local Open Scope Z_scope.

(** ** Writing parts *)

Lemma part_range len p :
  0 <= len -> p ∈ seqZ 0 ((len + partBytes - 1) / partBytes) <-> 0 <= p /\ p * partBytes < len.
Proof.
  intros Hl. rewrite elem_of_seqZ. unfold partBytes. Z.div_mod_to_equations. lia.
Qed.

Lemma foldl_put_parts k idx (g : Z -> bytes) l m k' i q :
  foldl (fun m p => put_part k p m) m ((fun p => mkPutBlocks idx p (g p)) <$> l) !! (k', i, q) =
  if decide ((k' = k /\ i = idx) /\ q ∈ l) then Some (g q) else m !! (k', i, q).
Proof.
  revert m. induction l as [|p l IH]; intros m; simpl.
  { rewrite decide_False; [done|set_solver]. }
  rewrite IH. unfold put_part. simpl. rewrite lookup_insert.
  repeat case_decide; simplify_eq; try done; set_solver.
Qed.

(** The parts of one block after it was written; a block keeps its length. *)
Lemma put_block_rel k b (m : gmap Z bytes) parts :
  in_u64 (Index b) -> Index b < two63 ->
  (forall i p, parts !! (k, i, p) = (data ← m !! i; part_of data p)) ->
  (forall old, m !! Index b = Some old -> zlen old = zlen (Data b)) ->
  forall i p, foldl (fun m p => put_part k p m) parts (block_params b) !! (k, i, p) =
              (data ← <[Index b := Data b]> m !! i; part_of data p).
Proof.
  intros Hi Hlt Hparts Hold i p. unfold block_params.
  rewrite (foldl_put_parts k (s64 (Index b))), s64_nat63 by zlia.
  pose proof (part_range (zlen (Data b)) p (zlen_nonneg _)) as Hr.
  destruct (decide (i = Index b)) as [->|Hne].
  - rewrite lookup_insert_eq. simpl. unfold part_of. destruct (_ && _) eqn:E; bool_hyps.
    + rewrite decide_True; [done|]. split; [done|]. apply Hr. lia.
    + rewrite decide_False; [|intros [_ Hin]; apply Hr in Hin; apply andb_false_iff in E as [?|?]; bool_hyps; lia].
      rewrite Hparts. destruct (m !! Index b) as [old|] eqn:Ho; simpl; [|done].
      unfold part_of. rewrite (Hold old) by done. by rewrite E.
  - rewrite lookup_insert_ne, decide_False by naive_solver. apply Hparts.
Qed.

Lemma foldl_put_other k params m k' i p :
  k' <> k -> foldl (fun m p => put_part k p m) m params !! (k', i, p) = m !! (k', i, p).
Proof.
  intros Hne. revert m. induction params as [|a params IH]; intros m; simpl; [done|].
  rewrite IH. unfold put_part. apply lookup_insert_ne. congruence.
Qed.

(** All blocks of a commit. *)
Lemma put_blocks_rel k ps (bl : list Block) : forall (m : gmap Z bytes) parts,
  Forall (fun b => in_u64 (Index b) /\ Index b < two63 /\ zlen (Data b) = ps) bl ->
  map_Forall (fun _ d => zlen d = ps) m ->
  (forall i p, parts !! (k, i, p) = (data ← m !! i; part_of data p)) ->
  forall i p, foldl (fun m p => put_part k p m) parts (b ← bl; block_params b) !! (k, i, p) =
    (data ← foldl (fun m b => <[Index b := Data b]> m) m bl !! i; part_of data p).
Proof.
  induction bl as [|b bl IH]; intros m parts Hbl Hm Hparts; simpl; [done|].
  apply Forall_cons in Hbl as [(Hi & Hlt & Hlen) Hbl]. rewrite foldl_app. apply IH; [done| |].
  - apply map_Forall_insert_2; done.
  - apply put_block_rel; try done. intros old Hold. rewrite Hlen. by eapply Hm.
Qed.

(** ** Reading parts *)

Lemma copy_part_lookup (at_ : nat) data block :
  (at_ + length data <= length block)%nat ->
  exists block', copy_part (Z.of_nat at_) data block = Some block' /\ length block' = length block /\
    forall q, block' !! q =
      if decide (at_ <= q < at_ + length data)%nat then data !! (q - at_)%nat else block !! q.
Proof.
  intros Hle. unfold copy_part, zlen.
  rewrite (proj2 (Z.leb_le _ _)), (proj2 (Z.leb_le _ _)) by lia. simpl. rewrite Nat2Z.id.
  rewrite (take_ge data) by lia. eexists. split; [done|]. split.
  { rewrite !length_app, length_take, length_drop. lia. }
  intros q. destruct (decide (q < at_)%nat) as [Hq|Hq].
  - rewrite decide_False by lia. rewrite lookup_app_l by (rewrite length_take; lia).
    by rewrite lookup_take_lt.
  - rewrite lookup_app_r by (rewrite length_take; lia). rewrite length_take, Nat.min_l by lia.
    destruct (decide (q - at_ < length data)%nat).
    + rewrite decide_True by lia. by rewrite lookup_app_l.
    + rewrite decide_False by lia. rewrite lookup_app_r, lookup_drop by lia. f_equal. lia.
Qed.

Lemma part_of_Some data p part :
  part_of data p = Some part ->
  0 <= p /\ (Z.to_nat (p * partBytes) + length part <= length data)%nat /\
  (forall q, (q < length part)%nat -> part !! q = data !! (Z.to_nat (p * partBytes) + q)%nat) /\
  (forall q, (q < length data)%nat ->
     Z.of_nat q / partBytes = p <->
     (Z.to_nat (p * partBytes) <= q < Z.to_nat (p * partBytes) + length part)%nat).
Proof.
  unfold part_of, partBytes, zlen. intros Hp. destruct (_ && _) eqn:E; [|done]. bool_hyps.
  injection Hp as <-. rewrite length_take, length_drop. split; [done|]. split; [lia|]. split.
  - intros q Hq. rewrite lookup_take_lt by lia. apply lookup_drop.
  - intros q Hq. Z.div_mod_to_equations. lia.
Qed.

Section fetch.
Context (m : gmap Z bytes) (ps count : nat) (first : Z).
Hypothesis Hlen : map_Forall (fun _ d => length d = ps) m.
Hypothesis Hfirst : 0 <= first /\ first + Z.of_nat count < two63.

(** A row is a part of a block in the range. *)
Definition row_ok (r : FetchBlocksRow) : Prop :=
  first <= fb_Idx r < first + Z.of_nat count /\
  (data ← m !! fb_Idx r; part_of data (fb_Part r)) = Some (fb_Data r).

(** The rows [done] have a part that holds byte [q] of block [j] of the range. *)
Definition covered (done : list FetchBlocksRow) (j q : nat) : Prop :=
  Exists (fun r => fb_Idx r = first + Z.of_nat j /\ fb_Part r = Z.of_nat q / partBytes) done.

Definition copied (done : list FetchBlocksRow) (bs : list bytes) : Prop :=
  length bs = count /\
  forall j b, bs !! j = Some b -> length b = ps /\
    forall q, (q < ps)%nat ->
      (covered done j q -> Some (b !! q) = (fun d : bytes => d !! q) <$> m !! (first + Z.of_nat j)) /\
      (~ covered done j q -> b !! q = Some x00).

Lemma copy_row_copied done bs r :
  copied done bs -> row_ok r ->
  exists bs', copy_row first bs r = Some bs' /\ copied (r :: done) bs'.
Proof.
  intros [Hl Hbs] [Hidx Hr]. unfold copy_row. rewrite (u64_nat63 (fb_Idx r)), u64_nat63 by lia.
  remember (Z.to_nat (fb_Idx r - first)) as j eqn:Hj0.
  destruct (lookup_lt_is_Some_2 bs j) as [b Hb]; [lia|]. rewrite Hb. simpl.
  destruct (m !! fb_Idx r) as [d|] eqn:Hd; [|done]. simpl in Hr.
  destruct (part_of_Some _ _ _ Hr) as (Hp & Hfit & Hdata & Hpos).
  destruct (Hbs _ _ Hb) as [Hblen Hbytes]. pose proof (Hlen _ _ Hd) as Hdlen. simpl in Hdlen.
  destruct (copy_part_lookup (Z.to_nat (fb_Part r * partBytes)) (fb_Data r) b)
    as (b' & Hcp & Hblen' & Hb'); [lia|].
  rewrite Z2Nat.id in Hcp by (unfold partBytes; lia). rewrite Hcp. simpl.
  eexists. split; [done|]. split; [by rewrite length_insert|].
  intros j' b0 Hj'. apply list_lookup_insert_Some in Hj' as [(<- & <- & _)|[Hne Hj']].
  - split; [lia|]. intros q Hq. rewrite Hb'. unfold covered. rewrite Exists_cons.
    assert (first + Z.of_nat j = fb_Idx r) as -> by lia.
    specialize (Hpos q ltac:(lia)). destruct (decide (_ <= q < _)%nat) as [Hin|Hin].
    + split; [|intros Hn; exfalso; apply Hn; left; split; [done|symmetry; by apply Hpos]].
      intros _. rewrite Hd. simpl. f_equal. rewrite Hdata by lia. f_equal. lia.
    + destruct (Hbytes q Hq) as [Hc Hn]. unfold covered in Hc, Hn.
      assert (first + Z.of_nat j = fb_Idx r) as Hj by lia. rewrite Hj in Hc, Hn.
      split; [|naive_solver]. intros [[_ Hpart]|Hex]; [|by apply Hc].
      exfalso. apply Hin, Hpos. done.
  - destruct (Hbs _ _ Hj') as [? Hq0]. split; [done|]. intros q Hq. destruct (Hq0 q Hq) as [Hc Hn].
    unfold covered. rewrite Exists_cons. split.
    + intros [[Heq _]|Hex]; [exfalso; lia|by apply Hc].
    + intros Hnot. apply Hn. naive_solver.
Qed.

Lemma copy_rows_copied rows : forall done bs,
  copied done bs -> Forall row_ok rows ->
  exists bs', copy_rows first bs rows = Some bs' /\ copied (reverse rows ++ done) bs'.
Proof.
  induction rows as [|r rows IH]; intros done bs Hc Hrows; simpl; [by eauto|].
  apply Forall_cons in Hrows as [Hr Hrows].
  destruct (copy_row_copied done bs r Hc Hr) as (bs1 & -> & Hc1). simpl.
  destruct (IH _ _ Hc1 Hrows) as (bs2 & -> & Hc2). eexists. split; [done|].
  by rewrite reverse_cons, <- app_assoc.
Qed.

(** All parts of the range, in any order, give the blocks. *)
Lemma copy_rows_blocks rows :
  Forall row_ok rows ->
  (forall i p part, first <= i < first + Z.of_nat count ->
     (data ← m !! i; part_of data p) = Some part -> mkFetchRow i p part ∈ rows) ->
  copy_rows first (replicate count (replicate ps x00)) rows =
  Some ((fun i => default (replicate ps x00) (m !! (first + i))) <$> seqZ 0 (Z.of_nat count)).
Proof.
  intros Hrows Hall.
  destruct (copy_rows_copied rows [] (replicate count (replicate ps x00))) as (bs & -> & [Hl Hbs]); [|done|].
  { split; [apply length_replicate|]. intros j b Hj. apply lookup_replicate in Hj as [-> _].
    split; [apply length_replicate|]. intros q Hq. split.
    - unfold covered. by intros ?%Exists_nil.
    - intros _. by apply lookup_replicate_2. }
  rewrite app_nil_r in Hbs. f_equal. apply list_eq_same_length with (n := count); [rewrite length_fmap, length_seqZ; lia|done|].
  intros j b b' Hj Hb Hb'. destruct (Hbs _ _ Hb) as [Hblen Hbytes].
  rewrite list_lookup_fmap in Hb'. rewrite lookup_seqZ_lt in Hb' by lia. simpl in Hb'.
  injection Hb' as <-. rewrite Z.add_0_l.
  destruct (m !! (first + Z.of_nat j)) as [d|] eqn:Hd; simpl.
  - pose proof (Hlen _ _ Hd) as Hdl. simpl in Hdl. apply list_eq_same_length with (n := ps); [done..|].
    intros q x y Hq Hx Hy. destruct (Hbytes q Hq) as [Hc _].
    assert (Some (b !! q) = Some (d !! q)) as Heq; [|congruence]. apply Hc.
    unfold covered. apply Exists_exists.
    assert (0 <= Z.of_nat q / partBytes /\ Z.of_nat q / partBytes * partBytes < zlen d) as Hp.
    { unfold zlen, partBytes. Z.div_mod_to_equations. lia. }
    eexists (mkFetchRow _ _ _). split; [|split; reflexivity]. apply elem_of_reverse, Hall; [lia|].
    rewrite Hd. simpl. unfold part_of.
    rewrite (proj2 (Z.leb_le _ _)), (proj2 (Z.ltb_lt _ _)) by apply Hp. reflexivity.
  - apply list_eq_same_length with (n := ps); [apply length_replicate|done|].
    intros q x y Hq Hx Hy. destruct (Hbytes q Hq) as [_ Hn]. apply lookup_replicate in Hy as [-> _].
    rewrite Hn in Hx; [congruence|]. unfold covered. intros Hex. apply Exists_exists in Hex as (r & Hr & Hi & _).
    rewrite elem_of_reverse in Hr. rewrite Forall_forall in Hrows. destruct (Hrows r Hr) as [_ Hsome].
    rewrite Hi, Hd in Hsome. done.
Qed.
End fetch.
