(* ===== verification/PgCommit.v ===== *)
(** * The PostgreSQL store simulates the memory store: fetches, commits and the change log *)

From S2P Require Import Prelude Store StoreFacts Memory Trace MemoryInv MemoryCommit MemoryHistory Tables Postgres PgRel PgLease PgBlocks.

Local Open Scope Z_scope.

(** ** Fetch *)

Lemma FetchBlocks_rows k first beyond t r :
  exists rows, FetchBlocks k first beyond t = Ok (rows, t) /\
    (r ∈ rows <-> block_parts t !! (k, fb_Idx r, fb_Part r) = Some (fb_Data r) /\
                  first <= fb_Idx r < beyond).
Proof.
  eexists. split; [done|]. rewrite merge_sort_Permutation, list_elem_of_fmap. split.
  - intros ([[[k' i] p] d] & -> & Hin). simpl.
    apply list_elem_of_filter in Hin as [(Hk & Hlo & Hhi) Hin]. simpl in *. subst k'.
    apply elem_of_map_to_list in Hin. done.
  - intros (Hin & Hlo & Hhi). exists (k, fb_Idx r, fb_Part r, fb_Data r). split; [by destruct r|].
    apply list_elem_of_filter. split; [done|]. by apply elem_of_map_to_list.
Qed.

Section fetches.
Context `{!Timestamptz}.

Lemma Fetch_sim n k ver first count t s :
  n < two63 - 1 -> wf_store n s -> rel t s -> texts (key_text k) -> in_u64 first -> in_u64 count ->
  Postgres.Fetch k ver first count t = Memory.Fetch k ver first count s.
Proof.
  intros Hn Hwf Hr Htx Hf Hc. unfold Postgres.Fetch. rewrite inTx_text by done.
  unfold fetch_tx, Memory.Fetch, GetDatabase. tx.
  destruct (dbs s !! k) as [db|] eqn:Hk.
  2:{ destruct (rel_missing _ _ _ Hr Hk) as (-> & _). done. }
  destruct (rel_lookup _ _ _ _ Hr Hk) as (row & -> & Hrr & _ & Hb & _).
  pose proof (wf_lookup _ _ _ _ Hwf Hk) as Hdb.
  destruct (rel_row_numbers _ _ _ Hn Hdb Hrr) as (-> & _ & -> & _).
  rewrite (rr_deleted _ _ Hrr). destruct (deleted db); [done|].
  destruct (negb _) eqn:Hv; [done|]. pose proof (wf_pagecount _ _ Hdb) as Hpc.
  pose proof (rr_small _ _ Hrr) as Hsm.
  destruct (CheckRange first count (PageCount (state db))) as [u|] eqn:Hcr; [|done]. simpl.
  apply CheckRange_unit, CheckRange_ok in Hcr; [|done..].
  rewrite (rr_pagesize _ _ Hrr), (u64_nat63 (first + count)), !s64_nat63 by zlia.
  pose proof (ValidPageSize_pos _ (wf_pagesize _ _ Hdb)) as Hps.
  unfold FetchBlocks, reading. set (rows := merge_sort _ _).
  assert (forall r, r ∈ rows <-> block_parts t !! (k, fb_Idx r, fb_Part r) = Some (fb_Data r) /\
                                first <= fb_Idx r < first + count) as Hrows.
  { intros r. destruct (FetchBlocks_rows k first (first + count) t r) as (rows' & HF & Hiff).
    unfold FetchBlocks, reading in HF. injection HF as <-. exact Hiff. }
  destruct (make_blocks count) as [[]|]; [|done].
  rewrite (copy_rows_blocks (blocks db) (Z.to_nat (PageSize (state db))) (Z.to_nat count) first).
  - rewrite Z2Nat.id by zlia. simpl. f_equal. apply list_fmap_ext. intros j i Hj.
    apply lookup_seqZ in Hj as [-> Hlt]. rewrite u64_nat63 by zlia. unfold read_block.
    by destruct (blocks db !! _).
  - intros i d Hi. destruct (wf_blocks _ _ Hdb _ _ Hi) as [_ Hl]. unfold zlen in Hl. simpl. lia.
  - rewrite Z2Nat.id; zlia.
  - apply Forall_forall. intros r Hin. apply Hrows in Hin as [Hp Hrange]. split.
    + rewrite Z2Nat.id; zlia.
    + by rewrite <- Hb.
  - intros i p part Hi Hp. apply Hrows. simpl. rewrite Hb. split; [done|].
    rewrite Z2Nat.id in Hi; zlia.
Qed.
End fetches.

(** ** The change log *)

Lemma log_at_cons v c log :
  log_at v (c :: log) = if decide (version c = v) then Some (blocks_of c) else log_at v log.
Proof.
  unfold log_at. simpl. case_decide; [done|]. by destruct (list_find _ log) as [[]|].
Qed.

Lemma log_at_app v l1 l2 :
  log_at v (l1 ++ l2) = match log_at v l1 with Some b => Some b | None => log_at v l2 end.
Proof.
  induction l1 as [|c l1 IH]; [done|]. rewrite <- app_comm_cons, !log_at_cons, IH. by case_decide.
Qed.

Lemma log_at_outside v cur log :
  log_ok cur log -> v <= cur - zlen log \/ cur < v -> log_at v log = None.
Proof.
  intros (_ & _ & Hj) Hv. unfold log_at. destruct (list_find _ log) as [[j c]|] eqn:E; [|done].
  apply list_find_Some in E as (Hl & Hc & _). pose proof (lookup_lt_Some _ _ _ Hl).
  apply Hj in Hl. unfold zlen in *. lia.
Qed.

(** The log after a commit, entry by entry. *)
Lemma log_at_change cur log c x :
  log_ok cur log -> version c = cur + 1 ->
  log_at x (log_change c log) =
  if decide (x = cur + 1) then Some (blocks_of c)
  else if decide (ChangeWindow < cur + 1 /\ x <= cur + 1 - ChangeWindow) then None
  else log_at x log.
Proof.
  intros Hok Hc. pose proof Hok as (Hw & Hv & Hj).
  assert (log_at x [c] = if decide (x = cur + 1) then Some (blocks_of c) else None) as H1.
  { rewrite log_at_cons. repeat case_decide; congruence || lia || done. }
  assert (x = cur + 1 -> log_at x log = None) as Hnew
    by (intros ->; apply (log_at_outside _ cur); [done|lia]).
  unfold log_change. rewrite zlen_app. change (zlen [c]) with 1.
  destruct (ChangeWindow <? zlen log + 1) eqn:E; bool_hyps.
  - unfold ChangeWindow in *. destruct log as [|c0 rest]; [unfold zlen in E; simpl in E; lia|].
    replace (zlen (c0 :: rest) + 1 - 1024) with 1 by lia.
    change (drop (Z.to_nat 1) ((c0 :: rest) ++ [c])) with (rest ++ [c]).
    pose proof (Hj 0%nat c0 eq_refl) as H0. pose proof (log_at_cons x c0 rest) as Hcons.
    pose proof (log_ok_drop1 _ _ _ Hok) as Hrest.
    assert (zlen (c0 :: rest) = zlen rest + 1) as Hz by (unfold zlen; simpl; lia).
    rewrite log_at_app, H1. clear H1. destruct (decide (x = cur + 1)) as [Hx|Hx].
    + rewrite (Hnew Hx) in Hcons. destruct (decide (version c0 = x)); [lia|]. by rewrite <- Hcons.
    + destruct (decide (1024 < cur + 1 /\ x <= cur + 1 - 1024)) as [Hp|Hp].
      * rewrite (log_at_outside x cur rest) by (done || lia). done.
      * rewrite Hcons. destruct (decide (version c0 = x)); [exfalso; lia|]. by destruct (log_at x rest).
  - rewrite log_at_app, H1. clear H1. destruct (decide (x = cur + 1)) as [Hx|Hx]; [by rewrite Hnew|].
    case_decide as Hp; [|by destruct (log_at x log)].
    rewrite (log_at_outside x cur log); [done|done|]. unfold ChangeWindow in *. lia.
Qed.

(** ** Commit *)

Lemma putBlocks_eq req t :
  putBlocks req t =
  Ok (tt, set_blocks (foldl (fun m p => put_part (cr_Key req) p m) (block_parts t)
                        (b ← cr_Blocks req; block_params b)) t).
Proof. unfold putBlocks. destruct (cr_Blocks req); [|done]. simpl. by destruct t. Qed.

Lemma s64_indexes (bl : list Block) pc :
  pc < two63 -> Forall (fun b => in_u64 (Index b) /\ Index b < pc) bl ->
  (fun b => s64 (Index b)) <$> bl = Index <$> bl.
Proof.
  intros Hpc Hb. apply list_fmap_ext. intros j b Hj. rewrite Forall_lookup in Hb.
  destruct (Hb j b Hj). apply s64_nat63. zlia.
Qed.

Lemma recordChange_sim k ver bl log t :
  1 <= ver < two63 -> rel_log k t log -> log_ok (ver - 1) log ->
  (fun b => s64 (Index b)) <$> bl = Index <$> bl ->
  exists ch, recordChange k ver bl t = Ok (tt, set_changes ch t) /\
    rel_log k (set_changes ch t) (log_change (mkChange ver (sort_indexes (Index <$> bl))) log) /\
    (forall k' v, k' <> k -> ch !! (k', v) = change_log t !! (k', v)).
Proof.
  intros Hv Hlog Hok Hidx. unfold recordChange, RecordChange, PruneChanges. tx. rewrite Hidx.
  rewrite (s64_nat63 ver) by lia. rewrite Hlog, (log_at_outside ver (ver - 1)) by (done || lia). simpl.
  set (c := mkChange ver _).
  assert (forall x, log_at x (log_change c log) =
    if decide (x = ver) then Some (blocks_of c)
    else if decide (ChangeWindow < ver /\ x <= ver - ChangeWindow) then None else log_at x log) as Hat.
  { intros x. rewrite (log_at_change (ver - 1)) by (done || simpl; lia).
    replace (ver - 1 + 1) with ver by lia. done. }
  destruct (ver <=? ChangeWindow) eqn:Hw; bool_hyps.
  - eexists. split; [done|]. split.
    + intros x. simpl. rewrite Hat, lookup_insert. repeat case_decide; simplify_eq; try done; try lia.
    + intros k' v Hne. apply lookup_insert_ne. congruence.
  - unfold ChangeWindow in *. rewrite (u64_nat63 (ver - 1024)), s64_nat63 by lia.
    eexists. split; [done|]. split.
    + intros x. simpl. rewrite Hat, map_lookup_filter, lookup_insert.
      destruct (decide (x = ver)) as [->|Hx].
      * rewrite decide_True by done. simpl. rewrite option_guard_True by (simpl; lia). done.
      * rewrite decide_False by congruence. rewrite Hlog.
        destruct (decide (1024 < ver /\ x <= ver - 1024)); destruct (log_at x log); simpl; try done.
        -- rewrite option_guard_False; [done|]. simpl. intros Hx'. apply Hx'. split; [done|lia].
        -- rewrite option_guard_True; [done|]. simpl. intros [_ ?]. lia.
    + intros k' v Hne. simpl. rewrite map_lookup_filter, lookup_insert_ne by congruence.
      destruct (change_log t !! (k', v)); simpl; [|done]. rewrite option_guard_True; [done|].
      simpl. by intros [? _].
Qed.

Section commits.
Context `{!Timestamptz}.

(** The parts after the blocks of a commit were written and the file was cut. *)
Lemma commit_parts n k req t db :
  wf_db n db -> wf_commit req -> commit_ok (PageSize (state db)) req -> cr_PageCount req < two63 ->
  rel_blocks k t (blocks db) ->
  forall i p,
    filter (fun e => ~ (e.1.1.1 = k /\ cr_PageCount req <= e.1.1.2))
      (foldl (fun m p => put_part k p m) (block_parts t) (b ← cr_Blocks req; block_params b)) !! (k, i, p) =
    (data ← blocks (apply_commit req db) !! i; part_of data p).
Proof.
  intros Hwf (_ & _ & Hpc & Hwb) (_ & Hok & _) Hsm Hb i p.
  rewrite map_lookup_filter.
  rewrite (put_blocks_rel k (PageSize (state db)) (cr_Blocks req) (blocks db) (block_parts t)); [|..|exact Hb].
  - simpl. rewrite map_lookup_filter. destruct (foldl _ (blocks db) _ !! i) as [d|]; simpl; [|done].
    destruct (decide (i < cr_PageCount req)).
    + rewrite (option_guard_True (i < cr_PageCount req)) by done. simpl.
      destruct (part_of d p); simpl; [|done]. rewrite option_guard_True; [done|]. intros [_ ?]. lia.
    + rewrite (option_guard_False (i < cr_PageCount req)) by done. simpl.
      destruct (part_of d p); simpl; [|done]. rewrite option_guard_False; [done|].
      intros Hx. apply Hx. split; [done|lia].
  - apply Forall_forall. intros b Hin. rewrite Forall_forall in Hok, Hwb.
    destruct (Hok b Hin). specialize (Hwb b Hin). unfold wf_block in Hwb. split_and!; [done|lia|done].
  - intros j d Hj. apply (wf_blocks _ _ Hwf _ _ Hj).
Qed.

Lemma Commit_sim n req t s :
  n < two63 - 1 -> wf_store n s -> rel t s -> texts (key_text (cr_Key req)) -> wf_commit req ->
  cr_PageCount req < two63 -> aligned (cr_Now req) -> aligned (cr_TTL req) ->
  simulates (Postgres.Commit req t) (Memory.Commit req s).
Proof.
  intros Hn Hwf Hr Htx Hreq Hsm Hnow Httl. unfold Postgres.Commit. rewrite inTx_text by done.
  unfold commit_tx, Memory.Commit, LockDatabase. tx.
  destruct (dbs s !! cr_Key req) as [db|] eqn:Hk.
  2:{ destruct (rel_missing _ _ _ Hr Hk) as (-> & _). done. }
  destruct (rel_lookup _ _ _ _ Hr Hk) as (row & Hrow & Hrr & Ht & Hb & Hl). rewrite Hrow.
  pose proof (wf_lookup _ _ _ _ Hwf Hk) as Hdb.
  destruct (rel_row_numbers _ _ _ Hn Hdb Hrr) as (Hv & _ & _ & Hps & Hvs & _).
  rewrite (rel_holds n row db) by done. rewrite negb_involutive, Hv, Hps.
  rewrite (rr_last _ _ Hrr). destruct (fenced _ _) eqn:Hf; [done|].
  pose proof (not_fenced_live _ _ _ Hdb Hf) as Hlive. apply not_fenced in Hf as [Hh _].
  fold (repeated req (state db)). destruct (repeated req (state db)).
  { destruct (extend_sim n (cr_Key req) t s row db (time_Add (cr_Now req) (cr_TTL req)))
      as (t' & -> & Hr'); try done. by apply aligned_add. }
  destruct (negb _) eqn:Hver; [done|].
  destruct (ValidateCommit _ _) as [u|] eqn:Hval; [|done]. simpl.
  assert (commit_ok (PageSize (state db)) req) as Hok by (apply ValidateCommit_ok; by destruct u).
  rewrite putBlocks_eq. simpl. unfold DeleteBlocksFrom, ApplyCommit, update_database. tx.
  rewrite Hrow, Hvs. simpl.
  pose proof (wf_version _ _ Hdb) as Hvr. pose proof (wf_log _ _ Hdb) as Hlog.
  assert (s64 (cr_PageCount req) = cr_PageCount req) as Hpc
    by (apply s64_nat63; destruct Hreq as (_ & _ & Hpc & _); zlia).
  rewrite Hpc, (u64_nat63 (Version (state db) + 1)) by zlia.
  match goal with |- context [recordChange _ _ _ ?t1] => set (t1' := t1) end.
  destruct (recordChange_sim (cr_Key req) (Version (state db) + 1) (cr_Blocks req) (changes db) t1')
    as (ch & -> & Hlog' & Hother); [zlia|exact Hl|by replace (Version (state db) + 1 - 1) with (Version (state db)) by lia| |].
  { apply (s64_indexes _ (cr_PageCount req) Hsm). destruct Hreq as (_ & _ & _ & Hwb), Hok as (_ & Hbk & _).
    apply Forall_forall. intros b Hin. rewrite Forall_forall in Hbk, Hwb. split; [by apply Hwb|apply Hbk, Hin]. }
  assert (u64 (Version (state db) + 1) = Version (state db) + 1) as Hu by (apply u64_nat63; zlia).
  split; [simpl; first [done|by rewrite Hu]|].
  eapply (rel_update (cr_Key req) t _ s); [done| |done|apply lookup_insert_eq|..].
  - intros k' Hne. split_and!; simpl.
    + by rewrite lookup_insert_ne.
    + intros i p. rewrite map_lookup_filter, foldl_put_other by done.
      destruct (block_parts t !! _); simpl; [|done]. rewrite option_guard_True; [done|]. by intros [? _].
    + intros v. by apply Hother.
  - destruct Hrr. constructor; simpl; try done; by rewrite Hu.
  - intros _. split; simpl; [by apply Ht|]. unfold timestamp. by rewrite ts_aligned by (by apply aligned_add).
  - intros i p. by apply (commit_parts n).
  - intros v. simpl. rewrite Hu. apply Hlog'.
Qed.
End commits.
