(* ===== verification/PgSlots.v ===== *)
(** * The PostgreSQL store simulates the memory store: change sets, slots and unused databases *)

From S2P Require Import Prelude Store StoreFacts Memory Trace MemoryInv MemoryHistory MemoryUnused Tables Postgres PgRel PgLease.

Local Open Scope Z_scope.

(** ** Changes *)

Lemma log_at_elem v cur log l :
  log_ok cur log -> log_at v log = Some l <-> exists c, c ∈ log /\ version c = v /\ blocks_of c = l.
Proof.
  intros (_ & _ & Hj). unfold log_at. split.
  - intros H. apply fmap_Some in H as ([j c] & Hf & ->). apply list_find_Some in Hf as (Hl & Hv & _).
    exists c. split_and!; try done. by eapply list_elem_of_lookup_2.
  - intros (c & Hin & Hv & <-). apply list_elem_of_lookup in Hin as [j Hl].
    assert (list_find (fun c => version c = v) log = Some (j, c)) as ->; [|done].
    apply list_find_Some. split_and!; try done. intros j' c' Hl' Hlt Hv'.
    apply Hj in Hl, Hl'. lia.
Qed.

Lemma foldr_min_spec v vs :
  foldr Z.min v vs ∈ v :: vs /\ forall w, w ∈ v :: vs -> foldr Z.min v vs <= w.
Proof.
  induction vs as [|u vs [IH1 IH2]]; simpl; [set_solver|]. split.
  - destruct (Z.min_spec u (foldr Z.min v vs)) as [[_ ->] | [_ ->]]; set_solver.
  - intros w Hw. apply elem_of_cons in Hw as [->|Hw].
    + specialize (IH2 v ltac:(set_solver)). lia.
    + apply elem_of_cons in Hw as [->|Hw]; [lia|]. specialize (IH2 w ltac:(set_solver)). lia.
Qed.

Lemma elem_of_logged k t v : v ∈ logged k t <-> is_Some (change_log t !! (k, v)).
Proof.
  unfold logged. rewrite list_elem_of_fmap. split.
  - intros ([[k' v'] l] & -> & Hin). apply list_elem_of_filter in Hin as [Hk Hin]. simpl in *. subst.
    apply elem_of_map_to_list in Hin. by eexists.
  - intros [l Hl]. exists (k, v, l). split; [done|]. apply list_elem_of_filter. split; [done|].
    by apply elem_of_map_to_list.
Qed.

Lemma OldestChange_sim k t cur log :
  log_ok cur log -> rel_log k t log ->
  OldestChange k t = Ok (match log with [] => 0 | c :: _ => version c end, t).
Proof.
  intros Hok Hlog. unfold OldestChange, reading. do 2 f_equal.
  assert (forall v, v ∈ logged k t <-> exists c, c ∈ log /\ version c = v) as Hel.
  { intros v. rewrite elem_of_logged, Hlog. split.
    - intros [l Hl]. apply (log_at_elem _ cur) in Hl as (c & ? & ? & _); [|done]. eauto.
    - intros (c & Hin & Hv). exists (blocks_of c). apply (log_at_elem _ cur); [done|]. eauto. }
  destruct log as [|c log].
  - destruct (logged k t) as [|v vs]; [done|]. destruct (proj1 (Hel v)) as (c & Hin & _); [set_solver|].
    set_solver.
  - destruct Hok as (_ & _ & Hj). pose proof (Hj 0%nat c eq_refl) as H0.
    destruct (logged k t) as [|v vs] eqn:Hlg.
    { exfalso. assert (version c ∈ []) as Hin by (apply Hel; exists c; split; [left|done]). set_solver. }
    destruct (foldr_min_spec v vs) as [Hin Hmin]. apply Z.le_antisymm.
    + apply Hmin, Hel. exists c. split; [left|done].
    + apply Hel in Hin as (c' & Hin & <-). apply list_elem_of_lookup in Hin as [j Hl].
      apply Hj in Hl. simpl in *. lia.
Qed.

Lemma foldl_rows_elem (rows : list ChangedSinceRow) (acc : gset Z) i :
  i ∈ foldl (fun acc r => foldl (fun a j => {[u64 j]} ∪ a) acc (ch_Blocks r)) acc rows <->
  (exists r j, r ∈ rows /\ j ∈ ch_Blocks r /\ u64 j = i) \/ i ∈ acc.
Proof.
  assert (forall (l : list Z) (acc : gset Z),
    i ∈ foldl (fun a j => {[u64 j]} ∪ a) acc l <-> (exists j, j ∈ l /\ u64 j = i) \/ i ∈ acc) as Hin.
  { induction l as [|j l IH]; intros acc'; simpl; [set_solver|]. rewrite IH. set_solver. }
  revert acc. induction rows as [|r rows IH]; intros acc; simpl; [set_solver|].
  rewrite IH, Hin. set_solver.
Qed.

Lemma rows_changed_sim k t from cur log :
  log_ok cur log -> Forall entry_ok log -> rel_log k t log ->
  exists rows, ChangedSince k from t = Ok (rows, t) /\ rows_changed rows = changed_since from log.
Proof.
  intros Hok Hent Hlog. eexists. split; [done|]. unfold rows_changed, changed_since, sort_indexes.
  f_equal. f_equal. apply set_eq. intros i. rewrite foldl_rows_elem.
  assert (i ∈ changed_since from log <-> exists c, c ∈ log /\ from < version c /\ i ∈ blocks_of c) as Hcs
    by apply changed_since_elem.
  unfold changed_since in Hcs. rewrite sort_indexes_perm, elem_of_elements in Hcs. rewrite Hcs. clear Hcs.
  rewrite Forall_forall in Hent. split.
  - intros [(r & j & Hr & Hj & <-)|?]; [|set_solver]. rewrite merge_sort_Permutation in Hr.
    apply list_elem_of_fmap in Hr as ([[k' v] l] & -> & Hin).
    apply list_elem_of_filter in Hin as [[Hk Hv] Hin]. apply elem_of_map_to_list in Hin.
    simpl in *. subst k'.
    rewrite Hlog in Hin. apply (log_at_elem _ cur) in Hin as (c & Hc & <- & <-); [|done].
    exists c. split_and!; try done. destruct (Hent c Hc) as (_ & _ & Hu). rewrite Forall_forall in Hu.
    by rewrite u64_small by (by apply Hu).
  - intros (c & Hc & Hv & Hi). left. exists (mkChangedSince (version c) (blocks_of c)), i. split_and!.
    + rewrite merge_sort_Permutation. apply list_elem_of_fmap. exists (k, version c, blocks_of c).
      split; [done|]. apply list_elem_of_filter. split; [done|]. apply elem_of_map_to_list.
      rewrite Hlog. apply (log_at_elem _ cur); [done|]. eauto.
    + done.
    + destruct (Hent c Hc) as (_ & _ & Hu). rewrite Forall_forall in Hu. by rewrite u64_small by (by apply Hu).
Qed.

Lemma Changes_sim n k from t s :
  n < two63 - 1 -> wf_store n s -> rel t s -> texts (key_text k) -> in_u64 from ->
  Postgres.Changes k from t = Memory.Changes k from s.
Proof.
  intros Hn Hwf Hr Htx Hf. unfold Postgres.Changes. rewrite Htx. unfold changes_at, Memory.Changes.
  destruct (dbs s !! k) as [db|] eqn:Hk.
  2:{ destruct (rel_missing _ _ _ Hr Hk) as (-> & _). done. }
  destruct (rel_lookup _ _ _ _ Hr Hk) as (row & -> & Hrr & _ & _ & Hl).
  pose proof (wf_lookup _ _ _ _ Hwf Hk) as Hdb.
  destruct (rel_row_numbers _ _ _ Hn Hdb Hrr) as (-> & _). rewrite (rr_deleted _ _ Hrr).
  destruct (deleted db); [done|]. destruct (_ <? from) eqn:Hlt; [done|]. bool_hyps.
  destruct (from =? _) eqn:Heq; [done|]. bool_hyps.
  pose proof (wf_version _ _ Hdb). pose proof (wf_log _ _ Hdb) as Hlog.
  rewrite (OldestChange_sim k t _ _ Hlog Hl). unfold mbind, result_bind. cbn iota beta.
  destruct (changes db) as [|c rest] eqn:Hch; [done|].
  assert (1 <= version c < two63).
  { destruct Hlog as (_ & Hle & Hj). specialize (Hj 0%nat c eq_refl). unfold zlen in *. simpl in *. lia. }
  rewrite (proj2 (Z.eqb_neq (version c) 0)), (u64_nat63 (version c)) by lia. cbn [orb].
  destruct (_ <? version c); [done|]. rewrite s64_nat63 by zlia.
  destruct (rows_changed_sim k t from (Version (state db)) (c :: rest)) as (rows & -> & Hrows); [done| |done|].
  - rewrite <- Hch. apply (wf_entries _ _ Hdb).
  - simpl. by rewrite Hrows.
Qed.

(** ** Deleting databases completely *)

Lemma filter_gone {K A} `{Countable K} (key : K -> Key) (gone : Key -> Prop)
    `{!forall k, Decision (gone k)} (m : gmap K A) i :
  filter (fun e => ~ gone (key e.1)) m !! i = if decide (gone (key i)) then None else m !! i.
Proof.
  rewrite map_lookup_filter. destruct (m !! i); simpl; [|by case_decide].
  case_decide as Hg; [by rewrite option_guard_False by tauto|by rewrite option_guard_True].
Qed.

Lemma rel_delete (gone : Key -> Prop) `{!forall k, Decision (gone k)} t s dbs' :
  rel t s ->
  (forall k, dbs' !! k = if decide (gone k) then None else dbs s !! k) ->
  rel (delete_databases gone t) (mkStore dbs' (slots s)).
Proof.
  intros [Hr Hsl] Hdbs. split; [|exact Hsl]. intros k. specialize (Hr k).
  pose proof (filter_gone (fun k => k) gone (databases t) k) as H1.
  pose proof (fun i p => filter_gone (fun x : Key * Z * Z => x.1.1) gone (block_parts t) (k, i, p)) as H2.
  pose proof (fun v => filter_gone (fun x : Key * Z => x.1) gone (change_log t) (k, v)) as H3.
  simpl in H1, H2, H3. specialize (Hdbs k). destruct (decide (gone k)) as [Hg|Hg].
  - unfold rel_key. simpl. rewrite H1, Hdbs. split; [intros i p; apply H2|intros v; apply H3].
  - apply (rel_key_frame k t _ s); [|done|done]. done.
Qed.

(** ** The order of database IDs *)

Lemma ascii_compare_lt a b : Ascii.compare a b = Lt <-> (Ascii.N_of_ascii a < Ascii.N_of_ascii b)%N.
Proof. apply N.compare_lt_iff. Qed.

Lemma leb_cons a s b t :
  String.leb (String a s) (String b t) = true <->
  (Ascii.N_of_ascii a < Ascii.N_of_ascii b)%N \/ (a = b /\ String.leb s t = true).
Proof.
  unfold String.leb. simpl. destruct (Ascii.compare a b) eqn:E.
  - apply Ascii.compare_eq_iff in E as ->. split; [by right|]. intros [?|[_ ?]]; [lia|done].
  - apply ascii_compare_lt in E. split; [by left|done].
  - unfold Ascii.compare in E. apply N.compare_gt_iff in E. split; [done|].
    intros [?|[-> _]]; lia.
Qed.

Lemma leb_trans s1 s2 s3 :
  String.leb s1 s2 = true -> String.leb s2 s3 = true -> String.leb s1 s3 = true.
Proof.
  revert s2 s3. induction s1 as [|a s1 IH]; intros [|b s2] [|c s3]; try done.
  rewrite !leb_cons. intros [H1|[-> H1]] [H2|[-> H2]]; [left; lia|by left|by left|].
  right. split; [done|]. by eapply IH.
Qed.

(** Two lists with the same keys of one subject are sorted to the same list. *)
Lemma sorted_keys_unique subject l1 l2 :
  l1 ≡ₚ l2 -> Forall (fun k => Subject k = subject) l1 ->
  merge_sort Postgres.by_dbid l1 = merge_sort Memory.by_dbid l2.
Proof.
  intros Hp Hs. apply (StronglySorted_unique_strong Memory.by_dbid).
  - intros a b Ha Hb H1 H2. rewrite merge_sort_Permutation in Ha. rewrite merge_sort_Permutation, <- Hp in Hb.
    rewrite Forall_forall in Hs. pose proof (Hs a Ha). pose proof (Hs b Hb).
    assert (DBID a = DBID b) by (by apply String.leb_antisym). destruct a, b; simpl in *; congruence.
  - apply StronglySorted_merge_sort.
    + intros a b c. apply leb_trans.
    + intros a b. apply String.leb_total.
  - apply StronglySorted_merge_sort.
    + intros a b c. apply leb_trans.
    + intros a b. apply String.leb_total.
  - by rewrite !merge_sort_Permutation.
Qed.

(** The keys a purge reports. *)
Lemma keysOf_sim subject t s :
  rel t s ->
  keysOf subject ((fun e => mkPurgeRow (DBID e.1) (d_Deleted e.2)) <$>
    filter (fun e => Subject e.1 = subject) (map_to_list (databases t))) = (purge subject s).2.
Proof.
  intros Hr. unfold keysOf, purge. simpl. apply (sorted_keys_unique subject).
  2:{ apply Forall_fmap, Forall_forall. intros r _. done. }
  assert (forall k, (k ∈ (fun r => mkKey subject (pr_DbID r)) <$> filter (fun r => pr_Deleted r = false)
      ((fun e => mkPurgeRow (DBID e.1) (d_Deleted e.2)) <$>
        filter (fun e => Subject e.1 = subject) (map_to_list (databases t)))) <->
    Subject k = subject /\ exists row, databases t !! k = Some row /\ d_Deleted row = false) as H1.
  { intros k. rewrite list_elem_of_fmap. split.
    - intros (r & -> & Hin). apply list_elem_of_filter in Hin as [Hd Hin].
      apply list_elem_of_fmap in Hin as ([k' row] & -> & Hin). simpl in *.
      apply list_elem_of_filter in Hin as [Hs Hin]. apply elem_of_map_to_list in Hin. simpl in *.
      subst subject. split; [done|]. exists row. split; [|done]. by destruct k'.
    - intros (Hs & row & Hk & Hd). exists (mkPurgeRow (DBID k) (d_Deleted row)).
      split; [by destruct k; simpl in *; subst|]. apply list_elem_of_filter. split; [done|].
      apply list_elem_of_fmap. exists (k, row). split; [done|].
      apply list_elem_of_filter. split; [done|]. by apply elem_of_map_to_list. }
  apply NoDup_Permutation.
  - apply NoDup_fmap_2_strong.
    { intros [d1 b1] [d2 b2] Hx Hy Heq. simpl in Heq. injection Heq as ->. f_equal.
      apply list_elem_of_filter in Hx as [Hb1 _], Hy as [Hb2 _]. simpl in *. congruence. }
    apply NoDup_filter, NoDup_fmap_2_strong.
    { intros [[s1 i1] r1] [[s2 i2] r2] Hx Hy Heq. simpl in Heq. injection Heq as -> _.
      apply list_elem_of_filter in Hx as [Hs1 Hx], Hy as [Hs2 Hy]. simpl in *. subst.
      apply elem_of_map_to_list in Hx, Hy. congruence. }
    apply NoDup_filter, NoDup_map_to_list.
  - eapply sublist_NoDup; [apply (NoDup_fst_map_to_list (dbs s))|].
    apply fmap_sublist. etrans; apply sublist_filter.
  - intros k. rewrite H1. rewrite list_elem_of_fmap. split.
    + intros (Hs & row & Hrow & Hd). destruct (dbs s !! k) as [db|] eqn:Hk.
      * destruct (rel_lookup _ _ _ _ Hr Hk) as (row' & Hrow' & Hrr & _). simplify_eq.
        exists (k, db). split; [done|]. rewrite !list_elem_of_filter, elem_of_map_to_list. simpl.
        by rewrite <- (rr_deleted _ _ Hrr).
      * destruct (rel_missing _ _ _ Hr Hk) as [? _]. congruence.
    + intros ([k' db] & -> & Hin). rewrite !list_elem_of_filter, elem_of_map_to_list in Hin.
      destruct Hin as (Hd & Hs & Hk). simpl in *. split; [done|].
      destruct (rel_lookup _ _ _ _ Hr Hk) as (row & Hrow & Hrr & _). exists row.
      by rewrite (rr_deleted _ _ Hrr).
Qed.

Lemma purge_rel subject t s :
  rel t s -> rel (delete_databases (fun k => Subject k = subject) t) (purge subject s).1.
Proof.
  intros Hr. unfold purge. simpl. apply rel_delete; [done|]. intros k.
  rewrite map_lookup_filter. destruct (dbs s !! k); simpl; [|by case_decide].
  case_decide; [by rewrite option_guard_False by tauto|by rewrite option_guard_True].
Qed.

(** ** Slots *)

Lemma rel_slot_insert t s owner row slot :
  rel t s -> slotOf row = slot ->
  rel (set_slots (<[owner := row]> (slot_rows t)) t) (put_slot owner slot s).
Proof.
  intros [Hr Hsl] <-. split; [done|]. intros o. simpl. rewrite !lookup_insert.
  case_decide; [done|]. apply Hsl.
Qed.

Lemma rel_slot_delete t s owner :
  rel t s -> rel (set_slots (delete owner (slot_rows t)) t) (mkStore (dbs s) (delete owner (slots s))).
Proof.
  intros [Hr Hsl]. split; [done|]. intros o. simpl. rewrite !lookup_delete.
  case_decide; [done|]. apply Hsl.
Qed.

#[local] Opaque purge.

Section slots.
Context `{!Timestamptz}.

Lemma ClaimSlot_sim req t s :
  rel t s -> texts [cl_Owner req; cl_Subject req] -> aligned (cl_Now req) ->
  simulates (Postgres.ClaimSlot req t) (Memory.ClaimSlot req s).
Proof.
  intros Hr Htx Hnow. pose proof (proj2 Hr (cl_Owner req)) as Hsl.
  unfold Postgres.ClaimSlot. rewrite inTx_text by done. unfold claim_tx, lock_or_insert, LockSlot, InsertSlot, Memory.ClaimSlot. tx.
  rewrite <- Hsl. destruct (slot_rows t !! cl_Owner req) as [row|] eqn:Hrow; simpl.
  - case_bool_decide as Hs; [done|]. unfold UpdateSlot. simpl. rewrite Hrow.
    pose proof (keysOf_sim (s_Subject row) t s Hr) as Hk. pose proof (purge_rel (s_Subject row) t s Hr) as Hp.
    destruct (purge (s_Subject row) s) as [s1 gone]. simpl in *. rewrite ts_aligned by done. split; simpl.
    + by rewrite Hk.
    + by apply (rel_slot_insert (delete_databases (fun k => Subject k = s_Subject row) t) s1).
  - rewrite Hrow. split; simpl; rewrite ts_aligned by done; [done|]. by apply rel_slot_insert.
Qed.

Lemma SetSlotLabel_sim owner subject label t s :
  rel t s -> texts [owner; subject; label] ->
  simulates (Postgres.SetSlotLabel owner subject label t) (Memory.SetSlotLabel owner subject label s).
Proof.
  intros Hr Htx. pose proof (proj2 Hr owner) as Hsl. destruct (texts_cons _ _ Htx) as [Ho _].
  assert (forall t, Postgres.GetSlot owner t = Ok (slotOf <$> slot_rows t !! owner)) as Hget.
  { intros u. unfold Postgres.GetSlot. by rewrite inTx_text. }
  unfold Postgres.SetSlotLabel. rewrite !inTx_text by done. unfold Tables.SetSlotLabel, Memory.SetSlotLabel. tx.
  rewrite <- Hsl. destruct (slot_rows t !! owner) as [row|] eqn:Hrow; simpl; [|by rewrite Hget, Hrow].
  destruct (decide (s_Subject row = subject)) as [Hs|Hs].
  - rewrite bool_decide_true by done. simpl. split; [done|]. by apply rel_slot_insert.
  - rewrite bool_decide_false by done. simpl. by rewrite Hget, Hrow.
Qed.

Lemma DeleteSlot_sim owner subject t s :
  rel t s -> texts [owner; subject] ->
  simulates (Postgres.DeleteSlot owner subject t) (Memory.DeleteSlot owner subject s).
Proof.
  intros Hr [Ho Hsu]%texts_cons. pose proof (proj2 Hr owner) as Hsl.
  unfold Postgres.DeleteSlot. rewrite inTx_text by done. unfold delete_slot_tx, LockSlot, Memory.DeleteSlot. tx.
  rewrite <- Hsl. destruct (slot_rows t !! owner) as [row|] eqn:Hrow; simpl.
  - case_bool_decide as Hs; [|done]. simpl. rewrite with_text_ok by done.
    pose proof (rel_slot_delete t s owner Hr) as Hr'.
    pose proof (keysOf_sim subject _ _ Hr') as Hk. pose proof (purge_rel subject _ _ Hr') as Hp.
    destruct (purge subject _) as [s1 gone]. simpl in *. split; [by rewrite <- Hk|done].
  - rewrite with_text_ok by done. pose proof (keysOf_sim subject _ _ Hr) as Hk. pose proof (purge_rel subject _ _ Hr) as Hp.
    destruct (purge subject _) as [s1 gone]. simpl in *. split; [by rewrite <- Hk|done].
Qed.

Lemma GetSlot_sim owner t s : rel t s -> texts [owner] -> Postgres.GetSlot owner t = Memory.GetSlot owner s.
Proof.
  intros [_ Hsl] Htx. specialize (Hsl owner). unfold Postgres.GetSlot. rewrite inTx_text by done.
  unfold Tables.GetSlot, Memory.GetSlot. tx. rewrite <- Hsl. by destruct (slot_rows t !! owner).
Qed.
End slots.
