(* ===== verification/PgRefine.v ===== *)
(** * The PostgreSQL store implements the contract as the memory store does

    A simulation: from related states, every call gets the same answer from both stores and leaves
    related states.  So the theorems about the memory store are theorems about the answers of the
    PostgreSQL store, for requests within the range of the columns: page counts below 2^63 and
    times with microseconds.  The last theorems show what happens outside of it. *)

From S2P Require Import Prelude Store StoreFacts Memory Trace MemoryInv MemoryStep Samples MemoryLease MemoryUnused Tables Postgres PgRel PgLease PgBlocks PgCommit PgSlots.

Local Open Scope Z_scope.

Section unused.
Context `{!Timestamptz}.

Lemma row_unused_sim n cutoff t s k :
  wf_store n s -> rel t s -> row_unused cutoff t k = is_unused cutoff s k.
Proof.
  intros Hwf Hr. unfold row_unused, is_unused. destruct (dbs s !! k) as [db|] eqn:Hk.
  - destruct (rel_lookup _ _ _ _ Hr Hk) as (row & -> & Hrr & Ht & _). rewrite (rr_deleted _ _ Hrr).
    destruct (deleted db) eqn:Hd; simpl; [done|]. by rewrite (proj2 (Ht eq_refl)).
  - by destruct (rel_missing _ _ _ Hr Hk) as (-> & _).
Qed.

Lemma lease_order_sim cutoff t s a b :
  rel t s -> is_unused cutoff s a = true -> is_unused cutoff s b = true ->
  lease_order t a b <-> older s a b.
Proof.
  intros Hr Ha Hb. unfold lease_order, older, expiry, is_unused in *.
  destruct (dbs s !! a) as [da|] eqn:Hka; [|done]. destruct (dbs s !! b) as [db|] eqn:Hkb; [|done].
  bool_hyps. destruct (rel_lookup _ _ _ _ Hr Hka) as (ra & -> & _ & Hta & _).
  destruct (rel_lookup _ _ _ _ Hr Hkb) as (rb & -> & _ & Htb & _). simpl.
  by rewrite (proj2 (Hta ltac:(done))), (proj2 (Htb ltac:(done))).
Qed.

Lemma UnusedDatabases_sim n order cutoff limit t s :
  wf_store n s -> rel t s -> 0 <= limit ->
  UnusedDatabases order cutoff limit t = Ok (select_unused order cutoff limit s, t).
Proof.
  intros Hwf Hr Hl. unfold UnusedDatabases, reading. do 2 f_equal.
  rewrite select_unused_take by done. f_equal. unfold all_unused.
  rewrite (list_filter_iff (fun k => row_unused cutoff t k = true) (fun k => is_unused cutoff s k = true)).
  - apply (merge_sort_ext _ _ (fun k => is_unused cutoff s k = true)).
    + intros a b. by apply lease_order_sim.
    + apply Forall_forall. intros k Hk. by apply list_elem_of_filter in Hk as [? _].
  - intros k. by rewrite (row_unused_sim n cutoff t s k).
Qed.

Lemma HoldsSlot_sim subject t s :
  rel t s -> HoldsSlot subject t = Ok (bool_decide (subject ∈ slotHolders s), t).
Proof.
  intros [_ Hsl]. unfold HoldsSlot, reading. do 2 f_equal. apply eq_bool_prop_intro.
  rewrite !Is_true_true, existsb_exists, bool_decide_eq_true. unfold slotHolders.
  rewrite elem_of_list_to_set, list_elem_of_fmap. split.
  - intros ([o r] & Hin & Hs). bool_hyps. apply list_elem_of_In, elem_of_map_to_list in Hin.
    exists (o, slotOf r). split; [done|]. apply elem_of_map_to_list. by rewrite <- Hsl, Hin.
  - intros ([o slot] & -> & Hin). apply elem_of_map_to_list in Hin. rewrite <- Hsl in Hin.
    apply fmap_Some in Hin as (r & Hr & ->). exists (o, r). simpl. rewrite bool_decide_true by done.
    split; [|done]. by apply list_elem_of_In, elem_of_map_to_list.
Qed.

#[local] Opaque HoldsSlot Postgres.remove.

Lemma alter_put (f : database -> database) k db s :
  dbs s !! k = Some db -> mkStore (alter f k (dbs s)) (slots s) = put k (f db) s.
Proof.
  intros Hk. unfold put. f_equal. apply map_eq. intros k'. rewrite lookup_alter, lookup_insert.
  case_decide; [|done]. subst. by rewrite Hk.
Qed.

(** The transaction for one candidate that is still unused. *)
Lemma unused_tx_sim n cutoff k t s db :
  n < two63 - 1 -> wf_db n db -> rel t s -> dbs s !! k = Some db -> is_unused cutoff s k = true ->
  exists t', inTx (unused_tx cutoff k) t = (t', Ok true) /\ rel t' (delete_one (slotHolders s) s k).
Proof.
  intros Hn Hdb Hr Hk Hu. unfold is_unused in Hu. rewrite Hk in Hu.
  apply andb_true_iff in Hu as [Hd%negb_true_iff Hx].
  destruct (rel_lookup _ _ _ _ Hr Hk) as (row & Hrow & Hrr & Ht & _).
  unfold unused_tx, LockDatabase. tx. rewrite Hrow, (rr_deleted _ _ Hrr).
  rewrite (proj2 (Ht Hd)), Hd, Hx. simpl. rewrite (HoldsSlot_sim _ _ _ Hr).
  unfold delete_one. case_bool_decide as Hh.
  - eexists. split; [done|]. apply rel_delete; [done|]. intros k'. rewrite lookup_delete.
    repeat case_decide; congruence || done.
  - destruct (remove_sim n k t s db Hn Hdb Hr Hk) as (t' & -> & Hr' & _).
    eexists. split; [done|]. by rewrite (alter_put _ _ db).
Qed.

Lemma delete_one_other holders s k k' : k' <> k -> dbs (delete_one holders s k) !! k' = dbs s !! k'.
Proof.
  intros Hne. unfold delete_one. case_match; simpl; [by rewrite lookup_delete_ne|by rewrite lookup_alter_ne].
Qed.

Lemma delete_one_slots holders s k : slots (delete_one holders s k) = slots s.
Proof. unfold delete_one. by case_match. Qed.

(** The loop over the candidates. *)
Lemma delete_candidates_sim n cutoff : n < two63 - 1 -> forall l gone t s,
  rel t s -> NoDup l ->
  Forall (fun k => is_unused cutoff s k = true /\ exists db, dbs s !! k = Some db /\ wf_db n db) l ->
  exists t', delete_candidates cutoff l gone t = (t', (gone ++ l, None)) /\
    rel t' (foldl (delete_one (slotHolders s)) s l).
Proof.
  intros Hn. induction l as [|k l IH]; intros gone t s Hr Hnd Hl; simpl.
  { rewrite app_nil_r. eauto. }
  apply NoDup_cons in Hnd as [Hni Hnd]. apply Forall_cons in Hl as [(Hu & db & Hk & Hdb) Hl].
  destruct (unused_tx_sim n cutoff k t s db Hn Hdb Hr Hk Hu) as (t1 & -> & Hr1).
  assert (slotHolders (delete_one (slotHolders s) s k) = slotHolders s) as Hh
    by (unfold slotHolders; by rewrite delete_one_slots).
  destruct (IH (gone ++ [k]) t1 (delete_one (slotHolders s) s k)) as (t2 & -> & Hr2); [done|done| |].
  - apply Forall_forall. intros k' Hin. rewrite Forall_forall in Hl. specialize (Hl k' Hin).
    unfold is_unused in *. rewrite delete_one_other; [done|]. congruence.
  - rewrite Hh in Hr2. eexists. split; [|done]. by rewrite <- app_assoc.
Qed.

Lemma has_live_sim subject t s : rel t s -> has_live subject t = hasDatabases subject s.
Proof.
  intros Hr. apply eq_bool_prop_intro. rewrite !Is_true_true, hasDatabases_spec.
  unfold has_live. rewrite existsb_exists. split.
  - intros ([k row] & Hin & Hb). simpl in Hb. bool_hyps.
    apply list_elem_of_In, elem_of_map_to_list in Hin. destruct (dbs s !! k) as [db|] eqn:Hk.
    + destruct (rel_lookup _ _ _ _ Hr Hk) as (row' & Hrow & Hrr & _). simplify_eq.
      exists k, db. by rewrite <- (rr_deleted _ _ Hrr).
    + destruct (rel_missing _ _ _ Hr Hk) as [? _]. congruence.
  - intros (k & db & <- & Hk & Hd). destruct (rel_lookup _ _ _ _ Hr Hk) as (row & Hrow & Hrr & _).
    exists (k, row). simpl. rewrite (rr_deleted _ _ Hrr), Hd, bool_decide_true by done.
    split; [|done]. by apply list_elem_of_In, elem_of_map_to_list.
Qed.

Lemma ReleaseUnusedSlots_sim cutoff t s :
  rel t s ->
  exists t', inTx (ReleaseUnusedSlots cutoff) t = (t', Ok tt) /\ rel t' (release_slots cutoff s).
Proof.
  intros Hr. eexists. split; [done|]. pose proof Hr as [Hk Hsl]. split; [exact Hk|].
  intros o. specialize (Hsl o). unfold release_slots. simpl. rewrite !map_lookup_filter, <- Hsl.
  destruct (slot_rows t !! o) as [row|]; simpl; [|done].
  rewrite (has_live_sim _ t s) by done. unfold slotOf, time_Before, guard. simpl.
  repeat case_decide; try done; exfalso; destruct (hasDatabases _ _) eqn:E; simpl in *;
    destruct (s_ClaimedAt row <? cutoff) eqn:E'; simpl in *; bool_hyps; naive_solver lia.
Qed.

Lemma DeleteUnused_sim n order cutoff limit t s :
  n < two63 - 1 -> wf_store n s -> rel t s -> NoDup order -> 0 <= limit <= 1073741824 ->
  aligned cutoff ->
  (Postgres.DeleteUnused order cutoff limit t).2 = (Memory.DeleteUnused order cutoff limit s).2 /\
  rel (Postgres.DeleteUnused order cutoff limit t).1 (Memory.DeleteUnused order cutoff limit s).1.
Proof.
  intros Hn Hwf Hr Hnd Hl Hc. unfold Postgres.DeleteUnused, Memory.DeleteUnused.
  rewrite Z.min_l, ts_aligned by (done || lia). replace (s32 limit) with limit by zlia.
  assert (inTx (UnusedDatabases order cutoff limit) t = (t, Ok (select_unused order cutoff limit s)))
    as -> by (unfold inTx; by rewrite (UnusedDatabases_sim n order cutoff limit t s) by (done || lia)).
  destruct (delete_candidates_sim n cutoff Hn (select_unused order cutoff limit s) [] t s)
    as (t1 & -> & Hr1); [done|by apply select_unused_NoDup| |].
  { apply Forall_forall. intros k Hk. apply select_unused_elem in Hk as [Hu _]. split; [done|].
    unfold is_unused in Hu. destruct (dbs s !! k) as [db|] eqn:Hk; [|done]. exists db. split; [done|].
    by eapply wf_lookup. }
  destruct (ReleaseUnusedSlots_sim cutoff t1 _ Hr1) as (t2 & -> & Hr2). done.
Qed.
End unused.

(** ** The simulation *)

(** Numbers and times within the range of the columns. *)
Definition numbers_fit (o : op) : Prop :=
  match o with
  | OpOpen _ req => aligned (or_Now req) /\ aligned (or_TTL req)
  | OpCommit req => cr_PageCount req < two63 /\ aligned (cr_Now req) /\ aligned (cr_TTL req)
  | OpRenew _ _ now ttl => aligned now /\ aligned ttl
  | OpDeleteUnused _ cutoff limit => aligned cutoff /\ limit <= 1073741824
  | OpClaimSlot req => aligned (cl_Now req)
  | _ => True
  end.

#[export] Instance numbers_fit_decision o : Decision (numbers_fit o).
Proof. destruct o; simpl; unfold aligned; apply _. Defined.

(** Requests within the range of the columns: their strings are text, UTF-8 without the byte 0. *)
Definition in_range (o : op) : Prop := texts (op_texts o) /\ numbers_fit o.

#[export] Instance in_range_decision o : Decision (in_range o).
Proof. unfold in_range, texts. apply _. Defined.

(** A simulated call, as a step. *)
Ltac simulated lem :=
  let H := fresh in pose proof lem as [? ?];
  repeat match goal with |- context [let '(_, _) := ?c in _] => destruct c end;
  simpl in *; split; [by f_equal|done].

Lemma step_sim `{!Timestamptz} n o t s :
  0 <= n < two63 - 1 -> wf_store n s -> rel t s -> legal o s -> in_range o ->
  (step o t).2 = (step o s).2 /\ rel (step o t).1 (step o s).1.
Proof.
  intros Hn Hwf Hr Hl [Htx Hi].
  destruct o; cbn [step st_Open st_Fetch st_Commit st_Changes st_Renew st_Release st_Delete
    st_DeleteUnused st_GetSlot st_ClaimSlot st_SetSlotLabel st_DeleteSlot Tables_api MemStore_api].
  - simulated (Open_sim n newID req t s Hn Hwf Hr Htx (proj1 Hi) (proj2 Hi)).
  - destruct Hl as (_ & Hf & Hc). by rewrite (Fetch_sim n k ver first count t s) by (done || lia).
  - destruct Hi as (? & ? & ?). simulated (Commit_sim n req t s ltac:(lia) Hwf Hr Htx Hl ltac:(done) ltac:(done) ltac:(done)).
  - by rewrite (Changes_sim n k from t s) by (done || lia).
  - simulated (Renew_sim n k epoch now ttl t s ltac:(lia) Hwf Hr Htx Hl (proj1 Hi) (proj2 Hi)).
  - simulated (Release_sim n k epoch t s ltac:(lia) Hwf Hr Htx Hl).
  - simulated (Delete_sim n req t s ltac:(lia) Hwf Hr Htx).
  - destruct Hl as (Hnd & _ & Hlim), Hi as [Ha Hlim'].
    simulated (DeleteUnused_sim n order cutoff limit t s ltac:(lia) Hwf Hr Hnd ltac:(lia) Ha).
  - by rewrite (GetSlot_sim owner t s Hr Htx).
  - simulated (ClaimSlot_sim req t s Hr Htx Hi).
  - simulated (SetSlotLabel_sim owner subject label t s Hr Htx).
  - simulated (DeleteSlot_sim owner subject t s Hr Htx).
Qed.

(** C2: Both stores implement the same contract.  Any sequence of calls on an empty PostgreSQL store
    gets, call by call, exactly the answers that the memory store gives, errors and their
    details included, and leaves tables that hold the memory store's state: blocks as their parts of
    1024 bytes, change logs as rows, leases and slots.  It holds for requests in the range of the
    columns (page counts below 2^63, times of whole microseconds, limits up to 2^30, and strings that
    are text: UTF-8 without the byte 0) and fewer than 2^63 - 1 calls. *)
Theorem postgres_refines_memory `{!Timestamptz} (ops : list op) (answers : list answer) (s : MemStore) :
  steps ops New answers s -> Forall in_range ops -> zlen ops < two63 - 1 ->
  exists t, run ops empty_tables = (t, answers) /\ rel t s.
Proof.
  intros Hs Hi Hb.
  assert (forall n t s0, 0 <= n -> n + zlen ops < two63 -> wf_store n s0 -> rel t s0 ->
            steps ops s0 answers s -> exists t', run ops t = (t', answers) /\ rel t' s) as Hgen.
  2:{ apply (Hgen 0 empty_tables New); [lia|lia|apply wf_new|apply rel_empty|done]. }
  clear Hs Hb. revert answers. induction ops as [|o ops IH]; intros answers n t s0 Hn Hb Hwf Hr Hst.
  { inv Hst. simpl. eauto. }
  apply Forall_cons in Hi as [Ho Hi].
  inversion Hst as [|o' ops' x a mid rest y Hl Hstep Hrest]; subst. unfold zlen in *. simpl in *.
  destruct (step_sim n o t s0) as [Ha Hrel]; [lia|done..|]. rewrite Hstep in Ha, Hrel.
  destruct (step o t) as [t1 a1]. simpl in *. subst a1.
  assert (wf_store (n + 1) mid) as Hwf1 by (eapply wf_step; [|done..]; zlia).
  destruct (IH Hi rest (n + 1) t1 mid) as (t2 & -> & Hr2); [lia|lia|done|done|done|]. eauto.
Qed.

(** PostgreSQL's [timestamptz] keeps microseconds. *)
Definition microseconds : Timestamptz.
Proof. refine {| ts_column := fun t => t - t mod Microsecond |}. intros t ->. lia. Defined.

Lemma postgres_refines_memory_witness :
  exists t, @run _ (@Tables_api microseconds) ops4 empty_tables = (t, (run ops4 New).2) /\ rel t s4.
Proof.
  apply (@postgres_refines_memory microseconds ops4 (run ops4 New).2 s4 s4_steps).
  - apply (bool_decide_eq_true_1 (Forall in_range ops4)). vm_compute. reflexivity.
  - vm_compute. reflexivity.
Defined.

(** ** Outside of the range *)

(** One page, committed with a page count of 2^63. *)
Definition huge_commit : list op :=
  [OpOpen [x0a] (open_at kA x01 false 1000);
   OpCommit (commit_at kA x61 1 0 two63 [mkBlock 0 (page x01)] 1001);
   OpFetch kA 1 0 1].

(** A page count of 2^63 or more loses data in PostgreSQL.  The commit is acknowledged, but the
    count is negative as a [bigint], so the statement that cuts the file deletes every block, the
    ones of the commit included: page 0 reads as zeros.  The memory store keeps it. *)
Theorem huge_page_count_loses_blocks `{!Timestamptz} :
  drop 1 (run huge_commit empty_tables).2 = [ACommit (Ok 1); AFetch (Ok [page x00])] /\
  drop 1 (run huge_commit New).2 = [ACommit (Ok 1); AFetch (Ok [page x01])].
Proof. split; vm_compute; reflexivity. Qed.

#[local] Existing Instance microseconds.

(** Two commits; the second one changes page 1. *)
Definition two_commits : list op :=
  [OpOpen [x0a] (open_at kA x01 false 1000); OpCommit c1; OpCommit c2].

(** The three queries of [Changes] in PostgreSQL do not see one state.  If the database is deleted
    after the second query and before the third, the change set from version 1 to version 2 is
    reported as complete and empty, although version 2 changed page 1.  Without the deletion the
    answer is right. *)
Theorem changes_not_from_one_snapshot :
  let t := (run two_commits empty_tables).1 in
  let deleted := (Postgres.Delete (mkDeleteRequest kA true (1003 * Microsecond)) t).1 in
  changes_at kA 1 t t t = Ok (mkChangeSet 1 2 [1] true) /\
  changes_at kA 1 t t deleted = Ok (mkChangeSet 1 2 [] true).
Proof. split; vm_compute; reflexivity. Qed.
