(* ===== verification/PgSchedule.v ===== *)
(** * Concurrent transactions: [src/internal/store/postgres/postgres.go], statement by statement

    [Postgres.v] runs an operation as one step.  Here an operation is a program of SQL statements, and a
    database executes the statements of many operations interleaved, under PostgreSQL's read
    committed isolation: a statement sees what is committed when it runs and what its own transaction
    wrote; a row that was locked by [SELECT ... FOR UPDATE], or written, stays locked until its
    transaction ends; a statement that needs a locked row waits.

    The operations here are those on one database: [Open], [Fetch], [Commit], [Changes], [Renew],
    [Release], [Delete] and the transaction that [DeleteUnused] runs for each candidate.  The slots do
    not change while they run; [SlotSchedule.v] lets them change. *)

From S2P Require Import Prelude Store Trace Tables Postgres.

Local Open Scope Z_scope.

(** ** Statements and programs *)

(** What a statement locks is given by its kind:
    - [Lock]: [SELECT ... FOR UPDATE] on the row of a database, which locks it if it exists;
    - [Insert]: [INSERT ... ON CONFLICT DO NOTHING] of such a row, which locks the row it inserts;
    - [LeaseUpdate]: an [UPDATE] of such a row with a condition, which locks the row if it changes it;
    - [Write]: a change to the rows of a database whose row the transaction has locked;
    - [Read]: a query without a lock. *)
Inductive stmt : Type -> Type :=
| Lock (k : Key) : stmt (option Database)
| Insert (k : Key) (pageSize : Z) : stmt (option Database)
| LeaseUpdate (k : Key) (q : Tx Z) : stmt Z
| Write {A} (q : Tx A) : stmt A
| Read {A} (f : Tables -> A) : stmt A.

(** What a statement does to the tables it sees. *)
Definition stmt_tx {A} (s : stmt A) : Tx A :=
  match s with
  | Lock k => LockDatabase k
  | Insert k pageSize => CreateDatabase k pageSize
  | LeaseUpdate _ q => q
  | Write q => q
  | Read f => reading f
  end.

Inductive prog (A : Type) :=
| Ret (a : A)
| Fail (e : Error)
| Do {B} (s : stmt B) (next : B -> prog A).
Arguments Ret {A} a.
Arguments Fail {A} e.
Arguments Do {A B} s next.

Fixpoint prog_bind {A B} (f : A -> prog B) (p : prog A) : prog B :=
  match p with
  | Ret a => f a
  | Fail e => Fail e
  | Do s next => Do s (fun b => prog_bind f (next b))
  end.

#[export] Instance prog_ret : MRet prog := fun _ a => Ret a.
#[export] Instance prog_mbind : MBind prog := fun _ _ f p => prog_bind f p.

Definition run_stmt {A} (s : stmt A) : prog A := Do s Ret.

Definition from_result {A} (r : result Error A) : prog A :=
  match r with Ok a => Ret a | Err e => Fail e end.

(** A query of one row whose absence is an error. *)
Definition one_row {A} (p : prog (option A)) : prog A :=
  r ← p; match r with Some a => Ret a | None => Fail (InternalError "no rows in result set") end.

(** The program without interruption. *)
Fixpoint denote {A} (p : prog A) : Tx A :=
  match p with
  | Ret a => mret a
  | Fail e => fail e
  | Do s next => r ← stmt_tx s; denote (next r)
  end.

(** ** The operations *)

Section programs.
Context `{Timestamptz}.

Definition create_prog (req : OpenRequest) : prog Database :=
  if negb (or_Create req) || bool_decide (is_Some (or_Resume req)) then Fail ErrNotFound
  else if negb (ValidPageSize (or_PageSize req)) then
    Fail (BadRequestError (InvalidPageSize (or_PageSize req)))
  else
    row ← run_stmt (Insert (or_Key req) (s32 (or_PageSize req)));
    match row with
    | Some row => Ret row
    | None => one_row (run_stmt (Lock (or_Key req)))
    end.

Definition revive_prog (req : OpenRequest) : prog Database :=
  match or_Resume req with
  | Some _ => Fail ErrFenced
  | None =>
      if negb (or_Create req) then Fail ErrNotFound
      else if negb (ValidPageSize (or_PageSize req)) then
        Fail (BadRequestError (InvalidPageSize (or_PageSize req)))
      else one_row (run_stmt (Write (ReviveDatabase (or_Key req) (s32 (or_PageSize req)))))
  end.

Definition share_prog (req : OpenRequest) : prog unit :=
  if bool_decide (or_Owner req = EmptyString) then Ret tt
  else
    slot ← run_stmt (Read (fun t => slot_rows t !! or_Owner req));
    match slot with
    | None => Ret tt
    | Some slot =>
        if bool_decide (s_Subject slot = Subject (or_Key req)) then Ret tt else Fail ErrSlotTaken
    end.

(** [Open] from the point where the row was locked or created. *)
Definition opened_prog (newID : bytes) (req : OpenRequest) (row : Database) : prog OpenResult :=
  row ← (if d_Deleted row then revive_prog req
         else if negb (or_PageSize req =? 0) && negb (u32 (d_PageSize row) =? or_PageSize req) then
           Fail (BadRequestError (PageSizeMismatch (or_PageSize req) (d_PageSize row)))
         else Ret row : prog Database);
  match or_Resume req with
  | Some r =>
      if negb (holds row (LeaseEpoch r)) || negb (bytes_Equal (d_LeaseID row) (LeaseID r)) then
        Fail ErrFenced
      else
        _ ← run_stmt (Write (ExtendLease (or_Key req) (d_LeaseEpoch row)
                               (timestamp (time_Add (or_Now req) (or_TTL req)))));
        Ret (mkOpenResult (leaseOf row) (stateOf row) false)
  | None =>
      let active := row_active (or_Now req) row in
      if active && negb (or_Takeover req) &&
         negb (bytes_Equal (d_LeaseHolder row) (or_InstanceID req)) then
        Fail (LeaseHeldError (granted_time row))
      else
        epoch ← one_row (run_stmt (Write
                  (GrantLease (or_Key req) (Some newID) (bytes_Clone (or_InstanceID req))
                     (timestamp (or_Now req)) (timestamp (time_Add (or_Now req) (or_TTL req))))));
        Ret (mkOpenResult (mkLease (Some newID) (u64 epoch)) (stateOf row) active)
  end.

Definition open_prog (newID : bytes) (req : OpenRequest) : prog OpenResult :=
  _ ← share_prog req;
  row ← run_stmt (Lock (or_Key req));
  row ← (match row with Some row => Ret row | None => create_prog req end : prog Database);
  opened_prog newID req row.

(** The read-only transaction of [Fetch] has one snapshot for both of its queries. *)
Definition fetch_prog (k : Key) (ver first count : Z) : prog (list bytes) :=
  r ← run_stmt (Read (Fetch k ver first count)); from_result r.

(** The batch of [PutBlocks] is pipelined as one message. *)
Definition put_prog (req : CommitRequest) : prog unit :=
  match cr_Blocks req with
  | [] => Ret tt
  | _ => run_stmt (Write (PutBlocks (cr_Key req) (b ← cr_Blocks req; block_params b)))
  end.

Definition record_prog (k : Key) (version : Z) (blocks : list Block) : prog unit :=
  let touched := merge_sort Z.le ((fun b => s64 (Index b)) <$> blocks) in
  _ ← run_stmt (Write (RecordChange k (s64 version) touched));
  if version <=? ChangeWindow then Ret tt
  else run_stmt (Write (PruneChanges k (s64 (u64 (version - ChangeWindow))))).

(** [Commit] from the point where the row was locked. *)
Definition locked_commit (req : CommitRequest) (row : Database) : prog Z :=
  let k := cr_Key req in
  if negb (holds row (cr_LeaseEpoch req)) then Fail ErrFenced
  else
    let expires := timestamp (time_Add (cr_Now req) (cr_TTL req)) in
    if (u64 (d_Version row) =? u64 (cr_BaseVersion req + 1)) &&
       (0 <? slice_len (cr_CommitID req)) &&
       bytes_Equal (d_LastCommitID row) (cr_CommitID req) then
      _ ← run_stmt (Write (ExtendLease k (d_LeaseEpoch row) expires));
      Ret (u64 (d_Version row))
    else if negb (u64 (d_Version row) =? cr_BaseVersion req) then
      Fail (VersionConflictError (u64 (d_Version row)))
    else
      _ ← from_result (ValidateCommit (u32 (d_PageSize row)) req);
      _ ← put_prog req;
      _ ← run_stmt (Write (DeleteBlocksFrom k (s64 (cr_PageCount req))));
      applied ← one_row (run_stmt (Write
                  (ApplyCommit k (s64 (cr_PageCount req)) (bytes_Clone (cr_CommitID req)) expires)));
      _ ← record_prog k (u64 applied) (cr_Blocks req);
      Ret (u64 applied).

Definition commit_prog (req : CommitRequest) : prog Z :=
  row ← run_stmt (Lock (cr_Key req));
  match row with None => Fail ErrNotFound | Some row => locked_commit req row end.

(** The queries of [Changes] take no lock, and each sees what is committed when it runs. *)
Definition changes_prog (k : Key) (from : Z) : prog ChangeSet :=
  row ← run_stmt (Read (fun t => databases t !! k));
  match row with
  | None => Fail ErrNotFound
  | Some row =>
      if d_Deleted row then Fail ErrNotFound
      else
        let current := u64 (d_Version row) in
        if current <? from then Fail (BadRequestError (VersionAhead from current))
        else if from =? current then Ret (mkChangeSet from current [] true)
        else
          r ← run_stmt (Read (OldestChange k));
          '(oldest, _) ← from_result r;
          if (oldest =? 0) || (u64 (from + 1) <? u64 oldest) then Ret (mkChangeSet from current [] false)
          else
            r ← run_stmt (Read (ChangedSince k (s64 from)));
            '(rows, _) ← from_result r;
            Ret (mkChangeSet from current (rows_changed rows) true)
  end.

(** [whyNoRow], a statement after the update. *)
Definition why_prog (k : Key) (rows : Z) : prog unit :=
  if 0 <? rows then Ret tt
  else
    exists_ ← run_stmt (Read (fun t => bool_decide (is_Some (databases t !! k))));
    if negb exists_ then Fail ErrNotFound else Fail ErrFenced.

Definition renew_prog (k : Key) (epoch : Z) (now : Time) (ttl : Duration) : prog unit :=
  rows ← run_stmt (LeaseUpdate k (ExtendLease k (s64 epoch) (timestamp (time_Add now ttl))));
  why_prog k rows.

Definition release_prog (k : Key) (epoch : Z) : prog unit :=
  rows ← run_stmt (LeaseUpdate k (ReleaseLease k (s64 epoch)));
  why_prog k rows.

Definition remove_prog (k : Key) : prog Z :=
  _ ← run_stmt (Write (DeleteBlocksFrom k 0));
  _ ← run_stmt (Write (DeleteChanges k));
  epoch ← one_row (run_stmt (Write (DeleteDatabase k)));
  Ret (u64 epoch).

Definition delete_prog (req : DeleteRequest) : prog DeleteResult :=
  row ← run_stmt (Lock (dr_Key req));
  match row with
  | None => Ret (mkDeleteResult 0 false)
  | Some row =>
      if d_Deleted row then Ret (mkDeleteResult 0 false)
      else
        let active := row_active (dr_Now req) row in
        if active && negb (dr_Takeover req) then Fail (LeaseHeldError (granted_time row))
        else
          epoch ← remove_prog (dr_Key req);
          Ret (mkDeleteResult epoch active)
  end.

Definition unused_prog (cutoff : Time) (k : Key) : prog bool :=
  row ← one_row (run_stmt (Lock k));
  if d_Deleted row ||
     negb (match d_LeaseExpires row with Some e => time_Before e cutoff | None => false end) then
    Ret false
  else
    hold ← run_stmt (Read (fun t => existsb (fun e => bool_decide (s_Subject e.2 = Subject k)) (map_to_list (slot_rows t))));
    _ ← (if hold : bool then run_stmt (Write (PurgeDatabase k)) else _ ← remove_prog k; Ret tt : prog unit);
    Ret true.

(** ** Calls *)

(** A call of the interface, or the transaction for one candidate of a sweep. *)
Inductive call := Call (o : op) | Candidate (cutoff : Time) (k : Key).

Inductive reply := Reply (a : answer) | Removed (r : result Error bool).

Definition prog_of (c : call) : prog reply :=
  match c with
  | Call (OpOpen newID req) => r ← open_prog newID req; Ret (Reply (AOpen (Ok r)))
  | Call (OpFetch k v f n) => r ← fetch_prog k v f n; Ret (Reply (AFetch (Ok r)))
  | Call (OpCommit req) => r ← commit_prog req; Ret (Reply (ACommit (Ok r)))
  | Call (OpChanges k v) => r ← changes_prog k v; Ret (Reply (AChanges (Ok r)))
  | Call (OpRenew k e now ttl) => r ← renew_prog k e now ttl; Ret (Reply (ARenew (Ok r)))
  | Call (OpRelease k e) => r ← release_prog k e; Ret (Reply (ARelease (Ok r)))
  | Call (OpDelete req) => r ← delete_prog req; Ret (Reply (ADelete (Ok r)))
  | Candidate cutoff k => r ← unused_prog cutoff k; Ret (Removed (Ok r))
  | Call _ => Fail (InternalError "not a call on one database")
  end.

(** What the caller gets for an error. *)
Definition error_reply (c : call) (e : Error) : reply :=
  match c with
  | Call (OpOpen _ _) => Reply (AOpen (Err e))
  | Call (OpFetch _ _ _ _) => Reply (AFetch (Err e))
  | Call (OpCommit _) => Reply (ACommit (Err e))
  | Call (OpChanges _ _) => Reply (AChanges (Err e))
  | Call (OpRenew _ _ _ _) => Reply (ARenew (Err e))
  | Call (OpRelease _ _) => Reply (ARelease (Err e))
  | Call (OpDelete _) => Reply (ADelete (Err e))
  | Call _ | Candidate _ _ => Removed (Err e)
  end.

(** The strings of a call. *)
Definition call_texts (c : call) : list string :=
  match c with Call o => op_texts o | Candidate _ k => key_text k end.

(** The calls on one database. *)
Definition on_database (c : call) : bool :=
  match c with
  | Call (OpOpen _ _ | OpFetch _ _ _ _ | OpCommit _ | OpChanges _ _ | OpRenew _ _ _ _ | OpRelease _ _ | OpDelete _) => true
  | Candidate _ _ => true
  | Call _ => false
  end.

(** A call with a string that is no text fails at its first query with that string, before it locked the
    row of its database, and changes nothing: such calls are left out. *)
Definition supported (c : call) : bool := on_database c && forallb text_ok (call_texts c).

Definition call_key (c : call) : Key :=
  match c with
  | Call (OpOpen _ req) => or_Key req
  | Call (OpFetch k _ _ _) => k
  | Call (OpCommit req) => cr_Key req
  | Call (OpChanges k _) => k
  | Call (OpRenew k _ _ _) => k
  | Call (OpRelease k _) => k
  | Call (OpDelete req) => dr_Key req
  | Candidate _ k => k
  | Call _ => mkKey EmptyString EmptyString
  end.

(** ** The database *)

(** The tables [t] with the row, the blocks and the change log of [k] taken from [l]. *)
Definition merge (k : Key) (l t : Tables) : Tables :=
  mkTables
    (partial_alter (fun _ => databases l !! k) k (databases t))
    (filter (fun e => e.1.1.1 = k) (block_parts l) ∪ filter (fun e => e.1.1.1 <> k) (block_parts t))
    (filter (fun e => e.1.1 = k) (change_log l) ∪ filter (fun e => e.1.1 <> k) (change_log t))
    (slot_rows t).

(** A running transaction: its call, what is left of its program, and, once it has locked the row of its
    database, the tables as it sees them there. *)
Record transaction := mkTransaction {
  tx_call : call;
  tx_prog : prog reply;
  tx_local : option Tables }.

Record pgstate := mkPg {
  committed : Tables;
  running : gmap nat transaction;
  log : list (call * reply) }.

(** Another transaction than [i] has the row of [k] locked. *)
Definition blocked (i : nat) (k : Key) (d : pgstate) : bool :=
  existsb (fun e => negb (bool_decide (e.1 = i)) && bool_decide (call_key (tx_call e.2) = k) &&
                    bool_decide (is_Some (tx_local e.2))) (map_to_list (running d)).

(** What is needed to execute a statement of a transaction without a lock on [t]: the result and, if the
    statement locks the row, the new local tables.  [None]: the statement waits. *)
Definition exec_free {A} (wait : bool) (s : stmt A) (t : Tables) : option (A * option Tables) :=
  match s in stmt A return option (A * option Tables) with
  | Lock k =>
      match databases t !! k with
      | None => Some (None, None)
      | Some row => if wait then None else Some (Some row, Some t)
      end
  | Insert k pageSize =>
      match CreateDatabase k pageSize t with
      | Ok (Some row, t') => if wait then None else Some (Some row, Some t')
      | _ => Some (None, None)
      end
  | LeaseUpdate k q =>
      match q t with
      | Ok (rows, t') => if 0 <? rows then if wait then None else Some (rows, Some t') else Some (rows, None)
      | Err _ => None
      end
  | Write _ => None
  | Read f => Some (f t, None)
  end.

(** The transaction after a statement: an error ends it with a rollback, and so does a result if there is
    nothing to commit. *)
Definition settle (i : nat) (c : call) (p : prog reply) (l : option Tables) (d : pgstate) : pgstate :=
  match p, l with
  | Fail e, _ => mkPg (committed d) (delete i (running d)) (log d ++ [(c, error_reply c e)])
  | Ret a, None => mkPg (committed d) (delete i (running d)) (log d ++ [(c, a)])
  | _, _ => mkPg (committed d) (<[i := mkTransaction c p l]> (running d)) (log d)
  end.

Inductive event :=
| Begin (i : nat) (c : call)
| Exec (i : nat)
| CommitTx (i : nat)
| Cancel (i : nat).

Definition exec (i : nat) (x : transaction) (d : pgstate) : option pgstate :=
  let c := tx_call x in
  match tx_prog x, tx_local x with
  | Do s next, None =>
      '(a, l) ← exec_free (blocked i (call_key c) d) s (committed d);
      Some (settle i c (next a) l d)
  | Do s next, Some l =>
      match stmt_tx s (merge (call_key c) l (committed d)) with
      | Ok (a, t) => Some (settle i c (next a) (Some t) d)
      | Err e => Some (settle i c (Fail e) (Some l) d)
      end
  | _, _ => None
  end.

(** The error of a transaction whose connection or context ended before its commit. *)
Definition rolled_back : Error := InternalError "rolled back".

Definition db_step (e : event) (d : pgstate) : option pgstate :=
  match e with
  | Begin i c =>
      if supported c && bool_decide (running d !! i = None) then
        Some (mkPg (committed d) (<[i := mkTransaction c (prog_of c) None]> (running d)) (log d))
      else None
  | Exec i => x ← running d !! i; exec i x d
  | CommitTx i =>
      x ← running d !! i;
      match tx_prog x, tx_local x with
      | Ret a, Some l =>
          Some (mkPg (merge (call_key (tx_call x)) l (committed d)) (delete i (running d))
                  (log d ++ [(tx_call x, a)]))
      | _, _ => None
      end
  | Cancel i =>
      x ← running d !! i;
      Some (mkPg (committed d) (delete i (running d))
              (log d ++ [(tx_call x, error_reply (tx_call x) rolled_back)]))
  end.

Inductive reachable (t : Tables) : pgstate -> Prop :=
| reachable_start : reachable t (mkPg t ∅ [])
| reachable_step e d d' : reachable t d -> db_step e d = Some d' -> reachable t d'.
End programs.
