(* ===== verification/PgSerial.v ===== *)
(** * Concurrent transactions are serializable

    Every interleaving of [PgSchedule.v] has the effect and the answers of its calls one after the other,
    in the order in which they ended.  Only the queries of [Changes], which take no lock, may see three
    different moments of that order. *)

From S2P Require Import Prelude Store Trace Tables Postgres PgSchedule.

Local Open Scope Z_scope.

(** ** The part of the tables that belongs to one database *)

(** The tables agree on the database [k] and on the slots. *)
Record same (k : Key) (t u : Tables) : Prop := mkSame {
  same_row : databases t !! k = databases u !! k;
  same_blocks : forall i p, block_parts t !! (k, i, p) = block_parts u !! (k, i, p);
  same_changes : forall v, change_log t !! (k, v) = change_log u !! (k, v);
  same_slots : slot_rows t = slot_rows u }.

#[export] Instance same_equiv k : Equivalence (same k).
Proof.
  split.
  - intros t. by constructor.
  - intros t u [? ? ? ?]. by constructor.
  - intros t u w [? ? ? ?] [? ? ? ?]. constructor; intros; etrans; eauto.
Qed.

Lemma Tables_ext t u :
  (forall k, databases t !! k = databases u !! k) ->
  (forall k i p, block_parts t !! (k, i, p) = block_parts u !! (k, i, p)) ->
  (forall k v, change_log t !! (k, v) = change_log u !! (k, v)) ->
  slot_rows t = slot_rows u -> t = u.
Proof.
  destruct t, u; simpl. intros Hd Hb Hc ->. f_equal; apply map_eq; [done|intros [[k i] p]; done|intros [k v]; done].
Qed.

Lemma merge_row k l t k' :
  databases (merge k l t) !! k' = if decide (k' = k) then databases l !! k else databases t !! k'.
Proof. simpl. destruct (decide (k' = k)) as [->|?]; [by rewrite lookup_partial_alter_eq|by rewrite lookup_partial_alter_ne]. Qed.

(** A filtered map looked up. *)
Lemma lookup_filter_in {K A} `{Countable K} (P : K * A -> Prop) `{!forall x, Decision (P x)} (m : gmap K A) i :
  (forall a, P (i, a)) -> filter P m !! i = m !! i.
Proof.
  intros Hp. destruct (m !! i) as [a|] eqn:Hm.
  - by apply map_lookup_filter_Some.
  - apply map_lookup_filter_None. by left.
Qed.

Lemma lookup_filter_out {K A} `{Countable K} (P : K * A -> Prop) `{!forall x, Decision (P x)} (m : gmap K A) i :
  (forall a, ~ P (i, a)) -> filter P m !! i = None.
Proof. intros Hp. apply map_lookup_filter_None. right. intros a _. apply Hp. Qed.

Lemma merge_block k l t k' i p :
  block_parts (merge k l t) !! (k', i, p) = if decide (k' = k) then block_parts l !! (k, i, p) else block_parts t !! (k', i, p).
Proof.
  simpl. rewrite lookup_union. destruct (decide (k' = k)) as [->|Hne].
  - rewrite lookup_filter_in, lookup_filter_out by (simpl; intros; intuition congruence). by destruct (_ !! _).
  - rewrite lookup_filter_out, lookup_filter_in by (simpl; intros; intuition congruence). by destruct (_ !! _).
Qed.

Lemma merge_change k l t k' v :
  change_log (merge k l t) !! (k', v) = if decide (k' = k) then change_log l !! (k, v) else change_log t !! (k', v).
Proof.
  simpl. rewrite lookup_union. destruct (decide (k' = k)) as [->|Hne].
  - rewrite lookup_filter_in, lookup_filter_out by (simpl; intros; intuition congruence). by destruct (_ !! _).
  - rewrite lookup_filter_out, lookup_filter_in by (simpl; intros; intuition congruence). by destruct (_ !! _).
Qed.

Lemma merge_same k l t : slot_rows l = slot_rows t -> same k (merge k l t) l.
Proof.
  intros Hs. constructor; [by rewrite merge_row, decide_True|intros; by rewrite merge_block, decide_True|
    intros; by rewrite merge_change, decide_True|done].
Qed.

Lemma merge_other k k' l t : k' <> k -> same k' (merge k l t) t.
Proof.
  intros Hne. constructor; [by rewrite merge_row, decide_False|intros; by rewrite merge_block, decide_False|
    intros; by rewrite merge_change, decide_False|done].
Qed.

(** [merge] only reads the database [k] of its first argument. *)
Lemma merge_cong k l l' t : same k l l' -> merge k l t = merge k l' t.
Proof.
  intros [Hr Hb Hc _]. apply Tables_ext; [| | |done]; intros; rewrite ?merge_row, ?merge_block, ?merge_change;
    destruct (decide _); done.
Qed.

Lemma merge_merge k l l' t : merge k l (merge k l' t) = merge k l t.
Proof.
  apply Tables_ext; [| | |done]; intros; rewrite ?merge_row, ?merge_block, ?merge_change; destruct (decide _); try done;
    by rewrite ?merge_row, ?merge_block, ?merge_change, decide_False.
Qed.

Lemma merge_id k t u : same k t u -> merge k t u = u.
Proof.
  intros [Hr Hb Hc _]. apply Tables_ext; [| | |done]; intros; rewrite ?merge_row, ?merge_block, ?merge_change;
    destruct (decide _); by subst.
Qed.

(** ** Queries on one database *)

(** The query reads and changes only the database [k]; it may also read the slots. *)
Definition local (k : Key) {A} (q : Tx A) : Prop := forall t u, same k t u ->
  match q t, q u with
  | Ok (a, t'), Ok (b, u') => a = b /\ same k t' u' /\ merge k t' t = t'
  | Err e, Err e' => e = e'
  | _, _ => False
  end.

Lemma set_row_merge k row t : merge k (set_databases (<[k := row]> (databases t)) t) t = set_databases (<[k := row]> (databases t)) t.
Proof.
  apply Tables_ext; [| | |done]; intros; rewrite ?merge_row, ?merge_block, ?merge_change; simpl;
    destruct (decide _) as [->|?]; try done. by rewrite lookup_insert_ne.
Qed.

Lemma same_set_row k row t u :
  same k t u -> same k (set_databases (<[k := row]> (databases t)) t) (set_databases (<[k := row]> (databases u)) u).
Proof. intros [? ? ? ?]. constructor; simpl; [by rewrite !lookup_insert_eq|done..]. Qed.

Lemma local_update_database k {A} f (ret : Database -> A) : local k (update_database k f ret).
Proof.
  intros t u Hs. unfold update_database. rewrite <- (same_row _ _ _ Hs).
  destruct (databases t !! k) as [row|]; [|split_and!; [done|done|by apply merge_id]].
  destruct (f row) as [row'|e]; [|done].
  split_and!; [done|by apply same_set_row|apply set_row_merge].
Qed.

Lemma local_update_lease k epoch f : local k (update_lease k epoch f).
Proof.
  intros t u Hs. unfold update_lease. rewrite <- (same_row _ _ _ Hs).
  destruct (databases t !! k) as [row|]; [destruct (lease_matches epoch row)|];
    (split_and!; [done|try done; by apply same_set_row|try (by apply merge_id); apply set_row_merge]).
Qed.

Lemma local_lock k : local k (LockDatabase k).
Proof. intros t u Hs. unfold LockDatabase, reading. split_and!; [apply Hs|done|by apply merge_id]. Qed.

Lemma local_insert k pageSize : local k (CreateDatabase k pageSize).
Proof.
  intros t u Hs. unfold CreateDatabase. rewrite <- (same_row _ _ _ Hs). destruct (databases t !! k);
    [split_and!; [done|done|by apply merge_id]|split_and!; [done|by apply same_set_row|apply set_row_merge]].
Qed.

Lemma local_reading k {A} (f : Tables -> A) : (forall t u, same k t u -> f t = f u) -> local k (reading f).
Proof. intros Hf t u Hs. split_and!; [by apply Hf|done|by apply merge_id]. Qed.

(** A change of the blocks of [k]. *)
Lemma local_blocks (k : Key) (g : gmap (Key * Z * Z) bytes -> gmap (Key * Z * Z) bytes) :
  (forall m m' : gmap (Key * Z * Z) bytes, (forall i p, m !! (k, i, p) = m' !! (k, i, p)) -> forall i p, g m !! (k, i, p) = g m' !! (k, i, p)) ->
  (forall (m : gmap (Key * Z * Z) bytes) k' i p, k' <> k -> g m !! (k', i, p) = m !! (k', i, p)) ->
  local k (writing (fun t => set_blocks (g (block_parts t)) t)).
Proof.
  intros Hg Ho t u [Hr Hb Hc Hl]. unfold writing. split_and!; [done|constructor; simpl; by auto|].
  apply Tables_ext; [| | |done]; intros; rewrite ?merge_row, ?merge_block, ?merge_change; simpl;
    destruct (decide _) as [->|?]; try done. by rewrite Ho.
Qed.

(** A change of the change log of [k]. *)
Lemma local_changes (k : Key) (g : gmap (Key * Z) (list Z) -> gmap (Key * Z) (list Z)) :
  (forall m m' : gmap (Key * Z) (list Z), (forall v, m !! (k, v) = m' !! (k, v)) -> forall v, g m !! (k, v) = g m' !! (k, v)) ->
  (forall (m : gmap (Key * Z) (list Z)) k' v, k' <> k -> g m !! (k', v) = m !! (k', v)) ->
  local k (writing (fun t => set_changes (g (change_log t)) t)).
Proof.
  intros Hg Ho t u [Hr Hb Hc Hl]. unfold writing. split_and!; [done|constructor; simpl; by auto|].
  apply Tables_ext; [| | |done]; intros; rewrite ?merge_row, ?merge_block, ?merge_change; simpl;
    destruct (decide _) as [->|?]; try done. by rewrite Ho.
Qed.

Lemma filter_cong {K A} `{Countable K} (P : K * A -> Prop) `{!forall x, Decision (P x)} (m m' : gmap K A) i :
  m !! i = m' !! i -> filter P m !! i = filter P m' !! i.
Proof. intros Hm. rewrite !map_lookup_filter. by rewrite Hm. Qed.

Lemma local_put k params : local k (PutBlocks k params).
Proof.
  refine (local_blocks k (fun m => foldl (fun m p => put_part k p m) m params) _ _).
  - intros m m' Hm. revert m m' Hm. induction params as [|x params IH]; intros m m' Hm; simpl; [done|].
    apply IH. intros i p. unfold put_part.
    destruct (decide ((k, pb_Idx x, pb_Part x) = (k, i, p))) as [->|?]; [by rewrite !lookup_insert_eq|].
    by rewrite !lookup_insert_ne.
  - intros m k' i p Hne. revert m. induction params as [|x params IH]; intros m; simpl; [done|].
    rewrite IH. unfold put_part. apply lookup_insert_ne. congruence.
Qed.

Lemma local_delete_blocks k idx : local k (DeleteBlocksFrom k idx).
Proof.
  refine (local_blocks k (fun m => filter (fun e => ~ (e.1.1.1 = k /\ idx <= e.1.1.2)) m) _ _).
  - intros m m' Hm i p. by apply filter_cong.
  - intros m k' i p Hne. apply lookup_filter_in. simpl. naive_solver.
Qed.

Lemma local_prune k version : local k (PruneChanges k version).
Proof.
  refine (local_changes k (fun m => filter (fun e => ~ (e.1.1 = k /\ e.1.2 <= version)) m) _ _).
  - intros m m' Hm v. by apply filter_cong.
  - intros m k' v Hne. apply lookup_filter_in. simpl. naive_solver.
Qed.

Lemma local_delete_changes k : local k (DeleteChanges k).
Proof.
  refine (local_changes k (fun m => filter (fun e => e.1.1 <> k) m) _ _).
  - intros m m' Hm v. by apply filter_cong.
  - intros m k' v Hne. by apply lookup_filter_in.
Qed.

Lemma local_record k version blocks : local k (RecordChange k version blocks).
Proof.
  intros t u Hs. unfold RecordChange, writing. rewrite <- (same_changes _ _ _ Hs version).
  destruct (change_log t !! (k, version)); [split_and!; [done|done|by apply merge_id]|].
  refine (local_changes k (fun m => <[(k, version) := blocks]> m) _ _ t u Hs).
  - intros m m' Hm v. destruct (decide ((k, version) = (k, v))) as [->|?]; [by rewrite !lookup_insert_eq|].
    by rewrite !lookup_insert_ne.
  - intros m k' v Hne. apply lookup_insert_ne. congruence.
Qed.

Lemma local_purge k : local k (PurgeDatabase k).
Proof.
  intros t u [Hr Hb Hc Hl]. unfold PurgeDatabase, writing, delete_databases. split_and!; [done| |].
  - constructor; simpl; intros; [by apply filter_cong..|done].
  - apply Tables_ext; [| | |done]; intros; rewrite ?merge_row, ?merge_block, ?merge_change; simpl;
      destruct (decide _) as [->|?]; try done; by rewrite lookup_filter_in.
Qed.

Create HintDb local.
#[export] Hint Resolve local_update_database local_update_lease local_lock local_insert local_put local_delete_blocks
  local_prune local_delete_changes local_record local_purge : local.

(** ** Programs on one database *)

Lemma denote_bind {A B} (p : prog A) (f : A -> prog B) t :
  denote (p ≫= f) t = (denote p ≫= fun a => denote (f a)) t.
Proof.
  revert t. induction p as [a|e|C s next IH]; intros t; [done|done|].
  simpl. unfold mbind, Tx_bind. destruct (stmt_tx s t) as [[c t']|e]; [|done].
  exact (IH c t').
Qed.

(** All statements of the program are local to [k]. *)
Inductive local_prog (k : Key) {A} : prog A -> Prop :=
| local_ret a : local_prog k (Ret a)
| local_fail e : local_prog k (Fail e)
| local_do {B} (s : stmt B) next :
    local k (stmt_tx s) -> (forall b, local_prog k (next b)) -> local_prog k (Do s next).

Lemma local_do_inv k {A B} (s : stmt B) (next : B -> prog A) :
  local_prog k (Do s next) -> local k (stmt_tx s) /\ forall b, local_prog k (next b).
Proof.
  intros Hp. refine (match Hp in local_prog _ p return
    match p with Do s next => local k (stmt_tx s) /\ forall b, local_prog k (next b) | _ => True end
    with local_do _ _ _ Hs Hn => conj Hs Hn | _ => I end).
Qed.

Lemma local_bind k {A B} (p : prog A) (f : A -> prog B) :
  local_prog k p -> (forall a, local_prog k (f a)) -> local_prog k (p ≫= f).
Proof.
  intros Hp Hf. induction Hp as [a|e|C s next Hs _ IH]; [apply Hf|constructor|].
  by apply (local_do k s (fun b => prog_bind f (next b))).
Qed.

Lemma local_run k {A} (s : stmt A) : local k (stmt_tx s) -> local_prog k (run_stmt s).
Proof. intros Hs. constructor; [done|constructor]. Qed.

Lemma local_one k {A} (p : prog (option A)) : local_prog k p -> local_prog k (one_row p).
Proof. intros Hp. apply local_bind; [done|]. intros [a|]; constructor. Qed.

Lemma local_result k {A} (r : result Error A) : local_prog k (from_result r).
Proof. destruct r; constructor. Qed.

#[export] Hint Resolve local_ret local_fail local_run local_one local_result : local.

(** Splits a program into its statements. *)
Ltac local_steps :=
  repeat first
    [ progress eauto with local
    | apply local_bind; [|intros ?]
    | match goal with |- local_prog _ (if ?b then _ else _) => destruct b end
    | match goal with |- local_prog _ (match ?x with _ => _ end) => destruct x end ].

Section locality.
Context `{Timestamptz}.

Lemma local_slots k f : (forall t u, slot_rows t = slot_rows u -> f t = f u) -> local k (@reading bool f).
Proof. intros Hf. apply local_reading. intros t u Hs. apply Hf, Hs. Qed.

Lemma local_revive req : local_prog (or_Key req) (revive_prog req).
Proof. unfold revive_prog. local_steps. Qed.

Lemma local_opened newID req row : local_prog (or_Key req) (opened_prog newID req row).
Proof.
  unfold opened_prog. local_steps; apply local_revive.
Qed.

Lemma local_commit req row : local_prog (cr_Key req) (locked_commit req row).
Proof.
  unfold locked_commit, put_prog, record_prog. local_steps.
Qed.

Lemma local_remove k : local_prog k (remove_prog k).
Proof. unfold remove_prog. local_steps. Qed.
End locality.

(** ** One call after the other *)

Section serial.
Context `{Timestamptz}.

(** The call as one step on the tables. *)
Definition serial_step (c : call) (t : Tables) : Tables * reply :=
  match c with
  | Call o => let '(t', a) := step o t in (t', Reply a)
  | Candidate cutoff k => let '(t', r) := inTx (unused_tx cutoff k) t in (t', Removed r)
  end.

(** The errors that a call may get from concurrency alone, and that change nothing: its transaction was
    rolled back from outside; a database that [Open] found to exist when it wanted to create it was
    purged before it could be locked; and a lease update that matched no row was followed by a look
    at a database that was created in the meantime. *)
Definition refused (c : call) (e : Error) : Prop :=
  e = rolled_back \/
  match c with
  | Call (OpOpen _ req) => or_Create req = true /\ e = InternalError "no rows in result set"
  | Call (OpRenew _ _ _ _ | OpRelease _ _) => e = ErrFenced
  | _ => False
  end.

(** The calls of the log, one after the other, lead from [t0] to [t].  The three queries of [Changes] may
    have seen the tables after three earlier parts of the log. *)
Inductive serial (t0 : Tables) : list (call * reply) -> Tables -> Prop :=
| serial_nil : serial t0 [] t0
| serial_call l t c t' r : serial t0 l t -> serial_step c t = (t', r) -> serial t0 (l ++ [(c, r)]) t'
| serial_refused l t c e : serial t0 l t -> refused c e -> serial t0 (l ++ [(c, error_reply c e)]) t
| serial_changes l t k from l1 t1 l2 t2 l3 t3 :
    serial t0 l t -> serial t0 l1 t1 -> serial t0 l2 t2 -> serial t0 l3 t3 ->
    l1 `prefix_of` l2 -> l2 `prefix_of` l3 -> l3 `prefix_of` l ->
    serial t0 (l ++ [(Call (OpChanges k from), Reply (AChanges (changes_at k from t1 t2 t3)))]) t.

(** The calls whose answers are those of one moment. *)
Definition one_moment (c : call) : bool :=
  supported c && match c with Call (OpChanges _ _) => false | _ => true end.

Definition reply_of (c : call) (r : Tables * result Error reply) : Tables * reply :=
  match r with (t, Ok a) => (t, a) | (t, Err e) => (t, error_reply c e) end.

(** The programs are the operations of [Postgres.v]. *)
Lemma tx_bind_cong {A B} (q q' : Tx A) (f f' : A -> Tx B) t :
  q t = q' t -> (forall a t, f a t = f' a t) -> (q ≫= f) t = (q' ≫= f') t.
Proof. intros Hq Hf. unfold mbind, Tx_bind. rewrite Hq. destruct (q' t) as [[a t']|]; [apply Hf|done]. Qed.

Lemma tx_bind_ret {A} (q : Tx A) t : (q ≫= mret) t = q t.
Proof. unfold mbind, Tx_bind. by destruct (q t) as [[a t']|]. Qed.

Lemma denote_run {A} (s : stmt A) t : denote (run_stmt s) t = stmt_tx s t.
Proof. apply tx_bind_ret. Qed.

Lemma denote_one {A} (p : prog (option A)) (q : Tx (option A)) t :
  denote p t = q t -> denote (one_row p) t = one q t.
Proof.
  intros Hp. unfold one_row. rewrite denote_bind. apply tx_bind_cong; [done|]. by intros [a|] u.
Qed.

Lemma denote_result {A} (r : result Error A) t : denote (from_result r) t = lift r t.
Proof. by destruct r. Qed.

(** Matches the statements of a program and a transaction one by one. *)
Ltac denoting :=
  repeat first
    [ reflexivity
    | rewrite denote_bind; apply tx_bind_cong; [|intros ? ?]
    | rewrite denote_run
    | apply denote_one
    | apply denote_result
    | match goal with |- denote (if ?b then _ else _) _ = _ => destruct b end
    | match goal with |- denote (match ?x with _ => _ end) _ = _ => destruct x end ].

Lemma denote_create req t : denote (create_prog req) t = createDatabase req t.
Proof. unfold create_prog, createDatabase. denoting. Qed.

Lemma denote_revive req t : denote (revive_prog req) t = reviveDatabase req t.
Proof. unfold revive_prog, reviveDatabase. denoting. Qed.

Lemma denote_share req t : texts [or_Owner req] -> denote (share_prog req) t = share_slot req t.
Proof.
  intros Htx. unfold share_prog, share_slot. destruct (bool_decide _); [done|].
  rewrite denote_bind. apply tx_bind_cong; [|intros ? ?; denoting]. rewrite denote_run, with_text_ok by done. done.
Qed.

Lemma denote_remove k t : denote (remove_prog k) t = remove k t.
Proof. unfold remove_prog, remove. denoting. Qed.

Lemma denote_commit req t : denote (commit_prog req) t = commit_tx req t.
Proof. unfold commit_prog, commit_tx, locked_commit, put_prog, record_prog, putBlocks, recordChange. denoting. Qed.

Lemma denote_delete req t : denote (delete_prog req) t = delete_tx req t.
Proof. unfold delete_prog, delete_tx. denoting; apply denote_remove. Qed.

Lemma denote_unused cutoff k t : denote (unused_prog cutoff k) t = unused_tx cutoff k t.
Proof. unfold unused_prog, unused_tx. denoting; apply denote_remove. Qed.

Lemma tx_bind_assoc {A B C} (q : Tx A) (f : A -> Tx B) (g : B -> Tx C) t :
  ((q ≫= f) ≫= g) t = (q ≫= fun a => f a ≫= g) t.
Proof. unfold mbind, Tx_bind. by destruct (q t) as [[a t']|]. Qed.

Lemma denote_open newID req t :
  texts (op_texts (OpOpen newID req)) -> denote (open_prog newID req) t = open_tx newID req t.
Proof.
  intros [Ho Hk]%texts_cons.
  unfold open_prog, open_tx. rewrite denote_bind. apply tx_bind_cong; [by apply denote_share|intros _ u].
  unfold open_row. rewrite denote_bind, tx_bind_assoc.
  apply tx_bind_cong; [rewrite denote_run, with_text_ok by done; done|intros row v]. rewrite denote_bind, tx_bind_assoc.
  apply tx_bind_cong; [destruct row; [done|apply denote_create]|intros row' w].
  unfold opened_prog. rewrite denote_bind. apply tx_bind_cong; [denoting; apply denote_revive|]. intros. denoting.
Qed.

Lemma denote_renew k e now ttl t :
  denote (renew_prog k e now ttl) t = (rows ← ExtendLease k (s64 e) (timestamp (time_Add now ttl)); whyNoRow k rows) t.
Proof. unfold renew_prog, why_prog, whyNoRow. denoting. Qed.

Lemma denote_release k e t : denote (release_prog k e) t = (rows ← ReleaseLease k (s64 e); whyNoRow k rows) t.
Proof. unfold release_prog, why_prog, whyNoRow. denoting. Qed.

Lemma denote_fetch k v f n t : denote (fetch_prog k v f n) t = lift (Fetch k v f n t) t.
Proof.
  unfold fetch_prog. rewrite denote_bind. unfold mbind, Tx_bind. rewrite denote_run. cbn [stmt_tx reading].
  by rewrite denote_result.
Qed.

(** The reply of a program whose result is wrapped. *)
Lemma reply_wrapped {A} c (p : prog A) (q : Tx A) (f : A -> reply) t :
  denote p t = q t ->
  reply_of c (inTx (denote (r ← p; Ret (f r))) t) =
  match inTx q t with (t', Ok a) => (t', f a) | (t', Err e) => (t', error_reply c e) end.
Proof. intros Hp. unfold inTx. rewrite denote_bind. unfold mbind, Tx_bind. rewrite Hp. by destruct (q t) as [[a u]|]. Qed.

Lemma prog_of_serial c t : one_moment c = true -> reply_of c (inTx (denote (prog_of c)) t) = serial_step c t.
Proof.
  unfold one_moment. intros [[Hs Htx]%andb_true_iff Hc]%andb_true_iff. revert Hs Htx Hc.
  destruct c as [[newID req|k v f n|req|k v|k e now ttl|k e|req| | | | | ]|cutoff k]; intros Hs Htx Hc; try done;
    cbn [call_texts] in Htx.
  - cbn [prog_of]. rewrite (reply_wrapped _ _ _ _ _ (denote_open newID req t Htx)). simpl. unfold Open.
    by destruct (inTx _ t) as [t' [a|e]].
  - cbn [prog_of]. rewrite (reply_wrapped _ _ _ _ _ (denote_fetch k v f n t)). unfold inTx, lift.
    cbn [serial_step step st_Fetch Tables_api]. by destruct (Fetch k v f n t).
  - cbn [prog_of]. rewrite (reply_wrapped _ _ _ _ _ (denote_commit req t)). cbn [serial_step step Tables_api st_Commit]. unfold Commit. rewrite inTx_text by done.
    by destruct (inTx _ t) as [t' [a|e]].
  - cbn [prog_of]. rewrite (reply_wrapped _ _ _ _ _ (denote_renew k e now ttl t)). cbn [serial_step step Tables_api st_Renew]. unfold Renew. rewrite inTx_text by done.
    by destruct (inTx _ t) as [t' [a|e']].
  - cbn [prog_of]. rewrite (reply_wrapped _ _ _ _ _ (denote_release k e t)). cbn [serial_step step Tables_api st_Release]. unfold Release. rewrite inTx_text by done.
    by destruct (inTx _ t) as [t' [a|e']].
  - cbn [prog_of]. rewrite (reply_wrapped _ _ _ _ _ (denote_delete req t)). cbn [serial_step step Tables_api st_Delete]. unfold Delete. rewrite inTx_text by done.
    by destruct (inTx _ t) as [t' [a|e]].
  - cbn [prog_of]. rewrite (reply_wrapped _ _ _ _ _ (denote_unused cutoff k t)). simpl.
    by destruct (inTx _ t) as [t' [a|e]].
Qed.
End serial.

(** ** The invariant *)

Section invariant.
Context `{Timestamptz}.
Variable t0 : Tables.

(** A result that the call could have on the tables [t] alone, or a refusal that changes nothing. *)
Definition good (c : call) (r : Tables * result Error reply) (t : Tables) : Prop :=
  r = inTx (denote (prog_of c)) t \/ (r.1 = t /\ exists e, r.2 = Err e /\ refused c e).

(** The rest of a program that sees [l] for its database. *)
Definition finish (k : Key) (l : Tables) (p : prog reply) (t : Tables) : Tables * result Error reply :=
  match denote p (merge k l t) with Ok (a, u) => (u, Ok a) | Err e => (t, Err e) end.

Definition is_do {A} (p : prog A) : bool := match p with Do _ _ => true | _ => false end.
Definition is_fail {A} (p : prog A) : bool := match p with Fail _ => true | _ => false end.

(** A program without a lock: whatever the others do before it goes on, its result is good. *)
Inductive stable (c : call) : prog reply -> Prop :=
| stable_do {B} (s : stmt B) next :
    (forall t, slot_rows t = slot_rows t0 -> good c (inTx (denote (Do s next)) t) t) ->
    (forall t, is_Some (exec_free false s t)) ->
    (forall t a, slot_rows t = slot_rows t0 -> exec_free false s t = Some (a, None) ->
       stmt_tx s t = Ok (a, t)) ->
    (forall t a, slot_rows t = slot_rows t0 -> exec_free false s t = Some (a, None) ->
       is_do (next a) = true -> stable c (next a)) ->
    (forall t a l, exec_free false s t = Some (a, Some l) ->
       stmt_tx s t = Ok (a, l) /\ local (call_key c) (stmt_tx s) /\ local_prog (call_key c) (next a)) ->
    stable c (Do s next).

(** The conditions of [stable], as a record. *)
Record stable_conds (c : call) {B} (s : stmt B) (next : B -> prog reply) : Prop := {
  st_good : forall t, slot_rows t = slot_rows t0 -> good c (inTx (denote (Do s next)) t) t;
  st_runs : forall t, is_Some (exec_free false s t);
  st_free : forall t a, slot_rows t = slot_rows t0 -> exec_free false s t = Some (a, None) -> stmt_tx s t = Ok (a, t);
  st_next : forall t a, slot_rows t = slot_rows t0 -> exec_free false s t = Some (a, None) ->
    is_do (next a) = true -> stable c (next a);
  st_lock : forall t a l, exec_free false s t = Some (a, Some l) ->
    stmt_tx s t = Ok (a, l) /\ local (call_key c) (stmt_tx s) /\ local_prog (call_key c) (next a) }.

Lemma stable_inv c {B} (s : stmt B) next : stable c (Do s next) -> stable_conds c s next.
Proof.
  intros Hp. refine (match Hp in stable _ p return match p with Do s next => stable_conds c s next | _ => True end
    with stable_do _ _ _ H1 H2 H3 H4 H5 => Build_stable_conds _ _ _ _ H1 H2 H3 H4 H5 end).
Qed.

(** *** Queries that see several moments *)

(** What is left of a program after its first queries have seen the tables [ts]. *)
Fixpoint replay (p : prog reply) (ts : list Tables) {struct ts} : prog reply :=
  match ts, p with
  | t :: ts, Do s next => match stmt_tx s t with Ok (a, _) => replay (next a) ts | Err e => Fail e end
  | _, p => p
  end.

(** The tables [ts] were the committed ones, one after the other, until the log was [l]. *)
Inductive moments : list (call * reply) -> list Tables -> Prop :=
| moments_nil l : moments l []
| moments_snoc l1 l ts t : moments l1 ts -> serial t0 l1 t -> l1 `prefix_of` l -> moments l (ts ++ [t]).

Lemma moments_later l l' ts : moments l ts -> l `prefix_of` l' -> moments l' ts.
Proof. intros [|l1 l2 ts' t Hm Hs Hp] Hl; [constructor|]. apply (moments_snoc l1); [done|done|by etrans]. Qed.

Lemma moments_last l ts t :
  moments l (ts ++ [t]) -> exists l1, moments l1 ts /\ serial t0 l1 t /\ l1 `prefix_of` l.
Proof.
  remember (ts ++ [t]) as us eqn:Hus. intros Hm. revert Hus.
  destruct Hm as [|l1 l2 ts' t' Hm' Hs Hp]; intros Hus; [by destruct (app_cons_not_nil ts [] t)|].
  apply app_inj_tail in Hus as [-> ->]. by exists l1.
Qed.

Definition reading_ok (l : list (call * reply)) (x : transaction) : Prop :=
  tx_local x = None /\ is_do (tx_prog x) = true /\
  exists k from ts, tx_call x = Call (OpChanges k from) /\ moments l ts /\
    tx_prog x = replay (prog_of (tx_call x)) ts.

Definition locking_ok (t : Tables) (x : transaction) : Prop :=
  let c := tx_call x in
  one_moment c = true /\
  match tx_local x with
  | None => stable c (tx_prog x)
  | Some l =>
      local_prog (call_key c) (tx_prog x) /\ is_fail (tx_prog x) = false /\ slot_rows l = slot_rows t0 /\
      forall u, same (call_key c) u t -> good c (finish (call_key c) l (tx_prog x) u) u
  end.

Definition tx_ok (l : list (call * reply)) (t : Tables) (x : transaction) : Prop :=
  locking_ok t x \/ reading_ok l x.

Lemma reading_later l l' x : l `prefix_of` l' -> reading_ok l x -> reading_ok l' x.
Proof.
  intros Hp (Hl & Hd & k & from & ts & Hc & Hm & Hr). split_and!; [done|done|].
  exists k, from, ts. split_and!; [done|by eapply moments_later|done].
Qed.

Lemma tx_ok_later l l' t x : l `prefix_of` l' -> tx_ok l t x -> tx_ok l' t x.
Proof. intros Hp [Hx|Hx]; [by left|right; by eapply reading_later]. Qed.

Definition holds_lock (i : nat) (k : Key) (d : pgstate) : Prop :=
  exists x, running d !! i = Some x /\ call_key (tx_call x) = k /\ is_Some (tx_local x).

Record inv (d : pgstate) : Prop := mkInv {
  inv_serial : serial t0 (log d) (committed d);
  inv_slots : slot_rows (committed d) = slot_rows t0;
  inv_running : forall i x, running d !! i = Some x -> tx_ok (log d) (committed d) x;
  inv_locks : forall i j k, holds_lock i k d -> holds_lock j k d -> i = j }.

Lemma good_log l t c t' r :
  one_moment c = true -> serial t0 l t -> good c (t', r) t -> serial t0 (l ++ [(c, (reply_of c (t', r)).2)]) t'.
Proof.
  intros Hc Hl [Hg|(Ht & e & He & Hr)].
  - eapply serial_call; [done|]. rewrite <- prog_of_serial by done. rewrite <- Hg. by destruct r.
  - simpl in *. subst. by apply serial_refused.
Qed.

Lemma blocked_false i k d : blocked i k d = false -> forall j, holds_lock j k d -> j = i.
Proof.
  intros Hb j (x & Hx & Hk & Hl). destruct (decide (j = i)) as [|Hne]; [done|]. exfalso.
  apply not_true_iff_false in Hb. apply Hb. unfold blocked. apply existsb_exists. exists (j, x).
  split; [by apply list_elem_of_In, elem_of_map_to_list|]. simpl.
  rewrite (bool_decide_eq_false_2 (j = i)) by done. by rewrite !bool_decide_eq_true_2.
Qed.

Lemma running_delete d i t l :
  inv d -> serial t0 l t -> slot_rows t = slot_rows t0 ->
  (forall j x, running d !! j = Some x -> j <> i -> tx_ok l t x) ->
  inv (mkPg t (delete i (running d)) l).
Proof.
  intros Hi Hl Hs Hx. constructor; simpl; [done|done| |].
  - intros j x Hj. apply lookup_delete_Some in Hj as [Hne Hj]. by apply (Hx j).
  - intros j j' k (x & Hj & Hk) (y & Hj' & Hk'). simpl in *.
    apply lookup_delete_Some in Hj as [_ Hj], Hj' as [_ Hj'].
    apply (inv_locks d Hi j j' k); [by exists x|by exists y].
Qed.

Lemma running_insert d i x :
  inv d -> tx_ok (log d) (committed d) x ->
  (is_Some (tx_local x) -> forall j, holds_lock j (call_key (tx_call x)) d -> j = i) ->
  inv (mkPg (committed d) (<[i := x]> (running d)) (log d)).
Proof.
  intros Hi Hx Hlock. constructor; simpl; [apply Hi|apply Hi| |].
  - intros j y Hj. apply lookup_insert_Some in Hj as [[<- <-]|[_ Hj]]; [done|by apply (inv_running d Hi j)].
  - assert (forall j k, holds_lock j k (mkPg (committed d) (<[i := x]> (running d)) (log d)) ->
              (j = i /\ call_key (tx_call x) = k /\ is_Some (tx_local x)) \/ (j <> i /\ holds_lock j k d)) as Hh.
    { intros j k (y & Hy & Hk & Hl). simpl in Hy. apply lookup_insert_Some in Hy as [[<- <-]|[Hne Hy]]; [by left|].
      right. split; [done|]. by exists y. }
    intros j j' k [(-> & Hk & Hl)|[Hn Hj]]%Hh [(-> & Hk' & Hl')|[Hn' Hj']]%Hh; [done| | |by apply (inv_locks d Hi j j' k)].
    + subst k. by destruct (Hn' (Hlock Hl j' Hj')).
    + subst k. by destruct (Hn (Hlock Hl' j Hj)).
Qed.

Lemma settle_inv i c p l d :
  inv d -> one_moment c = true ->
  (is_Some l -> forall j, holds_lock j (call_key c) d -> j = i) ->
  match p, l with
  | Fail e, _ => good c (committed d, Err e) (committed d)
  | Ret a, None => good c (committed d, Ok a) (committed d)
  | _, _ => locking_ok (committed d) (mkTransaction c p l)
  end ->
  inv (settle i c p l d).
Proof.
  intros Hi Hc Hlock Hp.
  assert (forall r, good c (committed d, r) (committed d) ->
    inv (mkPg (committed d) (delete i (running d)) (log d ++ [(c, (reply_of c (committed d, r)).2)]))) as Hend.
  { intros r Hg. apply running_delete; [done|eapply good_log; [done|apply Hi|done]|apply Hi|].
    intros j x Hj _. eapply tx_ok_later; [by apply prefix_app_r|]. by apply (inv_running d Hi j). }
  destruct p as [a|e|B s next]; simpl; [destruct l as [l|]| |].
  - apply running_insert; [done|by left|done].
  - by apply (Hend (Ok a)).
  - by apply (Hend (Err e)).
  - apply running_insert; [done|by left|done].
Qed.

(** *** Changes *)

Definition is_read {A} (s : stmt A) : bool := match s with Read _ => true | _ => false end.

Lemma read_runs {A} (s : stmt A) w t :
  is_read s = true -> exists a, exec_free w s t = Some (a, None) /\ stmt_tx s t = Ok (a, t).
Proof. destruct s; try done. intros _. by eexists. Qed.

(** All statements of the program are reads. *)
Fixpoint reads_prog (p : prog reply) : Prop :=
  match p with Do s next => is_read s = true /\ forall b, reads_prog (next b) | _ => True end.

Lemma replay_snoc p ts t :
  replay p (ts ++ [t]) = replay (replay p ts) [t].
Proof.
  revert p. induction ts as [|u ts IH]; intros p; [done|]. destruct p as [a|e|B s next]; [done..|].
  simpl. destruct (stmt_tx s u) as [[a v]|e] eqn:Hs; [apply IH|done].
Qed.

Lemma changes_reads k from : reads_prog (prog_of (Call (OpChanges k from))).
Proof.
  simpl. split; [done|]. intros [row|]; simpl; [|done]. destruct (d_Deleted row); [done|].
  destruct (_ <? from); [done|]. destruct (from =? _); [done|]. split; [done|].
  intros [[oldest t]|e]; simpl; [|done]. destruct (_ || _); [done|]. split; [done|]. by intros [[rows u]|e].
Qed.

Lemma replay_reads p ts : reads_prog p -> reads_prog (replay p ts).
Proof.
  revert p. induction ts as [|t ts IH]; intros p Hp; [by destruct p|]. destruct p as [a|e|B s next]; [done..|]. simpl.
  destruct Hp as [Hs Hn]. destruct (stmt_tx s t) as [[a u]|e]; [by apply IH|done].
Qed.

(** The answer of a program that has ended. *)
Definition ended_with (c : call) (p : prog reply) : option reply :=
  match p with Ret a => Some a | Fail e => Some (error_reply c e) | Do _ _ => None end.

(** The answer of [Changes] is that of the three moments its queries have seen. *)
Lemma changes_answer k from t1 ts r :
  ended_with (Call (OpChanges k from)) (replay (prog_of (Call (OpChanges k from))) (t1 :: ts)) = Some r ->
  r = Reply (AChanges (changes_at k from t1 (default t1 (head ts)) (default (default t1 (head ts)) (head (tail ts))))).
Proof.
  simpl. unfold changes_at. destruct (databases t1 !! k) as [row|]; simpl; [|by destruct ts; intros [= <-]].
  destruct (d_Deleted row); [by destruct ts; intros [= <-]|].
  destruct (_ <? from); [by destruct ts; intros [= <-]|].
  destruct (from =? _); [by destruct ts; intros [= <-]|].
  destruct ts as [|t2 ts]; simpl; [done|]. destruct (_ || _); [by destruct ts; intros [= <-]|].
  destruct ts as [|t3 ts]; simpl; [done|]. by destruct ts; intros [= <-].
Qed.

Lemma moments_app l ts ts' : moments l (ts ++ ts') -> moments l ts.
Proof.
  revert l. induction ts' as [|t ts' IH] using rev_ind; intros l; [by rewrite app_nil_r|].
  rewrite app_assoc. intros (l1 & Hm & _ & Hp)%moments_last. eapply moments_later; [by apply IH|done].
Qed.

Lemma moments_three l t1 t2 t3 :
  moments l [t1; t2; t3] -> exists l1 l2 l3, serial t0 l1 t1 /\ serial t0 l2 t2 /\ serial t0 l3 t3 /\
    l1 `prefix_of` l2 /\ l2 `prefix_of` l3 /\ l3 `prefix_of` l.
Proof.
  intros (l3 & (l2 & (l1 & _ & H1 & P1)%(moments_last _ []) & H2 & P2)%(moments_last _ [t1]) & H3 & P3)%(moments_last _ [t1; t2]).
  by exists l1, l2, l3.
Qed.

(** With a moment seen again, there are always three. *)
Lemma moments_pad l t1 ts :
  moments l (t1 :: ts) -> moments l [t1; default t1 (head ts); default (default t1 (head ts)) (head (tail ts))].
Proof.
  assert (forall ts t, moments l (ts ++ [t]) -> moments l (ts ++ [t] ++ [t])) as Hdup.
  { intros us t (l1 & Hm & Hs & Hp)%moments_last. rewrite app_assoc.
    apply (moments_snoc l1); [|done|done]. by apply (moments_snoc l1). }
  destruct ts as [|t2 [|t3 ts]]; simpl; intros Hm.
  - by apply (Hdup [t1] t1), (Hdup [] t1).
  - by apply (Hdup [t1] t2).
  - by apply (moments_app _ [t1; t2; t3] ts).
Qed.

Lemma changes_logged l t k from ts r :
  serial t0 l t -> moments l ts ->
  ended_with (Call (OpChanges k from)) (replay (prog_of (Call (OpChanges k from))) ts) = Some r ->
  serial t0 (l ++ [(Call (OpChanges k from), r)]) t.
Proof.
  intros Hl Hm Hr. destruct ts as [|t1 ts]; [done|]. apply changes_answer in Hr as ->.
  apply moments_pad, moments_three in Hm as (l1 & l2 & l3 & ? & ? & ? & ? & ? & ?).
  by apply (serial_changes t0 l t k from l1 _ l2 _ l3 _).
Qed.

Lemma reading_step d i x d' :
  inv d -> running d !! i = Some x -> reading_ok (log d) x -> exec i x d = Some d' -> inv d'.
Proof.
  intros Hi Hx (Hl & Hd & k & from & ts & Hc & Hm & Hp) He. unfold exec in He. rewrite Hl in He.
  pose proof (replay_reads _ ts (changes_reads k from)) as Hreads. rewrite Hc in Hp, He.
  remember (prog_of (Call (OpChanges k from))) as p0 eqn:Hp0.
  pose proof (replay_snoc p0 ts (committed d)) as Hsnoc.
  rewrite <- Hp in Hreads, Hsnoc. destruct (tx_prog x) as [a|e|B s next]; [done|done|].
  destruct Hreads as [Hs _]. destruct (read_runs s (blocked i (call_key (Call (OpChanges k from))) d) (committed d) Hs) as (a & Hf & Hq).
  rewrite Hf in He. simpl in He, Hsnoc. rewrite Hq in Hsnoc. injection He as <-.
  assert (moments (log d) (ts ++ [committed d])) as Hm'.
  { apply (moments_snoc (log d)); [done|apply Hi|done]. }
  assert (forall r, ended_with (Call (OpChanges k from)) (next a) = Some r ->
    inv (mkPg (committed d) (delete i (running d)) (log d ++ [(Call (OpChanges k from), r)]))) as Hend.
  { intros r Hr. apply running_delete; [done| |apply Hi|].
    - eapply changes_logged; [apply Hi|exact Hm'|]. rewrite <- Hp0, Hsnoc. by destruct (next a).
    - intros j y Hj _. eapply tx_ok_later; [by apply prefix_app_r|]. by apply (inv_running d Hi j). }
  destruct (next a) as [b|e|C s2 next2] eqn:Hn; simpl; [by apply Hend..|].
  apply running_insert; [done| |by intros []]. right. split_and!; [done|done|]. exists k, from, (ts ++ [committed d]).
  split_and!; [done|done|]. cbn [tx_call tx_prog]. by rewrite <- Hp0, Hsnoc.
Qed.

(** A statement of a transaction that holds the lock. *)
Lemma exec_locked c l B (s : stmt B) next t :
  local (call_key c) (stmt_tx s) -> slot_rows l = slot_rows t ->
  (forall u, same (call_key c) u t -> good c (finish (call_key c) l (Do s next) u) u) ->
  match stmt_tx s (merge (call_key c) l t) with
  | Ok (a, l') => slot_rows l' = slot_rows l /\ forall u, same (call_key c) u t -> good c (finish (call_key c) l' (next a) u) u
  | Err e => good c (t, Err e) t
  end.
Proof.
  intros Hl Hsl Hg. set (k := call_key c) in *.
  assert (forall u, same k u t -> same k (merge k l t) (merge k l u)) as Hsame.
  { intros u Hu. etrans; [by apply merge_same|]. symmetry. apply merge_same. rewrite Hsl. symmetry. apply Hu. }
  pose proof (Hl _ _ (reflexivity (merge k l t))) as Hself.
  destruct (stmt_tx s (merge k l t)) as [[a l']|e] eqn:Hq.
  - destruct Hself as (_ & _ & Hm). split; [rewrite <- Hm; simpl; by rewrite Hsl|].
    intros u Hu. specialize (Hg u Hu). unfold finish in Hg |- *. simpl in Hg. unfold mbind, Tx_bind in Hg.
    pose proof (Hl _ _ (Hsame u Hu)) as Hq'. rewrite Hq in Hq'.
    destruct (stmt_tx s (merge k l u)) as [[b u']|e'] eqn:Hqu; [|done]. destruct Hq' as (<- & Hs' & _).
    pose proof (Hl _ _ (reflexivity (merge k l u))) as Hself'. rewrite Hqu in Hself'. destruct Hself' as (_ & _ & Hm').
    replace (merge k l' u) with u'; [done|]. rewrite <- Hm', merge_merge. symmetry. by apply merge_cong.
  - specialize (Hg t (reflexivity t)). unfold finish in Hg. simpl in Hg. unfold mbind, Tx_bind in Hg. by rewrite Hq in Hg.
Qed.

(** The statement with which a transaction gets the lock. *)
Lemma exec_acquires c l B (s : stmt B) next t a :
  local (call_key c) (stmt_tx s) -> stmt_tx s t = Ok (a, l) -> slot_rows t = slot_rows t0 ->
  (forall u, slot_rows u = slot_rows t0 -> good c (inTx (denote (Do s next)) u) u) ->
  slot_rows l = slot_rows t0 /\ forall u, same (call_key c) u t -> good c (finish (call_key c) l (next a) u) u.
Proof.
  intros Hl Hq Hs Hg. set (k := call_key c) in *.
  pose proof (Hl t t (reflexivity t)) as Hself. rewrite Hq in Hself. destruct Hself as (_ & _ & Hm).
  split; [rewrite <- Hm; done|]. intros u Hu. specialize (Hg u). rewrite (same_slots _ _ _ Hu) in Hg. specialize (Hg Hs).
  unfold inTx in Hg. simpl in Hg. unfold mbind, Tx_bind in Hg. unfold finish.
  pose proof (Hl t u (symmetry Hu)) as Hq'. rewrite Hq in Hq'.
  destruct (stmt_tx s u) as [[b u']|e'] eqn:Hqu; [|done]. destruct Hq' as (<- & Hs' & _).
  pose proof (Hl u u (reflexivity u)) as Hself'. rewrite Hqu in Hself'. destruct Hself' as (_ & _ & Hm').
  replace (merge k l u) with u'; [done|]. rewrite <- Hm'. symmetry. by apply merge_cong.
Qed.

Lemma exec_free_wait {A} w (s : stmt A) t a l :
  exec_free w s t = Some (a, l) -> exec_free false s t = Some (a, l) /\ (is_Some l -> w = false).
Proof.
  destruct s as [k|k n|k q|B q|B f]; simpl.
  - destruct (databases t !! k), w; naive_solver.
  - destruct (CreateDatabase k n t) as [[[row|] t']|e], w; naive_solver.
  - destruct (q t) as [[rows t']|e], w; simpl; try done; destruct (0 <? rows); naive_solver.
  - done.
  - naive_solver.
Qed.

Lemma exec_inv d i x d' : inv d -> running d !! i = Some x -> exec i x d = Some d' -> inv d'.
Proof.
  intros Hi Hx He. destruct (inv_running d Hi i x Hx) as [[Hc Hok]|Hr]; [|by eapply reading_step]. unfold exec in He.
  destruct x as [c p l]. simpl in *. destruct p as [a|e|B s next]; [done|done|]. destruct l as [l|].
  - destruct Hok as (Hlp & _ & Hsl & Hg). apply local_do_inv in Hlp as [Hloc Hnext].
    assert (forall j, holds_lock j (call_key c) d -> j = i) as Hex.
    { intros j Hj. apply (inv_locks d Hi j i (call_key c)); [done|]. by exists (mkTransaction c (Do s next) (Some l)). }
    pose proof (exec_locked c l B s next (committed d) Hloc) as Hstep.
    rewrite (inv_slots d Hi) in Hstep. specialize (Hstep Hsl Hg).
    destruct (stmt_tx s _) as [[a l']|e]; simplify_eq; [|by apply (settle_inv i c (Fail e) (Some l) d)].
    apply settle_inv; [done..|]. destruct Hstep as [Hsl' Hg']. specialize (Hnext a). destruct (next a) as [b|e|C s2 next2] eqn:Hn.
    + split_and!; simpl; try done. by rewrite Hsl'.
    + exact (Hg' (committed d) (reflexivity _)).
    + split_and!; simpl; try done. by rewrite Hsl'.
  - apply stable_inv in Hok as [Hg _ Hfree Hst Hacq].
    apply bind_Some in He as ([a l] & Hf & He). simplify_eq. apply exec_free_wait in Hf as [Hf Hw].
    apply settle_inv; [done|done|intros Hl; by apply blocked_false, Hw|].
    pose proof (inv_slots d Hi) as Hs. destruct l as [l|].
    + destruct (Hacq _ _ _ Hf) as (Hq & Hloc & Hlp).
      destruct (exec_acquires c l B s next (committed d) a Hloc Hq Hs Hg) as [Hsl Hg'].
      destruct (next a) as [b|e|C s2 next2] eqn:Hn;
        [by split_and!|exact (Hg' (committed d) (reflexivity _))|by split_and!].
    + specialize (Hg _ Hs). unfold inTx in Hg. simpl in Hg. unfold mbind, Tx_bind in Hg. rewrite (Hfree _ _ Hs Hf) in Hg.
      destruct (next a) as [b|e|C s2 next2] eqn:Hn; [done|done|]. split; [done|]. simpl.
      rewrite <- Hn. apply (Hst _ _ Hs Hf). by rewrite Hn.
Qed.

(** A commit changes only the database of its transaction. *)
Lemma commit_inv d i x a l :
  inv d -> running d !! i = Some x -> tx_prog x = Ret a -> tx_local x = Some l ->
  inv (mkPg (merge (call_key (tx_call x)) l (committed d)) (delete i (running d)) (log d ++ [(tx_call x, a)])).
Proof.
  intros Hi Hx Hp Hl. destruct (inv_running d Hi i x Hx) as [[Hc Hok]|[Hr _]]; [|congruence]. rewrite Hl in Hok.
  destruct Hok as (_ & _ & Hsl & Hg). rewrite Hp in Hg.
  apply running_delete; [done| |apply Hi|].
  - exact (good_log _ _ _ _ (Ok a) Hc (inv_serial d Hi) (Hg (committed d) (reflexivity _))).
  - intros j y Hj Hne. destruct (inv_running d Hi j y Hj) as [[Hcy Hy]|Hr];
      [|right; eapply reading_later; [by apply prefix_app_r|done]].
    left. split; [done|].
    destruct (tx_local y) as [ly|] eqn:Hly; [|done]. destruct Hy as (? & ? & ? & Hgy). split_and!; try done.
    intros u Hu. apply Hgy. etrans; [exact Hu|]. apply merge_other. intros Hk.
    apply Hne. apply (inv_locks d Hi j i (call_key (tx_call x))).
    + exists y. by rewrite Hly.
    + exists x. by rewrite Hl.
Qed.

(** ** The programs are stable *)

Lemma stable_start c {B} (s : stmt B) next :
  prog_of c = Do s next ->
  (forall t, is_Some (exec_free false s t)) ->
  (forall t a, slot_rows t = slot_rows t0 -> exec_free false s t = Some (a, None) -> stmt_tx s t = Ok (a, t)) ->
  (forall t a, slot_rows t = slot_rows t0 -> exec_free false s t = Some (a, None) -> is_do (next a) = true -> stable c (next a)) ->
  (forall t a l, exec_free false s t = Some (a, Some l) ->
    stmt_tx s t = Ok (a, l) /\ local (call_key c) (stmt_tx s) /\ local_prog (call_key c) (next a)) ->
  stable c (prog_of c).
Proof. intros Hp Hr Hf Hn Hl. rewrite Hp. apply stable_do; try done. intros t _. left. by rewrite Hp. Qed.

(** [SELECT ... FOR UPDATE]: it locks the row or finds none. *)
Lemma lock_free k t a : exec_free false (Lock k) t = Some (a, None) -> a = None /\ LockDatabase k t = Ok (a, t).
Proof. simpl. unfold LockDatabase, reading. destruct (databases t !! k) eqn:Hr; [done|]. by intros [= <-]. Qed.

Lemma lock_locks k t a l :
  exec_free false (Lock k) t = Some (a, Some l) -> (exists row, a = Some row) /\ LockDatabase k t = Ok (a, l).
Proof.
  simpl. unfold LockDatabase, reading. destruct (databases t !! k) as [row|] eqn:Hr; [|done]. intros [= <- <-]. eauto.
Qed.

Lemma lock_runs k t : is_Some (exec_free false (Lock k) t).
Proof. simpl. destruct (databases t !! k); eauto. Qed.

Lemma stable_lock c next :
  prog_of c = Do (Lock (call_key c)) next -> is_do (next None) = false ->
  (forall row, local_prog (call_key c) (next (Some row))) -> stable c (prog_of c).
Proof.
  intros Hp Hn Hl. apply (stable_start c _ _ Hp); [apply lock_runs| | |].
  - intros t a _ Hf. by apply lock_free in Hf as [_ Hq].
  - intros t a _ Hf Hd. apply lock_free in Hf as [-> _]. congruence.
  - intros t a l Hf. apply lock_locks in Hf as [[row ->] Hq]. split_and!; [done|apply local_lock|apply Hl].
Qed.

(** An update of a lease that is followed by [whyNoRow]. *)
Lemma stable_lease c k epoch f (g : unit -> reply) :
  call_key c = k -> refused c ErrFenced ->
  prog_of c = (r ← (rows ← run_stmt (LeaseUpdate k (update_lease k epoch f)); why_prog k rows); Ret (g r)) ->
  stable c (prog_of c).
Proof.
  intros Hk Href Hp.
  assert (forall t a l, exec_free false (LeaseUpdate k (update_lease k epoch f)) t = Some (a, l) ->
    update_lease k epoch f t = Ok (a, default t l) /\ (0 <? a) = bool_decide (is_Some l)) as Hq.
  { intros t a l. simpl. unfold update_lease. destruct (databases t !! k) as [row|]; [destruct (lease_matches epoch row)|];
      simpl; by intros [= <- <-]. }
  eapply (stable_start c); [exact Hp| | | |].
  - intros t. simpl. unfold update_lease. destruct (databases t !! k) as [row|]; [destruct (lease_matches epoch row)|]; simpl; eauto.
  - intros t a _ Hf. by destruct (Hq t a None Hf).
  - intros t a _ Hf _. destruct (Hq t a None Hf) as [_ Ha]. simpl in Ha |- *. unfold why_prog. rewrite Ha.
    apply stable_do; [|by eauto| | |done].
    + intros u Hu. simpl. unfold inTx. simpl. unfold mbind, Tx_bind, reading.
      destruct (databases u !! k) as [row|] eqn:Hr; simpl; [right; split; [done|by exists ErrFenced]|].
      left. rewrite Hp. unfold inTx. simpl. unfold mbind, Tx_bind, update_lease. rewrite Hr. unfold why_prog. simpl.
      unfold mbind, Tx_bind, reading. by rewrite Hr.
    + intros u b _ [= <-]. done.
    + intros u b _ [= <-]. simpl. by destruct (bool_decide _).
  - intros t a l Hf. destruct (Hq t a (Some l) Hf) as [Hu Ha]. simpl in Hu, Ha. split_and!; [done|rewrite Hk; apply local_update_lease|].
    simpl. unfold why_prog. rewrite Ha. apply local_ret.
Qed.

(** *** Open *)

Definition open_reply (newID : bytes) (req : OpenRequest) (row : Database) : prog reply :=
  r ← opened_prog newID req row; Ret (Reply (AOpen (Ok r))).

(** [Open] after the slot was checked. *)
Definition open_locking (newID : bytes) (req : OpenRequest) : prog reply :=
  Do (Lock (or_Key req)) (fun row =>
    r ← (row ← (match row with Some row => Ret row | None => create_prog req end : prog Database);
         opened_prog newID req row);
    Ret (Reply (AOpen (Ok r)))).

Section open.
Variable newID : bytes.
Variable req : OpenRequest.
Let c : call := Call (OpOpen newID req).
Let k : Key := or_Key req.
Hypothesis share_ok : forall t, slot_rows t = slot_rows t0 ->
  denote (prog_of c) t = denote (open_locking newID req) t.

Lemma local_open_reply row : local_prog k (open_reply newID req row).
Proof. apply local_bind; [apply local_opened|constructor]. Qed.

(** With a row in the tables, the program goes on with it. *)
Lemma open_with_row t row :
  slot_rows t = slot_rows t0 -> databases t !! k = Some row ->
  denote (prog_of c) t = denote (open_reply newID req row) t.
Proof.
  intros Hs Hr. rewrite share_ok by done. simpl. unfold mbind, Tx_bind, LockDatabase, reading. fold k. by rewrite Hr.
Qed.

Lemma inTx_eq {A} (q q' : Tx A) t : q t = q' t -> inTx q t = inTx q' t.
Proof. unfold inTx. by intros ->. Qed.

(** The second [LockDatabase] of [createDatabase]. *)
Lemma stable_relock :
  or_Create req = true ->
  stable c (Do (Lock k) (fun b => prog_bind (fun r => Ret (Reply (AOpen (Ok r))))
    (prog_bind (fun row => opened_prog newID req row) (prog_bind (fun r =>
       match r with Some a => Ret a | None => Fail (InternalError "no rows in result set") end) (Ret b))))).
Proof.
  intros Hc. apply stable_do; [|apply lock_runs| | |].
  - intros t Hs. destruct (databases t !! k) as [row|] eqn:Hr.
    + left. apply inTx_eq. rewrite (open_with_row t row Hs Hr). simpl. unfold mbind, Tx_bind, LockDatabase, reading. by rewrite Hr.
    + right. unfold inTx. simpl. unfold mbind, Tx_bind, LockDatabase, reading. rewrite Hr. simpl.
      split; [done|]. eexists. split; [done|]. by right.
  - intros t a _ Hf. by apply lock_free in Hf as [_ Hq].
  - intros t a _ Hf. apply lock_free in Hf as [-> _]. done.
  - intros t a l Hf. apply lock_locks in Hf as [[row ->] Hq]. split_and!; [done|apply local_lock|apply local_open_reply].
Qed.

(** [CreateDatabase], when no row was found. *)
Lemma stable_create :
  is_do (create_prog req) = true ->
  stable c (r ← (row ← create_prog req; opened_prog newID req row); Ret (Reply (AOpen (Ok r)))).
Proof.
  assert (forall t, slot_rows t = slot_rows t0 -> databases t !! k = None ->
    denote (prog_of c) t =
    denote (r ← (row ← create_prog req; opened_prog newID req row); Ret (Reply (AOpen (Ok r)))) t) as Hnew.
  { intros t Hs Hr. rewrite share_ok by done. simpl. unfold mbind at 1, Tx_bind, LockDatabase, reading. fold k. by rewrite Hr. }
  revert Hnew. unfold create_prog. intros Hnew.
  destruct (negb (or_Create req) || _) eqn:Hc; [done|]. destruct (negb (ValidPageSize _)) eqn:Hv; [done|]. intros _.
  apply orb_false_iff in Hc as [Hc _]. apply negb_false_iff in Hc.
  apply stable_do; [| | | |].
  - intros t Hs. left. apply inTx_eq. destruct (databases t !! k) as [row|] eqn:Hr; [|by rewrite (Hnew t Hs Hr)].
    rewrite (open_with_row t row Hs Hr). simpl. unfold mbind, Tx_bind, CreateDatabase. fold k. rewrite Hr. simpl.
    unfold mbind, Tx_bind, LockDatabase, reading. fold k. by rewrite Hr.
  - intros t. simpl. destruct (CreateDatabase _ _ t) as [[[row|] t']|]; eauto.
  - intros t a _. simpl. unfold CreateDatabase. destruct (databases t !! or_Key req); simpl; by intros [= <-].
  - intros t a _. simpl. unfold CreateDatabase. destruct (databases t !! or_Key req); simpl; [|done].
    intros [= <-] _. by apply stable_relock.
  - intros t a l. simpl. unfold CreateDatabase at 1. destruct (databases t !! or_Key req) eqn:Hr; simpl; [done|].
    intros [= <- <-]. split_and!; [unfold CreateDatabase; by rewrite Hr|apply local_insert|apply local_open_reply].
Qed.

Lemma stable_locking : stable c (open_locking newID req).
Proof.
  apply stable_do; [|apply lock_runs| | |].
  - intros t Hs. left. apply inTx_eq. by rewrite share_ok.
  - intros t a _ Hf. by apply lock_free in Hf as [_ Hq].
  - intros t a _ Hf Hd. apply lock_free in Hf as [-> _]. apply stable_create.
    change (is_do (r ← (row ← create_prog req; opened_prog newID req row); Ret (Reply (AOpen (Ok r)))) = true) in Hd.
    destruct (create_prog req) eqn:Hcp; [|done|done]. exfalso. revert Hcp. unfold create_prog.
    destruct (negb (or_Create req) || _); [done|]. by destruct (negb (ValidPageSize _)).
  - intros t a l Hf. apply lock_locks in Hf as [[row ->] Hq]. split_and!; [done|apply local_lock|apply local_open_reply].
Qed.
End open.
Lemma open_stable newID req : stable (Call (OpOpen newID req)) (prog_of (Call (OpOpen newID req))).
Proof.
  destruct (bool_decide (or_Owner req = EmptyString)) eqn:Ho.
  { assert (prog_of (Call (OpOpen newID req)) = open_locking newID req) as Hp.
    { simpl. unfold open_prog, share_prog. by rewrite Ho. }
    rewrite Hp. apply stable_locking. intros t _. by rewrite Hp. }
  eapply stable_start; [simpl; unfold open_prog, share_prog; rewrite Ho; reflexivity|by eauto|by intros t a _ [= <-]| |done].
  intros t a Hs [= <-] Hd.
  destruct (slot_rows t !! or_Owner req) as [slot|] eqn:Hslot; simpl in Hd |- *;
    [destruct (bool_decide (s_Subject slot = Subject (or_Key req))) eqn:Hsub; simpl in Hd |- *; [|done]|];
    (apply stable_locking; intros u Hu; cbn [prog_of]; unfold open_prog, share_prog; rewrite Ho; simpl;
     unfold mbind at 1, Tx_bind at 1, reading; rewrite Hu, <- Hs, Hslot; simpl; by rewrite ?Hsub).
Qed.

Lemma starts_stable c : one_moment c = true -> stable c (prog_of c).
Proof.
  unfold one_moment. intros [[Hs Htx]%andb_true_iff Hc]%andb_true_iff. revert Hs Htx Hc.
  destruct c as [[newID req|k v f n|req|k v|k e now ttl|k e|req| | | | | ]|cutoff k]; intros Hs Htx Hc; try done.
  - apply open_stable.
  - eapply stable_start; [reflexivity|by eauto|by intros t a _ [= <-]| |done].
    intros t a _ [= <-]. simpl. by destruct (Fetch k v f n t).
  - eapply stable_lock; [reflexivity|done|]. intros row. cbn [prog_bind]. apply local_bind; [apply local_commit|constructor].
  - exact (stable_lease (Call (OpRenew k e now ttl)) k (s64 e) _ (fun r => Reply (ARenew (Ok r))) eq_refl (or_intror eq_refl) eq_refl).
  - exact (stable_lease (Call (OpRelease k e)) k (s64 e) _ (fun r => Reply (ARelease (Ok r))) eq_refl (or_intror eq_refl) eq_refl).
  - eapply stable_lock; [reflexivity|done|]. intros row. cbn [prog_bind]. apply local_bind; [|constructor].
    local_steps.
  - eapply stable_lock; [reflexivity|done|]. intros row. cbn [prog_bind]. apply local_bind; [|constructor].
    local_steps. apply local_run, local_slots. by intros t u ->.
Qed.

Lemma starts_ok c l t : supported c = true -> tx_ok l t (mkTransaction c (prog_of c) None).
Proof.
  intros Hc. destruct (one_moment c) eqn:Ho; [left; split; [done|by apply starts_stable]|right].
  unfold one_moment in Ho. rewrite Hc in Ho. destruct c as [[| | |k v| | | | | | | |]|]; try done.
  split_and!; [done|done|]. exists k, v, []. split_and!; [done|constructor|done].
Qed.

Lemma pg_inv_step e d d' : inv d -> db_step e d = Some d' -> inv d'.
Proof.
  intros Hi He. destruct e as [i c|i|i|i]; simpl in He.
  - destruct (supported c) eqn:Hc; [|done]. case_bool_decide as Hn; [|done]. simplify_eq/=.
    apply running_insert; [done|by apply starts_ok|]. by intros [].
  - apply bind_Some in He as (x & Hx & He). by eapply exec_inv.
  - apply bind_Some in He as (x & Hx & He). destruct (tx_prog x) eqn:Hp; try done.
    destruct (tx_local x) as [l|] eqn:Hl; [|done]. simplify_eq. by apply commit_inv.
  - apply bind_Some in He as (x & Hx & He). simplify_eq.
    apply running_delete; [done| |apply Hi|].
    2: { intros j y Hj _. eapply tx_ok_later; [by apply prefix_app_r|]. by apply (inv_running d Hi j). }
    apply serial_refused; [apply Hi|by left].
Qed.

Lemma pg_inv_reachable d : reachable t0 d -> inv d.
Proof.
  induction 1 as [|e d d' _ IH Hs]; [|by eapply pg_inv_step].
  constructor; simpl; [constructor|done|done|]. intros i j k (x & Hx & _). done.
Qed.
End invariant.
