(* ===== verification/PgConcurrent.v ===== *)
(** * What concurrent clients of the PostgreSQL store see

    The interleavings of [PgSchedule.v] are serializable and free of deadlocks, and so every one of them
    is an execution of the memory store. *)

From S2P Require Import Prelude Store Memory Trace MemoryInv Samples Tables Postgres PgRel PgRefine PgSchedule PgSerial.

Local Open Scope Z_scope.

Section concurrent.
Context `{!Timestamptz}.

(** C3: Concurrent transactions on databases are serializable, as long as no slot changes.  However the
    statements of any number of [Open], [Fetch], [Commit], [Changes], [Renew], [Release], [Delete] and
    sweep transactions are interleaved, and whichever of them are rolled back, the committed tables and the answers are those of the calls
    executed as single steps in the order in which they ended.  The only other answers are refusals
    that change nothing (a rollback from outside, an [Open] that lost a race against a purge, and a
    lease update that lost one against a new database) and those of [Changes], whose three queries
    see the tables after three increasing parts of that order.  (Together with claims of slots, an
    [Open] is not serializable: [late_open_not_serial] in [SlotSamples.v].) *)
Theorem transactions_serializable (t0 : Tables) (d : pgstate) :
  reachable t0 d -> serial t0 (log d) (committed d).
Proof. intros Hd. apply (pg_inv_reachable t0 d Hd). Qed.

(** A query without a lock never waits. *)
Lemma reading_runs t0 d i x l :
  running d !! i = Some x -> reading_ok t0 l x -> exists d', db_step (Exec i) d = Some d'.
Proof.
  intros Hx (Hl & Hd & k & from & ts & Hc & _ & Hp). unfold db_step. rewrite Hx. simpl. unfold exec. rewrite Hl.
  pose proof (replay_reads _ ts (changes_reads k from)) as Hr. rewrite <- Hc, <- Hp in Hr.
  destruct (tx_prog x) as [a|e|B s next]; [done|done|]. destruct Hr as [Hs _].
  destruct (read_runs s (blocked i (call_key (tx_call x)) d) (committed d) Hs) as (a & Hf & _).
  rewrite Hf. simpl. by eauto.
Qed.

(** Transactions never deadlock.  While any transaction is running, the next statement or the commit of
    at least one of them can be executed. *)
Theorem transactions_progress (t0 : Tables) (d : pgstate) :
  reachable t0 d -> running d <> ∅ ->
  exists i d', db_step (Exec i) d = Some d' \/ db_step (CommitTx i) d = Some d'.
Proof.
  intros Hd Hne. pose proof (pg_inv_reachable t0 d Hd) as Hi.
  destruct (decide (map_Forall (fun _ x => tx_local x = None) (running d))) as [Hfree|Hlock].
  - destruct (map_choose _ Hne) as (i & x & Hx).
    destruct (inv_running t0 d Hi i x Hx) as [[Hc Hok]|Hr]; [|exists i; destruct (reading_runs t0 d i x _ Hx Hr); eauto].
    rewrite (Hfree i x Hx) in Hok. assert (blocked i (call_key (tx_call x)) d = false) as Hb.
    { apply not_true_iff_false. unfold blocked. rewrite existsb_exists. intros ([j y] & Hin & Hy).
      apply list_elem_of_In, elem_of_map_to_list in Hin. simpl in Hy. rewrite (Hfree j y Hin) in Hy.
      rewrite (bool_decide_eq_false_2 (is_Some _)) in Hy by (by intros []). by rewrite andb_false_r in Hy. }
    exists i. unfold db_step. rewrite Hx. simpl. unfold exec. rewrite (Hfree i x Hx), Hb.
    destruct (tx_prog x) as [a|e|B s next]; [by inversion Hok|by inversion Hok|].
    apply stable_inv in Hok as [_ Hruns _ _ _]. destruct (Hruns (committed d)) as [[a l] Hr]. rewrite Hr. simpl. by eauto.
  - apply map_not_Forall in Hlock as (i & x & Hx & Hl); [|apply _]. exists i.
    destruct (inv_running t0 d Hi i x Hx) as [[Hc Hok]|[Hr _]]; [|congruence]. destruct (tx_local x) as [l|] eqn:Hlx; [|done].
    destruct Hok as (_ & Hf & _). unfold db_step. rewrite Hx. simpl. unfold exec. rewrite Hlx.
    destruct (tx_prog x) as [a|e|B s next]; [by eauto|done|]. case_match; [case_match|]; by eauto.
Qed.

(** ** Composition with the memory store *)

(** The calls of the log that were not refused, with their answers; the answers to [Changes], which has
    no effect, may be those of several moments. *)
Inductive explained : list (call * reply) -> list op -> list answer -> Prop :=
| explained_nil : explained [] [] []
| explained_call l ops answers o a :
    explained l ops answers -> explained (l ++ [(Call o, Reply a)]) (ops ++ [o]) (answers ++ [a])
| explained_changes l ops answers k from a :
    explained l ops answers -> explained (l ++ [(Call (OpChanges k from), Reply (AChanges a))]) ops answers
| explained_refused l ops answers c e :
    explained l ops answers -> refused c e -> explained (l ++ [(c, error_reply c e)]) ops answers.

(** A call of the interface in the range of the refinement, whatever the state. *)
Definition in_contract (c : call) : Prop :=
  match c with
  | Call o => in_range o /\ forall s : MemStore, legal o s
  | Candidate _ _ => False
  end.

Lemma serial_refines t0 s0 n l t :
  serial t0 l t -> rel t0 s0 -> wf_store n s0 -> 0 <= n -> n + zlen l < two63 - 1 -> Forall (fun e => in_contract e.1) l ->
  exists ops answers s, explained l ops answers /\ steps ops s0 answers s /\ rel t s /\ zlen ops <= zlen l.
Proof.
  intros Hs Hr Hw Hn. induction Hs as [|l t c t' r _ IH Hstep|l t c e _ IH Href|l t k from l1 t1 l2 t2 l3 t3 _ IH]; intros Hb Hc.
  { exists [], [], s0. split_and!; [apply explained_nil|apply steps_nil|done|apply Z.le_refl]. }
  all: apply Forall_app in Hc as [Hc Hc1]; rewrite Forall_singleton in Hc1;
    rewrite zlen_app in Hb; change (zlen [_]) with 1 in Hb;
    destruct (IH ltac:(lia) Hc) as (ops & answers & s & He & Hsteps & Hrel & Hlen); rewrite zlen_app; change (zlen [_]) with 1.
  - simpl in Hc1. destruct c as [o|]; [|done]. destruct Hc1 as [Hrange Hleg]. simpl in Hstep. pose proof (zlen_nonneg ops).
    destruct (step_sim (n + zlen ops) o t s) as [Ha Hrel']; [lia|by eapply wf_steps; [|lia|zlia|]|done|done|done|].
    destruct (step o t) as [t1 a] eqn:Ht. destruct (step o s) as [s1 a'] eqn:Hss. simpl in *. simplify_eq.
    exists (ops ++ [o]), (answers ++ [a']), s1. split_and!; [by apply explained_call| |done|].
    + eapply steps_app; [done|]. econstructor; [done|done|constructor].
    + rewrite zlen_app. change (zlen [o]) with 1. lia.
  - exists ops, answers, s. split_and!; [by apply explained_refused|done|done|lia].
  - exists ops, answers, s. split_and!; [by apply explained_changes|done|done|lia].
Qed.

(** C4: Concurrent clients of the PostgreSQL store see the contract, as long as no slot changes.  In every
    interleaving of calls on databases in the range of the refinement theorem, the answers that were
    given are those of the memory store to the same calls one after the other, in the order in which
    they ended, and the committed tables hold the memory store's state.  Two kinds of answers are
    excepted: refusals that change nothing, and the answers to [Changes], whose three queries may see
    different moments.  The calls are [Open], [Fetch], [Commit], [Changes], [Renew], [Release] and
    [Delete], and not the deletion of unused databases and the calls on slots. *)
Theorem concurrent_refines_memory (ops0 : list op) (answers0 : list answer) (s0 : MemStore) (t0 : Tables) (d : pgstate) :
  steps ops0 New answers0 s0 -> rel t0 s0 -> reachable t0 d -> Forall (fun e => in_contract e.1) (log d) ->
  zlen ops0 + zlen (log d) < two63 - 1 ->
  exists ops answers s, explained (log d) ops answers /\ steps ops s0 answers s /\ rel (committed d) s.
Proof.
  intros Hs Hr Hd Hc Hb. pose proof (zlen_nonneg ops0). pose proof (zlen_nonneg (log d)).
  destruct (serial_refines t0 s0 (zlen ops0) (log d) (committed d)) as (ops & answers & s & ? & ? & ? & _); try done.
  - apply (pg_inv_reachable t0 d Hd).
  - eapply wf_reachable; [done|zlia].
  - exists ops, answers, s. by split_and!.
Qed.
End concurrent.

(** ** Two clients that race *)

Section race.
#[local] Existing Instance microseconds.

Fixpoint run_events (es : list event) (d : pgstate) : option pgstate :=
  match es with
  | [] => Some d
  | e :: es => d ← db_step e d; run_events es d
  end.

Definition start : pgstate := mkPg empty_tables ∅ [].
Definition after (es : list event) : pgstate := default start (run_events es start).

Lemma after_reachable es : reachable empty_tables (after es).
Proof.
  unfold after. destruct (run_events es start) as [d|] eqn:Hd; simpl; [|constructor].
  assert (forall es d0, reachable empty_tables d0 -> forall d, run_events es d0 = Some d -> reachable empty_tables d) as Hgen.
  { clear. intros es. induction es as [|e es IH]; intros d0 H0 d Hd; simpl in Hd; [by simplify_eq|].
    apply bind_Some in Hd as (d1 & H1 & Hd). eapply IH; [|done]. by eapply reachable_step. }
  eapply Hgen; [constructor|done].
Qed.

(** Both want to create the database; the second one waits for the first, and finds its lease. *)
Definition race_open : list event :=
  [Begin 0 (Call (OpOpen [x0a] (open_at kA x01 false 1000))); Begin 1 (Call (OpOpen [x0b] (open_at kA x02 false 1000)));
   Exec 0; Exec 1; Exec 0].
Definition race_opened : list event := race_open ++ [Exec 0; CommitTx 0; Exec 1; Exec 1].

(** Two commits on the same version. *)
Definition c1' : CommitRequest := commit_at kA x64 1 0 1 [mkBlock 0 (page x05)] 1001.
Definition race_commit : list event :=
  race_opened ++ [Begin 2 (Call (OpCommit c1)); Begin 3 (Call (OpCommit c1')); Exec 2].
Definition race_end : list event := race_commit ++ [Exec 2; Exec 2; Exec 2; Exec 2; CommitTx 2; Exec 3].

(** The answers at the end, in the order in which the calls ended. *)
Definition race_replies : list (call * reply) :=
  [(Call (OpOpen [x0a] (open_at kA x01 false 1000)),
      Reply (AOpen (Ok (mkOpenResult (mkLease (Some [x0a]) 1) (mkState 512 0 0 None) false))));
   (Call (OpOpen [x0b] (open_at kA x02 false 1000)), Reply (AOpen (Err (LeaseHeldError (1000 * Microsecond)))));
   (Call (OpCommit c1), Reply (ACommit (Ok 1)));
   (Call (OpCommit c1'), Reply (ACommit (Err (VersionConflictError 1))))].

Lemma transactions_serializable_witness :
  log (after race_end) = race_replies /\ serial empty_tables (log (after race_end)) (committed (after race_end)).
Proof.
  split; [vm_compute; reflexivity|].
  exact (transactions_serializable empty_tables (after race_end) (after_reachable race_end)).
Defined.

(** The second insert and the second commit wait for the first. *)
Lemma racing_waits : db_step (Exec 1) (after race_open) = None /\ db_step (Exec 3) (after race_commit) = None.
Proof. split; vm_compute; reflexivity. Qed.

Lemma race_running : running (after race_commit) <> ∅.
Proof.
  assert (bool_decide (is_Some (running (after race_commit) !! 2%nat)) = true) as Hr by (vm_compute; reflexivity).
  intros He. rewrite He in Hr. discriminate.
Qed.

Lemma transactions_progress_witness :
  exists i d', db_step (Exec i) (after race_commit) = Some d' \/ db_step (CommitTx i) (after race_commit) = Some d'.
Proof. exact (transactions_progress empty_tables (after race_commit) (after_reachable race_commit) race_running). Defined.

Lemma race_in_contract : Forall (fun e => in_contract e.1) (log (after race_end)).
Proof.
  replace (log (after race_end)) with race_replies by (vm_compute; reflexivity).
  repeat first [apply Forall_cons; split|apply Forall_nil; exact I]; (split; [by vm_compute|]); intros s; simpl.
  - by vm_compute.
  - by vm_compute.
  - apply wf_c. vm_compute. reflexivity.
  - apply wf_c. vm_compute. reflexivity.
Qed.

Lemma concurrent_refines_memory_witness :
  exists ops answers s, explained (log (after race_end)) ops answers /\ steps ops New answers s /\ rel (committed (after race_end)) s.
Proof.
  refine (concurrent_refines_memory [] [] New empty_tables (after race_end) (steps_nil New) rel_empty
    (after_reachable race_end) race_in_contract _). vm_compute. reflexivity.
Defined.

(** ** Change sets of several moments *)

(** After two commits, the queries of [Changes] run, and a deletion ends before the third of them. *)
Definition race_changes : list event :=
  race_opened ++ (Begin 2 (Call (OpCommit c1)) :: replicate 5 (Exec 2) ++ [CommitTx 2]) ++
  (Begin 3 (Call (OpCommit c2)) :: replicate 5 (Exec 3) ++ [CommitTx 3]) ++
  [Begin 4 (Call (OpChanges kA 1)); Exec 4; Exec 4;
   Begin 5 (Call (OpDelete (mkDeleteRequest kA true (1003 * Microsecond)))); Exec 5; Exec 5; Exec 5; Exec 5; CommitTx 5;
   Exec 4].

(** [Changes] is not serializable: the change set from version 1 to version 2 is reported as complete and
    empty, although version 2 changed page 1.  At no moment of the run is this the answer. *)
Definition wrong_set : ChangeSet := mkChangeSet 1 2 [] true.

Lemma changes_race :
  last (log (after race_changes)) = Some (Call (OpChanges kA 1), Reply (AChanges (Ok wrong_set))) /\
  Forall (fun n => Changes kA 1 (committed (after (take n race_changes))) <> Ok wrong_set) (seq 0 40).
Proof.
  split; [vm_compute; reflexivity|]. apply Forall_forall. intros n Hn He.
  assert (forallb (fun n => match Changes kA 1 (committed (after (take n race_changes))) with
    | Ok set => negb (bool_decide (ToVersion set = 2 /\ cs_Blocks set = [])) | Err _ => true end) (seq 0 40) = true)
    as Hall by (vm_compute; reflexivity).
  rewrite forallb_forall in Hall. specialize (Hall n (proj1 (list_elem_of_In _ _) Hn)). by rewrite He in Hall.
Qed.

(** ** Sweeps that collide *)

(** A candidate of a sweep that was purged since the sweep read it, for instance by the sweep of another
    server, ends [DeleteUnused] with an error: the rest of the batch is not deleted, and the slots are
    not released. *)
Lemma purged_candidate_fails cutoff k rest deleted t :
  databases t !! k = None ->
  delete_candidates cutoff (k :: rest) deleted t = (t, (deleted, Some (InternalError "no rows in result set"))).
Proof.
  intros Hk. simpl. unfold inTx, unused_tx, one, LockDatabase, reading, mbind, Tx_bind. by rewrite Hk.
Qed.
End race.
