(* ===== verification/SlotSchedule.v ===== *)
(** * Slots and concurrency: [src/internal/store/postgres/postgres.go], statement by statement

    [PgSchedule.v] interleaves the transactions on one database while the slots stay as they are.  Here
    the operations on slots run too: [ClaimSlot], [SetSlotLabel], [DeleteSlot], [GetSlot] and the
    release of unused slots at the end of [DeleteUnused], together with all transactions of
    [PgSchedule.v], whose [Open] now locks the slot.

    The statements on slots lock rows of the table [slots], for sharing or exclusively.  A statement
    that changes many rows finds them in one snapshot and then takes them one by one: it waits for a
    row that is locked, skips a row that is gone and does not see a row that is new. *)

From S2P Require Import Prelude Store Trace Tables Postgres PgSchedule.

Local Open Scope Z_scope.

#[export] Instance SlotRow_eq_dec : EqDecision SlotRow.
Proof. solve_decision. Defined.

(** ** Statements *)

Inductive sstmt : Type -> Type :=
| Plain {A} (s : stmt A) : sstmt A
| Share (owner : string) : sstmt (option SlotRow)
| LockOf (owner : string) : sstmt (option SlotRow)
| InsertOf (owner : string) (row : SlotRow) : sstmt (option SlotRow)
| UpdateOf (owner : string) (row : SlotRow) : sstmt (option SlotRow)
| LabelOf (owner subject label : string) : sstmt (option SlotRow)
| DeleteOf (owner : string) : sstmt unit
| Purge (subject : string) : sstmt (list PurgeSubjectRow)
| ReleaseSlots (cutoff : Time) : sstmt unit.

Inductive sprog (A : Type) :=
| SRet (a : A)
| SFail (e : Error)
| SDo {B} (s : sstmt B) (next : B -> sprog A).
Arguments SRet {A} a.
Arguments SFail {A} e.
Arguments SDo {A B} s next.

Fixpoint plain {A} (p : prog A) : sprog A :=
  match p with
  | Ret a => SRet a
  | Fail e => SFail e
  | Do s next => SDo (Plain s) (fun b => plain (next b))
  end.

(** ** The operations *)

(** A call, or the statement that releases the unused slots. *)
Inductive scall := On (c : call) | ReleaseUnused (cutoff : Time).

Inductive sreply := Answered (r : reply) | Released (r : result Error unit).

Definition no_row {A} : sprog A := SFail (InternalError "no rows in result set").

Section programs.
Context `{Timestamptz}.

(** The rest of [Open] does not look at the owner. *)
Definition without_owner (req : OpenRequest) : OpenRequest :=
  mkOpenRequest (or_Key req) EmptyString (or_InstanceID req) (or_PageSize req) (or_Create req) (or_Takeover req)
    (or_Resume req) (or_Now req) (or_TTL req).

Definition opened_reply (newID : bytes) (req : OpenRequest) : sprog reply :=
  plain (prog_of (Call (OpOpen newID (without_owner req)))).

Definition open_sprog (newID : bytes) (req : OpenRequest) : sprog reply :=
  if bool_decide (or_Owner req = EmptyString) then opened_reply newID req
  else SDo (Share (or_Owner req)) (fun slot =>
    match slot with
    | None => opened_reply newID req
    | Some slot =>
        if bool_decide (s_Subject slot = Subject (or_Key req)) then opened_reply newID req else SFail ErrSlotTaken
    end).

Definition claimed (row : SlotRow) (replaced : option Slot) (deleted : list Key) : sprog reply :=
  SRet (Reply (AClaimSlot (Ok (mkClaimResult (slotOf row) replaced deleted)))).

Definition claiming_row (req : ClaimRequest) : SlotRow := mkSlotRow (cl_Subject req) EmptyString (ts_column (cl_Now req)).

(** [ClaimSlot] after the purge. *)
Definition update_sprog (req : ClaimRequest) (row : SlotRow) (purged : list PurgeSubjectRow) : sprog reply :=
  SDo (UpdateOf (cl_Owner req) (claiming_row req)) (fun updated =>
    match updated with
    | None => no_row
    | Some updated => claimed updated (Some (slotOf row)) (keysOf (s_Subject row) purged)
    end).

(** [ClaimSlot] once the slot is locked. *)
Definition locked_claim (req : ClaimRequest) (row : SlotRow) : sprog reply :=
  if bool_decide (s_Subject row = cl_Subject req) then claimed row None []
  else SDo (Purge (s_Subject row)) (update_sprog req row).

Definition relock_sprog (req : ClaimRequest) : sprog reply :=
  SDo (LockOf (cl_Owner req)) (fun row => match row with None => no_row | Some row => locked_claim req row end).

Definition insert_sprog (req : ClaimRequest) : sprog reply :=
  SDo (InsertOf (cl_Owner req) (claiming_row req)) (fun row =>
    match row with Some row => claimed row None [] | None => relock_sprog req end).

Definition claim_sprog (req : ClaimRequest) : sprog reply :=
  SDo (LockOf (cl_Owner req)) (fun row => match row with Some row => locked_claim req row | None => insert_sprog req end).

Definition purge_sprog (subject : string) : sprog reply :=
  SDo (Purge subject) (fun purged => SRet (Reply (ADeleteSlot (Ok (keysOf subject purged))))).

Definition deleteSlot_sprog (owner subject : string) : sprog reply :=
  SDo (LockOf owner) (fun row =>
    match row with
    | None => purge_sprog subject
    | Some row =>
        if bool_decide (s_Subject row = subject) then SDo (DeleteOf owner) (fun _ => purge_sprog subject)
        else SFail ErrSlotTaken
    end).

Definition slot_query (owner : string) : sstmt (option SlotRow) := Plain (Read (fun t => slot_rows t !! owner)).

(** [SetSlotLabel]: an update, and a query that tells why it had no row. *)
Definition why_label (owner : string) : sprog reply :=
  SDo (slot_query owner) (fun row => match row with Some _ => SFail ErrSlotTaken | None => SFail ErrNotFound end).

Definition label_sprog (owner subject label : string) : sprog reply :=
  SDo (LabelOf owner subject label) (fun row =>
    match row with
    | Some row => SRet (Reply (ASetSlotLabel (Ok (slotOf row))))
    | None => why_label owner
    end).

Definition get_sprog (owner : string) : sprog reply :=
  SDo (slot_query owner) (fun row => SRet (Reply (AGetSlot (Ok (slotOf <$> row))))).

Fixpoint answered (p : sprog reply) : sprog sreply :=
  match p with
  | SRet a => SRet (Answered a)
  | SFail e => SFail e
  | SDo s next => SDo s (fun b => answered (next b))
  end.

Definition sprog_of (c : scall) : sprog sreply :=
  match c with
  | On (Call (OpOpen newID req)) => answered (open_sprog newID req)
  | On (Call (OpGetSlot owner)) => answered (get_sprog owner)
  | On (Call (OpClaimSlot req)) => answered (claim_sprog req)
  | On (Call (OpSetSlotLabel owner subject label)) => answered (label_sprog owner subject label)
  | On (Call (OpDeleteSlot owner subject)) => answered (deleteSlot_sprog owner subject)
  | On c => answered (plain (prog_of c))
  | ReleaseUnused cutoff => SDo (ReleaseSlots (ts_column cutoff)) (fun _ => SRet (Released (Ok tt)))
  end.

Definition serror_reply (c : scall) (e : Error) : sreply :=
  match c with
  | On (Call (OpGetSlot _)) => Answered (Reply (AGetSlot (Err e)))
  | On (Call (OpClaimSlot _)) => Answered (Reply (AClaimSlot (Err e)))
  | On (Call (OpSetSlotLabel _ _ _)) => Answered (Reply (ASetSlotLabel (Err e)))
  | On (Call (OpDeleteSlot _ _)) => Answered (Reply (ADeleteSlot (Err e)))
  | On c => Answered (error_reply c e)
  | ReleaseUnused _ => Released (Err e)
  end.

(** As in [PgSchedule.v], the strings of a call are text. *)
Definition ssupported (c : scall) : bool :=
  match c with
  | On (Call ((OpGetSlot _ | OpClaimSlot _ | OpSetSlotLabel _ _ _ | OpDeleteSlot _ _) as o)) =>
      forallb text_ok (op_texts o)
  | On c => supported c
  | ReleaseUnused _ => true
  end.

Definition scall_key (c : scall) : Key :=
  match c with On c => call_key c | ReleaseUnused _ => mkKey EmptyString EmptyString end.

(** ** Sessions *)

(** How far a statement on many rows is: the rows of the snapshot that are left.  A row of a database is
    known by its key and a number that tells it from the rows that had the key before. *)
Inductive scan_state :=
| Purging (subject : string) (left : list (Key * nat)) (done : list PurgeSubjectRow)
| Releasing (snapshot : Tables) (left : list string).

(** What a transaction has locked: rows of databases; a slot for sharing; slots.  [own] are the tables as
    it has written them, which count where it has a lock.  A transaction has at most one statement on
    many rows, whose progress is [scan]. *)
Record session := mkSession {
  scan : option scan_state;
  rows_held : gset Key;
  shared : option string;
  slots_held : gset string;
  own : Tables }.

Definition fresh_session : session := mkSession None ∅ None ∅ empty_tables.

(** The tables [t] with the rows of the databases [ks] and of the slots [os] taken from [l]. *)
Definition overlay (ks : gset Key) (os : gset string) (l t : Tables) : Tables :=
  mkTables
    (filter (fun e => e.1 ∈ ks) (databases l) ∪ filter (fun e => e.1 ∉ ks) (databases t))
    (filter (fun e => e.1.1.1 ∈ ks) (block_parts l) ∪ filter (fun e => e.1.1.1 ∉ ks) (block_parts t))
    (filter (fun e => e.1.1 ∈ ks) (change_log l) ∪ filter (fun e => e.1.1 ∉ ks) (change_log t))
    (filter (fun e => e.1 ∈ os) (slot_rows l) ∪ filter (fun e => e.1 ∉ os) (slot_rows t)).

Definition view (x : session) (t : Tables) : Tables := overlay (rows_held x) (slots_held x) (own x) t.

Definition hold_row (k : Key) (l : Tables) (x : session) : session :=
  mkSession (scan x) ({[k]} ∪ rows_held x) (shared x) (slots_held x) l.
Definition share_slot_row (o : string) (x : session) : session :=
  mkSession (scan x) (rows_held x) (Some o) (slots_held x) (own x).
Definition hold_slot (o : string) (r : option SlotRow) (x : session) : session :=
  mkSession (scan x) (rows_held x) (shared x) ({[o]} ∪ slots_held x)
    (set_slots (partial_alter (fun _ => r) o (slot_rows (own x))) (own x)).
Definition scanning (s : scan_state) (x : session) : session :=
  mkSession (Some s) (rows_held x) (shared x) (slots_held x) (own x).
Definition purge_row (k : Key) (x : session) : session :=
  mkSession (scan x) ({[k]} ∪ rows_held x) (shared x) (slots_held x) (delete_databases (fun k' => k' = k) (own x)).

Record stransaction := mkSTx { st_call : scall; st_prog : sprog sreply; st_session : session }.

(** A call that has ended, with its answer and the slot that it had locked for sharing. *)
Record ended := mkEnded { e_call : scall; e_reply : sreply; e_shared : option string }.

(** [births] counts how often a row of a database was created under a key. *)
Record slotstate := mkSlots {
  s_committed : Tables;
  births : gmap Key nat;
  s_running : gmap nat stransaction;
  s_log : list ended }.

Definition birth (d : slotstate) (k : Key) : nat := default O (births d !! k).

(** ** Locks *)

Definition other (i : nat) (P : session -> bool) (d : slotstate) : bool :=
  existsb (fun e => negb (bool_decide (e.1 = i)) && P (st_session e.2)) (map_to_list (s_running d)).

Definition row_locked (i : nat) (k : Key) : slotstate -> bool := other i (fun x => bool_decide (k ∈ rows_held x)).
Definition slot_locked (i : nat) (o : string) : slotstate -> bool := other i (fun x => bool_decide (o ∈ slots_held x)).
Definition slot_shared (i : nat) (o : string) : slotstate -> bool := other i (fun x => bool_decide (shared x = Some o)).
(** Another transaction has changed the slot. *)
Definition slot_dirty (i : nat) (o : string) (d : slotstate) : bool :=
  other i (fun x => bool_decide (o ∈ slots_held x) &&
                    negb (bool_decide (slot_rows (own x) !! o = slot_rows (s_committed d) !! o))) d.

(** A statement that changes the row of a slot has to wait. *)
Definition slot_waits (i : nat) (o : string) (x : session) (d : slotstate) : bool :=
  negb (bool_decide (o ∈ slots_held x)) && (slot_locked i o d || slot_shared i o d).

(** ** Execution of a statement *)

Inductive attempted (A : Type) :=
| Waiting
| Partial (x : session)
| Finished (a : A) (x : session)
| Failed (e : Error).
Arguments Waiting {A}.
Arguments Partial {A} x.
Arguments Finished {A} a x.
Arguments Failed {A} e.

Definition by_rank (r : Key -> Z) (a b : Key * nat) : Prop := r a.1 <= r b.1.
#[local] Instance by_rank_dec r a b : Decision (by_rank r a b).
Proof. unfold by_rank. apply _. Defined.

Definition by_slot_rank (r : string -> Z) (a b : string) : Prop := r a <= r b.
#[local] Instance by_slot_rank_dec r a b : Decision (by_slot_rank r a b).
Proof. unfold by_slot_rank. apply _. Defined.

(** The order in which a scan meets the rows, which PostgreSQL does not document: any, and another one for
    each transaction and at each time. *)
Variable rank : nat -> slotstate -> Key -> Z.
Variable slot_rank : nat -> slotstate -> string -> Z.

(** The rows of a subject in the committed tables. *)
Definition subject_rows (i : nat) (subject : string) (d : slotstate) : list (Key * nat) :=
  merge_sort (by_rank (rank i d))
    ((fun k => (k, birth d k)) <$> filter (fun k => Subject k = subject) (elements (dom (databases (s_committed d))))).

Definition releasable (cutoff : Time) (snapshot : Tables) (row : SlotRow) : bool :=
  (s_ClaimedAt row <? cutoff) && negb (has_live (s_Subject row) snapshot).

Definition unused_slots (i : nat) (cutoff : Time) (d : slotstate) : list string :=
  merge_sort (by_slot_rank (slot_rank i d))
    ((fun e => e.1) <$> filter (fun e => releasable cutoff (s_committed d) e.2 = true) (map_to_list (slot_rows (s_committed d)))).

(** The next row of [DELETE FROM databases WHERE subject = $1 RETURNING db_id, deleted]. *)
Definition attempt_purge (i : nat) (subject : string) (x : session) (d : slotstate) : attempted (list PurgeSubjectRow) :=
  match scan x with
  | Some (Purging _ [] acc) => Finished acc x
  | Some (Purging _ ((k, b) :: rest) acc) =>
      match databases (s_committed d) !! k with
      | Some row =>
          if negb (Nat.eqb (birth d k) b) then Partial (scanning (Purging subject rest acc) x)
          else if row_locked i k d then Waiting
          else Partial (scanning (Purging subject rest (acc ++ [mkPurgeRow (DBID k) (d_Deleted row)])) (purge_row k x))
      | None => Partial (scanning (Purging subject rest acc) x)
      end
  | _ => Partial (scanning (Purging subject (subject_rows i subject d) []) x)
  end.

(** The next row of [ReleaseUnusedSlots]; a row that was changed since the snapshot is compared again with the
    condition, the databases being those of the snapshot. *)
Definition attempt_release (i : nat) (cutoff : Time) (x : session) (d : slotstate) : attempted unit :=
  match scan x with
  | Some (Releasing _ []) => Finished tt x
  | Some (Releasing snapshot (o :: rest)) =>
      match slot_rows (s_committed d) !! o with
      | Some row =>
          if slot_locked i o d || slot_shared i o d then Waiting
          else if releasable cutoff snapshot row then Partial (scanning (Releasing snapshot rest) (hold_slot o None x))
          else Partial (scanning (Releasing snapshot rest) x)
      | None => Partial (scanning (Releasing snapshot rest) x)
      end
  | _ => Partial (scanning (Releasing (s_committed d) (unused_slots i cutoff d)) x)
  end.

Definition attempt_plain {A} (i : nat) (k : Key) (s : stmt A) (x : session) (d : slotstate) : attempted A :=
  if decide (k ∈ rows_held x) then
    match stmt_tx s (view x (s_committed d)) with Ok (a, l) => Finished a (hold_row k l x) | Err e => Failed e end
  else
    match exec_free (row_locked i k d) s (view x (s_committed d)) with
    | None => Waiting
    | Some (a, None) => Finished a x
    | Some (a, Some l) => Finished a (hold_row k l x)
    end.

Definition attempt {A} (i : nat) (k : Key) (s : sstmt A) (x : session) (d : slotstate) : attempted A :=
  let slots := slot_rows (s_committed d) in
  match s in sstmt A return attempted A with
  | Plain s => attempt_plain i k s x d
  | Share o =>
      match slots !! o with
      | None => Finished None x
      | Some row => if slot_locked i o d then Waiting else Finished (Some row) (share_slot_row o x)
      end
  | LockOf o =>
      match slots !! o with
      | None => Finished None x
      | Some row => if slot_waits i o x d then Waiting else Finished (Some row) (hold_slot o (Some row) x)
      end
  | InsertOf o row =>
      match slots !! o with
      | None => if slot_locked i o d then Waiting else Finished (Some row) (hold_slot o (Some row) x)
      | Some _ => if slot_dirty i o d then Waiting else Finished None x
      end
  | UpdateOf o row =>
      match slot_rows (view x (s_committed d)) !! o with
      | None => Finished None x
      | Some _ => if slot_waits i o x d then Waiting else Finished (Some row) (hold_slot o (Some row) x)
      end
  | LabelOf o subject label =>
      match slots !! o with
      | None => Finished None x
      | Some row =>
          if bool_decide (s_Subject row = subject) then
            if slot_waits i o x d then Waiting
            else let row := mkSlotRow (s_Subject row) label (s_ClaimedAt row) in
                 Finished (Some row) (hold_slot o (Some row) x)
          else Finished None x
      end
  | DeleteOf o =>
      match slots !! o with
      | None => Finished tt x
      | Some _ => if slot_waits i o x d then Waiting else Finished tt (hold_slot o None x)
      end
  | Purge subject => attempt_purge i subject x d
  | ReleaseSlots cutoff => attempt_release i cutoff x d
  end.

(** ** Steps *)

Inductive sevent := SBegin (i : nat) (c : scall) | SExec (i : nat) | SCommit (i : nat) | SCancel (i : nat).

Definition set_running (m : gmap nat stransaction) (d : slotstate) : slotstate :=
  mkSlots (s_committed d) (births d) m (s_log d).

(** A transaction ends without a commit. *)
Definition give_back (i : nat) (x : stransaction) (e : Error) (d : slotstate) : slotstate :=
  mkSlots (s_committed d) (births d) (delete i (s_running d))
    (s_log d ++ [mkEnded (st_call x) (serror_reply (st_call x) e) (shared (st_session x))]).

(** The rest of a program and its session after one step of its next statement; [None]: it waits. *)
Definition advance (i : nat) (x : stransaction) (d : slotstate) : option (sprog sreply * session) :=
  match st_prog x with
  | SDo s next =>
      match attempt i (scall_key (st_call x)) s (st_session x) d with
      | Waiting => None
      | Partial y => Some (SDo s next, y)
      | Finished a y => Some (next a, y)
      | Failed e => Some (SFail e, st_session x)
      end
  | _ => None
  end.

(** An error ends the transaction. *)
Definition go_on (i : nat) (x : stransaction) (p : sprog sreply) (y : session) (d : slotstate) : slotstate :=
  match p with
  | SFail e => give_back i x e d
  | _ => set_running (<[i := mkSTx (st_call x) p y]> (s_running d)) d
  end.

(** The rows that come to exist with a commit. *)
Definition reborn (t t' : Tables) (b : gmap Key nat) : gmap Key nat :=
  map_imap (fun k _ => Some (S (default O (b !! k)))) (databases t' ∖ databases t) ∪ b.

Definition commit_session (i : nat) (x : stransaction) (a : sreply) (d : slotstate) : slotstate :=
  let t := view (st_session x) (s_committed d) in
  mkSlots t (reborn (s_committed d) t (births d)) (delete i (s_running d))
    (s_log d ++ [mkEnded (st_call x) a (shared (st_session x))]).

Definition s_step (e : sevent) (d : slotstate) : option slotstate :=
  match e with
  | SBegin i c =>
      if ssupported c && bool_decide (s_running d !! i = None) then
        Some (go_on i (mkSTx c (sprog_of c) fresh_session) (sprog_of c) fresh_session d)
      else None
  | SExec i => x ← s_running d !! i; '(p, y) ← advance i x d; Some (go_on i x p y d)
  | SCommit i =>
      x ← s_running d !! i;
      match st_prog x with SRet a => Some (commit_session i x a d) | _ => None end
  | SCancel i => x ← s_running d !! i; Some (give_back i x rolled_back d)
  end.

Definition s_next (d d' : slotstate) : Prop := exists e, s_step e d = Some d'.

Definition s_start (t : Tables) : slotstate := mkSlots t ∅ ∅ [].

(** The states that interleavings reach. *)
Definition s_reachable (t : Tables) (d : slotstate) : Prop := rtc s_next (s_start t) d.
End programs.
Arguments Waiting {A}.
Arguments Partial {A} x.
Arguments Finished {A} a x.
Arguments Failed {A} e.
