(* ===== verification/SlotSerial.v ===== *)
(** * The programs of [SlotSchedule.v] without interruption

    Run alone, the statement by statement programs on slots are the operations of [Postgres.v]. *)

From S2P Require Import Prelude Store Trace Tables Postgres PgSchedule PgSerial SlotSchedule.

Local Open Scope Z_scope.

(** ** Programs without interruption *)

Section serial.
Context `{!Timestamptz}.

Definition sstmt_tx {A} (s : sstmt A) : Tx A :=
  match s with
  | Plain s => stmt_tx s
  | Share o => ShareSlot o
  | LockOf o => LockSlot o
  | InsertOf o r => InsertSlot o (s_Subject r) (s_Label r) (s_ClaimedAt r)
  | UpdateOf o r => UpdateSlot o (s_Subject r) (s_Label r) (s_ClaimedAt r)
  | LabelOf o subject label => Tables.SetSlotLabel o subject label
  | DeleteOf o => DeleteSlotOf o
  | Purge subject => PurgeSubject subject
  | ReleaseSlots cutoff => ReleaseUnusedSlots cutoff
  end.

Fixpoint sdenote {A} (p : sprog A) : Tx A :=
  match p with
  | SRet a => mret a
  | SFail e => fail e
  | SDo s next => r ← sstmt_tx s; sdenote (next r)
  end.

Lemma sdenote_plain {A} (p : prog A) t : sdenote (plain p) t = denote p t.
Proof.
  revert t. induction p as [a|e|B s next IH]; intros t; [done|done|]. simpl. unfold mbind, Tx_bind.
  destruct (stmt_tx s t) as [[b u]|]; [apply IH|done].
Qed.

Lemma sdenote_answered p t : sdenote (answered p) t = (r ← sdenote p; mret (Answered r)) t.
Proof.
  revert t. induction p as [a|e|B s next IH]; intros t; [done|done|]. simpl. unfold mbind, Tx_bind in *.
  destruct (sstmt_tx s t) as [[b u]|]; [apply IH|done].
Qed.

Definition slot_call (o : op) : bool :=
  match o with OpOpen _ _ | OpGetSlot _ | OpClaimSlot _ | OpSetSlotLabel _ _ _ | OpDeleteSlot _ _ => true | _ => false end.

Lemma sdenote_open newID req t :
  texts (op_texts (OpOpen newID req)) ->
  sdenote (open_sprog newID req) t = (r ← open_tx newID req; mret (Reply (AOpen (Ok r)))) t.
Proof.
  intros [Ho Hk]%texts_cons. assert (forall u, sdenote (opened_reply newID req) u =
    (r ← open_tx newID (without_owner req); mret (Reply (AOpen (Ok r)))) u) as Hrest.
  { intros u. unfold opened_reply. rewrite sdenote_plain. cbn [prog_of]. rewrite denote_bind. apply tx_bind_cong; [by apply denote_open|done]. }
  assert (forall u, open_tx newID req u = (_ ← share_slot req; open_tx newID (without_owner req)) u) as Hsplit.
  { intros u. unfold open_tx at 1. unfold mbind, Tx_bind. destruct (share_slot req u) as [[[] v]|]; [|done]. reflexivity. }
  unfold mbind, Tx_bind. rewrite Hsplit. unfold mbind, Tx_bind, share_slot, open_sprog in *.
  destruct (bool_decide (or_Owner req = EmptyString)); simpl; [apply Hrest|].
  unfold mbind, Tx_bind. rewrite with_text_ok by done. unfold ShareSlot, reading. destruct (slot_rows t !! or_Owner req) as [slot|]; [|apply Hrest].
  destruct (bool_decide _); [apply Hrest|done].
Qed.

(** The programs on slots are the operations of [Postgres.v]. *)
Lemma slot_programs_serial o t : slot_call o = true -> texts (op_texts o) ->
  match inTx (sdenote (sprog_of (On (Call o)))) t with
  | (t', Ok a) => (t', a)
  | (t', Err e) => (t', serror_reply (On (Call o)) e)
  end = let '(t', a) := step o t in (t', Answered (Reply a)).
Proof.
  intros Ho Htx. destruct o as [newID req|k v f n|req|k v|k e now ttl|k e|req|order cut lim|o|req|o s l|o s]; try done;
    cbn [sprog_of]; unfold inTx; rewrite sdenote_answered; clear Ho.
  - unfold mbind, Tx_bind. rewrite sdenote_open by done. unfold mbind, Tx_bind. simpl. unfold Open, inTx. by destruct (open_tx newID req t) as [[r u]|].
  - cbn [step st_GetSlot Tables_api]. unfold GetSlot. by rewrite inTx_text.
  - cbn [step st_ClaimSlot Tables_api]. unfold ClaimSlot. rewrite inTx_text by done. simpl. unfold inTx, claim_tx, lock_or_insert, claim_sprog, insert_sprog, LockSlot, reading. unfold mbind, Tx_bind. simpl.
    unfold mbind, Tx_bind. destruct (slot_rows t !! cl_Owner req) as [row|] eqn:Hrow; simpl.
    + unfold locked_claim. destruct (bool_decide _); [done|]. simpl. unfold mbind, Tx_bind, UpdateSlot, one, mbind, Tx_bind. simpl. by rewrite Hrow.
    + unfold mbind, Tx_bind, InsertSlot. rewrite Hrow. reflexivity.
  - assert (forall r : option SlotRow, slot_rows t !! o = r -> GetSlot o t = Ok (slotOf <$> r)) as Hget.
    { intros r Hr. unfold GetSlot. rewrite inTx_text by (by apply texts_cons in Htx as [? _]).
      unfold inTx, Tables.GetSlot, reading. by rewrite Hr. }
    assert (forall r : option SlotRow, slot_rows t !! o = r ->
      sdenote (why_label o) t = Err (match r with Some _ => ErrSlotTaken | None => ErrNotFound end)) as Hwhy.
    { intros r Hr. simpl. unfold mbind, Tx_bind, reading. rewrite Hr. by destruct r. }
    cbn [step st_SetSlotLabel Tables_api]. unfold SetSlotLabel. rewrite inTx_text by done. simpl. unfold inTx, mbind, Tx_bind, Tables.SetSlotLabel.
    destruct (slot_rows t !! o) as [row|]; [destruct (decide (s_Subject row = s)); [done|]|]; by rewrite (Hget _ eq_refl), (Hwhy _ eq_refl).
  - apply texts_cons in Htx as [Ho Hs]. cbn [step st_DeleteSlot Tables_api]. unfold DeleteSlot. rewrite inTx_text by done.
    simpl. unfold deleteSlot_sprog, inTx, delete_slot_tx, LockSlot, reading. simpl. unfold mbind, Tx_bind.
    destruct (slot_rows t !! o) as [row|]; [destruct (bool_decide _)|]; simpl; unfold mbind, Tx_bind; simpl;
      rewrite ?with_text_ok by done; done.
Qed.
End serial.
