(* ===== verification/SlotFacts.v ===== *)
(** * What the locks of [SlotSchedule.v] guarantee

    The invariant of the interleavings: locks exclude each other, a row that is locked exists or is being
    created by an [Open], and a purge that has taken its snapshot misses only rows that an [Open]
    committed afterwards. *)

From S2P Require Import Prelude Store Trace Tables Postgres PgSchedule SlotSchedule.

Local Open Scope Z_scope.

(** An element of a list that is written out. *)
Ltac claim_cases :=
  repeat match goal with
    | H : _ ∈ _ :: _ |- _ => apply elem_of_cons in H as [->|H]
    | H : _ ∈ [] |- _ => by apply elem_of_nil in H
    end.

(** ** Tables *)

Lemma overlay_map {K A} `{Countable K} (P : K -> Prop) `{!forall k, Decision (P k)} (l t : gmap K A) (k : K) :
  (filter (fun e => P e.1) l ∪ filter (fun e => ~ P e.1) t) !! k = if decide (P k) then l !! k else t !! k.
Proof.
  rewrite lookup_union, !map_lookup_filter. simpl. destruct (decide (P k)) as [Hp|Hp].
  - destruct (l !! k); simpl; rewrite ?option_guard_True by done; destruct (t !! k); simpl; rewrite ?option_guard_False by tauto; done.
  - destruct (l !! k); simpl; rewrite ?option_guard_False by done; destruct (t !! k); simpl; rewrite ?option_guard_True by tauto; done.
Qed.

Lemma view_row x t k : databases (view x t) !! k = if decide (k ∈ rows_held x) then databases (own x) !! k else databases t !! k.
Proof. exact (overlay_map (fun k => k ∈ rows_held x) (databases (own x)) (databases t) k). Qed.

Lemma view_slot x t o : slot_rows (view x t) !! o = if decide (o ∈ slots_held x) then slot_rows (own x) !! o else slot_rows t !! o.
Proof. exact (overlay_map (fun o => o ∈ slots_held x) (slot_rows (own x)) (slot_rows t) o). Qed.

(** ** Locks *)

Lemma other_false i P d :
  other i P d = false <-> forall j y, s_running d !! j = Some y -> P (st_session y) = true -> j = i.
Proof.
  unfold other. rewrite <- not_true_iff_false, existsb_exists. split.
  - intros Hn j y Hj Hp. destruct (decide (j = i)) as [|Hne]; [done|]. destruct Hn. exists (j, y).
    split; [by apply list_elem_of_In, elem_of_map_to_list|]. simpl. by rewrite bool_decide_eq_false_2, Hp.
  - intros Hall ([j y] & Hin%list_elem_of_In%elem_of_map_to_list & Hb). simpl in Hb.
    apply andb_true_iff in Hb as [Hi Hp]. apply negb_true_iff, bool_decide_eq_false in Hi. by apply Hi, (Hall j y).
Qed.

Section facts.
Context `{!Timestamptz}.
Variable rank : nat -> slotstate -> Key -> Z.
Variable slot_rank : nat -> slotstate -> string -> Z.
#[local] Abbreviation attempt := (attempt rank slot_rank).
#[local] Abbreviation advance := (advance rank slot_rank).
#[local] Abbreviation s_step := (s_step rank slot_rank).
#[local] Abbreviation s_next := (s_next rank slot_rank).
#[local] Abbreviation s_reachable := (s_reachable rank slot_rank).

(** What a step of a statement does to the session. *)
Definition leads {A} (r : attempted A) (y : session) : Prop := r = Partial y \/ exists a, r = Finished a y.

(** A session only gains locks, and only those that no other transaction has. *)
Record gains (i : nat) (d : slotstate) (x y : session) : Prop := {
  gain_rows : forall k, k ∈ rows_held y -> k ∈ rows_held x \/ row_locked i k d = false;
  gain_slots : forall o, o ∈ slots_held y ->
    o ∈ slots_held x \/ slot_locked i o d = false /\ (slot_shared i o d = false \/ slot_rows (s_committed d) !! o = None);
  gain_shared : forall o, shared y = Some o ->
    shared x = Some o \/ slot_locked i o d = false /\ is_Some (slot_rows (s_committed d) !! o);
  keep_rows : rows_held x ⊆ rows_held y;
  keep_slots : slots_held x ⊆ slots_held y }.

Lemma gains_same i d x y :
  rows_held y = rows_held x -> slots_held y = slots_held x -> shared y = shared x -> gains i d x y.
Proof. intros Hr Hs Hsh. constructor; rewrite ?Hr, ?Hs, ?Hsh; auto. Qed.

Lemma gains_row i d x y k :
  rows_held y = {[k]} ∪ rows_held x -> slots_held y = slots_held x -> shared y = shared x ->
  k ∈ rows_held x \/ row_locked i k d = false -> gains i d x y.
Proof.
  intros Hr Hs Hsh Hk. constructor; rewrite ?Hr, ?Hs, ?Hsh; auto; [|set_solver].
  intros k' [->%elem_of_singleton|?]%elem_of_union; auto.
Qed.

Lemma gains_slot i d x y o :
  rows_held y = rows_held x -> slots_held y = {[o]} ∪ slots_held x -> shared y = shared x ->
  o ∈ slots_held x \/ slot_locked i o d = false /\ (slot_shared i o d = false \/ slot_rows (s_committed d) !! o = None) ->
  gains i d x y.
Proof.
  intros Hr Hs Hsh Hk. constructor; rewrite ?Hr, ?Hs, ?Hsh; auto; [|set_solver].
  intros o' [->%elem_of_singleton|?]%elem_of_union; auto.
Qed.

Lemma slot_waits_false i o x d :
  slot_waits i o x d = false ->
  o ∈ slots_held x \/ slot_locked i o d = false /\ (slot_shared i o d = false \/ slot_rows (s_committed d) !! o = None).
Proof.
  unfold slot_waits. intros [Hh%negb_false_iff%bool_decide_eq_true|[??]%orb_false_iff]%andb_false_iff; auto.
Qed.

(** A statement that locks the row has not been waiting. *)
Lemma exec_free_lock {A} wait (s : stmt A) t a l : exec_free wait s t = Some (a, Some l) -> wait = false.
Proof.
  destruct s; simpl; intros He; repeat case_match; simplify_eq; done.
Qed.

Lemma attempt_gains {A} i k (s : sstmt A) x d y : leads (attempt i k s x d) y -> gains i d x y.
Proof.
  unfold leads. destruct s as [A s|o|o|o r|o r|o sub lab|o|sub|cut]; cbn [SlotSchedule.attempt].
  - unfold attempt_plain. intros [Hl|[a Hl]]; repeat case_match; simplify_eq.
    + by apply gains_row with k; auto.
    + apply gains_row with k; auto. right. by eapply exec_free_lock.
    + by apply gains_same.
  - intros [Hl|[a Hl]]; repeat case_match; simplify_eq; [|by apply gains_same].
    constructor; simpl; auto. intros o' [= <-]. right. split; [done|by eexists].
  - intros [Hl|[a Hl]]; repeat case_match; simplify_eq; [|by apply gains_same].
    apply gains_slot with o; auto. by apply slot_waits_false.
  - intros [Hl|[a Hl]]; repeat case_match; simplify_eq; [by apply gains_same|]. apply gains_slot with o; auto.
  - intros [Hl|[a Hl]]; repeat case_match; simplify_eq; [|by apply gains_same].
    apply gains_slot with o; auto. by apply slot_waits_false.
  - intros [Hl|[a Hl]]; repeat case_match; simplify_eq; try by apply gains_same.
    apply gains_slot with o; auto. by apply slot_waits_false.
  - intros [Hl|[a Hl]]; repeat case_match; simplify_eq; [|by apply gains_same].
    apply gains_slot with o; auto. by apply slot_waits_false.
  - unfold attempt_purge. intros [Hl|[a Hl]]; repeat case_match; simplify_eq; try by apply gains_same.
    by eapply gains_row with _; auto.
  - unfold attempt_release. intros [Hl|[a Hl]]; repeat case_match; simplify_eq; try by apply gains_same.
    match goal with Hb : _ || _ = false |- _ => apply orb_false_iff in Hb as [??] end.
    eapply gains_slot; [done|done|done|auto].
Qed.

(** ** Steps *)

Inductive change (d : slotstate) : slotstate -> Prop :=
| change_begin i c :
    s_running d !! i = None -> ssupported c = true -> (forall e, sprog_of c <> SFail e) ->
    change d (set_running (<[i := mkSTx c (sprog_of c) fresh_session]> (s_running d)) d)
| change_exec i x p y :
    s_running d !! i = Some x -> advance i x d = Some (p, y) -> (forall e, p <> SFail e) ->
    change d (set_running (<[i := mkSTx (st_call x) p y]> (s_running d)) d)
| change_end i x e : change d (give_back i x e d)
| change_commit i x a :
    s_running d !! i = Some x -> st_prog x = SRet a -> change d (commit_session i x a d).

Lemma step_changes d d' : s_next d d' -> change d d'.
Proof.
  intros [[i c|i|i|i] He]; simpl in He.
  - destruct (ssupported c && bool_decide (s_running d !! i = None)) eqn:Hc; [|done]. injection He as <-.
    apply andb_true_iff in Hc as [Hc Hn%bool_decide_eq_true]. unfold go_on.
    destruct (sprog_of c) as [a|e|B s next] eqn:Hp; [|apply change_end|]; rewrite <- Hp; (apply change_begin; [done|done|by rewrite Hp]).
  - apply bind_Some in He as (x & Hx & He). apply bind_Some in He as ([p y] & Ha & He). injection He as <-. unfold go_on.
    destruct p; [by eapply change_exec|apply change_end|by eapply change_exec].
  - apply bind_Some in He as (x & Hx & He). destruct (st_prog x) eqn:Hp; [|done|done]. injection He as <-. by apply change_commit.
  - apply bind_Some in He as (x & Hx & He). injection He as <-. apply change_end.
Qed.

Lemma advance_leads i x d p y :
  advance i x d = Some (p, y) -> y = st_session x \/
  exists B (s : sstmt B) next, st_prog x = SDo s next /\ leads (attempt i (scall_key (st_call x)) s (st_session x) d) y.
Proof.
  unfold SlotSchedule.advance. destruct (st_prog x) as [a|e|B s next] eqn:Hp; [done|done|].
  destruct (attempt _ _ s _ d) as [|y'|a y'|e] eqn:Ha; intros He; simplify_eq; [right|right|by left];
    exists B, s, next; (split; [done|]); rewrite Ha; unfold leads; eauto.
Qed.

Lemma advance_gains i x d p y : advance i x d = Some (p, y) -> gains i d (st_session x) y.
Proof.
  intros [->|(B & s & next & _ & Hl)]%advance_leads; [by apply gains_same|by eapply attempt_gains].
Qed.

(** ** Locks exclude each other *)

Record locks (d : slotstate) : Prop := {
  rows_apart : forall i j x y k, s_running d !! i = Some x -> s_running d !! j = Some y ->
    k ∈ rows_held (st_session x) -> k ∈ rows_held (st_session y) -> i = j;
  slots_apart : forall i j x y o, s_running d !! i = Some x -> s_running d !! j = Some y ->
    o ∈ slots_held (st_session x) -> o ∈ slots_held (st_session y) -> i = j;
  shares_apart : forall i j x y o, s_running d !! i = Some x -> s_running d !! j = Some y ->
    o ∈ slots_held (st_session x) -> shared (st_session y) = Some o -> i = j;
  shares_exist : forall i x o, s_running d !! i = Some x -> shared (st_session x) = Some o ->
    is_Some (slot_rows (s_committed d) !! o) }.

Lemma unlocked_row i k d j y : row_locked i k d = false -> s_running d !! j = Some y -> k ∈ rows_held (st_session y) -> j = i.
Proof. intros Hf Hj Hk. apply (proj1 (other_false _ _ _) Hf j y Hj). by apply bool_decide_eq_true. Qed.

Lemma unlocked_slot i o d j y : slot_locked i o d = false -> s_running d !! j = Some y -> o ∈ slots_held (st_session y) -> j = i.
Proof. intros Hf Hj Hk. apply (proj1 (other_false _ _ _) Hf j y Hj). by apply bool_decide_eq_true. Qed.

Lemma unshared_slot i o d j y : slot_shared i o d = false -> s_running d !! j = Some y -> shared (st_session y) = Some o -> j = i.
Proof. intros Hf Hj Hk. apply (proj1 (other_false _ _ _) Hf j y Hj). by apply bool_decide_eq_true. Qed.

(** One session is replaced by one with more locks. *)
Lemma locks_gain d i x y c p :
  locks d -> gains i d x y -> (forall z, s_running d !! i = Some z -> st_session z = x) ->
  (s_running d !! i = None -> x = fresh_session) ->
  locks (set_running (<[i := mkSTx c p y]> (s_running d)) d).
Proof.
  intros [Hr Hs Hsh He] [Gr Gs Gsh _ _] Hold Hnew.
  assert (forall k z, (exists j, j <> i /\ s_running d !! j = Some z) -> k ∈ rows_held y -> k ∈ rows_held (st_session z) -> False) as Xr.
  { intros k z (j & Hne & Hj) Hy Hz. destruct (Gr k Hy) as [Hx|Hx]; [|by destruct Hne; eapply unlocked_row].
    destruct (s_running d !! i) as [w|] eqn:Hi.
    - pose proof (Hold _ eq_refl) as <-. by destruct Hne; eapply Hr.
    - rewrite (Hnew eq_refl) in Hx. set_solver. }
  assert (forall o z, (exists j, j <> i /\ s_running d !! j = Some z) -> o ∈ slots_held y ->
    o ∈ slots_held (st_session z) \/ shared (st_session z) = Some o -> False) as Xs.
  { intros o z (j & Hne & Hj) Hy Hz. destruct (Gs o Hy) as [Hx|[Hl Hx]].
    - destruct (s_running d !! i) as [w|] eqn:Hi; [|rewrite (Hnew eq_refl) in Hx; set_solver].
      pose proof (Hold _ eq_refl) as <-. destruct Hz as [Hz|Hz]; destruct Hne; [by eapply Hs|by symmetry; eapply Hsh].
    - destruct Hz as [Hz|Hz]; [by destruct Hne; eapply unlocked_slot|]. destruct Hx as [Hx|Hx]; [by destruct Hne; eapply unshared_slot|].
      destruct (He _ _ _ Hj Hz) as [? ?]. congruence. }
  assert (forall o z, (exists j, j <> i /\ s_running d !! j = Some z) -> shared y = Some o -> o ∈ slots_held (st_session z) -> False) as Xsh.
  { intros o z (j & Hne & Hj) Hy Hz. destruct (Gsh o Hy) as [Hx|[Hl _]]; [|by destruct Hne; eapply unlocked_slot].
    destruct (s_running d !! i) as [w|] eqn:Hi; [|rewrite (Hnew eq_refl) in Hx; done].
    pose proof (Hold _ eq_refl) as <-. by destruct Hne; eapply Hsh. }
  constructor; simpl.
  - intros j j' z z' k [[<- <-]|[? Hj]]%lookup_insert_Some [[<- <-]|[? Hj']]%lookup_insert_Some Hz Hz'; simpl in *; [done| | |by eapply Hr].
    + by destruct (Xr k z'); eauto.
    + by destruct (Xr k z); eauto.
  - intros j j' z z' o [[<- <-]|[? Hj]]%lookup_insert_Some [[<- <-]|[? Hj']]%lookup_insert_Some Hz Hz'; simpl in *; [done| | |by eapply Hs].
    + by destruct (Xs o z'); eauto.
    + by destruct (Xs o z); eauto.
  - intros j j' z z' o [[<- <-]|[? Hj]]%lookup_insert_Some [[<- <-]|[? Hj']]%lookup_insert_Some Hz Hz'; simpl in *; [done| | |by eapply Hsh].
    + by destruct (Xs o z'); eauto.
    + by destruct (Xsh o z); eauto.
  - intros j z o [[<- <-]|[? Hj]]%lookup_insert_Some Hz; simpl in *; [|by eapply He].
    destruct (Gsh o Hz) as [Hx|[_ Hx]]; [|done]. destruct (s_running d !! i) as [w|] eqn:Hi; [|rewrite (Hnew eq_refl) in Hx; done].
    pose proof (Hold _ eq_refl) as <-. by eapply He.
Qed.

(** A transaction is gone; the slots that others share are as before. *)
Lemma locks_drop d d' i :
  locks d -> s_running d' = delete i (s_running d) ->
  (forall j y o, j <> i -> s_running d !! j = Some y -> shared (st_session y) = Some o ->
     slot_rows (s_committed d') !! o = slot_rows (s_committed d) !! o) -> locks d'.
Proof.
  intros [Hr Hs Hsh He] Hrun Hsame. constructor; rewrite Hrun; intros *.
  - intros [_ Hj]%lookup_delete_Some [_ Hj']%lookup_delete_Some. by eapply Hr.
  - intros [_ Hj]%lookup_delete_Some [_ Hj']%lookup_delete_Some. by eapply Hs.
  - intros [_ Hj]%lookup_delete_Some [_ Hj']%lookup_delete_Some. by eapply Hsh.
  - intros [Hne Hj]%lookup_delete_Some Ho. rewrite (Hsame _ _ _ (not_eq_sym Hne) Hj Ho). by eapply He.
Qed.

(** Commits change nothing that another transaction has locked. *)
Lemma commit_row d i x a j y k :
  locks d -> s_running d !! i = Some x -> j <> i -> s_running d !! j = Some y -> k ∈ rows_held (st_session y) ->
  databases (s_committed (commit_session i x a d)) !! k = databases (s_committed d) !! k.
Proof.
  intros Hl Hi Hne Hj Hk. cbn [commit_session s_committed]. rewrite view_row, decide_False; [done|]. intros Hx. by destruct Hne; eapply (rows_apart d Hl).
Qed.

Lemma commit_shared d i x a j y o :
  locks d -> s_running d !! i = Some x -> j <> i -> s_running d !! j = Some y -> shared (st_session y) = Some o ->
  slot_rows (s_committed (commit_session i x a d)) !! o = slot_rows (s_committed d) !! o.
Proof.
  intros Hl Hi Hne Hj Hk. cbn [commit_session s_committed]. rewrite view_slot, decide_False; [done|]. intros Hx.
  by destruct Hne; symmetry; eapply (shares_apart d Hl).
Qed.

Lemma locks_change d d' : locks d -> change d d' -> locks d'.
Proof.
  intros Hl [i c Hi Hc Hf|i x p y Hi Ha Hf|i x e|i x a Hi Hp].
  - eapply locks_gain; [done|by apply gains_same|congruence|done].
  - eapply locks_gain; [done|by eapply advance_gains|congruence|congruence].
  - by eapply locks_drop.
  - eapply locks_drop; [done|done|]. intros j y o Hne Hj Ho. by eapply commit_shared.
Qed.

Lemma locks_reachable t d : s_reachable t d -> locks d.
Proof.
  apply (rtc_ind_r (fun d => locks d)).
  - constructor; simpl; intros *; by rewrite lookup_empty.
  - intros d1 d2 _ Hs Hl. by eapply locks_change, step_changes.
Qed.

(** ** Programs *)

Definition opens (c : scall) : Prop := exists newID req, c = On (Call (OpOpen newID req)).

(** A program on the database [k] that has not locked it: only an [Open] inserts, and nothing is written. *)
Fixpoint safe (k : Key) (ins : Prop) {A} (p : prog A) : Prop :=
  match p with
  | Do s next =>
      match s in stmt B return (B -> Prop) -> Prop with
      | Lock k' => fun F => k' = k /\ F None
      | Insert k' _ => fun F => k' = k /\ ins /\ F None
      | LeaseUpdate k' q => fun F => k' = k /\ (forall rows, F rows) /\
          forall t, exists rows t', q t = Ok (rows, t') /\ (0 < rows -> is_Some (databases t !! k))
      | Write _ => fun _ => False
      | Read _ => fun F => forall b, F b
      end (fun b => safe k ins (next b))
  | _ => True
  end.

(** What a program may return. *)
Fixpoint leaves {A} (Q : A -> Prop) (p : prog A) : Prop :=
  match p with
  | Ret a => Q a
  | Fail _ => True
  | Do _ next => forall b, leaves Q (next b)
  end.

Lemma leaves_bind {A B} Q (p : prog A) (f : A -> prog B) : (forall a, leaves Q (f a)) -> leaves Q (p ≫= f).
Proof. intros Hf. induction p as [a|e|C s next IH]; simpl; [apply Hf|done|exact IH]. Qed.

Lemma update_lease_runs k epoch f t :
  exists rows t', update_lease k epoch f t = Ok (rows, t') /\ (0 < rows -> is_Some (databases t !! k)).
Proof. unfold update_lease. repeat case_match; eexists _, _; (split; [done|]); [by eexists|lia|lia]. Qed.

Definition open_leaf (c : scall) (a : reply) : Prop := opens c -> exists r, a = Reply (AOpen (Ok r)).

Lemma safe_prog c (ins : Prop) : on_database c = true ->
  (forall newID req, c = Call (OpOpen newID req) -> or_Owner req = EmptyString /\ ins) ->
  safe (call_key c) ins (prog_of c).
Proof.
  intros Hc Ho. destruct c as [[newID req|k v f n|req|k v|k e now ttl|k e|req| | | | | ]|cutoff k]; try done; simpl.
  - unfold open_prog, share_prog. destruct (Ho _ _ eq_refl) as [-> ?]. simpl. split; [done|].
    unfold create_prog. repeat case_match; simpl; done.
  - intros r. by destruct r.
  - intros [row|]; simpl; [|done]. repeat (case_match; simpl; try done). intros [[oldest u]|]; simpl; [|done].
    case_match; simpl; [done|]. by intros [[rows w]|].
  - split_and!; [done| |intros t; apply update_lease_runs]. intros rows. unfold why_prog. case_match; simpl; [done|]. intros b. by destruct b.
  - split_and!; [done| |intros t; apply update_lease_runs]. intros rows. unfold why_prog. case_match; simpl; [done|]. intros b. by destruct b.
Qed.

(** ** How far a transaction is *)

Definition database_call (c : scall) : bool :=
  match c with On c => on_database c | ReleaseUnused _ => false end.

(** What holds when a transaction is about to commit with the answer [a]. *)
Definition done_ok (c : scall) (a : sreply) (x : session) : Prop :=
  match c with
  | On (Call (OpClaimSlot req)) =>
      forall res old, a = Answered (Reply (AClaimSlot (Ok res))) -> cres_Replaced res = Some old ->
        cl_Owner req ∈ slots_held x /\ slot_rows (own x) !! cl_Owner req = Some (claiming_row req) /\
        exists acc, scan x = Some (Purging (slot_Subject old) [] acc)
  | On (Call (OpDeleteSlot _ subject)) => exists acc, scan x = Some (Purging subject [] acc)
  | _ => True
  end.

Definition purging (subject : string) (x : session) : Prop :=
  scan x = None /\ rows_held x = ∅ \/ exists rest acc, scan x = Some (Purging subject rest acc).

Inductive phase (c : scall) : sprog sreply -> session -> Prop :=
| ph_plain p x :
    database_call c = true ->
    (scall_key c ∉ rows_held x -> safe (scall_key c) (opens c) p) -> leaves (open_leaf c) p ->
    rows_held x ⊆ {[scall_key c]} -> slots_held x = ∅ -> scan x = None -> phase c (answered (plain p)) x
| ph_open newID req :
    c = On (Call (OpOpen newID req)) -> or_Owner req <> EmptyString -> phase c (answered (open_sprog newID req)) fresh_session
| ph_claim req p :
    c = On (Call (OpClaimSlot req)) -> p ∈ [claim_sprog req; insert_sprog req; relock_sprog req] ->
    phase c (answered p) fresh_session
| ph_purge req row x :
    c = On (Call (OpClaimSlot req)) -> cl_Owner req ∈ slots_held x -> purging (s_Subject row) x ->
    phase c (answered (SDo (Purge (s_Subject row)) (update_sprog req row))) x
| ph_update req row purged x :
    c = On (Call (OpClaimSlot req)) -> cl_Owner req ∈ slots_held x ->
    (exists acc, scan x = Some (Purging (s_Subject row) [] acc)) ->
    phase c (answered (update_sprog req row purged)) x
| ph_delete owner subject :
    c = On (Call (OpDeleteSlot owner subject)) -> phase c (answered (deleteSlot_sprog owner subject)) fresh_session
| ph_delete_of owner subject x :
    c = On (Call (OpDeleteSlot owner subject)) -> owner ∈ slots_held x -> rows_held x = ∅ -> scan x = None ->
    phase c (answered (SDo (DeleteOf owner) (fun _ => purge_sprog subject))) x
| ph_delete_purge owner subject x :
    c = On (Call (OpDeleteSlot owner subject)) -> purging subject x -> phase c (answered (purge_sprog subject)) x
| ph_label owner subject label :
    c = On (Call (OpSetSlotLabel owner subject label)) -> phase c (answered (label_sprog owner subject label)) fresh_session
| ph_why owner subject label :
    c = On (Call (OpSetSlotLabel owner subject label)) -> phase c (answered (why_label owner)) fresh_session
| ph_get owner : c = On (Call (OpGetSlot owner)) -> phase c (answered (get_sprog owner)) fresh_session
| ph_release cutoff x :
    c = ReleaseUnused cutoff -> rows_held x = ∅ -> shared x = None ->
    (scan x = None /\ slots_held x = ∅ \/ exists snapshot rest, scan x = Some (Releasing snapshot rest)) -> phase c (sprog_of c) x
| ph_done a x : database_call c = false -> done_ok c a x -> phase c (SRet a) x.

Lemma safe_next k ins {A B} (s : stmt B) (next : B -> prog A) w t a :
  safe k ins (Do s next) -> exec_free w s t = Some (a, None) -> safe k ins (next a).
Proof.
  revert next a. destruct s as [k'|k' ps|k' q|C q|C f]; simpl; intros next a Hs He.
  - repeat case_match; simplify_eq. apply Hs.
  - repeat case_match; simplify_eq; apply Hs.
  - repeat case_match; simplify_eq; apply Hs.
  - done.
  - simplify_eq. apply Hs.
Qed.

(** A program on one database goes on. *)
Lemma phase_plain i c q x d p y :
  database_call c = true ->
  (scall_key c ∉ rows_held x -> safe (scall_key c) (opens c) q) -> leaves (open_leaf c) q ->
  rows_held x ⊆ {[scall_key c]} -> slots_held x = ∅ -> scan x = None ->
  advance i (mkSTx c (answered (plain q)) x) d = Some (p, y) -> (forall e, p <> SFail e) -> phase c p y.
Proof.
  intros Hc Hs Hl Hr Ho Hn Ha Hf. destruct q as [a|e|B s next]; [done|done|].
  unfold SlotSchedule.advance in Ha. cbn in Ha. unfold attempt_plain in Ha.
  destruct (decide (scall_key c ∈ rows_held x)) as [Hh|Hh].
  - destruct (stmt_tx s _) as [[a l]|e]; simplify_eq; [|by destruct (Hf e)].
    apply ph_plain; simpl; [done| |apply Hl|set_solver|done|done]. set_solver.
  - destruct (exec_free _ s _) as [[a [l|]]|] eqn:He; simplify_eq.
    + apply ph_plain; simpl; [done| |apply Hl|set_solver|done|done]. set_solver.
    + apply ph_plain; [done| |apply Hl|done|done|done]. intros _. eapply safe_next; [by apply Hs|done].
Qed.

Lemma leaves_any {A} (Q : A -> Prop) (p : prog A) : (forall a, Q a) -> leaves Q p.
Proof. intros Hq. induction p; simpl; auto. Qed.

Lemma leaves_open c newID req : leaves (open_leaf c) (prog_of (Call (OpOpen newID req))).
Proof. apply leaves_bind. intros r _. by exists r. Qed.

(** An [Open] that has passed the slot. *)
Lemma phase_opened newID req x :
  rows_held x = ∅ -> slots_held x = ∅ -> scan x = None ->
  phase (On (Call (OpOpen newID req))) (answered (opened_reply newID req)) x.
Proof.
  intros Hr Hs Hn. apply ph_plain; [done| |apply leaves_open|set_solver|done|done]. intros _.
  change (scall_key _) with (call_key (Call (OpOpen newID (without_owner req)))).
  apply safe_prog; [done|]. intros ? ? [= <- <-]. split; [done|by eexists _, _].
Qed.

Lemma phase_begin c : ssupported c = true -> phase c (sprog_of c) fresh_session.
Proof.
  destruct c as [c|cutoff]; [|intros _; apply (ph_release _ cutoff); [done|done|done|by left]].
  assert (on_database c = true -> (forall newID req, c <> Call (OpOpen newID req)) ->
    phase (On c) (answered (plain (prog_of c))) fresh_session) as Hplain.
  { intros Hc Ho. apply ph_plain; [done| | |set_solver|done|done].
    - intros _. apply safe_prog; [done|]. intros newID req ->. by destruct (Ho newID req).
    - apply leaves_any. intros a (newID & req & [= ->]). by destruct (Ho newID req). }
  destruct c as [[newID req|k v f n|req|k v|k e now ttl|k e|req|order cut lim|o|req|o s l|o s]|cutoff k]; cbn [sprog_of]; intros Hc;
    try (apply Hplain; [by apply andb_true_iff in Hc as [? _]|done]).
  - destruct (decide (or_Owner req = EmptyString)) as [He|He].
    + unfold open_sprog. rewrite bool_decide_eq_true_2 by done. by apply phase_opened.
    + by apply (ph_open _ newID req).
  - by apply (ph_get _ o).
  - apply (ph_claim _ req); [done|]. apply list_elem_of_here.
  - by apply (ph_label _ o s l).
  - by apply (ph_delete _ o s).
Qed.

Lemma purging_next i k subject x d :
  purging subject x ->
  match attempt i k (Purge subject) x d with
  | Partial y => (exists rest acc, scan y = Some (Purging subject rest acc)) /\ slots_held y = slots_held x
  | Finished acc y => y = x /\ scan x = Some (Purging subject [] acc)
  | Waiting => True
  | Failed _ => False
  end.
Proof.
  intros Hp. cbn [SlotSchedule.attempt]. unfold attempt_purge.
  destruct Hp as [[-> _]|(rest & acc & Hs)]; [by split; [eexists _, _|]|]. rewrite Hs.
  destruct rest as [|[k' b] rest]; [done|]. repeat case_match; simplify_eq; try done; by split; [eexists _, _|].
Qed.

Lemma phase_locked req row r :
  phase (On (Call (OpClaimSlot req))) (answered (locked_claim req row)) (hold_slot (cl_Owner req) r fresh_session).
Proof.
  unfold locked_claim. case_match; [by apply ph_done; [|intros res old [= <-]]|].
  apply (ph_purge _ req row); [done|set_solver|by left].
Qed.

(** The first statements of a claim, which has no lock yet. *)
Lemma phase_claim i req q d p y :
  q ∈ [claim_sprog req; insert_sprog req; relock_sprog req] ->
  advance i (mkSTx (On (Call (OpClaimSlot req))) (answered q) fresh_session) d = Some (p, y) -> (forall e, p <> SFail e) ->
  phase (On (Call (OpClaimSlot req))) p y.
Proof.
  intros Hq Ha Hf. unfold SlotSchedule.advance in Ha.
  claim_cases;
    cbn [claim_sprog insert_sprog relock_sprog answered st_prog st_call st_session SlotSchedule.attempt] in Ha.
  - repeat case_match; simplify_eq; [apply phase_locked|]. apply (ph_claim _ req); [done|]. by right; left.
  - repeat case_match; simplify_eq; try (by apply ph_done; [|intros res old [= <-]]). apply (ph_claim _ req); [done|]. by right; right; left.
  - repeat case_match; simplify_eq; [apply phase_locked|]. by destruct (Hf _ eq_refl).
Qed.

Lemma phase_advance i c q x d p y :
  phase c q x -> advance i (mkSTx c q x) d = Some (p, y) -> (forall e, p <> SFail e) -> phase c p y.
Proof.
  intros Hph Ha Hf.
  destruct Hph as [q x Hc Hs Hl Hr Ho Hn|newID req -> Ho|req q -> Hq|req row x -> Ho Hp|req row purged x -> Ho Hp
    |owner subject ->|owner subject x -> Ho Hr Hn|owner subject x -> Hp|owner subject label ->|owner subject label ->|owner ->
    |cutoff x -> Hr Hsh Hn|a x Hc Hd].
  - by eapply phase_plain.
  - unfold open_sprog in Ha. rewrite bool_decide_eq_false_2 in Ha by done. unfold SlotSchedule.advance in Ha. cbn in Ha.
    repeat case_match; simplify_eq; try (by apply phase_opened). by destruct (Hf ErrSlotTaken).
  - by eapply phase_claim.
  - unfold SlotSchedule.advance in Ha. cbn [answered st_prog st_call st_session] in Ha.
    pose proof (purging_next i (scall_key (On (Call (OpClaimSlot req)))) (s_Subject row) x d Hp) as Hx.
    destruct (attempt _ _ _ _ d) as [|z|acc z|e]; simplify_eq; [| |done].
    + destruct Hx as [Hz Hzs]. apply (ph_purge _ req row); [done|by rewrite Hzs|by right].
    + destruct Hx as [-> Hz]. apply (ph_update _ req row); [done|done|by eexists].
  - unfold SlotSchedule.advance in Ha. cbn [answered update_sprog st_prog st_call st_session SlotSchedule.attempt] in Ha.
    repeat case_match; simplify_eq; [|by destruct (Hf _ eq_refl)]. apply ph_done; [done|]. intros res old [= <-] [= <-].
    split_and!; [simpl; set_solver|simpl; by rewrite lookup_partial_alter_eq|done].
  - unfold SlotSchedule.advance in Ha. cbn [answered deleteSlot_sprog st_prog st_call st_session SlotSchedule.attempt] in Ha.
    repeat case_match; simplify_eq; [|by destruct (Hf _ eq_refl)|].
    + apply (ph_delete_of _ owner); [done|simpl; set_solver|done|done].
    + apply (ph_delete_purge _ owner); [done|by left].
  - unfold SlotSchedule.advance in Ha. cbn [answered st_prog st_call st_session SlotSchedule.attempt] in Ha.
    repeat case_match; simplify_eq; (apply (ph_delete_purge _ owner); [done|by left]).
  - unfold SlotSchedule.advance in Ha. cbn [answered purge_sprog st_prog st_call st_session] in Ha.
    pose proof (purging_next i (scall_key (On (Call (OpDeleteSlot owner subject)))) subject x d Hp) as Hx.
    destruct (attempt _ _ _ _ d) as [|z|acc z|e]; simplify_eq; [| |done].
    + destruct Hx as [Hz _]. apply (ph_delete_purge _ owner); [done|by right].
    + destruct Hx as [-> Hz]. apply ph_done; [done|]. by eexists.
  - unfold SlotSchedule.advance in Ha. cbn [answered label_sprog st_prog st_call st_session SlotSchedule.attempt] in Ha.
    repeat case_match; simplify_eq; try (by apply ph_done); by apply (ph_why _ owner subject label).
  - unfold SlotSchedule.advance in Ha. cbn in Ha. repeat case_match; simplify_eq; by destruct (Hf _ eq_refl).
  - unfold SlotSchedule.advance in Ha. cbn in Ha. repeat case_match; simplify_eq; by apply ph_done.
  - unfold SlotSchedule.advance in Ha. cbn [sprog_of st_prog st_call st_session SlotSchedule.attempt] in Ha. unfold attempt_release in Ha.
    repeat case_match; simplify_eq; try (by apply ph_done);
      (apply (ph_release (ReleaseUnused cutoff) cutoff); [done|done|done|right; by eexists _, _]).
  - done.
Qed.

(** ** Rows exist, or an [Open] creates them *)

Definition is_plain {A} (p : sprog A) : bool :=
  match p with SDo (Plain _) _ => true | _ => false end.

Lemma advance_row i x d p y k :
  is_plain (st_prog x) = false -> advance i x d = Some (p, y) -> k ∈ rows_held y ->
  k ∈ rows_held (st_session x) \/ is_Some (databases (s_committed d) !! k).
Proof.
  unfold SlotSchedule.advance. destruct (st_prog x) as [a|e|B s next]; [done|done|]. revert next.
  destruct s as [A s|o|o|o r|o r|o sub lab|o|sub|cut]; intros next Hp Ha Hk; [done|..]; cbn [SlotSchedule.attempt] in Ha;
    unfold attempt_purge, attempt_release in Ha; repeat case_match; simplify_eq; auto.
  simpl in Hk. apply elem_of_union in Hk as [->%elem_of_singleton|Hk]; [right; by eexists|by left].
Qed.

Lemma exec_free_row {A B} k ins (s : stmt B) (next : B -> prog A) w t a l :
  safe k ins (Do s next) -> exec_free w s t = Some (a, Some l) -> is_Some (databases t !! k) \/ ins.
Proof.
  revert next a. destruct s as [k'|k' ps|k' q|C q|C f]; simpl; intros next a Hs He.
  - destruct Hs as [-> _]. repeat case_match; simplify_eq; left; by eexists.
  - right. apply Hs.
  - destruct Hs as (-> & _ & Hq). destruct (Hq t) as (rows & t' & Heq & Hr). rewrite Heq in He.
    case_match; [|done]. left. by apply Hr, Z.ltb_lt.
  - done.
  - done.
Qed.

Lemma attempt_read {A} i k (f : Tables -> A) d :
  attempt_plain i k (Read f) fresh_session d = Finished (f (view fresh_session (s_committed d))) fresh_session.
Proof. unfold attempt_plain. by rewrite decide_False by set_solver. Qed.

Lemma phase_row i c q x d p y k :
  phase c q x -> advance i (mkSTx c q x) d = Some (p, y) -> k ∈ rows_held y ->
  k ∈ rows_held x \/ is_Some (databases (s_committed d) !! k) \/ opens c /\ k = scall_key c.
Proof.
  intros Hph Ha Hk. destruct (is_plain q) eqn:Hq; [|by destruct (advance_row i (mkSTx c q x) d p y k Hq Ha Hk); auto].
  destruct Hph as [q x Hc Hs Hl Hr Ho Hn|newID req -> Ho|req q -> Hq'|req row x -> Ho Hp|req row purged x -> Ho Hp
    |owner subject ->|owner subject x -> Ho Hr Hn|owner subject x -> Hp|owner subject label ->|owner subject label ->|owner ->
    |cutoff x -> Hr Hsh Hn|a x Hc Hd]; try done.
  - destruct q as [a|e|B s next]; [done|done|]. unfold SlotSchedule.advance in Ha. cbn in Ha. unfold attempt_plain in Ha.
    destruct (decide (scall_key c ∈ rows_held x)) as [Hh|Hh].
    + left. repeat case_match; simplify_eq; [|done]. simpl in Hk. set_solver.
    + destruct (exec_free _ s _) as [[a [l|]]|] eqn:He; simplify_eq; [|by left]. simpl in Hk.
      apply elem_of_union in Hk as [->%elem_of_singleton|Hk]; [|by left]. right.
      destruct (exec_free_row _ _ s next _ _ _ _ (Hs Hh) He) as [Hx|Hx]; [|by right]. left. by rewrite view_row, decide_False in Hx.
  - unfold open_sprog in Hq. by rewrite bool_decide_eq_false_2 in Hq.
  - claim_cases; done.
  - unfold SlotSchedule.advance in Ha. cbn in Ha. rewrite attempt_read in Ha. simplify_eq. by left.
  - unfold SlotSchedule.advance in Ha. cbn in Ha. rewrite attempt_read in Ha. simplify_eq. by left.
Qed.

(** The invariant of all transactions. *)
Record tx_inv (d : slotstate) : Prop := {
  inv_locks : locks d;
  inv_phase : forall i x, s_running d !! i = Some x -> phase (st_call x) (st_prog x) (st_session x);
  inv_rows : forall i x k, s_running d !! i = Some x -> k ∈ rows_held (st_session x) ->
    is_Some (databases (s_committed d) !! k) \/ opens (st_call x) /\ k = scall_key (st_call x) }.

Lemma stx_eta x : mkSTx (st_call x) (st_prog x) (st_session x) = x.
Proof. by destruct x. Qed.

Lemma tx_inv_change d d' : tx_inv d -> change d d' -> tx_inv d'.
Proof.
  intros [Hl Hph Hr] Hc. constructor; [by eapply locks_change| |].
  - destruct Hc as [i c Hi Hc Hf|i x p y Hi Ha Hf|i x e|i x a Hi Hp]; simpl; intros j z Hj.
    + apply lookup_insert_Some in Hj as [[_ <-]|[_ Hj]]; [by apply phase_begin|by eapply Hph].
    + apply lookup_insert_Some in Hj as [[_ <-]|[_ Hj]]; [|by eapply Hph]. simpl.
      eapply phase_advance; [by eapply Hph|rewrite stx_eta; done|done].
    + apply lookup_delete_Some in Hj as [_ Hj]. by eapply Hph.
    + apply lookup_delete_Some in Hj as [_ Hj]. by eapply Hph.
  - destruct Hc as [i c Hi Hc Hf|i x p y Hi Ha Hf|i x e|i x a Hi Hp]; intros j z k Hj Hk.
    + simpl in Hj. apply lookup_insert_Some in Hj as [[_ <-]|[_ Hj]]; [set_solver|by eapply Hr].
    + simpl in Hj. apply lookup_insert_Some in Hj as [[_ <-]|[_ Hj]]; [|by eapply Hr]. simpl in *.
      destruct (phase_row i (st_call x) (st_prog x) (st_session x) d p y k) as [Hx|Hx]; [by eapply Hph|by rewrite stx_eta|done| |done].
      by eapply Hr.
    + simpl in Hj. apply lookup_delete_Some in Hj as [_ Hj]. by eapply Hr.
    + cbn [commit_session s_running] in Hj. apply lookup_delete_Some in Hj as [Hne Hj]. rewrite (commit_row d i x a j z k) by done. by eapply Hr.
Qed.

Lemma tx_inv_reachable t d : s_reachable t d -> tx_inv d.
Proof.
  apply (rtc_ind_r (fun d => tx_inv d)).
  - constructor; [by eapply (locks_reachable t), rtc_refl| |]; simpl; intros *; by rewrite lookup_empty.
  - intros d1 d2 _ Hs Hl. by eapply tx_inv_change, step_changes.
Qed.

(** A transaction that has failed is not running. *)
Lemma running_not_failed t d i x e : s_reachable t d -> s_running d !! i = Some x -> st_prog x <> SFail e.
Proof.
  intros Hd. revert d Hd i x. apply (rtc_ind_r (fun d => forall i x, s_running d !! i = Some x -> st_prog x <> SFail e)).
  - intros i x. simpl. by rewrite lookup_empty.
  - intros d d' _ Hn IH i x Hx. apply step_changes in Hn. destruct Hn as [j c Hi Hc Hf|j z p y Hi Ha Hf|j z e'|j z a Hi Hp]; simpl in Hx.
    + apply lookup_insert_Some in Hx as [[_ <-]|[_ Hx]]; [apply Hf|by eapply IH].
    + apply lookup_insert_Some in Hx as [[_ <-]|[_ Hx]]; [apply Hf|by eapply IH].
    + apply lookup_delete_Some in Hx as [_ Hx]. by eapply IH.
    + apply lookup_delete_Some in Hx as [_ Hx]. by eapply IH.
Qed.
End facts.
