(* ===== verification/SlotRace.v ===== *)
(** * What concurrent transactions see of the slots

    Whoever opens a database while the owner has a slot holds it, a claim deletes the databases of the key
    it replaces, and the transactions on slots and databases do not deadlock. *)

From S2P Require Import Prelude Store Trace Tables Postgres PgSchedule SlotSchedule SlotFacts.

Local Open Scope Z_scope.

Section race.
Context `{!Timestamptz}.
Variable rank : nat -> slotstate -> Key -> Z.
Variable slot_rank : nat -> slotstate -> string -> Z.
#[local] Abbreviation attempt := (attempt rank slot_rank).
#[local] Abbreviation advance := (advance rank slot_rank).
#[local] Abbreviation s_step := (s_step rank slot_rank).
#[local] Abbreviation s_next := (s_next rank slot_rank).
#[local] Abbreviation s_reachable := (s_reachable rank slot_rank).

Lemma reachable_next t d d' : s_reachable t d -> s_next d d' -> s_reachable t d'.
Proof. apply rtc_r. Qed.

(** ** Opening needs the slot *)

(** The transaction [i] ran in the earlier state [d0]. *)
Definition ran_at (t : Tables) (i : nat) (c : scall) (d0 d : slotstate) (x0 : stransaction) : Prop :=
  s_reachable t d0 /\ rtc s_next d0 d /\ s_running d0 !! i = Some x0 /\ st_call x0 = c.

Lemma ran_later t i c d0 d d' x0 : ran_at t i c d0 d x0 -> s_next d d' -> ran_at t i c d0 d' x0.
Proof. intros (H0 & Hs & Hx) Hn. split; [done|]. split; [by eapply rtc_r|done]. Qed.

(** The slot that an [Open] saw: the one it has locked, which is its key's, or none. *)
Definition passed (t : Tables) (i : nat) (c : scall) (req : OpenRequest) (x : session) (d : slotstate) : Prop :=
  (shared x = Some (or_Owner req) /\
   exists row, slot_rows (s_committed d) !! or_Owner req = Some row /\ s_Subject row = Subject (or_Key req)) \/
  exists d0 x0, ran_at t i c d0 d x0 /\ slot_rows (s_committed d0) !! or_Owner req = None.

Definition open_inv (t : Tables) (d : slotstate) : Prop :=
  forall i x newID req, s_running d !! i = Some x -> st_call x = On (Call (OpOpen newID req)) -> or_Owner req <> EmptyString ->
    is_plain (st_prog x) = false /\ (forall a, st_prog x <> SRet a) \/ passed t i (st_call x) req (st_session x) d.

(** The statements on a database do not touch the slot. *)
Lemma plain_shared i c q x d p y :
  advance i (mkSTx c (answered (plain q)) x) d = Some (p, y) -> shared y = shared x.
Proof.
  destruct q as [a|e|B s next]; [done|done|]. unfold SlotSchedule.advance. cbn. unfold attempt_plain.
  intros Ha. repeat case_match; by simplify_eq.
Qed.

(** An [Open] makes a step. *)
Lemma open_advance t d d' i x newID req p y :
  s_reachable t d -> s_next d d' -> s_committed d' = s_committed d ->
  s_running d !! i = Some x -> st_call x = On (Call (OpOpen newID req)) -> or_Owner req <> EmptyString ->
  advance i x d = Some (p, y) ->
  is_plain (st_prog x) = false /\ (forall a, st_prog x <> SRet a) \/ passed t i (st_call x) req (st_session x) d ->
  phase (st_call x) (st_prog x) (st_session x) ->
  (exists e, p = SFail e) \/ passed t i (st_call x) req y d'.
Proof.
  intros Hr Hn Hcom Hx Hc Ho Ha Hinv Hph. destruct x as [c q s]. cbn [st_call st_prog st_session] in *. subst c.
  inversion Hph as [q' x' Hd Hs Hl Hrow Hslot Hscan Hq|newID' req' [= <- <-] Ho' Hq Hs| | | | | | | | | | |a x' Hd]; try done; subst.
  - right. destruct Hinv as [[Hp Hret]|Hinv].
    { destruct q' as [a|e|B s' next]; [by destruct (Hret (Answered a))|done|done]. }
    unfold passed in Hinv. rewrite <- (plain_shared _ _ _ _ _ _ _ Ha) in Hinv. destruct Hinv as [(Hsh & row & Hrow')|(d0 & x0 & Hran & Hnone)].
    + left. rewrite Hcom. eauto.
    + right. exists d0, x0. split; [by eapply ran_later|done].
  - unfold open_sprog in Ha. rewrite bool_decide_eq_false_2 in Ha by done. unfold SlotSchedule.advance in Ha. cbn in Ha.
    destruct (slot_rows (s_committed d) !! or_Owner req) as [row|] eqn:Hrow.
    + destruct (slot_locked i (or_Owner req) d); [done|]. injection Ha as <- <-.
      destruct (bool_decide (s_Subject row = Subject (or_Key req))) eqn:Hsub; [|left; by eexists].
      right. left. split; [done|]. rewrite Hcom. exists row. split; [done|by apply bool_decide_eq_true in Hsub].
    + injection Ha as <- <-. right. right. eexists d, _. split; [|done]. split_and!; [done|by apply rtc_once|done|done].
Qed.

(** Calls on databases lock no slots but for sharing. *)
Lemma phase_slots c q x : phase c q x -> database_call c = true -> slots_held x = ∅.
Proof. intros [] Hc; subst; try done; congruence. Qed.

Lemma passed_same t i c req x d d' :
  passed t i c req x d -> s_next d d' ->
  (shared x = Some (or_Owner req) -> slot_rows (s_committed d') !! or_Owner req = slot_rows (s_committed d) !! or_Owner req) ->
  passed t i c req x d'.
Proof.
  intros [(Hsh & row & Hrow)|(d0 & x0 & Hran & Hnone)] Hn Hsame.
  - left. split; [done|]. rewrite Hsame by done. eauto.
  - right. exists d0, x0. split; [by eapply ran_later|done].
Qed.

Lemma open_inv_reachable t d : s_reachable t d -> open_inv t d.
Proof.
  intros Hd. cut (s_reachable t d /\ open_inv t d); [tauto|]. revert d Hd.
  apply (rtc_ind_r (fun d => s_reachable t d /\ open_inv t d)).
  { split; [apply rtc_refl|]. intros i x newID req Hx. simpl in Hx. by rewrite lookup_empty in Hx. }
  intros d d' _ Hn [Hd Hinv]. split; [by eapply reachable_next|]. pose proof (tx_inv_reachable _ _ _ _ Hd) as Ht.
  pose proof (step_changes _ _ _ _ Hn) as Hch. inversion Hch as [i c Hi Hc Hf|i x p y Hi Ha Hf|i x e|i x a Hi Hp]; subst;
    intros j z newID req Hj Hcall Ho.
  - simpl in Hj. apply lookup_insert_Some in Hj as [[_ <-]|[_ Hj]].
    + left. simpl in *. subst c. simpl. unfold open_sprog. by rewrite bool_decide_eq_false_2.
    + destruct (Hinv j z newID req Hj Hcall Ho) as [?|Hx]; [by left|right]. by eapply passed_same.
  - simpl in Hj. apply lookup_insert_Some in Hj as [[<- <-]|[_ Hj]].
    + simpl in *. destruct (open_advance t d _ i x newID req p y Hd Hn eq_refl Hi Hcall Ho Ha) as [[e ->]|Hx];
        [by eapply Hinv|by eapply (inv_phase _ Ht)|by destruct (Hf e)|by right].
    + destruct (Hinv j z newID req Hj Hcall Ho) as [?|Hx]; [by left|right]. by eapply passed_same.
  - simpl in Hj. apply lookup_delete_Some in Hj as [_ Hj].
    destruct (Hinv j z newID req Hj Hcall Ho) as [?|Hx]; [by left|right]. by eapply passed_same.
  - cbn [commit_session s_running] in Hj. apply lookup_delete_Some in Hj as [Hne Hj].
    destruct (Hinv j z newID req Hj Hcall Ho) as [?|Hx]; [by left|right]. eapply passed_same; [done|done|].
    intros Hsh. by eapply (commit_shared d i x a j z); [apply Ht|..].
Qed.

(** C5: Only the key that holds the slot opens databases.  In every interleaving of calls on databases and
    slots, when an [Open] commits, the slot of its owner is held by its key at that moment, unless the
    owner had no slot at the moment when the transaction looked for it. *)
Theorem opens_hold_the_slot (t : Tables) (d d' : slotstate) (i : nat) (x : stransaction) (newID : bytes) (req : OpenRequest) :
  s_reachable t d -> s_running d !! i = Some x -> st_call x = On (Call (OpOpen newID req)) -> or_Owner req <> EmptyString ->
  s_step (SCommit i) d = Some d' ->
  (exists row, slot_rows (s_committed d') !! or_Owner req = Some row /\ s_Subject row = Subject (or_Key req)) \/
  exists d0 x0, s_reachable t d0 /\ rtc s_next d0 d /\ s_running d0 !! i = Some x0 /\ st_call x0 = st_call x /\
    slot_rows (s_committed d0) !! or_Owner req = None.
Proof.
  intros Hd Hx Hc Ho Hs. simpl in Hs. rewrite Hx in Hs. simpl in Hs. destruct (st_prog x) as [a| |] eqn:Hp; [|done|done].
  injection Hs as <-. pose proof (tx_inv_reachable _ _ _ _ Hd) as Ht.
  destruct (open_inv_reachable t d Hd i x newID req Hx Hc Ho) as [[_ Hn]|[(Hsh & row & Hrow & Hsub)|(d0 & x0 & (H0 & H1 & H2 & H3) & H4)]].
  - by destruct (Hn a).
  - left. exists row. split; [|done]. cbn [commit_session s_committed]. rewrite view_slot, decide_False; [done|].
    rewrite (phase_slots _ _ _ (inv_phase _ Ht i x Hx)); [set_solver|by rewrite Hc].
  - right. exists d0, x0. by split_and!.
Qed.

(** ** A claim deletes the databases of the key it replaces *)

Definition scans {A} (p : sprog A) : bool :=
  match p with SDo (Purge _) _ | SDo (ReleaseSlots _) _ => true | _ => false end.

Lemma advance_scan i x d p y : scans (st_prog x) = false -> advance i x d = Some (p, y) -> scan y = scan (st_session x).
Proof.
  unfold SlotSchedule.advance. destruct (st_prog x) as [a|e|B s next]; [done|done|]. revert next.
  destruct s as [A s|o|o|o r|o r|o sub lab|o|sub|cut]; intros next Hs Ha; try done; cbn [SlotSchedule.attempt] in Ha;
    unfold attempt_plain in Ha; repeat case_match; by simplify_eq.
Qed.

Lemma advance_slots i x d p y :
  scans (st_prog x) = false -> is_plain (st_prog x) = false -> advance i x d = Some (p, y) ->
  rows_held y = rows_held (st_session x) /\ databases (own y) = databases (own (st_session x)).
Proof.
  unfold SlotSchedule.advance. destruct (st_prog x) as [a|e|B s next]; [done|done|]. revert next.
  destruct s as [A s|o|o|o r|o r|o sub lab|o|sub|cut]; intros next Hs Hp Ha; try done; cbn [SlotSchedule.attempt] in Ha;
    repeat case_match; by simplify_eq.
Qed.

Lemma phase_plain_scan c q x : phase c q x -> is_plain q = true -> scan x = None.
Proof. intros [] Hq; subst; try done; discriminate Hq. Qed.

(** The rows that a purge still has to take, or has taken. *)
Definition taken (k : Key) (x : session) : Prop := k ∈ rows_held x /\ databases (own x) !! k = None.

(** One step of a purge. *)
Record purge_step (subject : string) (d : slotstate) (left : list (Key * nat)) (x y : session) (left' : list (Key * nat)) : Prop := {
  ps_left : forall k, is_Some (databases (s_committed d) !! k) -> (k, birth d k) ∈ left -> (k, birth d k) ∈ left' \/ taken k y;
  ps_taken : forall k, taken k x -> taken k y }.

Lemma taken_purge k k' x : taken k x -> taken k (purge_row k' x).
Proof.
  intros [Hk Ho]. split; simpl; [set_solver|]. rewrite map_lookup_filter, Ho. done.
Qed.

Lemma attempt_purge_step i k subject x d y left acc :
  leads (attempt i k (Purge subject) x d) y -> scan x = Some (Purging subject left acc) ->
  exists left' acc', scan y = Some (Purging subject left' acc') /\ purge_step subject d left x y left'.
Proof.
  intros Hl Hs. unfold leads in Hl. cbn [SlotSchedule.attempt] in Hl. unfold attempt_purge in Hl. rewrite Hs in Hl.
  destruct left as [|[k' b] left].
  { destruct Hl as [Hl|[a Hl]]; [done|]. injection Hl as <- <-. exists [], acc. split; [done|]. constructor; [|done]. by left. }
  destruct (databases (s_committed d) !! k') as [row|] eqn:Hrow.
  - destruct (Nat.eqb (birth d k') b) eqn:Hb; simpl in Hl.
    + apply Nat.eqb_eq in Hb. destruct (row_locked i k' d); [by destruct Hl as [?|[??]]|].
      destruct Hl as [Hl|[a Hl]]; [|done]. injection Hl as <-. eexists left, _. split; [done|]. constructor.
      * intros k0 _ [[= -> _]|?]%elem_of_cons; [|by left]. right. split; simpl; [set_solver|].
        apply map_lookup_filter_None. right. intros r _ Hne. by apply Hne.
      * intros k0 Hk0. by apply (taken_purge k0 k' x).
    + apply Nat.eqb_neq in Hb. destruct Hl as [Hl|[a Hl]]; [|done]. injection Hl as <-. eexists left, _. split; [done|].
      constructor; [|done]. intros k0 _ [[= -> ?]|?]%elem_of_cons; [done|by left].
  - destruct Hl as [Hl|[a Hl]]; [|done]. injection Hl as <-. eexists left, _. split; [done|].
    constructor; [|done]. intros k0 Hk0 [[= -> ?]|?]%elem_of_cons; [rewrite Hrow in Hk0; by destruct Hk0|by left].
Qed.

Lemma attempt_purge_start i k subject x d y :
  leads (attempt i k (Purge subject) x d) y -> scan x = None -> scan y = Some (Purging subject (subject_rows rank i subject d) []).
Proof.
  intros Hl Hs. unfold leads in Hl. cbn [SlotSchedule.attempt] in Hl. unfold attempt_purge in Hl. rewrite Hs in Hl.
  destruct Hl as [Hl|[a Hl]]; by simplify_eq.
Qed.

(** A step of a transaction after which a purge is under way: it has begun with this step, or goes on. *)
Lemma phase_purge i c q x d p y subject left' acc' :
  phase c q x -> advance i (mkSTx c q x) d = Some (p, y) -> scan y = Some (Purging subject left' acc') ->
  (scan x = None /\ left' = subject_rows rank i subject d /\ p = q) \/
  exists left acc, scan x = Some (Purging subject left acc) /\ purge_step subject d left x y left'.
Proof.
  intros Hph Ha Hy. destruct (scans q) eqn:Hq.
  - assert (forall sub next, q = SDo (Purge sub) next -> purging sub x ->
      (scan x = None /\ left' = subject_rows rank i subject d /\ p = q) \/
      exists left acc, scan x = Some (Purging subject left acc) /\ purge_step subject d left x y left') as Hpurge.
    { intros sub next -> Hp. unfold SlotSchedule.advance in Ha. cbn [st_prog st_call st_session] in Ha.
      assert (leads (attempt i (scall_key c) (Purge sub) x d) y /\ (scan x = None -> p = SDo (Purge sub) next)) as [Hl Hsame].
      { pose proof (purging_next rank slot_rank i (scall_key c) sub x d Hp) as Hx. unfold leads.
        destruct (attempt _ _ _ _ d) as [|z|a z|e]; simplify_eq; [by split; [left|]| |done].
        destruct Hx as [-> Hx]. split; [right; by eexists|]. intros Hn. rewrite Hx in Hn. discriminate. }
      destruct Hp as [[Hn _]|(left & acc & Hs)].
      - left. rewrite (attempt_purge_start _ _ _ _ _ _ Hl Hn) in Hy. injection Hy as -> <- <-. by auto.
      - right. destruct (attempt_purge_step _ _ _ _ _ _ _ _ Hl Hs) as (l & a & Hy' & Hst). rewrite Hy' in Hy. injection Hy as -> -> ->.
        eauto. }
    destruct Hph as [[] | | | | | | | | | | | |]; subst; try discriminate Hq; try (by eapply Hpurge).
    + unfold open_sprog in Hq. by rewrite bool_decide_eq_false_2 in Hq.
    + claim_cases; discriminate Hq.
    + exfalso. unfold SlotSchedule.advance in Ha. cbn [sprog_of st_prog st_call st_session SlotSchedule.attempt] in Ha.
      unfold attempt_release in Ha. repeat case_match; simplify_eq; simpl in *; naive_solver.
  - pose proof (advance_scan i (mkSTx c q x) d p y Hq Ha) as Hs. simpl in Hs. right. exists left', acc'. split; [congruence|].
    destruct (is_plain q) eqn:Hp; [pose proof (phase_plain_scan _ _ _ Hph Hp); congruence|].
    destruct (advance_slots i (mkSTx c q x) d p y Hq Hp Ha) as [Hr Ho]. simpl in *.
    constructor; [by left|]. intros k [Hk Hn]. split; congruence.
Qed.

Lemma change_log_grows d d' : s_next d d' -> exists l, s_log d' = s_log d ++ l.
Proof.
  intros Hn. apply step_changes in Hn. destruct Hn; [exists []; by rewrite app_nil_r|exists []; by rewrite app_nil_r|by eexists|by eexists].
Qed.

Lemma log_grows d d' : rtc s_next d d' -> (length (s_log d) <= length (s_log d'))%nat.
Proof.
  induction 1 as [d|d1 d2 d3 Hn _ IH]; [done|]. destruct (change_log_grows _ _ Hn) as [l Hl]. rewrite Hl, length_app in IH. lia.
Qed.

(** A call that has opened the database [k]. *)
Definition opened (k : Key) (e : ended) : Prop := exists newID req r,
  e_call e = On (Call (OpOpen newID req)) /\ or_Key req = k /\ e_reply e = Answered (Reply (AOpen (Ok r))).

(** The call ended after the state [d0], without having locked a slot that [x0] had locked. *)
Definition slipped (d0 d : slotstate) (x0 : session) (k : Key) : Prop := exists e,
  e ∈ drop (length (s_log d0)) (s_log d) /\ opened k e /\ forall o, o ∈ slots_held x0 -> e_shared e <> Some o.

Lemma slipped_later d0 d d' x0 k : s_next d d' -> slipped d0 d x0 k -> slipped d0 d' x0 k.
Proof.
  intros [l Hl]%change_log_grows (e & He & Ho). exists e. split; [|done]. rewrite Hl, drop_app. by apply elem_of_app; left.
Qed.

Definition covered (d0 d : slotstate) (x0 x : session) (left : list (Key * nat)) (k : Key) : Prop :=
  (k, birth d k) ∈ left \/ taken k x \/ slipped d0 d x0 k.

Definition purge_inv (t : Tables) (d : slotstate) : Prop :=
  forall i x subject left acc, s_running d !! i = Some x -> scan (st_session x) = Some (Purging subject left acc) ->
    exists d0 x0, ran_at t i (st_call x) d0 d x0 /\ scan (st_session x0) <> None /\ (forall a, st_prog x0 <> SRet a) /\
      slots_held (st_session x0) ⊆ slots_held (st_session x) /\
      forall k, Subject k = subject -> is_Some (databases (s_committed d) !! k) -> covered d0 d (st_session x0) (st_session x) left k.

(** The session stays, and every row that is there now was there before or slipped through. *)
Lemma purge_inv_other t d d' i x subject left acc :
  purge_inv t d -> s_next d d' -> s_running d !! i = Some x -> scan (st_session x) = Some (Purging subject left acc) ->
  (forall k, is_Some (databases (s_committed d') !! k) ->
     (is_Some (databases (s_committed d) !! k) /\ birth d' k = birth d k) \/
     exists e, s_log d' = s_log d ++ [e] /\ opened k e /\ forall o, o ∈ slots_held (st_session x) -> e_shared e <> Some o) ->
  exists d0 x0, ran_at t i (st_call x) d0 d' x0 /\ scan (st_session x0) <> None /\ (forall a, st_prog x0 <> SRet a) /\
    slots_held (st_session x0) ⊆ slots_held (st_session x) /\
    forall k, Subject k = subject -> is_Some (databases (s_committed d') !! k) -> covered d0 d' (st_session x0) (st_session x) left k.
Proof.
  intros Hinv Hn Hx Hs Hrows. destruct (Hinv _ _ _ _ _ Hx Hs) as (d0 & x0 & Hran & Hs0 & Hp0 & Hsub & Hcov).
  exists d0, x0. split; [by eapply ran_later|]. split_and!; [done|done|done|]. intros k Hk Hd.
  destruct (Hrows k Hd) as [[Hd' Hb]|(e & He & Ho & Hsl)].
  - destruct (Hcov k Hk Hd') as [Hl|[Ht|Hl]]; [left; by rewrite Hb|right; by left|right; right; by eapply slipped_later].
  - right. right. exists e. split_and!; [|done|intros o ?; apply Hsl; set_solver]. destruct Hran as (_ & Hran & _).
    rewrite He, drop_app. apply elem_of_app. right. rewrite (proj2 (Nat.sub_0_le _ _) (log_grows _ _ Hran)). by left.
Qed.

Lemma subject_rows_complete i subject d k :
  Subject k = subject -> is_Some (databases (s_committed d) !! k) -> (k, birth d k) ∈ subject_rows rank i subject d.
Proof.
  intros Hk Hd. unfold subject_rows. rewrite (merge_sort_Permutation (by_rank (rank i d))). apply list_elem_of_fmap. exists k. split; [done|].
  apply list_elem_of_filter. split; [done|]. by apply elem_of_elements, elem_of_dom.
Qed.

Lemma reborn_old t t' b k : is_Some (databases t !! k) -> default O (reborn t t' b !! k) = default O (b !! k).
Proof.
  intros [row Hr]. unfold reborn. rewrite lookup_union, map_lookup_imap, lookup_difference, Hr. simpl. by destruct (b !! k).
Qed.

Lemma phase_open_reply c a x : phase c (SRet a) x -> opens c -> exists r, a = Answered (Reply (AOpen (Ok r))).
Proof.
  intros Hph Ho. remember (SRet a) as q eqn:Hq.
  destruct Hph as [p x Hc Hs Hl Hr Hslot Hn|newID req _ Howner| | | | | | | | | | |b x Hc Hd];
    destruct Ho as (newID' & req' & ->); try done.
  - destruct p as [b| |]; [|done|done]. injection Hq as <-. destruct (Hl (ex_intro _ newID' (ex_intro _ req' eq_refl))) as [r ->]. by exists r.
  - unfold open_sprog in Hq. by rewrite bool_decide_eq_false_2 in Hq.
Qed.

(** A commit brings rows to life only for an [Open]. *)
Lemma commit_rows d i x a j y k :
  tx_inv d -> s_running d !! i = Some x -> st_prog x = SRet a -> j <> i -> s_running d !! j = Some y ->
  is_Some (databases (s_committed (commit_session i x a d)) !! k) ->
  (is_Some (databases (s_committed d) !! k) /\ birth (commit_session i x a d) k = birth d k) \/
  exists e, s_log (commit_session i x a d) = s_log d ++ [e] /\ opened k e /\
    forall o, o ∈ slots_held (st_session y) -> e_shared e <> Some o.
Proof.
  intros [Hl Hph Hr] Hi Hp Hne Hj Hk. destruct (databases (s_committed d) !! k) as [row|] eqn:Hrow.
  { left. split; [by eexists|]. apply reborn_old. by eexists. }
  right. eexists. split; [done|]. assert (k ∈ rows_held (st_session x)) as Hh.
  { cbn [commit_session s_committed] in Hk. rewrite view_row in Hk. destruct (decide _) as [|Hn]; [done|]. rewrite Hrow in Hk. by destruct Hk. }
  split.
  - destruct (Hr i x k Hi Hh) as [Hs|[(newID & req & Hc) ->]]; [rewrite Hrow in Hs; by destruct Hs|].
    pose proof (Hph i x Hi) as Hx. exists newID, req. rewrite Hp in Hx.
    destruct (phase_open_reply _ _ _ Hx) as [r ->]; [by eexists _, _|]. exists r. split_and!; [done|by rewrite Hc|done].
  - intros o Ho Hsh. simpl in Hsh. by destruct Hne; eapply (shares_apart d Hl).
Qed.

(** The purging transaction makes a step. *)
Lemma purge_inv_own t d d' i x p y subject left' acc' :
  s_reachable t d' -> purge_inv t d -> s_next d d' -> s_running d !! i = Some x -> phase (st_call x) (st_prog x) (st_session x) ->
  advance i x d = Some (p, y) -> d' = set_running (<[i := mkSTx (st_call x) p y]> (s_running d)) d ->
  scan y = Some (Purging subject left' acc') ->
  exists d0 x0, ran_at t i (st_call x) d0 d' x0 /\ scan (st_session x0) <> None /\ (forall a, st_prog x0 <> SRet a) /\
    slots_held (st_session x0) ⊆ slots_held y /\
    forall k, Subject k = subject -> is_Some (databases (s_committed d') !! k) -> covered d0 d' (st_session x0) y left' k.
Proof.
  intros Hd' Hinv Hn Hx Hph Ha -> Hy. pose proof (advance_gains _ _ _ _ _ _ _ Ha) as Hg. rewrite <- (stx_eta x) in Ha.
  destruct (phase_purge _ _ _ _ _ _ _ _ _ _ Hph Ha Hy) as [(Hs & -> & ->)|(left & acc & Hs & Hst)].
  - eexists _, (mkSTx (st_call x) (st_prog x) y). split; [split_and!; [done|apply rtc_refl|apply lookup_insert_eq|done]|].
    simpl. split_and!; [by rewrite Hy| |done|].
    + intros a Hp. unfold SlotSchedule.advance in Ha. simpl in Ha. by rewrite Hp in Ha.
    + intros k Hk Hd. left. exact (subject_rows_complete _ _ d k Hk Hd).
  - destruct (Hinv _ _ _ _ _ Hx Hs) as (d0 & x0 & Hran & Hs0 & Hp0 & Hsub & Hcov). exists d0, x0.
    split; [by eapply ran_later|]. split_and!; [done|done|by etrans; [|apply (keep_slots _ _ _ _ Hg)]|].
    intros k Hk Hd. destruct (Hcov k Hk Hd) as [Hl|[Ht|Hl]].
    + destruct (ps_left _ _ _ _ _ _ Hst k Hd Hl) as [?|?]; [by left|right; by left].
    + right. left. by apply (ps_taken _ _ _ _ _ _ Hst).
    + right. right. by eapply slipped_later.
Qed.

Lemma purge_inv_reachable t d : s_reachable t d -> purge_inv t d.
Proof.
  intros Hd. cut (s_reachable t d /\ purge_inv t d); [tauto|]. revert d Hd.
  apply (rtc_ind_r (fun d => s_reachable t d /\ purge_inv t d)).
  { split; [apply rtc_refl|]. intros i x subject left acc Hx. simpl in Hx. by rewrite lookup_empty in Hx. }
  intros d d' _ Hn [Hd Hinv]. pose proof (reachable_next _ _ _ Hd Hn) as Hd'. split; [done|].
  pose proof (tx_inv_reachable _ _ _ _ Hd) as Ht. pose proof (step_changes _ _ _ _ Hn) as Hch.
  inversion Hch as [i c Hi Hc Hf|i x p y Hi Ha Hf|i x e|i x a Hi Hp]; subst; intros j z subject left acc Hj Hs.
  - simpl in Hj. apply lookup_insert_Some in Hj as [[_ <-]|[_ Hj]]; [done|]. eapply purge_inv_other; [done|done|done|done|]. by left.
  - simpl in Hj. apply lookup_insert_Some in Hj as [[<- <-]|[_ Hj]].
    + eapply (purge_inv_own t d _ i x); [done|done|done|done|by eapply (inv_phase _ Ht)|done|done|done].
    + eapply purge_inv_other; [done|done|done|done|]. by left.
  - simpl in Hj. apply lookup_delete_Some in Hj as [_ Hj]. eapply purge_inv_other; [done|done|done|done|]. by left.
  - cbn [commit_session s_running] in Hj. apply lookup_delete_Some in Hj as [Hne Hj].
    eapply purge_inv_other; [done|done|done|done|]. intros k Hk. by eapply commit_rows.
Qed.

Lemma phase_done c a x : phase c (SRet a) x -> database_call c = false -> done_ok c a x.
Proof.
  intros Hph Hc. remember (SRet a) as q eqn:Hq. destruct Hph as [| |req p -> Hp| | | | | | | | | |]; subst; try done; try congruence.
  claim_cases; done.
Qed.

Lemma phase_scan_slot req q x :
  phase (On (Call (OpClaimSlot req))) q x -> scan x <> None -> (forall a, q <> SRet a) -> cl_Owner req ∈ slots_held x.
Proof.
  intros Hph Hs Hq. remember (On (Call (OpClaimSlot req))) as c eqn:Hc. destruct Hph; simplify_eq; try done. by destruct (Hq a).
Qed.

(** C6: A claim deletes the databases of the key it replaces.  In every interleaving, when a claim that
    replaced a key commits, the slot is the claimant's, and the replaced key has no databases but those
    that an [Open] committed after the claim had locked the slot and begun to delete, without having
    locked the slot itself: there are none if all of that key's opens lock this slot. *)
Theorem claims_delete_databases (t : Tables) (d d' : slotstate) (i : nat) (x : stransaction) (req : ClaimRequest)
    (res : ClaimResult) (old : Slot) :
  s_reachable t d -> s_running d !! i = Some x -> st_call x = On (Call (OpClaimSlot req)) ->
  st_prog x = SRet (Answered (Reply (AClaimSlot (Ok res)))) -> cres_Replaced res = Some old ->
  s_step (SCommit i) d = Some d' ->
  slot_rows (s_committed d') !! cl_Owner req = Some (claiming_row req) /\
  exists d0 x0, s_reachable t d0 /\ rtc s_next d0 d /\ s_running d0 !! i = Some x0 /\
    cl_Owner req ∈ slots_held (st_session x0) /\
    forall k, Subject k = slot_Subject old -> is_Some (databases (s_committed d') !! k) ->
      exists e, e ∈ drop (length (s_log d0)) (s_log d) /\ opened k e /\ e_shared e <> Some (cl_Owner req).
Proof.
  intros Hd Hx Hc Hp Hrep Hs. simpl in Hs. rewrite Hx in Hs. simpl in Hs. rewrite Hp in Hs. injection Hs as <-.
  pose proof (tx_inv_reachable _ _ _ _ Hd) as Ht. pose proof (inv_phase _ Ht i x Hx) as Hph.
  assert (done_ok (st_call x) (Answered (Reply (AClaimSlot (Ok res)))) (st_session x)) as Hdone.
  { rewrite Hp, Hc in *. by apply phase_done in Hph. }
  rewrite Hc in Hdone. destruct (Hdone res old eq_refl Hrep) as (Hown & Hslot & acc & Hscan).
  cbn [commit_session s_committed]. split; [by rewrite view_slot, decide_True|].
  destruct (purge_inv_reachable t d Hd i x _ _ _ Hx Hscan) as (d0 & x0 & (H0 & H1 & H2 & H3) & Hs0 & Hp0 & Hsub & Hcov).
  assert (cl_Owner req ∈ slots_held (st_session x0)) as Ho0.
  { eapply phase_scan_slot; [|done|done]. rewrite <- Hc, <- H3. by eapply (inv_phase _ (tx_inv_reachable _ _ _ _ H0)). }
  exists d0, x0. split_and!; [done|done|done|done|]. intros k Hk Hd'.
  assert (~ taken k (st_session x)) as Hnt.
  { intros [Hh Hn]. rewrite view_row, decide_True, Hn in Hd' by done. by destruct Hd'. }
  destruct (Hcov k Hk) as [Hl|[Hl|(e & He & Hop & Hsh)]]; [|by apply elem_of_nil in Hl|done|by exists e; auto].
  rewrite view_row in Hd'. destruct (decide _) as [Hh|]; [|done].
  destruct (inv_rows _ Ht i x k Hx Hh) as [|[(newID & r & Hop) _]]; [done|congruence].
Qed.
End race.
