(* ===== verification/SlotProgress.v ===== *)
(** * Transactions on slots and databases do not deadlock

    Every transaction locks a slot before it locks rows of databases, and only a statement on many rows
    waits for a row or a slot while it has one.  In which order such a statement takes its rows is not
    known: two of them on the same rows can wait for each other. *)

From S2P Require Import Prelude Store Trace Tables Postgres PgSchedule SlotSchedule SlotFacts SlotRace.

Local Open Scope Z_scope.

Section progress.
Context `{!Timestamptz}.
Variable rank : nat -> slotstate -> Key -> Z.
Variable slot_rank : nat -> slotstate -> string -> Z.
#[local] Abbreviation attempt := (attempt rank slot_rank).
#[local] Abbreviation advance := (advance rank slot_rank).
#[local] Abbreviation s_step := (s_step rank slot_rank).
#[local] Abbreviation s_next := (s_next rank slot_rank).
#[local] Abbreviation s_reachable := (s_reachable rank slot_rank).

(** A purge takes rows of its subject. *)
Definition of_subject (x : session) : Prop :=
  match scan x with
  | Some (Purging subject rest _) =>
      (forall k, k ∈ rows_held x -> Subject k = subject) /\ forall e, e ∈ rest -> Subject e.1 = subject
  | _ => True
  end.

Lemma of_subject_same x y : scan y = scan x -> rows_held y = rows_held x -> of_subject x -> of_subject y.
Proof. unfold of_subject. by intros -> ->. Qed.

Lemma purge_of_subject i subject x d y :
  purging subject x -> of_subject x -> leads (attempt_purge rank i subject x d) y -> of_subject y.
Proof.
  intros Hp Ho Hl. unfold leads, attempt_purge in Hl. destruct Hp as [[Hs Hr]|(rest & acc & Hs)]; rewrite Hs in Hl.
  - destruct Hl as [Hl|[a Hl]]; [|done]. injection Hl as <-. unfold of_subject. simpl. split; [rewrite Hr; set_solver|].
    unfold subject_rows. intros e He. rewrite (merge_sort_Permutation (by_rank (rank i d))) in He.
    apply list_elem_of_fmap in He as (k & -> & [Hk _]%list_elem_of_filter). done.
  - unfold of_subject in Ho. rewrite Hs in Ho. destruct Ho as [Hheld Hrest]. destruct rest as [|[k b] rest].
    { destruct Hl as [Hl|[a Hl]]; [done|]. injection Hl as <- <-. unfold of_subject. rewrite Hs. done. }
    assert (Subject k = subject) as Hk by (apply (Hrest (k, b)); by left).
    assert (forall acc', of_subject (scanning (Purging subject rest acc') x)) as Hskip.
    { intros acc'. split; [done|]. intros e He. apply Hrest. by right. }
    destruct (databases (s_committed d) !! k); [|destruct Hl as [Hl|[a Hl]]; [by injection Hl as <-|done]].
    case_match; [destruct Hl as [Hl|[a Hl]]; [by injection Hl as <-|done]|].
    case_match; [by destruct Hl as [?|[? ?]]|]. destruct Hl as [Hl|[a Hl]]; [|done]. injection Hl as <-.
    split; [|apply (Hskip acc)]. simpl. intros k' [->%elem_of_singleton|Hk']%elem_of_union; [done|by apply Hheld].
Qed.

Lemma advance_purge_leads i c subject next x d p y :
  purging subject x -> advance i (mkSTx c (SDo (Purge subject) next) x) d = Some (p, y) -> leads (attempt_purge rank i subject x d) y.
Proof.
  intros Hp Ha. unfold SlotSchedule.advance in Ha. cbn [st_prog st_call st_session] in Ha.
  pose proof (purging_next rank slot_rank i (scall_key c) subject x d Hp) as Hx. cbn [SlotSchedule.attempt] in *. unfold leads.
  destruct (attempt_purge _ _ _ _ _) as [|z|a z|e]; simplify_eq; [by left|right; by eexists|done].
Qed.

(** Only the release of slots has slots to take. *)
Lemma phase_releasing c q x snapshot rest :
  phase c q x -> scan x = Some (Releasing snapshot rest) -> scans q = true \/ exists a, q = SRet a.
Proof.
  intros Hph Hs. destruct Hph; subst; try (by left); try (simpl in Hs; congruence); [|right; by eexists].
  naive_solver congruence.
Qed.

Lemma of_subject_advance i c q x d p y :
  phase c q x -> of_subject x -> advance i (mkSTx c q x) d = Some (p, y) -> of_subject y.
Proof.
  intros Hph Ho Ha. destruct (scans q) eqn:Hq.
  - destruct Hph as [[]|? ? ? ?|? ? ? ?|req row x Hc Hown Hp| | | |owner subject x Hc Hp| | | |cutoff x Hc Hr Hsh Hn|]; subst; try discriminate Hq.
    + unfold open_sprog in Hq. by rewrite bool_decide_eq_false_2 in Hq.
    + claim_cases; discriminate Hq.
    + eapply purge_of_subject; [done|done|]. exact (advance_purge_leads _ _ _ _ _ _ _ _ Hp Ha).
    + eapply purge_of_subject; [done|done|]. exact (advance_purge_leads _ _ _ _ _ _ _ _ Hp Ha).
    + unfold SlotSchedule.advance in Ha. cbn [sprog_of st_prog st_call st_session SlotSchedule.attempt] in Ha.
      unfold attempt_release in Ha. unfold of_subject. destruct Hn as [[Hs _]|(snapshot & rest & Hs)]; rewrite Hs in Ha.
      * by injection Ha as _ <-.
      * repeat case_match; simplify_eq; done || by rewrite Hs in *.
  - pose proof (advance_scan _ _ i (mkSTx c q x) d p y Hq Ha) as Hs. simpl in Hs. unfold of_subject in *.
    destruct (scan x) as [[subject rest acc|snapshot rest]|] eqn:Hx; rewrite Hs; [|done|done].
    destruct (is_plain q) eqn:Hp; [pose proof (phase_plain_scan _ _ _ Hph Hp); congruence|].
    destruct (advance_slots _ _ i (mkSTx c q x) d p y Hq Hp Ha) as [-> _]. done.
Qed.

(** ** Why a transaction waits *)

Definition wants_row (x : stransaction) : option Key :=
  match st_prog x with
  | SDo (Plain _) _ => Some (scall_key (st_call x))
  | SDo (Purge _) _ => match scan (st_session x) with Some (Purging _ ((k, _) :: _) _) => Some k | _ => None end
  | _ => None
  end.

Definition wants_slot (x : stransaction) : option string :=
  match st_prog x with
  | SDo (Share o) _ | SDo (LockOf o) _ | SDo (InsertOf o _) _ | SDo (LabelOf o _ _) _ => Some o
  | SDo (ReleaseSlots _) _ => match scan (st_session x) with Some (Releasing _ (o :: _)) => Some o | _ => None end
  | _ => None
  end.

(** The subject whose databases a transaction is about to delete or deleting; and the release of slots. *)
Definition purges (x : stransaction) : option string :=
  match st_prog x with SDo (Purge subject) _ => Some subject | _ => None end.

Definition releases (x : stransaction) : bool :=
  match st_prog x with SDo (ReleaseSlots _) _ => true | _ => false end.

(** It waits for a row, and has none or purges; or, having no row and sharing no slot, for a slot, and has
    none or releases them. *)
Definition waits_for_row (i : nat) (x : stransaction) (d : slotstate) : Prop := exists k,
  wants_row x = Some k /\ row_locked i k d = true /\
  (rows_held (st_session x) = ∅ \/
   exists subject, purges x = Some subject /\ Subject k = subject /\ forall k', k' ∈ rows_held (st_session x) -> Subject k' = subject).

Definition waits_for_slot (i : nat) (x : stransaction) (d : slotstate) : Prop := exists o,
  wants_slot x = Some o /\ (slot_locked i o d = true \/ slot_shared i o d = true) /\ rows_held (st_session x) = ∅ /\
  shared (st_session x) = None /\ (slots_held (st_session x) = ∅ \/ releases x = true).

Lemma exec_free_waits {A B} k ins (s : stmt B) (next : B -> prog A) w t :
  safe k ins (Do s next) -> exec_free w s t = None -> w = true.
Proof.
  revert next. destruct s as [k'|k' ps|k' q|C q|C f]; simpl; intros next Hs He; try done.
  - by repeat case_match.
  - unfold CreateDatabase in He. by repeat case_match.
  - destruct Hs as (-> & _ & Hq). destruct (Hq t) as (rows & t' & Heq & _). rewrite Heq in He. by repeat case_match.
Qed.

Lemma waits_fresh i c q o d :
  wants_slot (mkSTx c q fresh_session) = Some o -> slot_locked i o d = true \/ slot_shared i o d = true ->
  waits_for_slot i (mkSTx c q fresh_session) d.
Proof. intros Hw Hl. exists o. split_and!; [done|done|done|done|by left]. Qed.

Lemma slot_waits_fresh i o d : slot_waits i o fresh_session d = true -> slot_locked i o d = true \/ slot_shared i o d = true.
Proof. unfold slot_waits. by intros [_ ?%orb_true_iff]%andb_true_iff. Qed.

Lemma slot_dirty_locked i o d : slot_dirty i o d = true -> slot_locked i o d = true.
Proof.
  unfold slot_dirty, slot_locked, other. rewrite !existsb_exists. intros (e & He & Hb). exists e. split; [done|].
  apply andb_true_iff in Hb as [-> [-> _]%andb_true_iff]. done.
Qed.

Lemma slot_waits_held i o x d : o ∈ slots_held x -> slot_waits i o x d = false.
Proof. intros Ho. unfold slot_waits. by rewrite bool_decide_eq_true_2. Qed.

Lemma waits_plain i c q x d :
  (scall_key c ∉ rows_held x -> safe (scall_key c) (opens c) q) -> rows_held x ⊆ {[scall_key c]} ->
  (forall a, q <> Ret a) -> (forall e, q <> Fail e) ->
  advance i (mkSTx c (answered (plain q)) x) d = None -> waits_for_row i (mkSTx c (answered (plain q)) x) d.
Proof.
  intros Hs Hr Hn1 Hn2 Ha. destruct q as [a|e|B s next]; [by destruct (Hn1 a)|by destruct (Hn2 e)|].
  unfold SlotSchedule.advance in Ha. cbn in Ha. unfold attempt_plain in Ha.
  destruct (decide (scall_key c ∈ rows_held x)) as [Hh|Hh]; [by repeat case_match|]. exists (scall_key c). split_and!; [done| |left; set_solver].
  destruct (exec_free _ s _) as [[a [l|]]|] eqn:He; [done|done|]. by eapply exec_free_waits; [apply (Hs Hh)|].
Qed.

Lemma waits_purge i c subject next x d :
  purging subject x -> of_subject x -> advance i (mkSTx c (SDo (Purge subject) next) x) d = None ->
  waits_for_row i (mkSTx c (SDo (Purge subject) next) x) d.
Proof.
  intros Hp Ho Ha. unfold SlotSchedule.advance in Ha. cbn [st_prog st_call st_session SlotSchedule.attempt] in Ha. unfold attempt_purge in Ha.
  destruct Hp as [[Hs _]|(rest & acc & Hs)]; rewrite Hs in Ha; [done|]. unfold of_subject in Ho. rewrite Hs in Ho. destruct Ho as [Hheld Hrest].
  destruct rest as [|[k b] rest]; [done|]. exists k. unfold wants_row. simpl. rewrite Hs. split_and!; [done|by repeat case_match|].
  right. exists subject. split_and!; [done|apply (Hrest (k, b)); by left|done].
Qed.

Lemma waits_release i cutoff x d :
  rows_held x = ∅ -> shared x = None ->
  (scan x = None /\ slots_held x = ∅ \/ exists snapshot rest, scan x = Some (Releasing snapshot rest)) ->
  advance i (mkSTx (ReleaseUnused cutoff) (sprog_of (ReleaseUnused cutoff)) x) d = None ->
  waits_for_slot i (mkSTx (ReleaseUnused cutoff) (sprog_of (ReleaseUnused cutoff)) x) d.
Proof.
  intros Hr Hsh Hp Ha. unfold SlotSchedule.advance in Ha. cbn [sprog_of st_prog st_call st_session SlotSchedule.attempt] in Ha.
  unfold attempt_release in Ha. destruct Hp as [[Hs _]|(snapshot & rest & Hs)]; rewrite Hs in Ha; [done|].
  destruct rest as [|o rest]; [done|].
  exists o. unfold wants_slot. simpl. rewrite Hs. split_and!; [done| |done|done|by right].
  apply orb_true_iff. by repeat case_match.
Qed.

Lemma waiting_reason i c q x d :
  phase c q x -> of_subject x -> (forall a, q <> SRet a) -> (forall e, q <> SFail e) -> advance i (mkSTx c q x) d = None ->
  waits_for_row i (mkSTx c q x) d \/ waits_for_slot i (mkSTx c q x) d.
Proof.
  intros Hph Hord Hn1 Hn2 Ha.
  destruct Hph as [q x Hc Hs Hl Hr Ho Hn|newID req -> Ho|req q -> Hq|req row x -> Ho Hp|req row purged x -> Ho Hp
    |owner subject ->|owner subject x -> Ho Hr Hn|owner subject x -> Hp|owner subject label ->|owner subject label ->|owner ->
    |cutoff x -> Hr Hsh Hn|a x Hc Hd].
  - left. apply waits_plain; [done|done| | |done].
    + intros a ->. by destruct (Hn1 (Answered a)).
    + intros e ->. by destruct (Hn2 e).
  - right. unfold open_sprog in *. rewrite bool_decide_eq_false_2 in * by done. apply waits_fresh with (or_Owner req); [done|].
    unfold SlotSchedule.advance in Ha. cbn in Ha. left. by repeat case_match.
  - right. claim_cases; (apply waits_fresh with (cl_Owner req); [done|]); unfold SlotSchedule.advance in Ha; cbn in Ha.
    + apply slot_waits_fresh. by repeat case_match.
    + left. destruct (slot_rows (s_committed d) !! cl_Owner req); [apply slot_dirty_locked|]; by repeat case_match.
    + apply slot_waits_fresh. by repeat case_match.
  - left. by apply (waits_purge i _ (s_Subject row)).
  - unfold SlotSchedule.advance in Ha. cbn in Ha. rewrite slot_waits_held in Ha by done. by repeat case_match.
  - right. apply waits_fresh with owner; [done|]. unfold SlotSchedule.advance in Ha. cbn in Ha. apply slot_waits_fresh. by repeat case_match.
  - unfold SlotSchedule.advance in Ha. cbn in Ha. rewrite slot_waits_held in Ha by done. by repeat case_match.
  - left. by apply (waits_purge i _ subject).
  - right. apply waits_fresh with owner; [done|]. unfold SlotSchedule.advance in Ha. cbn in Ha. apply slot_waits_fresh. by repeat case_match.
  - unfold SlotSchedule.advance in Ha. cbn in Ha. by rewrite attempt_read in Ha.
  - unfold SlotSchedule.advance in Ha. cbn in Ha. by rewrite attempt_read in Ha.
  - right. by apply waits_release.
  - by destruct (Hn1 a).
Qed.

Lemma of_subject_reachable t d i x : s_reachable t d -> s_running d !! i = Some x -> of_subject (st_session x).
Proof.
  intros Hd. cut (s_reachable t d /\ forall i x, s_running d !! i = Some x -> of_subject (st_session x)); [intros [_ Hall]; apply Hall|].
  revert d Hd. clear i x. apply (rtc_ind_r (fun d => s_reachable t d /\ forall i x, s_running d !! i = Some x -> of_subject (st_session x))).
  { split; [apply rtc_refl|]. intros i x Hx. simpl in Hx. by rewrite lookup_empty in Hx. }
  intros d d' _ Hn [Hd IH]. split; [by eapply rtc_r|]. intros i x Hx. pose proof (tx_inv_reachable _ _ _ _ Hd) as Ht.
  apply step_changes in Hn. destruct Hn as [j c Hi Hc Hf|j z p y Hi Ha Hf|j z e|j z a Hi Hp]; simpl in Hx.
  - apply lookup_insert_Some in Hx as [[_ <-]|[_ Hx]]; [done|by eapply IH].
  - apply lookup_insert_Some in Hx as [[_ <-]|[_ Hx]]; [|by eapply IH].
    eapply of_subject_advance; [by eapply (inv_phase _ Ht)|by eapply IH|by rewrite stx_eta].
  - apply lookup_delete_Some in Hx as [_ Hx]. by eapply IH.
  - apply lookup_delete_Some in Hx as [_ Hx]. by eapply IH.
Qed.

Lemma other_true i P d : other i P d = true -> exists j y, j <> i /\ s_running d !! j = Some y /\ P (st_session y) = true.
Proof.
  unfold other. rewrite existsb_exists. intros ([j y] & Hin%list_elem_of_In%elem_of_map_to_list & Hb). simpl in Hb.
  apply andb_true_iff in Hb as [Hi%negb_true_iff%bool_decide_eq_false Hp]. by exists j, y.
Qed.

(** Nobody else deletes databases of the same subject, and nobody else releases slots. *)
Definition one_scan_each (d : slotstate) : Prop := forall i j x y,
  s_running d !! i = Some x -> s_running d !! j = Some y ->
  is_Some (purges x) /\ purges x = purges y \/ releases x = true /\ releases y = true -> i = j.

(** Transactions that all wait: who waits for a row waits for a purge, which waits for another purge of the
    same subject; and who waits for a slot waits for a release, which waits for another one. *)
Lemma not_all_wait d :
  s_running d <> ∅ -> one_scan_each d ->
  ~ (forall i x, s_running d !! i = Some x -> waits_for_row i x d \/ waits_for_slot i x d).
Proof.
  intros Hne Hone Hall.
  assert (forall i x k, s_running d !! i = Some x -> waits_for_row i x d -> wants_row x = Some k -> exists j y k',
    j <> i /\ s_running d !! j = Some y /\ purges y = Some (Subject k) /\ waits_for_row j y d /\
    wants_row y = Some k' /\ Subject k' = Subject k) as Hpurge.
  { intros i x k Hx (k1 & Hk & Hl & _) Hk'. assert (k1 = k) as -> by congruence. clear Hk Hk'. apply other_true in Hl as (j & y & Hj & Hy & Hb%bool_decide_eq_true).
    destruct (Hall j y Hy) as [Hw|(o & _ & _ & He & _)]; [|set_solver].
    pose proof Hw as (k' & Hk' & _ & [He|(s & Hp & Hs & Hsub)]); [set_solver|]. exists j, y, k'.
    rewrite (Hsub k Hb), Hs. by split_and!. }
  assert (forall i x, s_running d !! i = Some x -> ~ waits_for_row i x d) as Hrow.
  { intros i x Hx Hw. pose proof Hw as (k & Hk & _).
    destruct (Hpurge i x k Hx Hw Hk) as (j & y & k' & _ & Hy & Hp & Hwy & Hky & Hsub).
    destruct (Hpurge j y k' Hy Hwy Hky) as (m & z & _ & Hm & Hz & Hpz & _). apply Hm. symmetry. apply (Hone j m y z Hy Hz).
    left. rewrite Hp, Hpz, Hsub. split; [by eexists|done]. }
  assert (forall i x, s_running d !! i = Some x -> exists j y, j <> i /\ s_running d !! j = Some y /\ releases y = true) as Hslot.
  { intros i x Hx. destruct (Hall i x Hx) as [Hw|(o & _ & Hl & _)]; [by destruct (Hrow i x)|].
    destruct Hl as [Hl|Hl]; apply other_true in Hl as (j & y & Hj & Hy & Hb%bool_decide_eq_true);
      (destruct (Hall j y Hy) as [Hw|(o' & _ & _ & _ & Hsh & Hh)]; [by destruct (Hrow j y)|]); [|congruence].
    exists j, y. split_and!; [done|done|]. destruct Hh as [He|]; [set_solver|done]. }
  destruct (map_choose _ Hne) as (i & x & Hx). destruct (Hslot i x Hx) as (j & y & _ & Hy & Hry).
  destruct (Hslot j y Hy) as (m & z & Hm & Hz & Hrz). apply Hm. symmetry. apply (Hone j m y z Hy Hz). by right.
Qed.

Definition is_ret {A} (p : sprog A) : bool := match p with SRet _ => true | _ => false end.

#[local] Instance waiting_dec i x d : Decision (advance i x d = None /\ is_ret (st_prog x) = false).
Proof. destruct (advance i x d); [right; by intros []|]. destruct (is_ret (st_prog x)); [right; by intros []|by left]. Defined.

(** C7: Calls on slots and databases wait for each other only for good reason.  In every interleaving in
    which a transaction is running, the next statement or the commit of at least one of them can be
    executed, unless two running transactions delete the databases of the same subject at a time
    ([ClaimSlot] and [DeleteSlot] do), or two release unused slots.  Nothing is assumed of the order in
    which such a statement takes its rows; two of them can wait for each other
    ([purges_can_deadlock]), which PostgreSQL ends with an error. *)
Theorem slot_transactions_progress (t : Tables) (d : slotstate) :
  s_reachable t d -> s_running d <> ∅ -> one_scan_each d ->
  exists i d', s_step (SExec i) d = Some d' \/ s_step (SCommit i) d = Some d'.
Proof.
  intros Hd Hne Hone. pose proof (tx_inv_reachable _ _ _ _ Hd) as Ht.
  destruct (decide (map_Forall (fun i x => advance i x d = None /\ is_ret (st_prog x) = false) (s_running d))) as [Hall|Hex].
  - destruct (not_all_wait d Hne Hone). intros i x Hx. destruct (Hall i x Hx) as [Ha Hr]. rewrite <- (stx_eta x) in Ha |- *.
    apply waiting_reason; [by eapply (inv_phase _ Ht)|by eapply of_subject_reachable| | |done].
    + intros a Hp. by rewrite Hp in Hr.
    + intros e. by eapply running_not_failed.
  - apply map_not_Forall in Hex as (i & x & Hx & Hn); [|apply _]. exists i. simpl. rewrite Hx. simpl.
    destruct (advance i x d) as [[p y]|] eqn:Ha; [eexists; by left|]. destruct (st_prog x) as [a|e|B s next]; [eexists; by right| |];
      by destruct Hn.
Qed.
End progress.
