(* ===== verification/SlotSamples.v ===== *)
(** * Keys that race for a slot

    Interleavings at which the theorems on slots are applied, and two in which a key keeps a database that
    it should have lost. *)

From S2P Require Import Prelude Store Trace Samples Tables Postgres PgRel PgRefine PgSchedule SlotSchedule SlotFacts SlotRace SlotProgress.

Local Open Scope Z_scope.

Section race.
#[local] Existing Instance microseconds.

(** An order of the rows, which scans of transactions with an odd number take backwards. *)
Definition key_rank (i : nat) (_ : slotstate) (k : Key) : Z := if Nat.even i then Zpos (encode k) else Zneg (encode k).
Definition owner_rank (i : nat) (_ : slotstate) (o : string) : Z := if Nat.even i then Zpos (encode o) else Zneg (encode o).

Fixpoint s_run (es : list sevent) (d : slotstate) : option slotstate :=
  match es with
  | [] => Some d
  | e :: es => d ← s_step key_rank owner_rank e d; s_run es d
  end.

Definition s_after (es : list sevent) : slotstate := default (s_start empty_tables) (s_run es (s_start empty_tables)).

Lemma s_after_reachable es : s_reachable key_rank owner_rank empty_tables (s_after es).
Proof.
  unfold s_after. assert (forall d d', s_run es d = Some d' -> rtc (s_next key_rank owner_rank) d d') as Hrun.
  { induction es as [|e es IH]; intros d d' Hr; simpl in Hr; [simplify_eq; apply rtc_refl|].
    apply bind_Some in Hr as (d1 & H1 & Hr). eapply rtc_l; [by exists e|by apply IH]. }
  destruct (s_run es _) as [d|] eqn:Hd; simpl; [by apply Hrun|apply rtc_refl].
Qed.

Definition alice_request : OpenRequest :=
  mkOpenRequest kA "owner" (Some [x01]) 512 true false None (1000 * Microsecond) (100 * Microsecond).
Definition alice_opens : scall := On (Call (OpOpen [x0a] alice_request)).
Definition claims (subject : string) : scall := On (Call (OpClaimSlot (mkClaimRequest "owner" subject (1000 * Microsecond)))).

(** Alice's key has the slot and opens a database while Bob's key claims the slot: the claim waits. *)
Definition claim_waits : list sevent :=
  [SBegin 0 (claims "alice"); SExec 0; SExec 0; SCommit 0; SBegin 1 alice_opens; SExec 1; SBegin 2 (claims "bob")].
Definition alice_opened : list sevent := claim_waits ++ [SExec 1; SExec 1; SExec 1].
(** Then the claim deletes what she has opened. *)
Definition bob_claimed : list sevent := alice_opened ++ [SCommit 1; SExec 2; SExec 2; SExec 2; SExec 2; SExec 2].

Lemma claim_is_waiting : s_step key_rank owner_rank (SExec 2) (s_after claim_waits) = None.
Proof. vm_compute. reflexivity. Qed.

Definition tx_at (i : nat) (es : list sevent) : stransaction :=
  default (mkSTx (claims EmptyString) (SFail rolled_back) fresh_session) (s_running (s_after es) !! i).
Definition committed_by (i : nat) (es : list sevent) : slotstate :=
  default (s_after es) (s_step key_rank owner_rank (SCommit i) (s_after es)).

Lemma tx_at_running i es : bool_decide (is_Some (s_running (s_after es) !! i)) = true -> s_running (s_after es) !! i = Some (tx_at i es).
Proof. intros [x Hx]%bool_decide_eq_true. unfold tx_at. by rewrite Hx. Qed.

Lemma committed_by_step i es :
  bool_decide (is_Some (s_step key_rank owner_rank (SCommit i) (s_after es))) = true ->
  s_step key_rank owner_rank (SCommit i) (s_after es) = Some (committed_by i es).
Proof. intros [x Hx]%bool_decide_eq_true. unfold committed_by. by rewrite Hx. Qed.

Lemma opens_hold_the_slot_witness :
  (exists row, slot_rows (s_committed (committed_by 1 alice_opened)) !! "owner"%string = Some row /\ s_Subject row = "alice"%string) \/
  exists d0 x0, s_reachable key_rank owner_rank empty_tables d0 /\ rtc (s_next key_rank owner_rank) d0 (s_after alice_opened) /\
    s_running d0 !! 1%nat = Some x0 /\ st_call x0 = st_call (tx_at 1 alice_opened) /\ slot_rows (s_committed d0) !! "owner"%string = None.
Proof.
  refine (opens_hold_the_slot key_rank owner_rank empty_tables (s_after alice_opened) (committed_by 1 alice_opened) 1 (tx_at 1 alice_opened)
    [x0a] alice_request (s_after_reachable alice_opened) (tx_at_running 1 alice_opened _) _ _ (committed_by_step 1 alice_opened _));
    [vm_compute; reflexivity|vm_compute; reflexivity|discriminate|vm_compute; reflexivity].
Defined.

Definition bob_result : ClaimResult :=
  mkClaimResult (mkSlot "bob" EmptyString (1000 * Microsecond)) (Some (mkSlot "alice" EmptyString (1000 * Microsecond))) [kA].

Lemma claims_delete_databases_witness :
  slot_rows (s_committed (committed_by 2 bob_claimed)) !! "owner"%string = Some (mkSlotRow "bob" EmptyString (1000 * Microsecond)) /\
  exists d0 x0, s_reachable key_rank owner_rank empty_tables d0 /\ rtc (s_next key_rank owner_rank) d0 (s_after bob_claimed) /\
    s_running d0 !! 2%nat = Some x0 /\ "owner"%string ∈ slots_held (st_session x0) /\
    forall k, Subject k = "alice"%string -> is_Some (databases (s_committed (committed_by 2 bob_claimed)) !! k) ->
      exists e, e ∈ drop (length (s_log d0)) (s_log (s_after bob_claimed)) /\ opened k e /\ e_shared e <> Some "owner"%string.
Proof.
  refine (claims_delete_databases key_rank owner_rank empty_tables (s_after bob_claimed) (committed_by 2 bob_claimed) 2 (tx_at 2 bob_claimed)
    (mkClaimRequest "owner" "bob" (1000 * Microsecond)) bob_result (mkSlot "alice" EmptyString (1000 * Microsecond))
    (s_after_reachable bob_claimed) (tx_at_running 2 bob_claimed _) _ _ eq_refl (committed_by_step 2 bob_claimed _));
    vm_compute; reflexivity.
Defined.

(** The claim of Bob's key has found her database, and Carol's key claims the slot too. *)
Definition claim_purges : list sevent := alice_opened ++ [SCommit 1; SExec 2; SExec 2; SBegin 3 (claims "carol")].

Lemma claim_purges_running :
  s_running (s_after claim_purges) !! 2%nat = Some (tx_at 2 claim_purges) /\
  s_running (s_after claim_purges) !! 3%nat = Some (tx_at 3 claim_purges) /\
  s_step key_rank owner_rank (SExec 3) (s_after claim_purges) = None.
Proof. split_and!; [apply tx_at_running; vm_compute; reflexivity..|vm_compute; reflexivity]. Qed.

(** [one_scan_each], evaluated. *)
Definition one_scan (d : slotstate) : bool :=
  forallb (fun e => forallb (fun f => bool_decide (e.1 = f.1) ||
    negb (bool_decide (is_Some (purges e.2)) && bool_decide (purges e.2 = purges f.2) || releases e.2 && releases f.2))
    (map_to_list (s_running d))) (map_to_list (s_running d)).

Lemma one_scan_true d : one_scan d = true -> one_scan_each d.
Proof.
  unfold one_scan. rewrite forallb_forall. intros Hall i j x y Hx Hy Hs.
  specialize (Hall (i, x)). rewrite forallb_forall in Hall. rewrite <- elem_of_map_to_list in Hx, Hy.
  specialize (Hall (proj1 (list_elem_of_In _ _) Hx) (j, y) (proj1 (list_elem_of_In _ _) Hy)). simpl in Hall.
  apply orb_true_iff in Hall as [?%bool_decide_eq_true|Hn]; [done|]. exfalso. revert Hn.
  destruct Hs as [[Hp He]|[-> ->]]; [|by rewrite orb_true_r].
  by rewrite (bool_decide_eq_true_2 _ Hp), (bool_decide_eq_true_2 _ He).
Qed.

Lemma slot_transactions_progress_witness :
  exists i d', s_step key_rank owner_rank (SExec i) (s_after claim_purges) = Some d' \/
    s_step key_rank owner_rank (SCommit i) (s_after claim_purges) = Some d'.
Proof.
  refine (slot_transactions_progress key_rank owner_rank empty_tables (s_after claim_purges) (s_after_reachable claim_purges) _
    (one_scan_true _ _)); [|vm_compute; reflexivity].
  intros He. pose proof (proj1 claim_purges_running) as Hr. rewrite He, lookup_empty in Hr. discriminate Hr.
Defined.

(** Alice's key has the slots of two owners and two databases.  Two keys claim the slots, and the two
    transactions delete her databases in opposite orders: each has a row that the other one waits for. *)
Definition opens_db (db : string) : scall :=
  On (Call (OpOpen [x0a] (mkOpenRequest (mkKey "alice" db) EmptyString (Some [x01]) 512 true false None (1000 * Microsecond) (100 * Microsecond)))).
Definition claims_of (owner subject : string) : scall := On (Call (OpClaimSlot (mkClaimRequest owner subject (1000 * Microsecond)))).

Definition deadlock : list sevent :=
  [SBegin 0 (opens_db "a"); SExec 0; SExec 0; SExec 0; SCommit 0; SBegin 0 (opens_db "b"); SExec 0; SExec 0; SExec 0; SCommit 0;
   SBegin 0 (claims_of "one" "alice"); SExec 0; SExec 0; SCommit 0; SBegin 0 (claims_of "two" "alice"); SExec 0; SExec 0; SCommit 0;
   SBegin 0 (claims_of "one" "bob"); SExec 0; SExec 0; SExec 0;
   SBegin 1 (claims_of "two" "carol"); SExec 1; SExec 1; SExec 1].

Lemma purges_can_deadlock :
  map fst (map_to_list (s_running (s_after deadlock))) = [1; 0]%nat /\
  forallb (fun i => negb (bool_decide (is_Some (s_step key_rank owner_rank (SExec i) (s_after deadlock)))) &&
    negb (bool_decide (is_Some (s_step key_rank owner_rank (SCommit i) (s_after deadlock))))) [0; 1]%nat = true.
Proof. split; vm_compute; reflexivity. Qed.

(** ** Opens that slip through *)

(** Alice's key looks for a slot when there is none, and goes on after her key has claimed the slot and lost
    it to Bob's: the claim has deleted nothing, and her key has a database and a lease although Bob's
    key holds the slot. *)
Definition late_open : list sevent :=
  [SBegin 1 alice_opens; SExec 1; SBegin 0 (claims "alice"); SExec 0; SExec 0; SCommit 0;
   SBegin 2 (claims "bob"); SExec 2; SExec 2; SExec 2; SExec 2; SCommit 2; SExec 1; SExec 1; SExec 1; SCommit 1].

Lemma late_open_survives :
  s_running (s_after late_open) = ∅ /\
  s_Subject <$> slot_rows (s_committed (s_after late_open)) !! "owner"%string = Some "bob"%string /\
  d_LeaseHolder <$> databases (s_committed (s_after late_open)) !! kA = Some (Some [x01]).
Proof. split_and!; vm_compute; reflexivity. Qed.

(** In no order of the three calls, one after the other, is this the result. *)
Definition three_calls : list op :=
  [OpOpen [x0a] alice_request; OpClaimSlot (mkClaimRequest "owner" "alice" (1000 * Microsecond));
   OpClaimSlot (mkClaimRequest "owner" "bob" (1000 * Microsecond))].

Definition bob_and_alice (t : Tables) : bool :=
  bool_decide (s_Subject <$> slot_rows t !! "owner"%string = Some "bob"%string) && bool_decide (is_Some (databases t !! kA)).

Lemma late_open_not_serial :
  bob_and_alice (s_committed (s_after late_open)) = true /\
  forallb (fun ops => negb (bob_and_alice (foldl (fun t o => (step o t).1) empty_tables ops))) (permutations three_calls) = true.
Proof. split; vm_compute; reflexivity. Qed.

(** The release of unused slots reads its snapshot before Alice's key commits its first database, waits for
    the lock that [Open] has on the slot, and then releases the slot of a key in use. *)
Definition release_race : list sevent :=
  [SBegin 0 (claims "alice"); SExec 0; SExec 0; SCommit 0; SBegin 1 alice_opens; SExec 1;
   SBegin 2 (ReleaseUnused (1001 * Microsecond)); SExec 2; SExec 1; SExec 1; SExec 1; SCommit 1; SExec 2; SExec 2; SCommit 2].

Lemma release_takes_slot_in_use :
  s_running (s_after release_race) = ∅ /\
  slot_rows (s_committed (s_after release_race)) !! "owner"%string = None /\
  d_LeaseHolder <$> databases (s_committed (s_after release_race)) !! kA = Some (Some [x01]).
Proof. split_and!; vm_compute; reflexivity. Qed.
End race.
