(* ===== verification/Migrations.v ===== *)
(** * The migrations of the schema: [src/migrations]

    The SQL files that [Migrate] applies, as functions on the tables of one version of the schema and the
    next.  A fresh database starts with the empty tables of version 1; the ones after the last
    migration are those of [Tables.v]. *)

From S2P Require Import Prelude Store StoreFacts Memory Trace MemoryInv MemoryCommit Samples Tables Postgres PgRel.

Local Open Scope Z_scope.

(** ** The versions of the schema *)

(** The row of a database before there was a column [deleted]. *)
Record Row1 := mkRow1 {
  r1_PageSize : Z;
  r1_PageCount : Z;
  r1_Version : Z;
  r1_LastCommitID : slice;
  r1_LeaseEpoch : Z;
  r1_LeaseID : slice;
  r1_LeaseHolder : slice;
  r1_LeaseGranted : timestamptz;
  r1_LeaseExpires : timestamptz }.

(** [00001_databases.sql]: a block is one row. *)
Record Schema1 := mkSchema1 {
  m1_databases : gmap Key Row1;
  m1_blocks : gmap (Key * Z) bytes }.

(** [00002_changes.sql] *)
Record Schema2 := mkSchema2 {
  m2_databases : gmap Key Row1;
  m2_blocks : gmap (Key * Z) bytes;
  m2_changes : gmap (Key * Z) (list Z) }.

(** [00003_block_parts.sql]: a block is a row per kilobyte. *)
Record Schema3 := mkSchema3 {
  m3_databases : gmap Key Row1;
  m3_blocks : gmap (Key * Z * Z) bytes;
  m3_changes : gmap (Key * Z) (list Z) }.

(** [00004_deleted.sql] *)
Record Schema4 := mkSchema4 {
  m4_databases : gmap Key Database;
  m4_blocks : gmap (Key * Z * Z) bytes;
  m4_changes : gmap (Key * Z) (list Z) }.

(** ** Up *)

Definition up1 : Schema1 := mkSchema1 ∅ ∅.

Definition up2 (s : Schema1) : Schema2 := mkSchema2 (m1_databases s) (m1_blocks s) ∅.

(** [substring(data FROM from FOR n)], for a start of at least 1. *)
Definition substring (data : bytes) (from n : Z) : bytes := take (Z.to_nat n) (drop (Z.to_nat (from - 1)) data).

(** [generate_series(0, (length(data) - 1) / 1024)]: the division truncates. *)
Definition part_series (data : bytes) : list Z := seqZ 0 (Z.quot (zlen data - 1) 1024 + 1).

Definition part_rows (e : Key * Z * bytes) : list (Key * Z * Z * bytes) :=
  (fun p => ((e.1.1, e.1.2, p), substring e.2 (p * 1024 + 1) 1024)) <$> part_series e.2.

Definition max_smallint : Z := 32767.

(** The rows are inserted for every block; a part number that is no [smallint] ends the migration with an
    error. *)
Definition up3 (s : Schema2) : option Schema3 :=
  let rows := e ← map_to_list (m2_blocks s); part_rows e in
  if forallb (fun r => r.1.2 <=? max_smallint) rows then
    Some (mkSchema3 (m2_databases s) (list_to_map rows) (m2_changes s))
  else None.

Definition add_deleted (r : Row1) : Database :=
  mkRow (r1_PageSize r) (r1_PageCount r) (r1_Version r) (r1_LastCommitID r) (r1_LeaseEpoch r) (r1_LeaseID r)
    (r1_LeaseHolder r) (r1_LeaseGranted r) (r1_LeaseExpires r) false.

Definition up4 (s : Schema3) : Schema4 := mkSchema4 (add_deleted <$> m3_databases s) (m3_blocks s) (m3_changes s).

Definition up5 (s : Schema4) : Tables := mkTables (m4_databases s) (m4_blocks s) (m4_changes s) ∅.

(** All migrations after the first one. *)
Definition migrate (s : Schema1) : option Tables := s ← up3 (up2 s); Some (up5 (up4 s)).

(** ** Down *)

Definition down5 (t : Tables) : Schema4 := mkSchema4 (databases t) (block_parts t) (change_log t).

Definition drop_deleted (r : Database) : Row1 :=
  mkRow1 (d_PageSize r) (d_PageCount r) (d_Version r) (d_LastCommitID r) (d_LeaseEpoch r) (d_LeaseID r)
    (d_LeaseHolder r) (d_LeaseGranted r) (d_LeaseExpires r).

(** [DELETE FROM databases WHERE deleted], with the rows that refer to a deleted one. *)
Definition down4 (s : Schema4) : Schema3 :=
  let gone (k : Key) := d_Deleted <$> m4_databases s !! k = Some true in
  mkSchema3 (drop_deleted <$> filter (fun e => d_Deleted e.2 = false) (m4_databases s))
    (filter (fun e => ~ gone e.1.1.1) (m4_blocks s)) (filter (fun e => ~ gone e.1.1) (m4_changes s)).

Definition part_order (a b : Z * bytes) : Prop := a.1 <= b.1.

#[export] Instance part_order_decision a b : Decision (part_order a b).
Proof. unfold part_order. apply _. Defined.

(** [string_agg(data, '' ORDER BY part)] of one group. *)
Definition string_agg (parts : list (Z * bytes)) : bytes := concat (merge_sort part_order parts).*2.

Definition parts_of (k : Key) (i : Z) (m : gmap (Key * Z * Z) bytes) : list (Z * bytes) :=
  (fun e => (e.1.2, e.2)) <$> filter (fun e => e.1.1 = (k, i)) (map_to_list m).

(** [GROUP BY subject, db_id, idx] *)
Definition groups (m : gmap (Key * Z * Z) bytes) : gset (Key * Z) := list_to_set ((fun e => e.1.1) <$> map_to_list m).

Definition down3 (s : Schema3) : Schema2 :=
  mkSchema2 (m3_databases s)
    (list_to_map ((fun g => (g, string_agg (parts_of g.1 g.2 (m3_blocks s)))) <$> elements (groups (m3_blocks s))))
    (m3_changes s).

Definition down2 (s : Schema2) : Schema1 := mkSchema1 (m2_databases s) (m2_blocks s).

(** Back to version 1. *)
Definition rollback (t : Tables) : Schema1 := down2 (down3 (down4 (down5 t))).

(** ** Rows *)

(** A list of rows in which a key has one value, as a map. *)
Lemma rows_lookup {K A} `{Countable K} (l : list (K * A)) (i : K) (o : option A) :
  (forall x, (i, x) ∈ l <-> o = Some x) -> (list_to_map l : gmap K A) !! i = o.
Proof.
  intros Hl. destruct o as [x|].
  - apply elem_of_list_to_map_1'; [|by apply Hl]. intros y Hy. apply Hl in Hy. congruence.
  - apply not_elem_of_list_to_map_1. intros ([i' x] & -> & Hx)%list_elem_of_fmap. by apply Hl in Hx.
Qed.

Lemma elem_of_series data p : p ∈ part_series data <-> 0 <= p /\ (p = 0 \/ p * 1024 < zlen data).
Proof.
  unfold part_series. rewrite elem_of_seqZ. pose proof (zlen_nonneg data) as Hl.
  destruct (decide (zlen data = 0)) as [->|Hne].
  - change (Z.quot (0 - 1) 1024) with 0. lia.
  - rewrite Z.quot_div_nonneg by lia. Z.div_mod_to_equations. lia.
Qed.

Definition part_at (data : bytes) (p : Z) : option bytes :=
  if decide (p ∈ part_series data) then Some (substring data (p * 1024 + 1) 1024) else None.

Lemma elem_of_part_rows (m : gmap (Key * Z) bytes) k i p x :
  ((k, i, p), x) ∈ (e ← map_to_list m; part_rows e) <-> (data ← m !! (k, i); part_at data p) = Some x.
Proof.
  rewrite list_elem_of_bind. split.
  - intros ([[k' i'] data] & Hx & He). apply elem_of_map_to_list in He. unfold part_rows in Hx.
    apply list_elem_of_fmap in Hx as (p' & [= -> -> -> ->] & Hp). rewrite He. simpl. unfold part_at.
    by rewrite decide_True.
  - destruct (m !! (k, i)) as [data|] eqn:He; simpl; [|done]. unfold part_at. case_decide as Hp; [|done]. intros [= <-].
    exists ((k, i), data). split; [|by apply elem_of_map_to_list]. unfold part_rows. apply list_elem_of_fmap. by exists p.
Qed.

Lemma up3_blocks s s' k i p :
  up3 s = Some s' -> m3_blocks s' !! (k, i, p) = (data ← m2_blocks s !! (k, i); part_at data p).
Proof.
  unfold up3. destruct (forallb _ _); [|done]. intros [= <-]. simpl. apply rows_lookup. intros x. apply elem_of_part_rows.
Qed.

Lemma up3_rest s s' : up3 s = Some s' -> m3_databases s' = m2_databases s /\ m3_changes s' = m2_changes s.
Proof. unfold up3. destruct (forallb _ _); [|done]. by intros [= <-]. Qed.

(** Blocks of up to 32 megabytes have part numbers that are [smallint]s. *)
Lemma up3_runs s : map_Forall (fun _ d => zlen d <= 33554432) (m2_blocks s) -> is_Some (up3 s).
Proof.
  intros Hs. unfold up3. rewrite (proj2 (forallb_forall _ _)); [by eexists|]. intros [[[k i] p] x] Hin%list_elem_of_In.
  apply elem_of_part_rows in Hin. destruct (m2_blocks s !! (k, i)) as [data|] eqn:Hd; [|done]. simpl in Hin.
  unfold part_at in Hin. case_decide as Hp; [|done]. apply elem_of_series in Hp. pose proof (Hs _ _ Hd). simpl in *.
  apply Z.leb_le. unfold max_smallint. lia.
Qed.

(** ** The parts of a block put together *)

Lemma concat_parts data n :
  concat ((fun p => substring data (p * 1024 + 1) 1024) <$> seqZ 0 (Z.of_nat n)) = take (n * 1024) data.
Proof.
  induction n as [|n IH]; [done|]. rewrite seqZ_S, fmap_app, concat_app, IH. simpl concat.
  rewrite app_nil_r. unfold substring. replace (Z.to_nat ((0 + Z.of_nat n) * 1024 + 1 - 1)) with (n * 1024)%nat by lia. change (Z.to_nat 1024) with 1024%nat.
  rewrite take_take_drop. f_equal. lia.
Qed.

Lemma concat_series data : concat ((fun p => substring data (p * 1024 + 1) 1024) <$> part_series data) = data.
Proof.
  unfold part_series. pose proof (zlen_nonneg data). 
  assert (0 <= Z.quot (zlen data - 1) 1024 + 1 /\ zlen data <= (Z.quot (zlen data - 1) 1024 + 1) * 1024) as [H0 Hl].
  { destruct (decide (zlen data = 0)) as [->|Hne]; [done|]. rewrite Z.quot_div_nonneg by lia. Z.div_mod_to_equations. lia. }
  rewrite <- (Z2Nat.id (Z.quot _ _ + 1)) by done. rewrite concat_parts. apply take_ge. unfold zlen in *. lia.
Qed.

#[export] Instance part_order_total : Total part_order.
Proof. intros a b. unfold part_order. lia. Qed.

#[export] Instance part_order_trans : Transitive part_order.
Proof. intros a b d. unfold part_order. lia. Qed.

Lemma sorted_series (g : Z -> bytes) m n : StronglySorted part_order ((fun p => (p, g p)) <$> seqZ m n).
Proof.
  destruct (decide (0 <= n)) as [Hn|Hn]; [|rewrite seqZ_nil by lia; constructor].
  revert m. pattern n. apply natlike_ind; [intros m; constructor| |done]. clear n Hn. intros n Hn IH m.
  rewrite seqZ_cons, Z.pred_succ by lia. simpl. constructor; [apply IH|].
  apply Forall_forall. intros [p d] (p' & [= -> _] & Hp)%list_elem_of_fmap. apply elem_of_seqZ in Hp. unfold part_order. simpl. lia.
Qed.

(** The group of a block has its parts. *)
Lemma parts_of_block (m : gmap (Key * Z * Z) bytes) k i data :
  (forall p, m !! (k, i, p) = part_at data p) ->
  parts_of k i m ≡ₚ (fun p => (p, substring data (p * 1024 + 1) 1024)) <$> part_series data.
Proof.
  intros Hm. apply NoDup_Permutation.
  - unfold parts_of. apply NoDup_fmap_2_strong; [|apply NoDup_filter, NoDup_map_to_list].
    intros [[[k1 i1] p1] d1] [[[k2 i2] p2] d2] H1 H2 [= -> ->]. apply list_elem_of_filter in H1 as [[= -> ->] _], H2 as [[= -> ->] _]. done.
  - apply NoDup_fmap_2; [intros ?? [= ? _]; done|]. apply NoDup_seqZ.
  - intros [p d]. unfold parts_of. rewrite !list_elem_of_fmap. split.
    + intros ([[[k' i'] p'] d'] & [= -> ->] & [[= -> ->] Hin]%list_elem_of_filter). apply elem_of_map_to_list in Hin.
      simpl in *. rewrite Hm in Hin. unfold part_at in Hin. case_decide; [|done]. injection Hin as <-. by exists p'.
    + intros (p' & [= -> ->] & Hp). exists ((k, i, p'), substring data (p' * 1024 + 1) 1024). split; [done|].
      apply list_elem_of_filter. split; [done|]. apply elem_of_map_to_list. rewrite Hm. unfold part_at. by rewrite decide_True.
Qed.

Lemma string_agg_block (m : gmap (Key * Z * Z) bytes) k i data :
  (forall p, m !! (k, i, p) = part_at data p) -> string_agg (parts_of k i m) = data.
Proof.
  intros Hm. unfold string_agg. pose proof (parts_of_block m k i data Hm) as Hperm.
  replace (merge_sort part_order (parts_of k i m)) with ((fun p => (p, substring data (p * 1024 + 1) 1024)) <$> part_series data).
  - rewrite <- list_fmap_compose. apply concat_series.
  - apply (StronglySorted_unique_strong part_order).
    + intros [p1 d1] [p2 d2] H1 H2 Ha Hb. unfold part_order in *. simpl in *. assert (p1 = p2) as -> by lia.
      rewrite merge_sort_Permutation, Hperm in H2. apply list_elem_of_fmap in H1 as (? & [= -> ->] & _), H2 as (? & [= -> ->] & _). done.
    + apply sorted_series.
    + apply (StronglySorted_merge_sort part_order).
    + by rewrite merge_sort_Permutation, Hperm.
Qed.

Lemma elem_of_groups (m : gmap (Key * Z * Z) bytes) k i : (k, i) ∈ groups m <-> exists p, is_Some (m !! (k, i, p)).
Proof.
  unfold groups. rewrite elem_of_list_to_set, list_elem_of_fmap. split.
  - intros ([[g p] d] & -> & Hin). apply elem_of_map_to_list in Hin. exists p. by exists d.
  - intros (p & d & Hd). exists ((k, i, p), d). split; [done|]. by apply elem_of_map_to_list.
Qed.

(** Splitting the blocks and joining the parts again. *)
Lemma down3_up3 s s' : up3 s = Some s' -> down3 s' = s.
Proof.
  intros Hs. pose proof (up3_rest s s' Hs) as [Hd Hc]. pose proof (up3_blocks s s') as Hb.
  destruct s as [ds bs cs]. unfold down3. simpl in *. rewrite Hd, Hc. f_equal.
  apply map_eq. intros [k i]. apply rows_lookup. intros x. rewrite list_elem_of_fmap. split.
  - intros ([k' i'] & [= -> -> ->] & Hg). apply elem_of_elements, elem_of_groups in Hg as (p & Hp).
    destruct (bs !! (k', i')) as [data|] eqn:Hdata.
    + f_equal. symmetry. apply string_agg_block. intros q. rewrite Hb by done. by rewrite Hdata.
    + rewrite Hb, Hdata in Hp by done. by destruct Hp.
  - intros Hdata. exists (k, i). split.
    + f_equal. symmetry. apply string_agg_block. intros q. simpl. rewrite Hb by done. by rewrite Hdata.
    + apply elem_of_elements, elem_of_groups. exists 0. rewrite Hb, Hdata by done. simpl. unfold part_at.
      rewrite decide_True; [by eexists|]. apply elem_of_series. lia.
Qed.

(** Nothing is deleted when the column is new. *)
Lemma down4_up4 s : down4 (up4 s) = s.
Proof.
  destruct s as [ds bs cs]. unfold down4, up4. simpl. f_equal.
  - rewrite map_filter_id by (intros k r (r1 & <- & _)%lookup_fmap_Some; done). rewrite <- map_fmap_compose.
    etrans; [|apply map_fmap_id]. apply map_fmap_ext. by intros k [].
  - apply map_filter_id. intros [[k i] p] d _. simpl. rewrite lookup_fmap. by destruct (ds !! k).
  - apply map_filter_id. intros [k v] d _. simpl. rewrite lookup_fmap. by destruct (ds !! k).
Qed.

(** C36: The migrations can be undone.  Whatever the tables of the first version hold, migrating them to the
    current schema and back restores them: the parts of every block are put together to the block, and
    no row is lost or added. *)
Theorem migrations_undone (s : Schema1) (t : Tables) : migrate s = Some t -> rollback t = s.
Proof.
  unfold migrate. intros (s3 & H3 & [= <-])%bind_Some. unfold rollback.
  change (down5 (up5 (up4 s3))) with (up4 s3). rewrite down4_up4, (down3_up3 _ _ H3). by destruct s.
Qed.

(** ** What the migrated tables hold *)

(** What the first version of the store kept: rows of databases with a lease, and the blocks of databases
    that exist, of the page size and within the page count. *)
Record wf_row1 (n : Z) (r : Row1) : Prop := {
  w1_pagesize : ValidPageSize (r1_PageSize r) = true;
  w1_pagecount : 0 <= r1_PageCount r < two63;
  w1_version : 0 <= r1_Version r <= n;
  w1_epoch : 0 <= r1_LeaseEpoch r <= n;
  w1_times : is_Some (r1_LeaseGranted r) /\ is_Some (r1_LeaseExpires r) }.

Record wf_schema1 (n : Z) (s : Schema1) : Prop := {
  w1_rows : map_Forall (fun _ => wf_row1 n) (m1_databases s);
  w1_blocks : map_Forall (fun ki d => exists r, m1_databases s !! ki.1 = Some r /\
    0 <= ki.2 < r1_PageCount r /\ zlen d = r1_PageSize r) (m1_blocks s) }.

(** The blocks of one database. *)
Definition blocks_at (k : Key) (m : gmap (Key * Z) bytes) : gmap Z bytes :=
  list_to_map ((fun e => (e.1.2, e.2)) <$> filter (fun e => e.1.1 = k) (map_to_list m)).

Definition database_of (s : Schema1) (k : Key) (r : Row1) : database :=
  mkDatabase false (mkState (r1_PageSize r) (r1_PageCount r) (r1_Version r) (r1_LastCommitID r)) (blocks_at k (m1_blocks s)) []
    (mkLease (r1_LeaseID r) (r1_LeaseEpoch r)) (r1_LeaseHolder r) (default 0 (r1_LeaseGranted r)) (default 0 (r1_LeaseExpires r)).

(** The memory store with the same databases; the change log begins with the migration. *)
Definition store_of (s : Schema1) : MemStore := mkStore (map_imap (fun k r => Some (database_of s k r)) (m1_databases s)) ∅.

Lemma blocks_at_lookup k m i : blocks_at k m !! i = m !! (k, i).
Proof.
  apply rows_lookup. intros x. rewrite list_elem_of_fmap. split.
  - intros ([[k' i'] d] & [= -> ->] & [Hk Hin]%list_elem_of_filter). simpl in Hk. subst k'. by apply elem_of_map_to_list.
  - intros Hd. exists ((k, i), x). split; [done|]. apply list_elem_of_filter. split; [done|]. by apply elem_of_map_to_list.
Qed.

(** The parts that the migration writes are those that the store reads. *)
Lemma part_at_of data p : 0 < zlen data -> part_at data p = part_of data p.
Proof.
  intros Hd. unfold part_at, part_of, substring, partBytes.
  destruct ((0 <=? p) && (p * 1024 <? zlen data)) eqn:Hp.
  - apply andb_true_iff in Hp as [H0%Z.leb_le Hl%Z.ltb_lt]. rewrite decide_True by (apply elem_of_series; lia).
    do 3 f_equal. lia.
  - rewrite decide_False; [done|]. rewrite elem_of_series. intros [H0 Hl].
    apply andb_false_iff in Hp as [Hp%Z.leb_gt|Hp%Z.ltb_ge]; destruct Hl; lia.
Qed.

Lemma wf_store_of n s : wf_schema1 n s -> wf_store n (store_of s).
Proof.
  intros [Hr Hb] k db Hdb. simpl in Hdb. rewrite map_lookup_imap in Hdb. apply bind_Some in Hdb as (r & Hk & [= <-]).
  destruct (Hr _ _ Hk). constructor; simpl; try done.
  - unfold in_u64. zlia.
  - intros i d Hd. rewrite blocks_at_lookup in Hd. destruct (Hb _ _ Hd) as (r' & Hr' & Hi & Hl). simpl in *. by simplify_eq.
  - split_and!; [done|unfold zlen; simpl; lia|done].
Qed.

(** C35: The migrations keep what the first version of the store held.  They succeed, and the migrated tables
    hold the same databases with their pages, versions and leases: they are in the refinement relation
    with the memory store that has them, with an empty change log and no slots, so that every later
    call is answered from them. *)
Theorem migrations_keep_databases (n : Z) (s : Schema1) :
  wf_schema1 n s -> exists t, migrate s = Some t /\ rel t (store_of s) /\ wf_store n (store_of s).
Proof.
  intros Hw. pose proof (wf_store_of n s Hw) as Hst. destruct Hw as [Hr Hb].
  assert (forall k i d, m1_blocks s !! (k, i) = Some d -> 0 < zlen d <= 65536) as Hsize.
  { intros k i d Hd. destruct (Hb _ _ Hd) as (r & Hk & _ & ->). pose proof (ValidPageSize_range _ (w1_pagesize _ _ (Hr _ _ Hk))).
    unfold MinPageSize, MaxPageSize in *. lia. }
  destruct (up3_runs (up2 s)) as [s3 H3].
  { intros [k i] d Hd. specialize (Hsize k i d Hd). lia. }
  exists (up5 (up4 s3)). unfold migrate. rewrite H3. split_and!; [done| |done].
  destruct (up3_rest _ _ H3) as [Hdb Hch]. split; [|by intros o].
  intros k. unfold rel_key. simpl. rewrite Hdb, lookup_fmap, map_lookup_imap. simpl.
  assert (forall i p, m3_blocks s3 !! (k, i, p) = (d ← m1_blocks s !! (k, i); part_of d p)) as Hparts.
  { intros i p. rewrite (up3_blocks _ _ _ _ _ H3). simpl. destruct (m1_blocks s !! (k, i)) as [d|] eqn:Hd; simpl; [|done].
    apply part_at_of, (Hsize k i d Hd). }
  destruct (m1_databases s !! k) as [r|] eqn:Hk; simpl.
  - destruct (Hr _ _ Hk) as [_ Hpc _ _ [[g Hg] [e He]]]. split_and!.
    + constructor; simpl; try done. lia.
    + intros _. unfold rel_times. simpl. by rewrite Hg, He.
    + intros i p. simpl. by rewrite Hparts, blocks_at_lookup.
    + intros v. simpl. by rewrite Hch.
  - split; [|intros v; simpl; by rewrite Hch]. intros i p. simpl. rewrite Hparts, lookup_empty.
    destruct (m1_blocks s !! (k, i)) as [d|] eqn:Hd; [|done]. destruct (Hb _ _ Hd) as (r & Hr' & _). simpl in Hr'. congruence.
Qed.

(** A fresh database gets the tables that the store starts with. *)
Lemma fresh_tables_empty : migrate up1 = Some empty_tables.
Proof. vm_compute. reflexivity. Qed.

(** ** A database of two pages of two kilobytes *)

Definition old_page (b : Byte.byte) : bytes := replicate 1024 b ++ replicate 1024 x00.

Definition old_schema : Schema1 :=
  mkSchema1 {[kA := mkRow1 2048 2 5 (Some [x61]) 3 (Some [x0a]) (Some [x01]) (Some (1000 * Microsecond)) (Some (1100 * Microsecond))]}
    {[(kA, 0) := old_page x01; (kA, 1) := old_page x02]}.

Definition new_tables : Tables := Eval vm_compute in default empty_tables (migrate old_schema).

Lemma migrations_undone_witness : size (block_parts new_tables) = 4%nat /\ rollback new_tables = old_schema.
Proof.
  split; [vm_compute; reflexivity|]. apply (migrations_undone old_schema new_tables). vm_compute. reflexivity.
Defined.

Lemma old_schema_wf : wf_schema1 5 old_schema.
Proof.
  split.
  - apply map_Forall_singleton. constructor; simpl; try done. all: eauto.
  - intros [k i] d Hd. unfold old_schema in *. simpl in *.
    apply lookup_insert_Some in Hd as [[[= <- <-] <-]|[_ Hd]]; [|apply lookup_singleton_Some in Hd as [[= <- <-] <-]];
      eexists; (split; [apply lookup_singleton_eq|]); by split.
Qed.

(** The store reads the second page after the migration. *)
Lemma migrations_keep_databases_witness :
  Postgres.Fetch kA 5 1 1 new_tables = Ok [old_page x02] /\
  exists t, migrate old_schema = Some t /\ rel t (store_of old_schema) /\ wf_store 5 (store_of old_schema).
Proof.
  split; [vm_compute; reflexivity|]. exact (migrations_keep_databases 5 old_schema old_schema_wf).
Defined.
