(* ===== verification/Client.v ===== *)
(** * Clients of a store

    A program that uses a store through its interface: it makes a call, looks at the answer and goes
    on.  The same program can be run on any implementation.  What the store draws from its
    environment (the random bytes of a lease ID and the order in which it enumerates its databases)
    comes from the [Host], not from the program.  On the memory store and on PostgreSQL every
    well-typed program has the same result. *)

From S2P Require Import Prelude Store StoreFacts Memory Trace MemoryInv MemoryStep MemoryCommit MemoryHistory Samples Typed Tables Postgres PgRel PgLease PgRefine.

Local Open Scope Z_scope.

(** ** Programs *)

Inductive prog (A : Type) : Type :=
| Return (a : A)
| FailNow
| Call (o : op) (k : answer -> prog A).
Arguments Return {A} a.
Arguments FailNow {A}.
Arguments Call {A} o k.

#[export] Instance prog_ret : MRet prog := @Return.

#[export] Instance prog_bind : MBind prog :=
  fun A B (f : A -> prog B) =>
    fix bind (p : prog A) : prog B :=
      match p with
      | Return a => f a
      | FailNow => FailNow
      | Call o k => Call o (fun a => bind (k a))
      end.

(** What the environment of the store provides. *)
Class Host := {
  lease_id : nat -> bytes;
  key_order : nat -> gset Key -> list Key;
  key_order_perm : forall n X, key_order n X ≡ₚ elements X }.

Section exec.
Context `{Host} {S : Type} `{StoreAPI S}.

(** Call number [n] of the program, with what the environment provides for it. *)
Definition resolve (n : nat) (o : op) (s : S) : op :=
  match o with
  | OpOpen _ req => OpOpen (lease_id n) req
  | OpDeleteUnused _ cutoff limit => OpDeleteUnused (key_order n (st_keys s)) cutoff limit
  | o => o
  end.

(** Runs the program from call number [n] on: the number of calls made at its end, the store, and
    the result ([None] if it failed). *)
Fixpoint exec {A} (n : nat) (p : prog A) (s : S) : nat * S * option A :=
  match p with
  | Return a => (n, s, Some a)
  | FailNow => (n, s, None)
  | Call o k => let '(s', a) := step (resolve n o s) s in exec (Datatypes.S n) (k a) s'
  end.

Definition exec_calls {A} n (p : prog A) s : Z := Z.of_nat (exec n p s).1.1.
Definition exec_store {A} n (p : prog A) s : S := (exec n p s).1.2.
Definition exec_result {A} n (p : prog A) s : option A := (exec n p s).2.

(** Every call of the run satisfies [P]. *)
Fixpoint exec_all (P : op -> S -> Prop) {A} (n : nat) (p : prog A) (s : S) : Prop :=
  match p with
  | Call o k =>
      P (resolve n o s) s /\
      let '(s', a) := step (resolve n o s) s in exec_all P (Datatypes.S n) (k a) s'
  | _ => True
  end.

Lemma exec_calls_mono {A} n (p : prog A) s : Z.of_nat n <= exec_calls n p s.
Proof.
  unfold exec_calls. revert n s. induction p as [| |o k IH]; intros n s; simpl; [lia..|].
  destruct (step _ s) as [s' a]. specialize (IH a (Datatypes.S n) s'). lia.
Qed.

(** The calls and the result of a composed program are those of its parts. *)
Lemma exec_bind {A B} (p : prog A) (f : A -> prog B) n s :
  exec n (p ≫= f) s =
  let '(n', s', r) := exec n p s in
  match r with Some a => exec n' (f a) s' | None => (n', s', None) end.
Proof.
  revert n s. induction p as [a| |o k IH]; intros n s; simpl; [done..|].
  destruct (step _ s) as [s' a]. apply IH.
Qed.

Lemma legal_resolve n o s :
  legal (resolve n o s) s <->
  match o with OpDeleteUnused _ _ limit => 0 <= limit < two31 | o => legal o s end.
Proof.
  destruct o; simpl; try done. rewrite key_order_perm.
  split; [naive_solver|]. intros. split_and!; [apply NoDup_elements| |lia|lia].
  apply list_to_set_elements_L.
Qed.
End exec.

(** ** The same program on both stores *)

(** A call that is possible on the memory store and in the range of the columns. *)
Definition ok_call (o : op) (s : MemStore) : Prop := legal o s /\ in_range o.

#[export] Instance ok_call_decision o s : Decision (ok_call o s) := and_dec _ _.

Section agree.
Context `{!Host} `{!Timestamptz}.

Lemma rel_keys t s : rel t s -> st_keys t = st_keys s.
Proof.
  intros [Hr _]. simpl. apply set_eq. intros k. rewrite !elem_of_dom. specialize (Hr k).
  unfold rel_key in Hr. destruct (databases t !! k), (dbs s !! k); naive_solver.
Qed.

Lemma exec_agree {A} (p : prog A) n t s :
  exec_all ok_call n p s -> wf_store (Z.of_nat n) s -> rel t s -> exec_calls n p s < two63 ->
  exec_result n p t = exec_result n p s /\ rel (exec_store n p t) (exec_store n p s) /\
  exec_calls n p t = exec_calls n p s.
Proof.
  revert n t s. unfold exec_result, exec_store, exec_calls.
  induction p as [a| |o k IH]; intros n t s Hall Hwf Hr Hb; simpl in *; [done..|].
  destruct Hall as [[Hl Hi] Hall].
  assert (resolve n o t = resolve n o s) as -> by (destruct o; cbn [resolve]; try done; by rewrite (rel_keys t s)).
  assert (Z.of_nat n < two63 - 1).
  { destruct (step (resolve n o s) s) as [s' a].
    pose proof (exec_calls_mono (Datatypes.S n) (k a) s') as Hm. unfold exec_calls in Hm. lia. }
  destruct (step_sim (Z.of_nat n) (resolve n o s) t s) as [Ha Hrel]; [lia|done..|].
  destruct (step (resolve n o s) s) as [s' a] eqn:E, (step (resolve n o s) t) as [t' a']. simpl in *. subst a'.
  apply IH; [done| |done|done].
  replace (Z.of_nat (Datatypes.S n)) with (Z.of_nat n + 1) by lia.
  eapply wf_step; [|done..]. zlia.
Qed.
End agree.

(** ** Well-typed programs *)

(** The arguments of a call are in range, whatever the state of the store. *)
Definition typed_call (o : op) : Prop :=
  in_range o /\ match o with OpDeleteUnused _ _ limit => 0 <= limit < two31 | o => legal o New end.

#[export] Instance typed_call_decision o : Decision (typed_call o).
Proof. unfold typed_call. destruct o; apply _. Defined.

(** The program makes only such calls, as long as the answers have their types. *)
Fixpoint typed_prog {A} (p : prog A) : Prop :=
  match p with
  | Call o k => typed_call o /\ forall a, typed_answer o a -> typed_prog (k a)
  | _ => True
  end.

Lemma typed_bind {A B} (p : prog A) (f : A -> prog B) :
  typed_prog p -> (forall a, typed_prog (f a)) -> typed_prog (p ≫= f).
Proof. induction p as [| |o k IH]; simpl; [naive_solver..|]. intros [Ho Hk] Hf. split; auto. Qed.

Section typed_programs.
Context `{!Host}.

Lemma typed_call_ok n o s : typed_call o -> ok_call (resolve n o s) s.
Proof.
  intros [Hi Hl]. split; [|by destruct o]. apply legal_resolve. by destruct o.
Qed.

(** A run whose calls are checked on the way: the number of calls and the result, or nothing if a call
    is out of range. *)
Fixpoint exec_check {A} (n : nat) (p : prog A) (s : MemStore) : option (nat * option A) :=
  match p with
  | Return a => Some (n, Some a)
  | FailNow => Some (n, None)
  | Call o k =>
      if bool_decide (typed_call o) then
        let '(s', a) := step (resolve n o s) s in exec_check (Datatypes.S n) (k a) s'
      else None
  end.

Lemma exec_check_all {A} (p : prog A) n s m r :
  exec_check n p s = Some (m, r) ->
  exec_all ok_call n p s /\ exec_calls n p s = Z.of_nat m /\ exec_result n p s = r.
Proof.
  unfold exec_calls, exec_result. revert n s.
  induction p as [| |o k IH]; intros n s Hc; simpl in *; [by simplify_eq/=..|].
  case_bool_decide as Ho; [|done]. destruct (step (resolve n o s) s) as [s' a].
  destruct (IH a _ s' Hc) as (? & ? & ?). split_and!; [by apply typed_call_ok|done..].
Qed.

(** Well-typed programs make no impossible call on a well-formed store. *)
Lemma typed_exec {A} (p : prog A) n s :
  typed_prog p -> wf_store (Z.of_nat n) s -> exec_calls n p s < two64 - 1 -> exec_all ok_call n p s.
Proof.
  revert n s. unfold exec_calls. induction p as [| |o k IH]; intros n s Hp Hwf Hb; simpl in *; [done..|].
  destruct Hp as [Ho Hk]. pose proof (typed_call_ok n o s Ho) as Hok. split; [done|].
  destruct (step (resolve n o s) s) as [s' a] eqn:E.
  pose proof (exec_calls_mono (Datatypes.S n) (k a) s') as Hm. unfold exec_calls in Hm.
  assert (typed_answer o a) as Ha.
  { pose proof (step_typed (Z.of_nat n) s ltac:(lia) Hwf _ (proj1 Hok)) as Ht. rewrite E in Ht. by destruct o. }
  apply IH; [by apply Hk| |done]. replace (Z.of_nat (Datatypes.S n)) with (Z.of_nat n + 1) by lia.
  apply (wf_step (Z.of_nat n) (resolve n o s) s s' a); [lia|done|apply Hok|done].
Qed.

(** No client can tell the two stores apart.  Every well-typed program of store calls, however
    its calls depend on the answers it got, has on an empty PostgreSQL store the result that it has
    on an empty memory store, makes as many calls, and leaves tables that hold the memory store's
    state. *)
Theorem clients_cannot_tell `{!Timestamptz} {A} (p : prog A) :
  typed_prog p -> exec_calls 0 p New < two63 ->
  exec_result 0 p empty_tables = exec_result 0 p New /\
  exec_calls 0 p empty_tables = exec_calls 0 p New /\
  rel (exec_store 0 p empty_tables) (exec_store 0 p New).
Proof.
  intros Hp Hb. assert (wf_store (Z.of_nat 0) New) as Hwf by apply wf_new.
  destruct (exec_agree p 0 empty_tables New) as (? & ? & ?); [|done|apply rel_empty|done|done].
  apply typed_exec; [done|done|]. zlia.
Qed.
End typed_programs.

(** A host with numbered lease IDs. *)
Definition numbered : Host.
Proof.
  refine {| lease_id := fun n => [byte_of (Z.of_nat n mod 256)]; key_order := fun _ X => elements X |}. done.
Defined.

(** Creates a database, commits one page under the epoch it was granted, and reads the page back at
    the version of the commit. *)
Definition write_and_read : prog (option (list bytes)) :=
  Call (OpOpen [] (open_at kA x01 false 1000)) (fun a =>
  match a with
  | AOpen (Ok r) =>
      Call (OpCommit (commit_at kA x61 (Epoch (res_Lease r)) (Version (res_State r)) 1 [mkBlock 0 (page x01)] 1001))
        (fun a =>
        match a with
        | ACommit (Ok v) =>
            Call (OpFetch kA v 0 1) (fun a =>
            match a with AFetch (Ok bs) => Return (Some bs) | _ => Return None end)
        | _ => FailNow
        end)
  | _ => FailNow
  end).

Lemma write_and_read_typed : typed_prog write_and_read.
Proof.
  cbn [typed_prog write_and_read]. split.
  { apply (bool_decide_unpack (typed_call _)). vm_compute. exact I. }
  intros [[r|]| | | | | | | | | | |] Ha; try done. destruct Ha as (He & Hv & _).
  split.
  { split.
    - apply (bool_decide_unpack (in_range (OpCommit (commit_at kA x61 0 0 1 [] 1001)))). vm_compute. exact I.
    - unfold legal, wf_commit. simpl. split_and!; [done|done|zlia|]. constructor; [|constructor]. unfold wf_block. simpl. zlia. }
  intros [| |[v|]| | | | | | | | |] Ha; try done. split; [|by intros [|[]| | | | | | | | | |]].
  split; [done|]. split_and!; [done|zlia|zlia].
Qed.

Lemma clients_cannot_tell_witness :
  @exec_result numbered _ (@Tables_api microseconds) _ 0 write_and_read empty_tables = Some (Some [page x01]).
Proof.
  destruct (@clients_cannot_tell numbered microseconds _ write_and_read) as [-> _].
  - apply write_and_read_typed.
  - vm_compute. reflexivity.
  - vm_compute. reflexivity.
Defined.
