(* ===== verification/StoreTest.v ===== *)
(** * The contract tests of a store: [src/internal/store/storetest/storetest.go]

    The tests of the suite as programs on the store's interface, with the helpers they use.  A
    failed requirement ends the test ([FailNow]).  [blocksAreCopies], which is about the aliasing of
    Go slices, and the list of all tests are in [StoreSuite.v]. *)

From S2P Require Import Prelude Store Trace Client.

Local Open Scope Z_scope.
Local Open Scope string_scope.

(** ** Calls *)

Definition s_Open (req : OpenRequest) : prog (result Error OpenResult) :=
  Call (OpOpen [] req) (fun a => match a with AOpen r => Return r | _ => FailNow end).
Definition s_Fetch (k : Key) (version first count : Z) : prog (result Error (list bytes)) :=
  Call (OpFetch k version first count) (fun a => match a with AFetch r => Return r | _ => FailNow end).
Definition s_Commit (req : CommitRequest) : prog (result Error Z) :=
  Call (OpCommit req) (fun a => match a with ACommit r => Return r | _ => FailNow end).
Definition s_Changes (k : Key) (from : Z) : prog (result Error ChangeSet) :=
  Call (OpChanges k from) (fun a => match a with AChanges r => Return r | _ => FailNow end).
Definition s_Renew (k : Key) (epoch : Z) (now : Time) (ttl : Duration) : prog (result Error unit) :=
  Call (OpRenew k epoch now ttl) (fun a => match a with ARenew r => Return r | _ => FailNow end).
Definition s_Release (k : Key) (epoch : Z) : prog (result Error unit) :=
  Call (OpRelease k epoch) (fun a => match a with ARelease r => Return r | _ => FailNow end).
Definition s_Delete (req : DeleteRequest) : prog (result Error DeleteResult) :=
  Call (OpDelete req) (fun a => match a with ADelete r => Return r | _ => FailNow end).
Definition s_DeleteUnused (cutoff : Time) (limit : Z) : prog (result Error (list Key)) :=
  Call (OpDeleteUnused [] cutoff limit) (fun a =>
    match a with
    | ADeleteUnused (keys, None) => Return (Ok keys)
    | ADeleteUnused (_, Some e) => Return (Err e)
    | _ => FailNow
    end).
Definition s_GetSlot (owner : string) : prog (option Slot) :=
  Call (OpGetSlot owner) (fun a => match a with AGetSlot (Ok r) => Return r | _ => FailNow end).
Definition s_ClaimSlot (req : ClaimRequest) : prog (result Error ClaimResult) :=
  Call (OpClaimSlot req) (fun a => match a with AClaimSlot r => Return r | _ => FailNow end).
Definition s_SetSlotLabel (owner subject label : string) : prog (result Error Slot) :=
  Call (OpSetSlotLabel owner subject label) (fun a => match a with ASetSlotLabel r => Return r | _ => FailNow end).
Definition s_DeleteSlot (owner subject : string) : prog (result Error (list Key)) :=
  Call (OpDeleteSlot owner subject) (fun a => match a with ADeleteSlot r => Return r | _ => FailNow end).

(** ** Requirements *)

Definition require (P : Prop) `{Decision P} : prog unit := if decide P then Return tt else FailNow.

Definition requireNoError {A} (r : result Error A) : prog A :=
  match r with Ok a => Return a | Err _ => FailNow end.

Definition requireErrorIs {A} (r : result Error A) (e : Error) : prog unit :=
  match r with Err e' => require (e' = e) | Ok _ => FailNow end.

Definition requireFenced {A} (r : result Error A) : prog unit := requireErrorIs r ErrFenced.

Definition requireBadRequest {A} (r : result Error A) : prog unit :=
  match r with Err (BadRequestError _) => Return tt | _ => FailNow end.

(** [require.ErrorAs] with a [*store.VersionConflictError] or a [*store.LeaseHeldError]. *)
Definition requireConflict {A} (r : result Error A) : prog Z :=
  match r with Err (VersionConflictError current) => Return current | _ => FailNow end.

Definition requireHeld {A} (r : result Error A) : prog Time :=
  match r with Err (LeaseHeldError since) => Return since | _ => FailNow end.

(** ** Constants and helpers *)

Definition pageSize : Z := 512.
Definition ttl : Duration := 30 * Second.

(** [time.Date] in UTC: the proleptic Gregorian calendar with normalised months. *)
Definition days_in_year_before (leap : bool) (month : Z) : Z :=
  nth (Z.to_nat (month - 1)) [0; 31; 59; 90; 120; 151; 181; 212; 243; 273; 304; 334] 0 +
  (if leap && (2 <? month)%Z then 1 else 0).

Definition leap_year (y : Z) : bool :=
  ((y mod 4 =? 0) && (negb (y mod 100 =? 0) || (y mod 400 =? 0)))%Z.

Definition time_Date (year month day hour min sec : Z) : Time :=
  let y := year + (month - 1) / 12 in
  let m := (month - 1) mod 12 + 1 in
  let days := 365 * (y - 1) + (y - 1) / 4 - (y - 1) / 100 + (y - 1) / 400 +
              days_in_year_before (leap_year y) m + (day - 1) in
  (days * 86400 + hour * 3600 + min * 60 + sec) * Second.

(** [t0.AddDate(years, months, 0)] *)
Definition t0_AddDate (years months : Z) : Time := time_Date (2026 + years) (9 + months) 22 12 0 0.

Definition t0 : Time := time_Date 2026 9 22 12 0 0.
Definition instanceA : slice := Some (str_bytes "instance-a").
Definition instanceB : slice := Some (str_bytes "instance-b").
Definition commit1 : slice := Some (replicate 16 x01).
Definition commit2 : slice := Some (replicate 16 x02).

(** The name of the running test, and the ID of the test run. *)
Record T := mkT { Name : string; run : string }.

Definition subject (t : T) (name : string) : string := name ++ "-" ++ Name t ++ "-" ++ run t.
Definition key (t : T) (db : string) : Key := mkKey (subject t "alice") db.
Definition block (index : Z) (fill : Byte.byte) : Block :=
  mkBlock index (replicate (Z.to_nat pageSize) fill).

Definition create (k : Key) (instance : slice) (now : Time) : prog OpenResult :=
  res ← s_Open (mkOpenRequest k EmptyString instance pageSize true false None now ttl);
  requireNoError res.

Definition open (k : Key) (instance : slice) (takeover : bool) (now : Time) : prog (result Error OpenResult) :=
  s_Open (mkOpenRequest k EmptyString instance 0 false takeover None now ttl).

(** An open that resumes a lease. *)
Definition resume (k : Key) (owner : string) (l : Lease) (now : Time) : prog (result Error OpenResult) :=
  s_Open (mkOpenRequest k owner instanceA 0 false false (Some (mkResume (ID l) (Epoch l))) now ttl).

Definition commit (k : Key) (epoch base pageCount : Z) (id : slice) (now : Time) (blocks : list Block) :
    prog (result Error Z) :=
  s_Commit (mkCommitRequest k id epoch base pageCount blocks now ttl).

Definition remove (k : Key) (takeover : bool) (now : Time) : prog (result Error DeleteResult) :=
  s_Delete (mkDeleteRequest k takeover now).

(** ** Databases *)

Definition openCreatesEmptyDatabase (t : T) : prog unit :=
  res ← create (key t "db") instanceA t0;
  require (Epoch (res_Lease res) = 1);;
  require (0 < slice_len (ID (res_Lease res)));;
  require (res_State res = mkState pageSize 0 0 None);;
  require (res_Revoked res = false).

Definition openWithoutCreateRequiresDatabase (t : T) : prog unit :=
  err ← open (key t "missing") instanceA false t0;
  requireErrorIs err ErrNotFound.

(** The loop over the invalid sizes. *)
Fixpoint each {A} (f : A -> prog unit) (l : list A) : prog unit :=
  match l with [] => Return tt | x :: l => f x;; each f l end.

Definition openRejectsInvalidPageSizes (t : T) : prog unit :=
  each (fun size =>
    err ← s_Open (mkOpenRequest (key t "db") EmptyString instanceA size true false None t0 ttl);
    requireBadRequest err) [0; 256; 1000; 131072];;
  create (key t "db") instanceA t0;;
  err ← s_Open (mkOpenRequest (key t "db") EmptyString instanceA 4096 false true None t0 ttl);
  requireBadRequest err.

Definition commitThenFetch (t : T) : prog unit :=
  let k := key t "db" in
  res ← create k instanceA t0;
  version ← commit k (Epoch (res_Lease res)) 0 3 commit1 t0 [block 0 xa0; block 2 xa2] ≫= requireNoError;
  require (version = 1);;
  blocks ← s_Fetch k 1 0 3 ≫= requireNoError;
  require (blocks = [Data (block 0 xa0); zeros pageSize; Data (block 2 xa2)]);;
  res ← open k instanceA true t0 ≫= requireNoError;
  require (res_State res = mkState pageSize 3 1 commit1).

Definition repeatedCommitReturnsSameVersion (t : T) : prog unit :=
  let k := key t "db" in
  res ← create k instanceA t0;
  each (fun _ =>
    version ← commit k (Epoch (res_Lease res)) 0 1 commit1 t0 [block 0 xa0] ≫= requireNoError;
    require (version = 1)) [tt; tt].

Definition staleBaseVersionConflicts (t : T) : prog unit :=
  let k := key t "db" in
  res ← create k instanceA t0;
  commit k (Epoch (res_Lease res)) 0 1 commit1 t0 [block 0 xa0] ≫= requireNoError;;
  current ← commit k (Epoch (res_Lease res)) 0 1 commit2 t0 [block 0 xb0] ≫= requireConflict;
  require (current = 1).

Definition invalidCommitChangesNothing (t : T) : prog unit :=
  let k := key t "db" in
  res ← create k instanceA t0;
  let epoch := Epoch (res_Lease res) in
  let short := mkBlock 0 [x01; x02; x03] in
  commit k epoch 0 1 commit1 t0 [short] ≫= requireBadRequest;;
  commit k epoch 0 1 commit1 t0 [block 1 xa1] ≫= requireBadRequest;;
  commit k epoch 0 1 None t0 [block 0 xa0] ≫= requireBadRequest;;
  commit k epoch 0 1 commit1 t0 [block 0 xa0; block 0 xa1] ≫= requireBadRequest;;
  res ← open k instanceA true t0 ≫= requireNoError;
  require (res_State res = mkState pageSize 0 0 None).

Definition commitTruncates (t : T) : prog unit :=
  let k := key t "db" in
  res ← create k instanceA t0;
  let epoch := Epoch (res_Lease res) in
  commit k epoch 0 3 commit1 t0 [block 0 xa0; block 1 xa1; block 2 xa2] ≫= requireNoError;;
  commit k epoch 1 1 commit2 t0 [] ≫= requireNoError;;
  blocks ← s_Fetch k 2 0 1 ≫= requireNoError;
  require (blocks = [Data (block 0 xa0)]);;
  s_Fetch k 2 0 3 ≫= requireBadRequest.

Definition fetchChecksVersionAndRange (t : T) : prog unit :=
  let k := key t "db" in
  res ← create k instanceA t0;
  commit k (Epoch (res_Lease res)) 0 2 commit1 t0 [block 0 xa0; block 1 xa1] ≫= requireNoError;;
  current ← s_Fetch k 0 0 2 ≫= requireConflict;
  require (current = 1);;
  s_Fetch k 1 1 2 ≫= requireBadRequest;;
  s_Fetch k 1 3 0 ≫= requireBadRequest;;
  blocks ← s_Fetch k 1 2 0 ≫= requireNoError;
  require (blocks = []);;
  err ← s_Fetch (key t "missing") 0 0 0;
  requireErrorIs err ErrNotFound.

(** ** Leases *)

Definition activeLeaseBlocksOpen (t : T) : prog unit :=
  let k := key t "db" in
  create k instanceA t0;;
  since ← open k instanceB false (time_Add t0 (ttl - Second)) ≫= requireHeld;
  require (since = t0).

Definition sameInstanceTakesItsLeaseBack (t : T) : prog unit :=
  let k := key t "db" in
  old ← create k instanceA t0;
  let old := Epoch (res_Lease old) in
  res ← open k instanceA false (time_Add t0 Second) ≫= requireNoError;
  require (old < Epoch (res_Lease res));;
  require (res_Revoked res = true);;
  commit k old 0 1 commit1 (time_Add t0 Second) [block 0 xa0] ≫= requireFenced;;
  commit k (Epoch (res_Lease res)) 0 1 commit1 (time_Add t0 Second) [block 0 xa1] ≫= requireNoError;;
  open k instanceB false (time_Add t0 (2 * Second)) ≫= requireHeld;;
  Return tt.

Definition takeoverFencesOldLease (t : T) : prog unit :=
  let k := key t "db" in
  old ← create k instanceA t0;
  let old := Epoch (res_Lease old) in
  res ← open k instanceB true (time_Add t0 Second) ≫= requireNoError;
  require (Epoch (res_Lease res) = u64 (old + 1));;
  require (res_Revoked res = true);;
  commit k old 0 1 commit1 t0 [block 0 xa0] ≫= requireFenced;;
  s_Renew k old t0 ttl ≫= requireFenced;;
  s_Release k old ≫= requireFenced;;
  commit k (Epoch (res_Lease res)) 0 1 commit1 t0 [block 0 xb0] ≫= requireNoError;;
  Return tt.

Definition expiredLeaseNeedsNoTakeover (t : T) : prog unit :=
  let k := key t "db" in
  old ← create k instanceA t0;
  let old := Epoch (res_Lease old) in
  res ← open k instanceB false (time_Add t0 ttl) ≫= requireNoError;
  require (Epoch (res_Lease res) = u64 (old + 1));;
  require (res_Revoked res = false);;
  commit k old 0 1 commit1 (time_Add t0 ttl) [block 0 xa0] ≫= requireFenced.

Definition expiredUntakenLeaseStillCommits (t : T) : prog unit :=
  let k := key t "db" in
  res ← create k instanceA t0;
  let later := time_Add t0 (10 * ttl) in
  commit k (Epoch (res_Lease res)) 0 1 commit1 later [block 0 xa0] ≫= requireNoError;;
  open k instanceB false (time_Add later (ttl - Second)) ≫= requireHeld;;
  Return tt.

Definition renewExtendsLease (t : T) : prog unit :=
  let k := key t "db" in
  res ← create k instanceA t0;
  s_Renew k (Epoch (res_Lease res)) (time_Add t0 (25 * Second)) ttl ≫= requireNoError;;
  open k instanceB false (time_Add t0 (50 * Second)) ≫= requireHeld;;
  Return tt.

Definition resumeKeepsLease (t : T) : prog unit :=
  let k := key t "db" in
  res ← create k instanceA t0;
  let lease := res_Lease res in
  commit k (Epoch lease) 0 1 commit1 t0 [block 0 xa0] ≫= requireNoError;;
  res ← resume k EmptyString lease (time_Add t0 (5 * ttl)) ≫= requireNoError;
  require (res_Lease res = lease);;
  require (Version (res_State res) = 1);;
  require (LastCommitID (res_State res) = commit1).

Definition resumeAfterTakeoverIsFenced (t : T) : prog unit :=
  let k := key t "db" in
  res ← create k instanceA t0;
  open k instanceB true t0 ≫= requireNoError;;
  resume k EmptyString (res_Lease res) t0 ≫= requireFenced.

Definition releaseFreesLease (t : T) : prog unit :=
  let k := key t "db" in
  res ← create k instanceA t0;
  let epoch := Epoch (res_Lease res) in
  s_Release k epoch ≫= requireNoError;;
  res ← open k instanceB false t0 ≫= requireNoError;
  require (Epoch (res_Lease res) = u64 (epoch + 1));;
  require (res_Revoked res = false);;
  commit k epoch 0 1 commit1 t0 [block 0 xa0] ≫= requireFenced.

Definition subjectsAreSeparate (t : T) : prog unit :=
  let alice := key t "db" in
  let bob := mkKey (subject t "bob") "db" in
  res ← create alice instanceA t0;
  commit alice (Epoch (res_Lease res)) 0 1 commit1 t0 [block 0 xa0] ≫= requireNoError;;
  err ← open bob instanceB false t0;
  requireErrorIs err ErrNotFound;;
  res ← create bob instanceB t0;
  require (Version (res_State res) = 0).

(** ** Change sets *)

Definition changesListChangedBlocks (t : T) : prog unit :=
  let k := key t "db" in
  res ← create k instanceA t0;
  let epoch := Epoch (res_Lease res) in
  commit k epoch 0 8 commit1 t0 [block 0 xa0; block 1 xa1] ≫= requireNoError;;
  commit k epoch 1 8 (Some (str_bytes "commit-2........")) t0 [block 4 xb4] ≫= requireNoError;;
  commit k epoch 2 8 (Some (str_bytes "commit-3........")) t0 [block 1 xc1; block 7 xc7] ≫= requireNoError;;
  set ← s_Changes k 0 ≫= requireNoError;
  require (Complete set = true);;
  require (ToVersion set = 3);;
  require (cs_Blocks set = [0; 1; 4; 7]);;
  set ← s_Changes k 1 ≫= requireNoError;
  require (Complete set = true);;
  require (cs_Blocks set = [1; 4; 7]);;
  set ← s_Changes k 3 ≫= requireNoError;
  require (Complete set = true);;
  require (cs_Blocks set = []).

(** [binary.BigEndian.PutUint64(id, n)] into 16 zero bytes. *)
Definition numbered_id (n : Z) : slice := Some (zeros 4 ++ be32 n ++ zeros 8)%list.

Definition changesBeyondWindowAreIncomplete (t : T) : prog unit :=
  let k := key t "db" in
  res ← create k instanceA t0;
  each (fun n =>
    commit k (Epoch (res_Lease res)) n 4 (numbered_id n) t0 [block (n mod 4) (byte_of (n mod 256))]
      ≫= requireNoError;;
    Return tt) (seqZ 0 (ChangeWindow + 2));;
  set ← s_Changes k 1 ≫= requireNoError;
  require (Complete set = false);;
  require (cs_Blocks set = []);;
  set ← s_Changes k (ChangeWindow + 1) ≫= requireNoError;
  require (Complete set = true);;
  require (cs_Blocks set = [(ChangeWindow + 1) mod 4]).

Definition changesRejectFutureVersion (t : T) : prog unit :=
  let k := key t "db" in
  res ← create k instanceA t0;
  commit k (Epoch (res_Lease res)) 0 1 commit1 t0 [block 0 xa0] ≫= requireNoError;;
  s_Changes k 2 ≫= requireBadRequest.

(** ** Deletion *)

Definition deleteAfterCommits (k : Key) : prog (Lease * Z) :=
  res ← create k instanceA t0;
  let lease := res_Lease res in
  commit k (Epoch lease) 0 2 commit1 t0 [block 0 xa0; block 1 xa1] ≫= requireNoError;;
  version ← commit k (Epoch lease) 1 2 commit2 t0 [block 1 xa2] ≫= requireNoError;
  s_Release k (Epoch lease) ≫= requireNoError;;
  res ← remove k false (time_Add t0 Second) ≫= requireNoError;
  require (Epoch lease < del_Epoch res);;
  require (del_Revoked res = false);;
  Return (lease, version).

Definition deleteRemovesDatabase (t : T) : prog unit :=
  let k := key t "db" in
  '(_, version) ← deleteAfterCommits k;
  err ← open k instanceA false (time_Add t0 (2 * Second));
  requireErrorIs err ErrNotFound;;
  err ← s_Fetch k version 0 1;
  requireErrorIs err ErrNotFound;;
  err ← s_Changes k 0;
  requireErrorIs err ErrNotFound;;
  res ← create k instanceA (time_Add t0 (2 * Second));
  require (PageCount (res_State res) = 0);;
  require (slice_len (LastCommitID (res_State res)) = 0);;
  require (version < Version (res_State res));;
  blocks ← s_Fetch k (Version (res_State res)) 0 0 ≫= requireNoError;
  require (blocks = []).

Definition deleteFencesEveryEarlierLease (t : T) : prog unit :=
  let k := key t "db" in
  old ← create k instanceA t0;
  let old := res_Lease old in
  res ← remove k true (time_Add t0 Second) ≫= requireNoError;
  require (del_Revoked res = true);;
  commit k (Epoch old) 0 1 commit1 t0 [block 0 xa0] ≫= requireFenced;;
  s_Renew k (Epoch old) t0 ttl ≫= requireFenced;;
  resume k EmptyString old t0 ≫= requireFenced;;
  recreated ← create k instanceB (time_Add t0 (2 * Second));
  require (del_Epoch res < Epoch (res_Lease recreated));;
  let version := Version (res_State recreated) in
  commit k (Epoch old) version 1 commit1 t0 [block 0 xa0] ≫= requireFenced;;
  commit k (Epoch (res_Lease recreated)) version 1 commit1 t0 [block 0 xb0] ≫= requireNoError;;
  Return tt.

Definition activeLeaseBlocksDelete (t : T) : prog unit :=
  let k := key t "db" in
  create k instanceA t0;;
  remove k false (time_Add t0 Second) ≫= requireHeld;;
  res ← remove k false (time_Add t0 (ttl + Second)) ≫= requireNoError;
  require (del_Revoked res = false).

Definition deleteIsIdempotent (t : T) : prog unit :=
  res ← remove (key t "missing") false t0 ≫= requireNoError;
  require (del_Epoch res = 0);;
  let k := key t "db" in
  deleteAfterCommits k;;
  res ← remove k false (time_Add t0 (2 * Second)) ≫= requireNoError;
  require (del_Epoch res = 0).

Definition recreatedDatabaseHasNoChangeLog (t : T) : prog unit :=
  let k := key t "db" in
  '(_, version) ← deleteAfterCommits k;
  res ← create k instanceA (time_Add t0 (2 * Second));
  set ← s_Changes k version ≫= requireNoError;
  require (Complete set = false);;
  require (ToVersion set = Version (res_State res)).

Definition recreatedDatabaseMayChangePageSize (t : T) : prog unit :=
  let k := key t "db" in
  deleteAfterCommits k;;
  res ← s_Open (mkOpenRequest k EmptyString instanceA (4 * pageSize) true false None (time_Add t0 (2 * Second)) ttl)
    ≫= requireNoError;
  require (PageSize (res_State res) = 4 * pageSize).

(** ** Unused databases *)

Definition longAgo : Time := t0_AddDate (-10) 0.
Definition half_a_year_later : Time := t0_AddDate (-10) 6.

(** The loop of [deleteUnused]: at most [fuel] rounds; a test that needs more fails. *)
Fixpoint delete_rounds (fuel : nat) (t : T) (cutoff : Time) (mine : list Key) : prog (list Key) :=
  match fuel with
  | O => FailNow
  | S fuel =>
      keys ← s_DeleteUnused cutoff 100 ≫= requireNoError;
      match keys with
      | [] => Return mine
      | _ => delete_rounds fuel t cutoff (mine ++ filter (fun k => Subject k = subject t "alice") keys)%list
      end
  end.

Definition deleteUnused (t : T) (cutoff : Time) : prog (list Key) := delete_rounds 16 t cutoff [].

(** [require.ElementsMatch]: the same elements, as often. *)
Definition elements_match (l1 l2 : list Key) : Prop :=
  Forall (fun x => length (filter (x =.) l1) = length (filter (x =.) l2)) (l1 ++ l2)%list.

Definition deleteUnusedKeepsUsedDatabases (t : T) : prog unit :=
  let cutoff := half_a_year_later in
  let released := key t "released" in
  res ← create released instanceA longAgo;
  version ← commit released (Epoch (res_Lease res)) 0 1 commit1 longAgo [block 0 xa0] ≫= requireNoError;
  s_Release released (Epoch (res_Lease res)) ≫= requireNoError;;
  let abandoned := key t "abandoned" in
  create abandoned instanceA longAgo;;
  let renewed := key t "renewed" in
  res ← create renewed instanceA longAgo;
  s_Renew renewed (Epoch (res_Lease res)) cutoff ttl ≫= requireNoError;;
  let committed := key t "committed" in
  res ← create committed instanceA longAgo;
  commit committed (Epoch (res_Lease res)) 0 1 commit1 cutoff [block 0 xc0] ≫= requireNoError;;
  keys ← deleteUnused t cutoff;
  require (elements_match [released; abandoned] keys);;
  keys ← deleteUnused t cutoff;
  require (keys = []);;
  err ← open released instanceA false t0;
  requireErrorIs err ErrNotFound;;
  recreated ← create released instanceA t0;
  require (version < Version (res_State recreated));;
  require (PageCount (res_State recreated) = 0);;
  each (fun k => open k instanceB true t0 ≫= requireNoError;; Return tt) [renewed; committed].

Definition deleteUnusedRespectsLimit (t : T) : prog unit :=
  each (fun name => create (key t name) instanceA longAgo;; Return tt) ["a"; "b"; "c"];;
  let cutoff := half_a_year_later in
  keys ← s_DeleteUnused cutoff 1 ≫= requireNoError;
  match keys with
  | [k] =>
      let mine := if bool_decide (Subject k = subject t "alice") then 1 else 0 in
      rest ← deleteUnused t cutoff;
      require (zlen rest = 3 - mine)
  | _ => FailNow
  end.

(** ** Slots *)

Definition owner (t : T) : string := "owner-" ++ Name t ++ "-" ++ run t.

Definition claim (owner subject : string) (now : Time) : prog ClaimResult :=
  res ← s_ClaimSlot (mkClaimRequest owner subject now);
  requireNoError res.

Definition label (owner subject label : string) : prog Slot :=
  slot ← s_SetSlotLabel owner subject label;
  requireNoError slot.

Definition openAs (owner : string) (k : Key) (create : bool) (now : Time) : prog (result Error OpenResult) :=
  s_Open (mkOpenRequest k owner instanceA pageSize create false None now ttl).

(** The slot that [GetSlot] must return. *)
Definition requireSlot (o : string) : prog Slot :=
  got ← s_GetSlot o;
  match got with Some slot => Return slot | None => FailNow end.

Definition claimFreeSlot (t : T) : prog unit :=
  let o := owner t in
  let alice := subject t "alice" in
  got ← s_GetSlot o;
  require (got = None);;
  res ← claim o alice t0;
  require (cres_Replaced res = None);;
  require (cres_Deleted res = []);;
  require (slot_Subject (cres_Slot res) = alice);;
  require (slot_Label (cres_Slot res) = EmptyString);;
  require (slot_ClaimedAt (cres_Slot res) = t0);;
  labeled ← label o alice "device-1";
  require (slot_Label labeled = "device-1");;
  require (slot_ClaimedAt labeled = t0);;
  got ← requireSlot o;
  require (slot_Subject got = alice);;
  require (slot_Label got = "device-1");;
  require (slot_ClaimedAt got = t0).

Definition reclaimChangesNothing (t : T) : prog unit :=
  let o := owner t in
  let alice := subject t "alice" in
  let k := key t "db" in
  claim o alice t0;;
  label o alice "device-1";;
  create k instanceA t0;;
  res ← claim o alice (time_Add t0 Hour);
  require (cres_Replaced res = None);;
  require (cres_Deleted res = []);;
  require (slot_Label (cres_Slot res) = "device-1");;
  require (slot_ClaimedAt (cres_Slot res) = t0);;
  openAs o k false (time_Add t0 Hour) ≫= requireNoError;;
  Return tt.

Definition onlyTheHolderSetsTheLabel (t : T) : prog unit :=
  let o := owner t in
  let alice := subject t "alice" in
  let bob := subject t "bob" in
  err ← s_SetSlotLabel o alice "device-1";
  requireErrorIs err ErrNotFound;;
  claim o alice t0;;
  label o alice "device-1";;
  err ← s_SetSlotLabel o bob "device-2";
  requireErrorIs err ErrSlotTaken;;
  got ← requireSlot o;
  require (slot_Subject got = alice);;
  require (slot_Label got = "device-1");;
  slot ← label o alice EmptyString;
  require (slot_Label slot = EmptyString).

Definition claimReplacesOtherKey (t : T) : prog unit :=
  let o := owner t in
  let alice := subject t "alice" in
  let bob := subject t "bob" in
  claim o alice t0;;
  label o alice "device-1";;
  let first := key t "first" in
  let second := key t "second" in
  each (fun k =>
    res ← create k instanceA t0;
    commit k (Epoch (res_Lease res)) 0 1 commit1 t0 [block 0 xa1] ≫= requireNoError;;
    Return tt) [second; first];;
  let deleted := key t "deleted" in
  create deleted instanceA t0;;
  remove deleted true t0 ≫= requireNoError;;
  res ← claim o bob (time_Add t0 Minute);
  match cres_Replaced res with
  | None => FailNow
  | Some old =>
      require (slot_Subject old = alice);;
      require (slot_Label old = "device-1")
  end;;
  require (slot_Label (cres_Slot res) = EmptyString);;
  require (cres_Deleted res = [first; second]);;
  require (slot_Subject (cres_Slot res) = bob);;
  require (slot_ClaimedAt (cres_Slot res) = time_Add t0 Minute);;
  err ← openAs o first false (time_Add t0 Minute);
  requireErrorIs err ErrSlotTaken;;
  each (fun k =>
    err ← openAs EmptyString k false (time_Add t0 Minute);
    requireErrorIs err ErrNotFound;;
    again ← openAs EmptyString k true (time_Add t0 Minute) ≫= requireNoError;
    require (Version (res_State again) = 0)) [first; deleted].

Definition slotBlocksOwnersOtherKeys (t : T) : prog unit :=
  let o := owner t in
  let alice := subject t "alice" in
  let bob := subject t "bob" in
  let ka := key t "db" in
  let kb := mkKey bob "db" in
  res ← create kb instanceA t0;
  claim o alice t0;;
  openAs o ka true t0 ≫= requireNoError;;
  err ← openAs o kb false t0;
  requireErrorIs err ErrSlotTaken;;
  err ← resume kb o (res_Lease res) t0;
  requireErrorIs err ErrSlotTaken;;
  openAs EmptyString kb false t0 ≫= requireNoError;;
  openAs (owner t ++ "-other") kb false t0 ≫= requireNoError;;
  Return tt.

Definition deleteSlotPurgesHolder (t : T) : prog unit :=
  let o := owner t in
  let alice := subject t "alice" in
  let bob := subject t "bob" in
  let k := key t "db" in
  claim o alice t0;;
  create k instanceA t0;;
  err ← s_DeleteSlot o bob;
  requireErrorIs err ErrSlotTaken;;
  openAs o k false t0 ≫= requireNoError;;
  deleted ← s_DeleteSlot o alice ≫= requireNoError;
  require (deleted = [k]);;
  got ← s_GetSlot o;
  require (got = None);;
  err ← openAs o k false t0;
  requireErrorIs err ErrNotFound;;
  again ← openAs o k true t0 ≫= requireNoError;
  require (Version (res_State again) = 0);;
  deleted ← s_DeleteSlot o alice ≫= requireNoError;
  require (deleted = [k]).

Definition deleteUnusedReleasesSlots (t : T) : prog unit :=
  let cutoff := half_a_year_later in
  let o := owner t in
  let alice := subject t "alice" in
  let k := key t "db" in
  claim o alice longAgo;;
  create k instanceA longAgo;;
  let fresh := owner t ++ "-fresh" in
  claim fresh (subject t "carol") cutoff;;
  keys ← deleteUnused t cutoff;
  require (keys = [k]);;
  got ← s_GetSlot o;
  require (got = None);;
  requireSlot fresh;;
  again ← openAs o k true t0 ≫= requireNoError;
  require (Version (res_State again) = 0).
