(* ===== verification/MemAlias.v ===== *)
(** * Byte slices of the memory store: [src/internal/store/memory/memory.go]

    In [Memory.v] a slice is its content.  Here it is a reference into an array on a heap that the store
    shares with its clients, who may write to every array they can reach: the buffers they pass to the
    store and the ones it returns.  The operations that take, keep or return byte slices are given
    with the copies that the code makes ([bytes.Clone]), and the clients' writes are steps between the
    calls.  The contents of the store are then those of [Memory.v], whatever the clients write. *)

From S2P Require Import Prelude Store Memory Trace MemoryInv Samples.

Local Open Scope Z_scope.

(** ** The heap *)

(** The arrays, in the order of their allocation. *)
Abbreviation heap := (list bytes) (only parsing).

(** A slice that is not nil: [len] bytes of an array from [off] on. *)
Record view := mkView { arr : nat; off : nat; len : nat }.

Abbreviation ptr := (option view) (only parsing).

Definition load (h : heap) (p : ptr) : slice :=
  match p with
  | None => None
  | Some v => Some (take (len v) (drop (off v) (default [] (h !! arr v))))
  end.

Definition data_of (h : heap) (p : ptr) : bytes := content (load h p).

(** [make] of a slice with the given content. *)
Definition alloc (data : bytes) (h : heap) : ptr * heap :=
  (Some (mkView (length h) 0 (length data)), h ++ [data]).

(** [bytes.Clone] *)
Definition clone (p : ptr) (h : heap) : ptr * heap :=
  match load h p with
  | None => (None, h)
  | Some data => alloc data h
  end.

(** ** State *)

Record hdatabase := mkHDatabase {
  h_deleted : bool;
  h_PageSize : Z;
  h_PageCount : Z;
  h_Version : Z;
  h_LastCommitID : ptr;
  h_blocks : gmap Z ptr;
  h_changes : list change;
  h_ID : ptr;
  h_Epoch : Z;
  h_holder : ptr;
  h_grantedAt : Time;
  h_expiresAt : Time }.

Abbreviation hstore := (gmap Key hdatabase) (only parsing).

(** Requests and results, with their slices. *)
Record hOpenRequest := mkHOpen {
  ho_Key : Key;
  ho_InstanceID : ptr;
  ho_PageSize : Z;
  ho_Create : bool;
  ho_Takeover : bool;
  ho_Resume : option (ptr * Z);
  ho_Now : Time;
  ho_TTL : Duration }.

Record hOpenResult := mkHOpenResult {
  hr_ID : ptr;
  hr_Epoch : Z;
  hr_PageSize : Z;
  hr_PageCount : Z;
  hr_Version : Z;
  hr_LastCommitID : ptr;
  hr_Revoked : bool }.

Record hCommitRequest := mkHCommit {
  hc_Key : Key;
  hc_CommitID : ptr;
  hc_LeaseEpoch : Z;
  hc_BaseVersion : Z;
  hc_PageCount : Z;
  hc_Blocks : list (Z * ptr);
  hc_Now : Time;
  hc_TTL : Duration }.

(** Their contents. *)
Definition open_value (h : heap) (req : hOpenRequest) : OpenRequest :=
  mkOpenRequest (ho_Key req) EmptyString (load h (ho_InstanceID req)) (ho_PageSize req) (ho_Create req) (ho_Takeover req)
    ((fun r => mkResume (load h r.1) r.2) <$> ho_Resume req) (ho_Now req) (ho_TTL req).

Definition result_value (h : heap) (r : hOpenResult) : OpenResult :=
  mkOpenResult (mkLease (load h (hr_ID r)) (hr_Epoch r))
    (mkState (hr_PageSize r) (hr_PageCount r) (hr_Version r) (load h (hr_LastCommitID r))) (hr_Revoked r).

Definition commit_value (h : heap) (req : hCommitRequest) : CommitRequest :=
  mkCommitRequest (hc_Key req) (load h (hc_CommitID req)) (hc_LeaseEpoch req) (hc_BaseVersion req) (hc_PageCount req)
    ((fun b => mkBlock b.1 (data_of h b.2)) <$> hc_Blocks req) (hc_Now req) (hc_TTL req).

Definition db_value (h : heap) (db : hdatabase) : database :=
  mkDatabase (h_deleted db) (mkState (h_PageSize db) (h_PageCount db) (h_Version db) (load h (h_LastCommitID db)))
    (data_of h <$> h_blocks db) (h_changes db) (mkLease (load h (h_ID db)) (h_Epoch db)) (load h (h_holder db))
    (h_grantedAt db) (h_expiresAt db).

Definition store_value (h : heap) (s : hstore) : MemStore := mkStore (db_value h <$> s) ∅.

(** ** Operations *)

Definition h_active (now : Time) (db : hdatabase) : bool :=
  bool_decide (is_Some (h_holder db)) && time_Before now (h_expiresAt db).

Definition h_fenced (epoch : Z) (db : hdatabase) : bool :=
  bool_decide (h_holder db = None) || negb (h_Epoch db =? epoch).

(** [cloneLease] and [cloneState], as the result of [Open]. *)
Definition hand_out (db : hdatabase) (revoked : bool) (h : heap) : hOpenResult * heap :=
  let '(id, h) := clone (h_ID db) h in
  let '(last, h) := clone (h_LastCommitID db) h in
  (mkHOpenResult id (h_Epoch db) (h_PageSize db) (h_PageCount db) (h_Version db) last revoked, h).

Definition h_set_expires (t : Time) (db : hdatabase) : hdatabase :=
  mkHDatabase (h_deleted db) (h_PageSize db) (h_PageCount db) (h_Version db) (h_LastCommitID db) (h_blocks db)
    (h_changes db) (h_ID db) (h_Epoch db) (h_holder db) (h_grantedAt db) t.

Definition h_grant (newID : bytes) (req : hOpenRequest) (db : hdatabase) (h : heap) : hdatabase * heap :=
  let '(id, h) := alloc newID h in
  let '(holder, h) := clone (ho_InstanceID req) h in
  (mkHDatabase (h_deleted db) (h_PageSize db) (h_PageCount db) (h_Version db) (h_LastCommitID db) (h_blocks db)
     (h_changes db) id (u64 (h_Epoch db + 1)) holder (ho_Now req) (time_Add (ho_Now req) (ho_TTL req)), h).

Definition h_open_lease (newID : bytes) (req : hOpenRequest) (db : hdatabase) (s : hstore) (h : heap) :
    hstore * heap * result Error hOpenResult :=
  let k := ho_Key req in
  match ho_Resume req with
  | Some (id, epoch) =>
      if h_fenced epoch db || negb (bytes_Equal (load h (h_ID db)) (load h id)) then (s, h, Err ErrFenced)
      else
        let db := h_set_expires (time_Add (ho_Now req) (ho_TTL req)) db in
        let '(r, h) := hand_out db false h in
        (<[k := db]> s, h, Ok r)
  | None =>
      let act := h_active (ho_Now req) db in
      if act && negb (ho_Takeover req) && negb (bytes_Equal (load h (h_holder db)) (load h (ho_InstanceID req))) then
        (s, h, Err (LeaseHeldError (h_grantedAt db)))
      else
        let '(db, h) := h_grant newID req db h in
        let '(r, h) := hand_out db act h in
        (<[k := db]> s, h, Ok r)
  end.

Definition h_revive (req : hOpenRequest) (db : hdatabase) : result Error hdatabase :=
  match ho_Resume req with
  | Some _ => Err ErrFenced
  | None =>
      if negb (ho_Create req) then Err ErrNotFound
      else if negb (ValidPageSize (ho_PageSize req)) then Err (BadRequestError (InvalidPageSize (ho_PageSize req)))
      else
        Ok (mkHDatabase false (ho_PageSize req) (h_PageCount db) (h_Version db) (h_LastCommitID db) (h_blocks db)
              (h_changes db) (h_ID db) (h_Epoch db) (h_holder db) (h_grantedAt db) (h_expiresAt db))
  end.

Definition h_new (pageSize : Z) : hdatabase := mkHDatabase false pageSize 0 0 None ∅ [] None 0 None 0 0.

(** [Open] of a request without an owner. *)
Definition h_Open (newID : bytes) (req : hOpenRequest) (s : hstore) (h : heap) :
    hstore * heap * result Error hOpenResult :=
  let k := ho_Key req in
  match s !! k with
  | Some db =>
      match (if h_deleted db then h_revive req db else Ok db) with
      | Err e => (s, h, Err e)
      | Ok db =>
          let s := <[k := db]> s in
          if negb (ho_PageSize req =? 0) && negb (ho_PageSize req =? h_PageSize db) then
            (s, h, Err (BadRequestError (PageSizeMismatch (ho_PageSize req) (h_PageSize db))))
          else h_open_lease newID req db s h
      end
  | None =>
      if negb (ho_Create req) || bool_decide (is_Some (ho_Resume req)) then (s, h, Err ErrNotFound)
      else if negb (ValidPageSize (ho_PageSize req)) then
        (s, h, Err (BadRequestError (InvalidPageSize (ho_PageSize req))))
      else
        let db := h_new (ho_PageSize req) in
        h_open_lease newID req db (<[k := db]> s) h
  end.

(** The loop of [Fetch]: a copy of each block, or new zeros. *)
Fixpoint fetch_blocks (db : hdatabase) (indexes : list Z) (h : heap) : list ptr * heap :=
  match indexes with
  | [] => ([], h)
  | i :: indexes =>
      let '(p, h) := match h_blocks db !! i with
                     | Some p => clone p h
                     | None => alloc (zeros (h_PageSize db)) h
                     end in
      let '(ps, h) := fetch_blocks db indexes h in
      (p :: ps, h)
  end.

Definition h_Fetch (k : Key) (ver first count : Z) (s : hstore) (h : heap) : heap * result Error (list ptr) :=
  match s !! k with
  | None => (h, Err ErrNotFound)
  | Some db =>
      if h_deleted db then (h, Err ErrNotFound)
      else if negb (ver =? h_Version db) then (h, Err (VersionConflictError (h_Version db)))
      else match CheckRange first count (h_PageCount db) with
      | Err e => (h, Err e)
      | Ok _ =>
      match make_blocks count with
      | Err e => (h, Err e)
      | Ok _ =>
          let '(ps, h) := fetch_blocks db ((fun i => u64 (first + i)) <$> seqZ 0 count) h in
          (h, Ok ps)
      end
      end
  end.

(** The loop of [Commit]: a copy of each block is kept. *)
Fixpoint store_blocks (bs : list (Z * ptr)) (m : gmap Z ptr) (h : heap) : gmap Z ptr * heap :=
  match bs with
  | [] => (m, h)
  | (i, p) :: bs =>
      let '(q, h) := clone p h in
      store_blocks bs (<[i := q]> m) h
  end.

Definition h_apply (req : hCommitRequest) (db : hdatabase) (h : heap) : hdatabase * heap :=
  let '(written, h) := store_blocks (hc_Blocks req) (h_blocks db) h in
  let kept := filter (fun e => e.1 < hc_PageCount req) written in
  let '(id, h) := clone (hc_CommitID req) h in
  let version := u64 (h_Version db + 1) in
  let touched := sort_indexes (fst <$> hc_Blocks req) in
  (mkHDatabase (h_deleted db) (h_PageSize db) (hc_PageCount req) version id kept
     (log_change (mkChange version touched) (h_changes db)) (h_ID db) (h_Epoch db) (h_holder db) (h_grantedAt db)
     (time_Add (hc_Now req) (hc_TTL req)), h).

Definition h_Commit (req : hCommitRequest) (s : hstore) (h : heap) : hstore * heap * result Error Z :=
  let k := hc_Key req in
  match s !! k with
  | None => (s, h, Err ErrNotFound)
  | Some db =>
      if h_fenced (hc_LeaseEpoch req) db then (s, h, Err ErrFenced)
      else if (h_Version db =? u64 (hc_BaseVersion req + 1)) && (0 <? slice_len (load h (hc_CommitID req))) &&
              bytes_Equal (load h (h_LastCommitID db)) (load h (hc_CommitID req)) then
        (<[k := h_set_expires (time_Add (hc_Now req) (hc_TTL req)) db]> s, h, Ok (h_Version db))
      else if negb (h_Version db =? hc_BaseVersion req) then (s, h, Err (VersionConflictError (h_Version db)))
      else match ValidateCommit (h_PageSize db) (commit_value h req) with
      | Err e => (s, h, Err e)
      | Ok _ =>
          let '(db, h) := h_apply req db h in
          (<[k := db]> s, h, Ok (h_Version db))
      end
  end.

Definition h_Renew (k : Key) (epoch : Z) (now : Time) (ttl : Duration) (s : hstore) : hstore * result Error unit :=
  match s !! k with
  | None => (s, Err ErrNotFound)
  | Some db =>
      if h_fenced epoch db then (s, Err ErrFenced) else (<[k := h_set_expires (time_Add now ttl) db]> s, Ok tt)
  end.

Definition h_set_holder (p : ptr) (db : hdatabase) : hdatabase :=
  mkHDatabase (h_deleted db) (h_PageSize db) (h_PageCount db) (h_Version db) (h_LastCommitID db) (h_blocks db)
    (h_changes db) (h_ID db) (h_Epoch db) p (h_grantedAt db) (h_expiresAt db).

Definition h_Release (k : Key) (epoch : Z) (s : hstore) : hstore * result Error unit :=
  match s !! k with
  | None => (s, Err ErrNotFound)
  | Some db => if h_fenced epoch db then (s, Err ErrFenced) else (<[k := h_set_holder None db]> s, Ok tt)
  end.

Definition h_remove (db : hdatabase) : hdatabase :=
  mkHDatabase true (h_PageSize db) 0 (u64 (h_Version db + 1)) None ∅ [] None (u64 (h_Epoch db + 1)) None
    (h_grantedAt db) (h_expiresAt db).

Definition h_Delete (req : DeleteRequest) (s : hstore) : hstore * result Error DeleteResult :=
  let k := dr_Key req in
  match s !! k with
  | None => (s, Ok (mkDeleteResult 0 false))
  | Some db =>
      if h_deleted db then (s, Ok (mkDeleteResult 0 false))
      else
        let act := h_active (dr_Now req) db in
        if act && negb (dr_Takeover req) then (s, Err (LeaseHeldError (h_grantedAt db)))
        else
          let db := h_remove db in
          (<[k := db]> s, Ok (mkDeleteResult (h_Epoch db) act))
  end.

(** ** Clients and the store *)

Record world := mkWorld {
  w_heap : heap;
  w_store : hstore;
  reach : gset nat  (** the arrays that clients can reach *) }.

Inductive hcall :=
| HOpen (newID : bytes) (req : hOpenRequest)
| HFetch (k : Key) (ver first count : Z)
| HCommit (req : hCommitRequest)
| HRenew (k : Key) (epoch : Z) (now : Time) (ttl : Duration)
| HRelease (k : Key) (epoch : Z)
| HDelete (req : DeleteRequest).

(** The slices that a client passes with a call. *)
Definition passed (c : hcall) : list ptr :=
  match c with
  | HOpen _ req => ho_InstanceID req :: match ho_Resume req with Some r => [r.1] | None => [] end
  | HCommit req => hc_CommitID req :: (hc_Blocks req).*2
  | _ => []
  end.

Definition arrays (ps : list ptr) : gset nat := list_to_set (omap (fmap arr) ps).

(** The call with the contents of its slices. *)
Definition call_value (h : heap) (c : hcall) : op :=
  match c with
  | HOpen newID req => OpOpen newID (open_value h req)
  | HFetch k v f n => OpFetch k v f n
  | HCommit req => OpCommit (commit_value h req)
  | HRenew k e now ttl => OpRenew k e now ttl
  | HRelease k e => OpRelease k e
  | HDelete req => OpDelete req
  end.

(** A call: the heap and the store after it, the slices it returned, and the answer with their contents
    at that moment. *)
Definition h_call (c : hcall) (s : hstore) (h : heap) : hstore * heap * list ptr * answer :=
  match c with
  | HOpen newID req =>
      let '(s, h, r) := h_Open newID req s h in
      match r with
      | Ok r => (s, h, [hr_ID r; hr_LastCommitID r], AOpen (Ok (result_value h r)))
      | Err e => (s, h, [], AOpen (Err e))
      end
  | HFetch k v f n =>
      let '(h, r) := h_Fetch k v f n s h in
      match r with
      | Ok ps => (s, h, ps, AFetch (Ok (data_of h <$> ps)))
      | Err e => (s, h, [], AFetch (Err e))
      end
  | HCommit req => let '(s, h, r) := h_Commit req s h in (s, h, [], ACommit r)
  | HRenew k e now ttl => let '(s, r) := h_Renew k e now ttl s in (s, h, [], ARenew r)
  | HRelease k e => let '(s, r) := h_Release k e s in (s, h, [], ARelease r)
  | HDelete req => let '(s, r) := h_Delete req s in (s, h, [], ADelete r)
  end.

Inductive action :=
| Allocate (data : bytes)
| Mutate (a i : nat) (b : Byte.byte)
| Request (c : hcall).

(** A client allocates an array, writes a byte of an array it can reach, or calls the store. *)
Definition act (x : action) (w : world) : option (world * list (op * answer)) :=
  match x with
  | Allocate data => Some (mkWorld (w_heap w ++ [data]) (w_store w) ({[length (w_heap w)]} ∪ reach w), [])
  | Mutate a i b =>
      if bool_decide (a ∈ reach w) then Some (mkWorld (alter (fun data => <[i := b]> data) a (w_heap w)) (w_store w) (reach w), [])
      else None
  | Request c =>
      if bool_decide (arrays (passed c) ⊆ reach w) then
        let '(s, h, ps, a) := h_call c (w_store w) (w_heap w) in
        Some (mkWorld h s (arrays ps ∪ reach w), [(call_value (w_heap w) c, a)])
      else None
  end.

Fixpoint play (xs : list action) (w : world) : option (world * list (op * answer)) :=
  match xs with
  | [] => Some (w, [])
  | x :: xs =>
      '(w, l) ← act x w;
      '(w, l') ← play xs w;
      Some (w, l ++ l')
  end.

Definition start_world : world := mkWorld [] ∅ ∅.

(** ** Contents on a growing heap *)

Definition ptr_in (P : nat -> Prop) (p : ptr) : Prop := match p with Some v => P (arr v) | None => True end.

Definition db_in (P : nat -> Prop) (db : hdatabase) : Prop :=
  ptr_in P (h_LastCommitID db) /\ ptr_in P (h_ID db) /\ ptr_in P (h_holder db) /\
  map_Forall (fun _ p => ptr_in P p) (h_blocks db).

(** All slices of the store are in arrays with [P]. *)
Definition store_in (P : nat -> Prop) (s : hstore) : Prop := map_Forall (fun _ db => db_in P db) s.

Definition valid (h : heap) (a : nat) : Prop := (a < length h)%nat.

(** Allocated between the heaps [h] and [h']. *)
Definition fresh_in (h h' : heap) (a : nat) : Prop := (length h <= a < length h')%nat.

Lemma ptr_in_mono (P Q : nat -> Prop) p : (forall a, P a -> Q a) -> ptr_in P p -> ptr_in Q p.
Proof. destruct p; simpl; auto. Qed.

Lemma db_in_mono (P Q : nat -> Prop) db : (forall a, P a -> Q a) -> db_in P db -> db_in Q db.
Proof.
  intros HPQ (? & ? & ? & Hb). split_and!; try by eapply ptr_in_mono.
  intros i p Hp. eapply ptr_in_mono; [done|]. by apply (Hb i).
Qed.

Lemma store_in_mono (P Q : nat -> Prop) s : (forall a, P a -> Q a) -> store_in P s -> store_in Q s.
Proof. intros HPQ Hs k db Hdb. eapply db_in_mono; [done|]. by apply (Hs k). Qed.

(** Heaps that agree on the arrays with [P]. *)
Definition agree (P : nat -> Prop) (h h' : heap) : Prop := forall a, P a -> h' !! a = h !! a.

Lemma load_agree P h h' p : agree P h h' -> ptr_in P p -> load h' p = load h p.
Proof. destruct p as [v|]; simpl; [|done]. intros Ha Hp. unfold load. simpl. by rewrite (Ha _ Hp). Qed.

Lemma db_agree P h h' db : agree P h h' -> db_in P db -> db_value h' db = db_value h db.
Proof.
  intros Ha (H1 & H2 & H3 & Hb). unfold db_value. rewrite !(load_agree P h h') by done. f_equal.
  apply map_fmap_ext. intros i p Hp. unfold data_of. by rewrite (load_agree P h h' p Ha (Hb i p Hp)).
Qed.

Lemma store_agree P h h' s : agree P h h' -> store_in P s -> store_value h' s = store_value h s.
Proof.
  intros Ha Hs. unfold store_value. f_equal. apply map_fmap_ext. intros k db Hdb. apply (db_agree P); [done|].
  by apply (Hs k).
Qed.

Lemma prefix_agree h h' : h `prefix_of` h' -> agree (valid h) h h'.
Proof. intros [g ->] a Ha. by apply lookup_app_l. Qed.

Lemma prefix_valid h h' a : h `prefix_of` h' -> valid h a -> valid h' a.
Proof. unfold valid. intros Hp%prefix_length ?. lia. Qed.

Lemma alloc_spec data h q h' :
  alloc data h = (q, h') -> h `prefix_of` h' /\ load h' q = Some data /\ ptr_in (fresh_in h h') q.
Proof.
  intros [= <- <-]. split_and!; [by apply prefix_app_r| |].
  - unfold load. cbn [arr off len]. rewrite lookup_app_r, Nat.sub_diag by done. cbn [list_lookup lookup default]. by rewrite drop_0, firstn_all.
  - unfold ptr_in, fresh_in. simpl. rewrite length_app. simpl. lia.
Qed.

Lemma clone_spec p h q h' :
  clone p h = (q, h') -> h `prefix_of` h' /\ load h' q = load h p /\ ptr_in (fresh_in h h') q.
Proof. unfold clone. destruct (load h p) as [data|]; [apply alloc_spec|]. by intros [= <- <-]. Qed.

Lemma fresh_wider h1 h2 h3 h4 a :
  h1 `prefix_of` h2 -> h3 `prefix_of` h4 -> fresh_in h2 h3 a -> fresh_in h1 h4 a.
Proof. unfold fresh_in. intros ?%prefix_length ?%prefix_length ?. lia. Qed.

Lemma fresh_valid h h' a : fresh_in h h' a -> valid h' a.
Proof. unfold fresh_in, valid. lia. Qed.

Lemma load_later h h' p : h `prefix_of` h' -> ptr_in (valid h) p -> load h' p = load h p.
Proof. intros Hp. by apply load_agree, prefix_agree. Qed.

Lemma db_later h h' db : h `prefix_of` h' -> db_in (valid h) db -> db_value h' db = db_value h db.
Proof. intros Hp. by apply db_agree, prefix_agree. Qed.

Lemma data_later h h' (m : gmap Z ptr) :
  h `prefix_of` h' -> map_Forall (fun _ p => ptr_in (valid h) p) m -> data_of h' <$> m = data_of h <$> m.
Proof.
  intros Hp Hm. apply map_fmap_ext. intros i p Hi. unfold data_of. by rewrite (load_later h h' p Hp (Hm i p Hi)).
Qed.

Lemma filter_fst {A B} (f : A -> B) (m : gmap Z A) n :
  f <$> filter (fun e => e.1 < n) m = filter (fun e => e.1 < n) (f <$> m).
Proof. rewrite map_filter_fmap. f_equal. Qed.

(** ** The operations copy *)

(** The results of [Open] are copies. *)
Lemma hand_out_spec db revoked h r h' :
  hand_out db revoked h = (r, h') -> db_in (valid h) db ->
  h `prefix_of` h' /\ result_value h' r = mkOpenResult (cloneLease (lease (db_value h db))) (cloneState (state (db_value h db))) revoked /\
  Forall (ptr_in (fresh_in h h')) [hr_ID r; hr_LastCommitID r].
Proof.
  unfold hand_out. destruct (clone (h_ID db) h) as [id h1] eqn:H1. destruct (clone (h_LastCommitID db) h1) as [last h2] eqn:H2.
  intros [= <- <-] (Hl & Hi & _). apply clone_spec in H1 as (P1 & L1 & F1), H2 as (P2 & L2 & F2).
  split_and!; [by etrans| |].
  - unfold result_value. simpl. rewrite L2, (load_later h h1) by done.
    rewrite (load_later h1 h2), L1 by (done || by eapply ptr_in_mono, F1; apply fresh_valid). done.
  - repeat constructor; simpl; (eapply ptr_in_mono; [|done]); intros a; by apply fresh_wider.
Qed.

Lemma fetch_blocks_spec db indexes h ps h' :
  fetch_blocks db indexes h = (ps, h') -> db_in (valid h) db ->
  h `prefix_of` h' /\ data_of h' <$> ps = read_block (db_value h db) <$> indexes /\ Forall (ptr_in (fresh_in h h')) ps.
Proof.
  revert h ps h'. induction indexes as [|i indexes IH]; intros h ps h'; simpl; [by intros [= <- <-]|].
  destruct (match h_blocks db !! i with Some p => _ | None => _ end) as [p h1] eqn:Hp.
  destruct (fetch_blocks db indexes h1) as [qs h2] eqn:Hq. intros [= <- <-] Hdb.
  assert (h `prefix_of` h1 /\ data_of h1 p = read_block (db_value h db) i /\ ptr_in (fresh_in h h1) p) as (P1 & D1 & F1).
  { unfold read_block. simpl. rewrite lookup_fmap. unfold data_of.
    destruct (h_blocks db !! i) as [q|]; [apply clone_spec in Hp as (? & -> & ?)|apply alloc_spec in Hp as (? & -> & ?)]; done. }
  destruct (IH h1 qs h2 Hq) as (P2 & D2 & F2); [eapply db_in_mono, Hdb; intros a; by apply prefix_valid|].
  split_and!; [by etrans| |].
  - rewrite !fmap_cons, D2, (db_later h h1) by done. f_equal. unfold data_of in *.
    rewrite (load_later h1 h2); [done|done|]. eapply ptr_in_mono, F1. apply fresh_valid.
  - constructor; [|eapply Forall_impl; [done|]; intros q]; (eapply ptr_in_mono; [|done]) || (intros Hin; eapply ptr_in_mono, Hin);
      intros a; by apply fresh_wider.
Qed.

(** A commit keeps copies of the blocks. *)
Lemma store_blocks_spec bs m h m' h' (P : nat -> Prop) :
  store_blocks bs m h = (m', h') -> Forall (fun b => ptr_in (valid h) b.2) bs ->
  map_Forall (fun _ p => ptr_in (valid h) p) m ->
  h `prefix_of` h' /\
  data_of h' <$> m' = foldl (fun acc b => <[Index b := Data b]> acc) (data_of h <$> m) ((fun b => mkBlock b.1 (data_of h b.2)) <$> bs) /\
  (map_Forall (fun _ p => ptr_in P p) m -> (forall a, fresh_in h h' a -> P a) -> map_Forall (fun _ p => ptr_in P p) m').
Proof.
  revert m h. induction bs as [|[i p] bs IH]; intros m h; simpl; [by intros [= <- <-]|].
  destruct (clone p h) as [q h1] eqn:Hc. intros Hs Hbs Hm. apply clone_spec in Hc as (P1 & L1 & F1).
  apply Forall_cons in Hbs as [Hp Hbs].
  assert (forall r, ptr_in (valid h) r -> ptr_in (valid h1) r) as Hv.
  { intros r Hr. eapply ptr_in_mono, Hr. intros a. by apply prefix_valid. }
  destruct (IH (<[i := q]> m) h1 Hs) as (P2 & D2 & F2).
  { eapply Forall_impl; [done|]. intros b. apply Hv. }
  { apply map_Forall_insert_2; [eapply ptr_in_mono, F1; apply fresh_valid|]. intros j r Hr. apply Hv. by apply (Hm j). }
  split_and!; [by etrans| |].
  - rewrite D2. f_equal.
    + rewrite fmap_insert. unfold data_of at 1. rewrite L1. f_equal. apply map_fmap_ext. intros j r Hr.
      unfold data_of. by rewrite (load_later h h1 r P1 (Hm j r Hr)).
    + apply list_fmap_ext. intros n b Hb. f_equal. unfold data_of. rewrite (load_later h h1); [done|done|].
      rewrite Forall_lookup in Hbs. by apply (Hbs n).
  - intros HP Hfresh. apply F2.
    + apply map_Forall_insert_2; [|done]. eapply ptr_in_mono, F1. intros a Ha. apply Hfresh. eapply fresh_wider, Ha; done.
    + intros a Ha. apply Hfresh. by eapply fresh_wider, Ha.
Qed.

(** ** Every operation is that of [Memory.v] on the contents *)

Lemma store_put k db s h h' :
  h `prefix_of` h' -> store_in (valid h) s -> store_value h' (<[k := db]> s) = put k (db_value h' db) (store_value h s).
Proof.
  intros Hp Hs. rewrite <- (store_agree _ h h' s (prefix_agree h h' Hp) Hs). unfold store_value, put. simpl.
  by rewrite fmap_insert.
Qed.

Lemma store_put_same k db s h : store_value h (<[k := db]> s) = put k (db_value h db) (store_value h s).
Proof. unfold store_value, put. simpl. by rewrite fmap_insert. Qed.

Lemma store_in_insert P k db s : db_in P db -> store_in P s -> store_in P (<[k := db]> s).
Proof. intros Hdb Hs. by apply map_Forall_insert_2. Qed.

(** What a call keeps is what it had ([Q]) and arrays allocated before the ones it returns. *)
Definition grows (Q : (nat -> Prop) -> Prop) (s' : hstore) (h h' : heap) (ps : list ptr) : Prop :=
  exists hm, h `prefix_of` hm /\ hm `prefix_of` h' /\ Forall (ptr_in (fresh_in hm h')) ps /\
    forall P : nat -> Prop, Q P -> (forall a, fresh_in h hm a -> P a) -> store_in P s'.

Lemma grows_same (Q : (nat -> Prop) -> Prop) s' h : (forall P, Q P -> store_in P s') -> grows Q s' h h [].
Proof. intros HQ. exists h. split_and!; [done|done|constructor|auto]. Qed.

Lemma fenced_value h epoch db : fenced epoch (db_value h db) = h_fenced epoch db.
Proof.
  unfold fenced, h_fenced. simpl. f_equal. apply bool_decide_ext. by destruct (h_holder db).
Qed.

Lemma active_value h now db : active now (db_value h db) = h_active now db.
Proof.
  unfold active, h_active. simpl. f_equal. apply bool_decide_ext. destruct (h_holder db); simpl; split; intros [? ?]; by eauto.
Qed.

Lemma set_expires_value h t db : db_value h (h_set_expires t db) = set_expires t (db_value h db).
Proof. done. Qed.

Lemma set_expires_in P t db : db_in P db -> db_in P (h_set_expires t db).
Proof. done. Qed.

Lemma db_in_later h h' db : h `prefix_of` h' -> db_in (valid h) db -> db_in (valid h') db.
Proof. intros Hp. apply db_in_mono. intros a. by apply prefix_valid. Qed.

(** The new lease is in new arrays. *)
Lemma grant_spec newID req db h db' h' :
  h_grant newID req db h = (db', h') -> db_in (valid h) db -> ptr_in (valid h) (ho_InstanceID req) ->
  h `prefix_of` h' /\
  db_value h' db' = mkDatabase (deleted (db_value h db)) (state (db_value h db)) (blocks (db_value h db)) (changes (db_value h db))
    (mkLease (Some newID) (u64 (Epoch (lease (db_value h db)) + 1))) (bytes_Clone (load h (ho_InstanceID req))) (ho_Now req)
    (time_Add (ho_Now req) (ho_TTL req)) /\
  forall P : nat -> Prop, db_in P db -> (forall a, fresh_in h h' a -> P a) -> db_in P db'.
Proof.
  unfold h_grant. destruct (alloc newID h) as [id h1] eqn:H1. destruct (clone (ho_InstanceID req) h1) as [hold h2] eqn:H2.
  intros [= <- <-] Hdb Hi. apply alloc_spec in H1 as (P1 & L1 & F1). apply clone_spec in H2 as (P2 & L2 & F2).
  assert (h `prefix_of` h2) as P12 by (by etrans). split_and!; [done| |].
  - rewrite <- (db_later h h2 db P12 Hdb). unfold db_value. simpl. f_equal.
    + by rewrite (load_later h1 h2), L1 by (done || by eapply ptr_in_mono, F1; apply fresh_valid).
    + by rewrite L2, (load_later h h1).
  - intros P (Hl & _ & _ & Hb) HP. split_and!; simpl; [done| | |done]; (eapply ptr_in_mono; [|done]);
      intros a Ha; apply HP; by eapply fresh_wider, Ha.
Qed.

Definition returned (r : result Error hOpenResult) : list ptr :=
  match r with Ok r => [hr_ID r; hr_LastCommitID r] | Err _ => [] end.

Definition open_answer (h : heap) (r : result Error hOpenResult) : result Error OpenResult :=
  match r with Ok r => Ok (result_value h r) | Err e => Err e end.

Lemma open_lease_spec newID req db s h s' h' r :
  h_open_lease newID req db s h = (s', h', r) -> db_in (valid h) db -> store_in (valid h) s ->
  ptr_in (valid h) (ho_InstanceID req) ->
  grows (fun P => store_in P s /\ db_in P db) s' h h' (returned r) /\
  open_lease newID (open_value h req) (db_value h db) (store_value h s) = (store_value h' s', open_answer h' r).
Proof.
  intros Ho Hdb Hs Hi. unfold h_open_lease in Ho. unfold open_lease. simpl. rewrite active_value.
  destruct (ho_Resume req) as [[id epoch]|]; simpl; [rewrite fenced_value|]; case_match; simplify_eq;
    [by split; [apply grows_same; tauto|]| | by split; [apply grows_same; tauto|]|].
  - destruct (hand_out _ false h) as [r0 h1] eqn:Hh. simplify_eq.
    destruct (hand_out_spec _ _ _ _ _ Hh) as (P1 & V1 & F1); [by apply set_expires_in|]. split.
    + exists h. split_and!; [done|done|done|]. intros P [HPs HPdb] _. by apply store_in_insert.
    + rewrite (store_put _ _ _ h h') by done. unfold open_answer. rewrite V1. by rewrite (db_later h h').
  - destruct (h_grant newID req db h) as [db1 h1] eqn:Hg. destruct (hand_out db1 _ h1) as [r0 h2] eqn:Hh. simplify_eq.
    destruct (grant_spec _ _ _ _ _ _ Hg Hdb Hi) as (P0 & V0 & Hin).
    assert (db_in (valid h1) db1) as Hdb1.
    { apply Hin; [by apply (db_in_later h)|]. apply fresh_valid. }
    destruct (hand_out_spec _ _ _ _ _ Hh Hdb1) as (P1 & V1 & F1). split.
    + exists h1. split_and!; [done|done|done|]. intros P [HPs HPdb] HP. apply store_in_insert; [by apply Hin|done].
    + rewrite (store_put _ _ _ h h') by (done || by etrans). unfold open_answer. rewrite V1, (db_later h1 h'), V0 by done. done.
Qed.

Lemma lookup_value k s h : dbs (store_value h s) !! k = db_value h <$> s !! k.
Proof. simpl. by rewrite lookup_fmap. Qed.

Lemma revive_value h req db :
  revive (open_value h req) (db_value h db) =
  match h_revive req db with Ok db => Ok (db_value h db) | Err e => Err e end.
Proof. unfold revive, h_revive. simpl. destruct (ho_Resume req); simpl; [done|]. by repeat case_match. Qed.

Lemma revive_in P req db db' : h_revive req db = Ok db' -> db_in P db -> db_in P db'.
Proof. unfold h_revive. destruct (ho_Resume req); [done|]. repeat case_match; try done. by intros [= <-]. Qed.

Lemma h_Open_spec newID req s h s' h' r :
  h_Open newID req s h = (s', h', r) -> store_in (valid h) s -> ptr_in (valid h) (ho_InstanceID req) ->
  grows (fun P => store_in P s) s' h h' (returned r) /\
  Open newID (open_value h req) (store_value h s) = (store_value h' s', open_answer h' r).
Proof.
  intros Ho Hs Hi. unfold h_Open in Ho. unfold Open. rewrite lookup_value.
  change (slot_taken (open_value h req) (store_value h s)) with false.
  destruct (s !! or_Key (open_value h req)) as [db|] eqn:Hdb; simpl in Hdb |- *; rewrite Hdb in Ho.
  - pose proof (Hs _ _ Hdb) as Hin.
    assert (forall db1, (if h_deleted db then h_revive req db else Ok db) = Ok db1 -> forall P, db_in P db -> db_in P db1) as Hrev.
    { intros db1 H1 P HP. destruct (h_deleted db); [by eapply revive_in|by simplify_eq]. }
    replace (if h_deleted db then revive (open_value h req) (db_value h db) else Ok (db_value h db)) with
      (match (if h_deleted db then h_revive req db else Ok db) with Ok db => Ok (db_value h db) | Err e => Err e end)
      by (destruct (h_deleted db); [by rewrite revive_value|done]).
    destruct (if h_deleted db then h_revive req db else Ok db) as [db1|e]; simplify_eq; [|by split; [by apply grows_same|]].
    specialize (Hrev db1 eq_refl). simpl. case_match; simplify_eq.
    + split; [|by rewrite store_put_same]. apply grows_same. intros P HP. apply store_in_insert; [|done].
      apply Hrev, (HP _ _ Hdb).
    + destruct (open_lease_spec _ _ _ _ _ _ _ _ Ho) as [(hm & ? & ? & ? & Hg) Heq]; [by apply Hrev|by apply store_in_insert; [apply Hrev|]|done|].
      split; [|by rewrite store_put_same in Heq]. exists hm. split_and!; [done..|]. intros P HP Hf.
      assert (db_in P db1) by apply Hrev, (HP _ _ Hdb). apply Hg; [split; [by apply store_in_insert|done]|done].
  - assert (forall P, db_in P (h_new (ho_PageSize req))) as Hnew by (intros P; by split_and!).
    rewrite (bool_decide_ext _ _ (fmap_is_Some (fun r => mkResume (load h r.1) r.2) (ho_Resume req))).
    case_match; simplify_eq; [by split; [by apply grows_same|]|]. case_match; simplify_eq; [by split; [by apply grows_same|]|].
    destruct (open_lease_spec _ _ _ _ _ _ _ _ Ho) as [(hm & ? & ? & ? & Hg) Heq]; [done|by apply store_in_insert|done|].
    split; [|by rewrite store_put_same in Heq]. exists hm. split_and!; [done..|]. intros P HP Hf.
    apply Hg; [split; [by apply store_in_insert|done]|done].
Qed.

Lemma h_Fetch_spec k v f n s h h' r :
  h_Fetch k v f n s h = (h', r) -> store_in (valid h) s ->
  grows (fun P => store_in P s) s h h' (match r with Ok ps => ps | Err _ => [] end) /\
  Fetch k v f n (store_value h s) = match r with Ok ps => Ok (data_of h' <$> ps) | Err e => Err e end.
Proof.
  intros Hf Hs. unfold h_Fetch in Hf. unfold Fetch. rewrite lookup_value.
  destruct (s !! k) as [db|] eqn:Hdb; simplify_eq/=; [|by split; [by apply grows_same|]].
  case_match; simplify_eq; [by split; [by apply grows_same|]|]. case_match; simplify_eq; [by split; [by apply grows_same|]|].
  destruct (CheckRange f n (h_PageCount db)); simplify_eq/=; [|by split; [by apply grows_same|]].
  destruct (make_blocks n); simplify_eq/=; [|by split; [by apply grows_same|]].
  destruct (fetch_blocks db _ h) as [ps h1] eqn:Hb. simplify_eq.
  destruct (fetch_blocks_spec _ _ _ _ _ Hb (Hs _ _ Hdb)) as (P1 & D1 & F1). split.
  - exists h. by split_and!.
  - rewrite D1. by rewrite <- list_fmap_compose.
Qed.

Lemma apply_spec req db h db' h' :
  h_apply req db h = (db', h') -> db_in (valid h) db -> ptr_in (valid h) (hc_CommitID req) ->
  Forall (ptr_in (valid h)) (hc_Blocks req).*2 ->
  h `prefix_of` h' /\ db_value h' db' = apply_commit (commit_value h req) (db_value h db) /\
  forall P : nat -> Prop, db_in P db -> (forall a, fresh_in h h' a -> P a) -> db_in P db'.
Proof.
  unfold h_apply. destruct (store_blocks _ _ h) as [written h1] eqn:Hb. destruct (clone (hc_CommitID req) h1) as [id h2] eqn:Hc.
  intros [= <- <-] Hdb Hid Hbs. apply clone_spec in Hc as (P2 & L2 & F2). rewrite Forall_fmap in Hbs.
  pose proof (fun P => store_blocks_spec _ _ _ _ _ P Hb Hbs (proj2 (proj2 (proj2 Hdb)))) as Hsb.
  destruct (Hsb (valid h1)) as (P1 & D1 & Hv). assert (h `prefix_of` h2) as P12 by (by etrans).
  assert (map_Forall (fun _ p => ptr_in (valid h1) p) written) as Hw.
  { apply Hv; [|apply fresh_valid]. apply (db_in_later h h1 db P1 Hdb). }
  split_and!; [done| |].
  - rewrite <- (db_later h h2 db P12 Hdb). unfold apply_commit, db_value, commit_value. simpl. f_equal.
    + f_equal. by rewrite L2, (load_later h h1).
    + rewrite (data_later h h2 _ P12 (proj2 (proj2 (proj2 Hdb)))), <- D1, <- (data_later h1 h2 _ P2 Hw).
      apply filter_fst.
    + by rewrite <- list_fmap_compose.
  - intros P (Hl & Hi & Hh & Hbl) HP. destruct (Hsb P) as (_ & _ & HwP). split_and!; simpl; [|done|done|].
    + eapply ptr_in_mono, F2. intros a Ha. apply HP. by eapply fresh_wider, Ha.
    + intros i p [Hp _]%map_lookup_filter_Some. revert i p Hp. apply HwP; [done|]. intros a Ha. apply HP. by eapply fresh_wider, Ha.
Qed.

Lemma h_Commit_spec req s h s' h' r :
  h_Commit req s h = (s', h', r) -> store_in (valid h) s -> ptr_in (valid h) (hc_CommitID req) ->
  Forall (ptr_in (valid h)) (hc_Blocks req).*2 ->
  grows (fun P => store_in P s) s' h h' [] /\ Commit (commit_value h req) (store_value h s) = (store_value h' s', r).
Proof.
  intros Hc Hs Hid Hbs. unfold h_Commit in Hc. unfold Commit, repeated. rewrite lookup_value.
  destruct (s !! cr_Key (commit_value h req)) as [db|] eqn:Hdb; simpl in Hdb |- *; rewrite Hdb in Hc;
    [|simplify_eq; by split; [by apply grows_same|]].
  rewrite fenced_value. case_match; simplify_eq; [by split; [by apply grows_same|]|].
  case_match; simplify_eq.
  { split; [|by rewrite store_put_same]. apply grows_same. intros P HP. apply store_in_insert; [apply (HP _ _ Hdb)|done]. }
  case_match; simplify_eq; [by split; [by apply grows_same|]|].
  destruct (ValidateCommit _ _); simplify_eq; [|by split; [by apply grows_same|]].
  destruct (h_apply req db h) as [db1 h1] eqn:Ha. simplify_eq.
  destruct (apply_spec _ _ _ _ _ Ha (Hs _ _ Hdb) Hid Hbs) as (P1 & V1 & Hin). split.
  - exists h'. split_and!; [done|done|constructor|]. intros P HP Hf. apply store_in_insert; [|done]. apply Hin; [apply (HP _ _ Hdb)|done].
  - rewrite (store_put _ _ _ h h'), V1 by done. f_equal. f_equal.
    change (h_Version db1) with (Version (state (db_value h' db1))). by rewrite V1.
Qed.

Lemma h_Renew_spec k e now ttl s h s' r :
  h_Renew k e now ttl s = (s', r) ->
  (forall P, store_in P s -> store_in P s') /\ Renew k e now ttl (store_value h s) = (store_value h s', r).
Proof.
  unfold h_Renew, Renew. rewrite lookup_value. destruct (s !! k) as [db|] eqn:Hdb; simpl; [|by intros [= <- <-]].
  rewrite fenced_value. case_match; intros; simplify_eq; [done|]. split; [|by rewrite store_put_same].
  intros P HP. apply store_in_insert; [apply (HP _ _ Hdb)|done].
Qed.

Lemma h_Release_spec k e s h s' r :
  h_Release k e s = (s', r) ->
  (forall P, store_in P s -> store_in P s') /\ Release k e (store_value h s) = (store_value h s', r).
Proof.
  unfold h_Release, Release. rewrite lookup_value. destruct (s !! k) as [db|] eqn:Hdb; simpl; [|by intros [= <- <-]].
  rewrite fenced_value. case_match; intros; simplify_eq; [done|]. split; [|by rewrite store_put_same].
  intros P HP. apply store_in_insert; [|done]. destruct (HP _ _ Hdb) as (? & ? & _ & ?). by split_and!.
Qed.

Lemma h_Delete_spec req s h s' r :
  h_Delete req s = (s', r) ->
  (forall P, store_in P s -> store_in P s') /\ Delete req (store_value h s) = (store_value h s', r).
Proof.
  unfold h_Delete, Delete. rewrite lookup_value. destruct (s !! dr_Key req) as [db|] eqn:Hdb; simpl; [|by intros [= <- <-]].
  case_match; [by intros [= <- <-]|]. rewrite active_value. case_match; intros; simplify_eq; [done|].
  split; [|rewrite store_put_same; unfold db_value; simpl; by rewrite fmap_empty].
  intros P HP. apply store_in_insert; [by split_and!|done].
Qed.


(** ** Isolation *)

(** The arrays of the store are on the heap and out of the clients' reach. *)
Record isolated (w : world) : Prop := {
  iso_store : store_in (fun a => valid (w_heap w) a /\ a ∉ reach w) (w_store w);
  iso_reach : forall a, a ∈ reach w -> valid (w_heap w) a }.

Lemma iso_valid w : isolated w -> store_in (valid (w_heap w)) (w_store w).
Proof. intros [Hs _]. eapply store_in_mono, Hs. by intros a []. Qed.

Lemma elem_of_arrays a ps : a ∈ arrays ps <-> exists v, Some v ∈ ps /\ arr v = a.
Proof.
  unfold arrays. rewrite elem_of_list_to_set, list_elem_of_omap. split.
  - intros ([v|] & Hv & ?); simplify_eq/=. by eauto.
  - intros (v & Hv & <-). by exists (Some v).
Qed.

(** The slices that a client may pass are on the heap. *)
Lemma passed_valid w c :
  isolated w -> arrays (passed c) ⊆ reach w -> Forall (ptr_in (valid (w_heap w))) (passed c).
Proof.
  intros [_ Hr] Hsub. apply Forall_forall. intros [v|] Hv; [|done]. apply Hr, Hsub, elem_of_arrays. eauto.
Qed.

Lemma call_spec c s h s' h' ps a :
  h_call c s h = (s', h', ps, a) -> store_in (valid h) s -> Forall (ptr_in (valid h)) (passed c) ->
  grows (fun P => store_in P s) s' h h' ps /\ step (call_value h c) (store_value h s) = (store_value h' s', a).
Proof.
  intros Hc Hs Hp. destruct c as [newID req|k v f n|req|k e now ttl|k e|req]; simpl in Hc, Hp |- *.
  - destruct (h_Open newID req s h) as [[s1 h1] r] eqn:Ho. apply Forall_cons in Hp as [Hi _].
    destruct (h_Open_spec _ _ _ _ _ _ _ Ho Hs Hi) as [Hg Heq]. rewrite Heq. by destruct r; simplify_eq/=.
  - destruct (h_Fetch k v f n s h) as [h1 r] eqn:Hf. destruct (h_Fetch_spec _ _ _ _ _ _ _ _ Hf Hs) as [Hg Heq].
    assert (store_value h1 s = store_value h s) as Hsame.
    { destruct Hg as (hm & P1 & P2 & _). apply (store_agree (valid h)); [|done]. apply prefix_agree. by etrans. }
    rewrite Heq. destruct r; injection Hc as <- <- <- <-; (split; [done|by rewrite Hsame]).
  - destruct (h_Commit req s h) as [[s1 h1] r] eqn:Ho. apply Forall_cons in Hp as [Hi Hb].
    destruct (h_Commit_spec _ _ _ _ _ _ Ho Hs Hi Hb) as [Hg Heq]. rewrite Heq. by simplify_eq.
  - destruct (h_Renew k e now ttl s) as [s1 r] eqn:Ho. destruct (h_Renew_spec _ _ _ _ _ h _ _ Ho) as [Hg Heq].
    rewrite Heq. simplify_eq. split; [by apply grows_same|done].
  - destruct (h_Release k e s) as [s1 r] eqn:Ho. destruct (h_Release_spec _ _ _ h _ _ Ho) as [Hg Heq].
    rewrite Heq. simplify_eq. split; [by apply grows_same|done].
  - destruct (h_Delete req s) as [s1 r] eqn:Ho. destruct (h_Delete_spec _ _ h _ _ Ho) as [Hg Heq].
    rewrite Heq. simplify_eq. split; [by apply grows_same|done].
Qed.

(** The slices that a call returns are not those it keeps. *)
Lemma grows_isolated w s' h' ps :
  isolated w -> grows (fun P => store_in P (w_store w)) s' (w_heap w) h' ps ->
  isolated (mkWorld h' s' (arrays ps ∪ reach w)).
Proof.
  intros [Hs Hr] (hm & P1 & P2 & Hps & Hg). rewrite Forall_forall in Hps.
  pose proof (prefix_length _ _ P1). pose proof (prefix_length _ _ P2). split; simpl.
  - eapply store_in_mono with (P := fun a => valid hm a /\ a ∉ reach w).
    + intros a [Hv Ha]. split; [by eapply prefix_valid|]. intros [(v & Hv' & <-)%elem_of_arrays|?]%elem_of_union; [|done].
      specialize (Hps _ Hv'). unfold ptr_in, fresh_in, valid in *. lia.
    + apply Hg; [eapply store_in_mono, Hs|].
      * intros a [Hv Ha]. split; [by eapply prefix_valid|done].
      * intros a Ha. split; [by eapply fresh_valid|]. intros Hin%Hr. unfold fresh_in, valid in *. lia.
  - intros a [(v & Hv' & <-)%elem_of_arrays|Ha%Hr]%elem_of_union; [by eapply fresh_valid, (Hps _ Hv')|].
    unfold valid in *. lia.
Qed.

(** A step of a client: the calls are those of [Memory.v], and nothing else changes the contents. *)
Lemma act_spec x w w' l :
  act x w = Some (w', l) -> isolated w ->
  isolated w' /\ run l.*1 (store_value (w_heap w) (w_store w)) = (store_value (w_heap w') (w_store w'), l.*2).
Proof.
  intros Ha Hi. destruct x as [data|a i b|c]; simpl in Ha.
  - simplify_eq/=. split.
    + destruct Hi as [Hs Hr]. split; simpl.
      * eapply store_in_mono, Hs. unfold valid. rewrite length_app. intros a [Hv Hn]. split; [lia|].
        intros [->%elem_of_singleton|?]%elem_of_union; [lia|done].
      * unfold valid in *. rewrite length_app. simpl. intros a [->%elem_of_singleton|Hin%Hr]%elem_of_union; lia.
    + f_equal. symmetry. apply (store_agree (valid (w_heap w))); [|by apply iso_valid]. apply prefix_agree. by apply prefix_app_r.
  - case_bool_decide as Hin; [|done]. simplify_eq/=. split.
    + destruct Hi as [Hs Hr]. split; simpl; unfold valid in *; rewrite length_alter; done.
    + f_equal. symmetry. eapply store_agree, (iso_store w Hi). intros a' [_ Hn]. apply list_lookup_alter_ne. by intros ->.
  - case_bool_decide as Hin; [|done]. destruct (h_call c (w_store w) (w_heap w)) as [[[s1 h1] ps] a] eqn:Hc. simplify_eq.
    destruct (call_spec _ _ _ _ _ _ _ Hc (iso_valid w Hi) (passed_valid w c Hi Hin)) as [Hg Heq].
    split; [by apply grows_isolated|]. simpl. by rewrite Heq.
Qed.

Lemma run_both ops1 ops2 (s : MemStore) s1 a1 s2 a2 :
  run ops1 s = (s1, a1) -> run ops2 s1 = (s2, a2) -> run (ops1 ++ ops2) s = (s2, a1 ++ a2).
Proof.
  revert s a1. induction ops1 as [|o ops1 IH]; intros s a1; simpl; [by intros [= -> <-]|].
  destruct (step o s) as [s' a]. destruct (run ops1 s') as [s'' answers] eqn:Hr. intros [= -> <-] H2.
  by rewrite (IH _ _ Hr H2).
Qed.

Lemma play_spec xs w w' l :
  play xs w = Some (w', l) -> isolated w ->
  isolated w' /\ run l.*1 (store_value (w_heap w) (w_store w)) = (store_value (w_heap w') (w_store w'), l.*2).
Proof.
  revert w l. induction xs as [|x xs IH]; intros w l; simpl; [by intros [= <- <-]|].
  intros ([w1 l1] & H1 & ([w2 l2] & H2 & [= <- <-])%bind_Some)%bind_Some Hi.
  destruct (act_spec _ _ _ _ H1 Hi) as [Hi1 R1]. destruct (IH _ _ H2 Hi1) as [Hi2 R2]. split; [done|].
  rewrite !fmap_app. by eapply run_both.
Qed.

(** C15: The memory store shares no memory with its clients.  Clients may write at any time to every array
    they can reach, the ones they pass to the store and the ones it returns included: the answers to
    their calls and the contents of the store are those of the calls alone, on the values that the
    slices had when the calls were made. *)
Theorem buffers_are_copied (xs : list action) (w : world) (l : list (op * answer)) :
  play xs start_world = Some (w, l) ->
  run l.*1 New = (store_value (w_heap w) (w_store w), l.*2).
Proof. intros Hp. by apply (play_spec xs start_world w l Hp). Qed.

(** ** Two writes by clients *)

(** A client commits a page and then overwrites its buffer; it fetches the page, overwrites what it got,
    and fetches again.  The numbers are those of the arrays: 0 is the instance ID, 4 the page and 5 the
    commit ID that the client allocates, and 8 is the page that the first fetch returns. *)
Definition overwriting : list action :=
  let whole a n := Some (mkView a 0 n) in
  [Allocate [x01]; Request (HOpen [x0a] (mkHOpen kA (whole 0%nat 1%nat) 512 true false None (1000 * Microsecond) (100 * Microsecond)));
   Allocate (page x05); Allocate [x61];
   Request (HCommit (mkHCommit kA (whole 5%nat 1%nat) 1 0 1 [(0, whole 4%nat 512%nat)] (1001 * Microsecond) (100 * Microsecond)));
   Mutate 4 0 xff; Request (HFetch kA 1 0 1); Mutate 8 0 xff; Request (HFetch kA 1 0 1)].

Definition overwritten : world * list (op * answer) :=
  Eval vm_compute in default (start_world, []) (play overwriting start_world).

(** Both fetches return the page as it was committed. *)
Lemma buffers_are_copied_witness :
  drop 1 overwritten.2.*2 = [ACommit (Ok 1); AFetch (Ok [page x05]); AFetch (Ok [page x05])] /\
  run overwritten.2.*1 New = (store_value (w_heap overwritten.1) (w_store overwritten.1), overwritten.2.*2).
Proof.
  split; [vm_compute; reflexivity|].
  apply (buffers_are_copied overwriting overwritten.1 overwritten.2). vm_compute. reflexivity.
Defined.
