(* ===== verification/StoreSuite.v ===== *)
(** * All contract tests: [Run] and [blocksAreCopies] of [src/internal/store/storetest/storetest.go]

    [blocksAreCopies], the one contract test about Go slices, is on the heap of [MemAlias.v]; the others
    are the programs of [StoreTest.v]. *)

From S2P Require Import Prelude Store Memory Trace Client StoreTest MemAlias.

Local Open Scope Z_scope.
Local Open Scope string_scope.

(** A test on the memory store: a failed requirement ends it. *)
Definition testing (A : Type) : Type := world -> option (A * world).

#[local] Instance testing_ret : MRet testing := fun _ a w => Some (a, w).
#[local] Instance testing_bind : MBind testing := fun _ _ f m w => '(a, w) ← m w; f a w.

Definition new_slice (data : bytes) : testing ptr := fun w =>
  '(w', _) ← act (Allocate data) w; Some (Some (mkView (length (w_heap w)) 0 (length data)), w').

(** [p[i] = b] and [p[i]] *)
Definition set_byte (p : ptr) (i : nat) (b : Byte.byte) : testing unit := fun w =>
  v ← p; '(w', _) ← act (Mutate (arr v) (off v + i) b) w; Some (tt, w').
Definition get_byte (p : ptr) (i : nat) : testing Byte.byte := fun w =>
  b ← data_of (w_heap w) p !! i; Some (b, w).

Definition equal (a b : Byte.byte) : testing unit := fun w => if Byte.eqb a b then Some (tt, w) else None.

(** A call whose error is required to be nil, with the slices that it returns. *)
Definition no_error (a : answer) : bool :=
  match a with AOpen (Ok _) | AFetch (Ok _) | ACommit (Ok _) => true | _ => false end.
Definition call (c : hcall) : testing (list ptr * answer) := fun w =>
  '(w', _) ← act (Request c) w;
  let '(_, _, ps, a) := h_call c (w_store w) (w_heap w) in
  if no_error a then Some ((ps, a), w') else None.

Definition first (ps : list ptr) : ptr := default None (head ps).

(** [blocksAreCopies] *)
Definition blocksAreCopies (t : T) : testing unit :=
  let k := key t "db" in
  instance ← new_slice (content instanceA);
  '(_, lease) ← call (HOpen (replicate 16 x07) (mkHOpen k instance pageSize true false None t0 ttl));
  let epoch := match lease with AOpen (Ok r) => Epoch (res_Lease r) | _ => 0 end in
  written ← new_slice (Data (block 0 xa0));
  id ← new_slice (content commit1);
  _ ← call (HCommit (mkHCommit k id epoch 0 1 [(0, written)] t0 ttl));
  _ ← set_byte written 0 xff;
  '(fetched, _) ← call (HFetch k 1 0 1);
  b ← get_byte (first fetched) 0;
  _ ← equal xa0 b;
  _ ← set_byte (first fetched) 0 xff;
  '(again, _) ← call (HFetch k 1 0 1);
  b ← get_byte (first again) 0;
  equal xa0 b.

(** ** The suite *)

Inductive test := OnStore (run : T -> prog unit) | OnSlices (run : T -> testing unit).

Definition Run : list (string * test) := [
  ("OpenCreatesEmptyDatabase", OnStore openCreatesEmptyDatabase);
  ("OpenWithoutCreateRequiresDatabase", OnStore openWithoutCreateRequiresDatabase);
  ("OpenRejectsInvalidPageSizes", OnStore openRejectsInvalidPageSizes);
  ("CommitThenFetch", OnStore commitThenFetch);
  ("RepeatedCommitReturnsSameVersion", OnStore repeatedCommitReturnsSameVersion);
  ("StaleBaseVersionConflicts", OnStore staleBaseVersionConflicts);
  ("InvalidCommitChangesNothing", OnStore invalidCommitChangesNothing);
  ("CommitTruncates", OnStore commitTruncates);
  ("FetchChecksVersionAndRange", OnStore fetchChecksVersionAndRange);
  ("ActiveLeaseBlocksOpen", OnStore activeLeaseBlocksOpen);
  ("TakeoverFencesOldLease", OnStore takeoverFencesOldLease);
  ("SameInstanceTakesItsLeaseBack", OnStore sameInstanceTakesItsLeaseBack);
  ("ExpiredLeaseNeedsNoTakeover", OnStore expiredLeaseNeedsNoTakeover);
  ("ExpiredUntakenLeaseStillCommits", OnStore expiredUntakenLeaseStillCommits);
  ("RenewExtendsLease", OnStore renewExtendsLease);
  ("ResumeKeepsLease", OnStore resumeKeepsLease);
  ("ResumeAfterTakeoverIsFenced", OnStore resumeAfterTakeoverIsFenced);
  ("ReleaseFreesLease", OnStore releaseFreesLease);
  ("ChangesListChangedBlocks", OnStore changesListChangedBlocks);
  ("ChangesBeyondWindowAreIncomplete", OnStore changesBeyondWindowAreIncomplete);
  ("ChangesRejectFutureVersion", OnStore changesRejectFutureVersion);
  ("SubjectsAreSeparate", OnStore subjectsAreSeparate);
  ("BlocksAreCopies", OnSlices blocksAreCopies);
  ("DeleteRemovesDatabase", OnStore deleteRemovesDatabase);
  ("DeleteFencesEveryEarlierLease", OnStore deleteFencesEveryEarlierLease);
  ("ActiveLeaseBlocksDelete", OnStore activeLeaseBlocksDelete);
  ("DeleteIsIdempotent", OnStore deleteIsIdempotent);
  ("RecreatedDatabaseHasNoChangeLog", OnStore recreatedDatabaseHasNoChangeLog);
  ("RecreatedDatabaseMayChangePageSize", OnStore recreatedDatabaseMayChangePageSize);
  ("DeleteUnusedKeepsUsedDatabases", OnStore deleteUnusedKeepsUsedDatabases);
  ("DeleteUnusedRespectsLimit", OnStore deleteUnusedRespectsLimit);
  ("ClaimFreeSlot", OnStore claimFreeSlot);
  ("ReclaimChangesNothing", OnStore reclaimChangesNothing);
  ("OnlyTheHolderSetsTheLabel", OnStore onlyTheHolderSetsTheLabel);
  ("ClaimReplacesOtherKey", OnStore claimReplacesOtherKey);
  ("SlotBlocksOwnersOtherKeys", OnStore slotBlocksOwnersOtherKeys);
  ("DeleteSlotPurgesHolder", OnStore deleteSlotPurgesHolder);
  ("DeleteUnusedReleasesSlots", OnStore deleteUnusedReleasesSlots)].

(** The tests on the store's interface, one after the other on one store, as with PostgreSQL. *)
Definition shared_suite (parent runID : string) : prog unit :=
  each (fun e => match e.2 with OnStore run => run (mkT (parent ++ "/" ++ e.1) runID) | OnSlices _ => Return tt end) Run.
