(* ===== verification/StoreTestFacts.v ===== *)
(** * Both stores pass the contract tests

    On the memory store the tests are evaluated.  PostgreSQL passes them because no client can
    tell the two stores apart, with the whole suite on one shared database, as the repository
    runs it. *)

From S2P Require Import Prelude Store Memory Trace MemoryInv MemoryStep Tables Postgres PgRel PgLease PgRefine Client MemAlias StoreTest StoreSuite.

Local Open Scope Z_scope.
Local Open Scope string_scope.

#[local] Existing Instance numbered.

(** A run ID of eight bytes; [TestContract] is the test of the stores that calls [Run]. *)
Definition run_id : string := "0123456789abcdef".

(** The suite on one shared store passes, within 2000 calls that are all in range. *)
Definition suite_check : bool :=
  match exec_check 0 (shared_suite "TestContract" run_id) New with
  | Some (n, Some _) => (Z.of_nat n <? 2000)%Z
  | _ => false
  end.

Lemma suite_ok : suite_check = true.
Proof. vm_compute. reflexivity. Qed.

(** A test on a new memory store. *)
Definition passes_on_memory (parent runID : string) (e : string * test) : bool :=
  let t := mkT (parent ++ "/" ++ e.1) runID in
  match e.2 with
  | OnStore run => bool_decide (exec_result 0 (run t) New = Some tt)
  | OnSlices run => bool_decide (is_Some (fst <$> run t start_world))
  end.

Lemma tests_ok : forallb (passes_on_memory "TestContract" run_id) Run = true.
Proof. vm_compute. reflexivity. Qed.

(** A checked run on the memory store is a run on PostgreSQL. *)
Lemma check_on_postgres `{!Timestamptz} {A} (p : prog A) m r :
  exec_check 0 p New = Some (m, r) -> Z.of_nat m < two63 -> exec_result 0 p empty_tables = r.
Proof.
  intros (Hall & Hn & Hr)%exec_check_all Hm.
  destruct (exec_agree p 0 empty_tables New) as [-> _]; [done|apply wf_new|apply rel_empty|lia|done].
Qed.

#[local] Opaque exec exec_check shared_suite Run.

(** Both stores keep the contract that the repository tests.  Every contract test passes on a new
    memory store, and the suite, run as one sequence on one shared PostgreSQL store, passes for
    every precision of the timestamp columns down to microseconds.  (On PostgreSQL without
    [blocksAreCopies]: its blocks come from rows.) *)
Theorem contract_tests_pass `{!Timestamptz} :
  Forall (fun e => passes_on_memory "TestContract" run_id e = true) Run /\
  exec_result 0 (shared_suite "TestContract" run_id) empty_tables = Some tt.
Proof.
  split.
  - apply Forall_forall. intros e He. exact (proj1 (forallb_forall _ _) tests_ok e (proj1 (list_elem_of_In _ _) He)).
  - pose proof suite_ok as Hs. unfold suite_check in Hs.
    destruct (exec_check 0 (shared_suite _ _) New) as [[m [[]|]]|] eqn:E; [|done..].
    apply (check_on_postgres _ _ _ E). bool_hyps. zlia.
Qed.
