(* ===== verification/Messages.v ===== *)
(** * The messages of the protocol: [src/internal/gen/sqlite_remote/v1/sqlite_remote.pb.go]

    One record per message, one inductive type per [oneof] and enum, in a module named as the
    package.  A message inside another one is a value, since an unmarshalled frame has no nil
    messages; a [bytes] field may be nil.  The text of an error is not modelled: [Error] carries
    the error value whose text the server sends, or nothing where it sends "internal error". *)

From S2P Require Import Prelude Store.

Local Open Scope Z_scope.

(** Errors of the protocol: those of the store, and its own ([errors.go] and [token.DeniedError]). *)
Inductive perr :=
| StoreError (e : Error)
| DatabaseGone
| Unauthenticated (text : string)
| Denied (reason : string)
| TooLarge
| OtherError (text : string).

Module pb.

Inductive SigAlg := SIG_ALG_UNSPECIFIED | SIG_ALG_ED25519 | SIG_ALG_OTHER (n : Z).

Inductive ErrorCode :=
| ERROR_CODE_UNSPECIFIED | ERROR_CODE_UNAUTHENTICATED | ERROR_CODE_FORBIDDEN | ERROR_CODE_NOT_FOUND
| ERROR_CODE_LEASE_HELD | ERROR_CODE_FENCED | ERROR_CODE_VERSION_CONFLICT | ERROR_CODE_BAD_REQUEST
| ERROR_CODE_TOO_LARGE | ERROR_CODE_QUOTA_EXCEEDED | ERROR_CODE_RATE_LIMITED | ERROR_CODE_INTERNAL
| ERROR_CODE_ACCESS_DENIED | ERROR_CODE_SLOT_TAKEN.

Record Hello := mkHello {
  Hello_ProtocolVersion : Z;
  Hello_InstanceId : slice;
  Hello_SigAlg : SigAlg;
  Hello_PublicKey : slice;
  Hello_AccessToken : string }.

Record Challenge := mkChallenge {
  Challenge_Nonce : bytes;
  Challenge_ServerId : string;
  Challenge_ExpiresAtMs : Z }.

Record Proof := mkProof { Proof_Signature : slice }.

Record HelloOk := mkHelloOk {
  HelloOk_ProtocolVersion : Z;
  HelloOk_MaxFrameBytes : Z;
  HelloOk_PingIntervalMs : Z;
  HelloOk_LeaseTtlMs : Z;
  HelloOk_AccessTokenTtlMs : Z }.

Record Resume := mkResume {
  Resume_LeaseId : slice;
  Resume_LeaseEpoch : Z;
  Resume_KnownVersion : Z;
  Resume_PendingCommitId : slice }.

Record Open := mkOpen {
  Open_DbId : string;
  Open_PageSize : Z;
  Open_CreateIfMissing : bool;
  Open_Takeover : bool;
  Open_Resume : option Resume }.

Record Opened := mkOpened {
  Opened_LeaseId : slice;
  Opened_LeaseEpoch : Z;
  Opened_Version : Z;
  Opened_PageSize : Z;
  Opened_PageCount : Z;
  Opened_LastCommitId : slice }.

Record Range := mkRange { Range_FirstBlock : Z; Range_Count : Z }.

Record Fetch := mkFetch {
  Fetch_DbId : string;
  Fetch_Version : Z;
  Fetch_FirstBlock : Z;
  Fetch_Count : Z;
  Fetch_Ranges : list Range }.

Record Pages := mkPages {
  Pages_FirstBlock : Z;
  Pages_Blocks : list bytes;
  Pages_Last : bool }.

Record Changed := mkChanged { Changed_DbId : string; Changed_FromVersion : Z }.

Record Changes := mkChanges {
  Changes_FromVersion : Z;
  Changes_ToVersion : Z;
  Changes_Blocks : list Z;
  Changes_Complete : bool }.

Record Block := mkBlock { Block_Index : Z; Block_Data : bytes }.

Record Commit := mkCommit {
  Commit_DbId : string;
  Commit_CommitId : slice;
  Commit_LeaseEpoch : Z;
  Commit_BaseVersion : Z;
  Commit_PageCount : Z;
  Commit_Blocks : list Block;
  Commit_More : bool;
  Commit_Part : Z }.

Record CommitAck := mkCommitAck { CommitAck_CommitId : slice; CommitAck_Version : Z }.

Record CloseDb := mkCloseDb { CloseDb_DbId : string; CloseDb_LeaseEpoch : Z }.

Record Delete := mkDelete { Delete_DbId : string; Delete_Takeover : bool }.

Record SetSlotLabel := mkSetSlotLabel { SetSlotLabel_Label : string }.

Record Slot := mkSlot {
  Slot_Label : string;
  Slot_ClaimedAtMs : Z;
  Slot_ReplacedLabel : string }.

Record Ping := mkPing { Ping_ClientTimeMs : Z }.

Record Pong := mkPong { Pong_ClientTimeMs : Z }.

Record LeaseRevoked := mkLeaseRevoked { LeaseRevoked_DbId : string; LeaseRevoked_NewLeaseEpoch : Z }.

Record Error_ := mkError {
  Error_Code : ErrorCode;
  Error_Detail : option perr;
  Error_CurrentVersion : Z;
  Error_LeaseHolderSinceMs : Z }.

(** The bodies of a frame from the client; [ClientFrame_None] is a frame without a body that the
    server knows. *)
Inductive ClientBody :=
| ClientFrame_Hello (m : Hello)
| ClientFrame_Open (m : Open)
| ClientFrame_Fetch (m : Fetch)
| ClientFrame_Commit (m : Commit)
| ClientFrame_Ping (m : Ping)
| ClientFrame_CloseDb (m : CloseDb)
| ClientFrame_Proof (m : Proof)
| ClientFrame_Delete (m : Delete)
| ClientFrame_Changed (m : Changed)
| ClientFrame_ClaimSlot
| ClientFrame_DeleteSlot
| ClientFrame_SetSlotLabel (m : SetSlotLabel)
| ClientFrame_None.

Record ClientFrame := mkClientFrame { ClientFrame_RequestId : Z; ClientFrame_Body : ClientBody }.

Inductive ServerBody :=
| ServerFrame_HelloOk (m : HelloOk)
| ServerFrame_Opened (m : Opened)
| ServerFrame_Pages (m : Pages)
| ServerFrame_CommitAck (m : CommitAck)
| ServerFrame_Pong (m : Pong)
| ServerFrame_LeaseRevoked (m : LeaseRevoked)
| ServerFrame_Error (m : Error_)
| ServerFrame_Ok
| ServerFrame_Challenge (m : Challenge)
| ServerFrame_Changes (m : Changes)
| ServerFrame_Slot (m : Slot).

Record ServerFrame := mkServerFrame { ServerFrame_RequestId : Z; ServerFrame_Body : ServerBody }.

End pb.

#[export] Instance perr_eq_decision : EqDecision perr.
Proof. solve_decision. Defined.

(** The enum as the number it is on the wire. *)
Definition sig_alg_number (a : pb.SigAlg) : Z :=
  match a with
  | pb.SIG_ALG_UNSPECIFIED => 0
  | pb.SIG_ALG_ED25519 => 1
  | pb.SIG_ALG_OTHER n => n
  end.

(** ** Error frames: [errors.go] *)

(** [errorFrame]: the code and the details of an error.  (A panic never gets here, see [fetch].) *)
Definition errorFrame (requestID : Z) (err : perr) : pb.ServerFrame :=
  let frame code detail current since :=
    pb.mkServerFrame requestID (pb.ServerFrame_Error (pb.mkError code detail current since)) in
  match err with
  | Unauthenticated _ => frame pb.ERROR_CODE_UNAUTHENTICATED (Some err) 0 0
  | Denied _ => frame pb.ERROR_CODE_ACCESS_DENIED (Some err) 0 0
  | StoreError ErrNotFound => frame pb.ERROR_CODE_NOT_FOUND (Some err) 0 0
  | StoreError ErrFenced | DatabaseGone => frame pb.ERROR_CODE_FENCED (Some err) 0 0
  | StoreError ErrSlotTaken => frame pb.ERROR_CODE_SLOT_TAKEN (Some err) 0 0
  | TooLarge => frame pb.ERROR_CODE_TOO_LARGE (Some err) 0 0
  | StoreError (LeaseHeldError since) =>
      frame pb.ERROR_CODE_LEASE_HELD (Some err) 0 (u64 (time_UnixMilli since))
  | StoreError (VersionConflictError current) =>
      frame pb.ERROR_CODE_VERSION_CONFLICT (Some err) current 0
  | StoreError (BadRequestError _) => frame pb.ERROR_CODE_BAD_REQUEST (Some err) 0 0
  | StoreError (InternalError _ | GoPanic _) | OtherError _ => frame pb.ERROR_CODE_INTERNAL None 0 0
  end.
