(* ===== verification/Connection.v ===== *)
(** * One connection: [src/internal/protocol/connection.go] and [holders.go]

    The handlers of a connection after its login, as functions on a [world]: the store, the calls made
    to it, the table of lease holders of the server, the databases open on the connection, the
    frames sent to its client and the pushes to other connections.  Frames are handled one at a
    time, as the reading goroutine does.  The store is any implementation of the interface; the
    time, the random lease ID and the order in which a Go map is ranged over are arguments. *)

From S2P Require Import Prelude Store Trace Messages.

Local Open Scope Z_scope.

(** ** Options and constants *)

Definition commitIDBytes : Z := 16.
Definition maxInstanceIDBytes : Z := 64.
Definition maxDBIDBytes : Z := 128.
Definition pagesFrameOverhead : Z := 64.
Definition pagesBlockOverhead : Z := 8.
Definition changesFrameOverhead : Z := 64.
Definition maxFetchRanges : Z := 4096.
Definition maxSlotLabelBytes : Z := 256.

(** The options the handlers read. *)
Record Options := mkOptions {
  MaxFrameBytes : Z;
  PingInterval : Duration;
  LeaseTTL : Duration;
  MaxCommitBytes : Z;
  ServerID : string;
  ChallengeTTL : Duration;
  AllowedOrigins : list string }.

(** ** State *)

(** The fields of [pb.Commit] that identify a commit. *)
Record commit_header := mkHeader {
  h_CommitId : slice;
  h_LeaseEpoch : Z;
  h_BaseVersion : Z;
  h_PageCount : Z }.

Record pendingCommit := mkPending {
  header : commit_header;
  nextPart : Z;
  p_blocks : list Block;
  size_ : Z }.

Record openDB := mkOpenDB {
  o_key : Key;
  o_epoch : Z;
  o_pageSize : Z;
  o_pending : option pendingCommit;
  o_renewed : Time }.

(** What the login fixed: the connection's identity on this server, its subject, instance and owner,
    and the expiry of its token (the zero time without one). *)
Record session := mkSession {
  self : nat;
  subject : string;
  instance : slice;
  owner : string;
  tokenExpires : Time }.

Record holder := mkHolder { h_epoch : Z; h_owner : nat }.

(** A [LeaseRevoked] push to another connection: the callback that was stored with its lease. *)
Record push := mkPush { p_conn : nat; p_frame : pb.LeaseRevoked }.

Record world (S : Type) := mkWorld {
  w_store : S;
  w_calls : list op;
  w_holders : gmap Key holder;
  w_dbs : gmap string openDB;
  w_sent : list pb.ServerFrame;
  w_pushes : list push }.
Arguments mkWorld {S}. Arguments w_store {S}. Arguments w_calls {S}. Arguments w_holders {S}.
Arguments w_dbs {S}. Arguments w_sent {S}. Arguments w_pushes {S}.

(** ** Holders: [holders.go] *)

Definition revoked (h : holder) (k : Key) (newEpoch : Z) : push :=
  mkPush (h_owner h) (pb.mkLeaseRevoked (DBID k) newEpoch).

Definition holders_set (k : Key) (epoch : Z) (own : nat) (m : gmap Key holder) :
    gmap Key holder * list push :=
  (<[k := mkHolder epoch own]> m,
   match m !! k with
   | Some previous =>
       if negb (bool_decide (h_owner previous = own)) && (h_epoch previous <? epoch) then
         [revoked previous k epoch]
       else []
   | None => []
   end).

Definition holders_remove (k : Key) (own : nat) (m : gmap Key holder) : gmap Key holder :=
  match m !! k with
  | Some current => if bool_decide (h_owner current = own) then delete k m else m
  | None => m
  end.

Definition holders_purge (k : Key) (m : gmap Key holder) : gmap Key holder * list push :=
  match m !! k with
  | Some previous => (delete k m, [revoked previous k (u64 (h_epoch previous + 1))])
  | None => (m, [])
  end.

Definition holders_revoke (k : Key) (epoch : Z) (m : gmap Key holder) : gmap Key holder * list push :=
  match m !! k with
  | Some previous =>
      (delete k m, if h_epoch previous <? epoch then [revoked previous k epoch] else [])
  | None => (m, [])
  end.

Section handlers.
Context {S : Type} `{StoreAPI S}.
Variable opts : Options.
Variable c : session.

(** ** Effects *)

Definition send (f : pb.ServerFrame) (w : world S) : world S :=
  mkWorld (w_store w) (w_calls w) (w_holders w) (w_dbs w) (w_sent w ++ [f]) (w_pushes w).

Definition fail (id : Z) (e : perr) (w : world S) : world S := send (errorFrame id e) w.

Definition answer_frame (id : Z) (b : pb.ServerBody) (w : world S) : world S :=
  send (pb.mkServerFrame id b) w.

Definition bad (text : string) : perr := StoreError (BadRequestError (RequestReason text)).

Definition set_dbs (m : gmap string openDB) (w : world S) : world S :=
  mkWorld (w_store w) (w_calls w) (w_holders w) m (w_sent w) (w_pushes w).

Definition set_db (dbID : string) (db : openDB) (w : world S) : world S :=
  set_dbs (<[dbID := db]> (w_dbs w)) w.

Definition with_holders (f : gmap Key holder -> gmap Key holder * list push) (w : world S) : world S :=
  let '(m, ps) := f (w_holders w) in
  mkWorld (w_store w) (w_calls w) m (w_dbs w) (w_sent w) (w_pushes w ++ ps).

(** A call to the store. *)
Definition called {A} (o : op) (r : S * A) (w : world S) : A * world S :=
  (r.2, mkWorld r.1 (w_calls w ++ [o]) (w_holders w) (w_dbs w) (w_sent w) (w_pushes w)).

Definition call_Open id req w := called (OpOpen id req) (st_Open id req (w_store w)) w.
Definition call_Fetch k v f n w := called (OpFetch k v f n) (w_store w, st_Fetch k v f n (w_store w)) w.
Definition call_Commit req w := called (OpCommit req) (st_Commit req (w_store w)) w.
Definition call_Changes k v w := called (OpChanges k v) (w_store w, st_Changes k v (w_store w)) w.
Definition call_Renew k e now ttl w := called (OpRenew k e now ttl) (st_Renew k e now ttl (w_store w)) w.
Definition call_Release k e w := called (OpRelease k e) (st_Release k e (w_store w)) w.
Definition call_Delete req w := called (OpDelete req) (st_Delete req (w_store w)) w.
Definition call_ClaimSlot req w := called (OpClaimSlot req) (st_ClaimSlot req (w_store w)) w.
Definition call_SetSlotLabel o s l w :=
  called (OpSetSlotLabel o s l) (st_SetSlotLabel o s l (w_store w)) w.
Definition call_DeleteSlot o s w := called (OpDeleteSlot o s) (st_DeleteSlot o s (w_store w)) w.

(** [gone]: a database that is open here and not found any more was deleted while open. *)
Definition gone (e : Error) : perr :=
  match e with ErrNotFound => DatabaseGone | _ => StoreError e end.

(** ** Open *)

Definition checkDBID (id : string) : option perr :=
  if bool_decide (id = EmptyString) || (maxDBIDBytes <? Z.of_nat (String.length id)) || negb (utf8_ValidString id)
  then Some (bad "database id must be 1 to 128 bytes of UTF-8")
  else None.

Definition key_of (dbID : string) : Key := mkKey (subject c) dbID.

Definition open_request (req : pb.Open) (now : Time) : OpenRequest :=
  mkOpenRequest (key_of (pb.Open_DbId req)) (owner c) (instance c) (pb.Open_PageSize req)
    (pb.Open_CreateIfMissing req) (pb.Open_Takeover req)
    ((fun r => mkResume (pb.Resume_LeaseId r) (pb.Resume_LeaseEpoch r)) <$> pb.Open_Resume req)
    now (LeaseTTL opts).

Definition opened_frame (res : OpenResult) : pb.ServerBody :=
  pb.ServerFrame_Opened
    (pb.mkOpened (ID (res_Lease res)) (Epoch (res_Lease res)) (Version (res_State res))
       (PageSize (res_State res)) (PageCount (res_State res)) (LastCommitID (res_State res))).

Definition open (newID : bytes) (now : Time) (id : Z) (req : pb.Open) (w : world S) : world S :=
  let dbID := pb.Open_DbId req in
  match checkDBID dbID with
  | Some e => fail id e w
  | None =>
      match w_dbs w !! dbID with
      | Some _ => fail id (bad "database is already open on this connection") w
      | None =>
          let '(res, w) := call_Open newID (open_request req now) w in
          match res with
          | Err e => fail id (StoreError e) w
          | Ok res =>
              let key := key_of dbID in
              let epoch := Epoch (res_Lease res) in
              let w := set_db dbID (mkOpenDB key epoch (PageSize (res_State res)) None now) w in
              let w := with_holders (holders_set key epoch (self c)) w in
              answer_frame id (opened_frame res) w
          end
      end
  end.

(** ** Fetch *)

(** Ranges must be sorted and must not overlap; the sum wraps as in the code. *)
Fixpoint ranges_sorted (reached : option Z) (ranges : list pb.Range) : bool :=
  match ranges with
  | [] => true
  | r :: rest =>
      match reached with
      | Some e => negb (pb.Range_FirstBlock r <? e)
      | None => true
      end && ranges_sorted (Some (u64 (pb.Range_FirstBlock r + pb.Range_Count r))) rest
  end.

(** The ranges of a request: the single one if there is no list. *)
Definition ranges_of (req : pb.Fetch) : list pb.Range :=
  match pb.Fetch_Ranges req with
  | [] => [pb.mkRange (pb.Fetch_FirstBlock req) (pb.Fetch_Count req)]
  | ranges => ranges
  end.

(** The store calls, one per range, up to the first error. *)
Fixpoint fetch_runs (k : Key) (ver : Z) (ranges : list pb.Range) (w : world S) :
    result Error (list (list bytes)) * world S :=
  match ranges with
  | [] => (Ok [], w)
  | r :: rest =>
      let '(res, w) := call_Fetch k ver (pb.Range_FirstBlock r) (pb.Range_Count r) w in
      match res with
      | Err e => (Err e, w)
      | Ok blocks =>
          let '(res, w) := fetch_runs k ver rest w in
          (runs ← res; Ok (blocks :: runs), w)
      end
  end.

Definition perFrame (pageSize : Z) : Z :=
  Z.max 1 (u32 (MaxFrameBytes opts - pagesFrameOverhead) / u32 (pageSize + pagesBlockOverhead)).

(** The inner loop of [fetch]: the frames of one range. *)
Fixpoint pages_of_run (fuel : nat) (per : Z) (first : Z) (lastRun : bool) (start : Z) (blocks : list bytes) :
    option (list pb.Pages) :=
  match fuel with
  | O => None
  | Datatypes.S fuel =>
      let end_ := Z.min (start + per) (zlen blocks) in
      let frame := pb.mkPages (u64 (first + start))
                     (take (Z.to_nat (end_ - start)) (drop (Z.to_nat start) blocks))
                     (lastRun && (end_ =? zlen blocks)) in
      if end_ =? zlen blocks then Some [frame]
      else rest ← pages_of_run fuel per first lastRun end_ blocks; Some (frame :: rest)
  end.

(** The outer loop: the frames of all ranges.  One more than the number of blocks is enough fuel. *)
Fixpoint pages_of_runs (per : Z) (runs : list (pb.Range * list bytes)) : option (list pb.Pages) :=
  match runs with
  | [] => Some []
  | (r, blocks) :: rest =>
      frames ← pages_of_run (Datatypes.S (length blocks)) per (pb.Range_FirstBlock r)
                 (bool_decide (rest = [])) 0 blocks;
      others ← pages_of_runs per rest;
      Some (frames ++ others)%list
  end.

Definition send_pages (id : Z) (frames : list pb.Pages) (w : world S) : world S :=
  foldl (fun w p => answer_frame id (pb.ServerFrame_Pages p) w) w frames.

(** A panic of the store ends the handler without an answer, see [panics]. *)
Definition fetch (id : Z) (req : pb.Fetch) (w : world S) : world S :=
  match w_dbs w !! pb.Fetch_DbId req with
  | None => fail id (bad "database is not open on this connection") w
  | Some db =>
      let ranges := ranges_of req in
      if maxFetchRanges <? zlen ranges then fail id (bad "fetch has too many ranges") w
      else if negb (ranges_sorted None ranges) then
        fail id (bad "range starts before the end of the previous range") w
      else
        let '(res, w) := fetch_runs (o_key db) (pb.Fetch_Version req) ranges w in
        match res with
        | Err e => if is_panic e then w else fail id (gone e) w
        | Ok runs =>
            match pages_of_runs (perFrame (o_pageSize db)) (zip ranges runs) with
            | Some frames => send_pages id frames w
            | None => w
            end
        end
  end.

(** ** Changed *)

Definition changesPerFrame : Z :=
  Z.max 1 (u32 (MaxFrameBytes opts - changesFrameOverhead) / 10).

Definition changed (id : Z) (req : pb.Changed) (w : world S) : world S :=
  match w_dbs w !! pb.Changed_DbId req with
  | None => fail id (bad "database is not open on this connection") w
  | Some db =>
      let '(res, w) := call_Changes (o_key db) (pb.Changed_FromVersion req) w in
      match res with
      | Err e => fail id (gone e) w
      | Ok set =>
          let set := if changesPerFrame <? zlen (cs_Blocks set)
                     then mkChangeSet (FromVersion set) (ToVersion set) [] false else set in
          answer_frame id (pb.ServerFrame_Changes
            (pb.mkChanges (FromVersion set) (ToVersion set) (cs_Blocks set) (Complete set))) w
      end
  end.

(** ** Commit *)

Definition header_of (req : pb.Commit) : commit_header :=
  mkHeader (pb.Commit_CommitId req) (pb.Commit_LeaseEpoch req) (pb.Commit_BaseVersion req)
    (pb.Commit_PageCount req).

Definition continues (h : commit_header) (frame : pb.Commit) : bool :=
  bytes_Equal (h_CommitId h) (pb.Commit_CommitId frame) &&
  (h_LeaseEpoch h =? pb.Commit_LeaseEpoch frame) &&
  (h_BaseVersion h =? pb.Commit_BaseVersion frame) &&
  (h_PageCount h =? pb.Commit_PageCount frame).

Definition set_pending (p : option pendingCommit) (db : openDB) : openDB :=
  mkOpenDB (o_key db) (o_epoch db) (o_pageSize db) p (o_renewed db).

Definition set_renewed (t : Time) (db : openDB) : openDB :=
  mkOpenDB (o_key db) (o_epoch db) (o_pageSize db) (o_pending db) t.

(** The blocks of one part, added to the pending commit. *)
Definition add_part (req : pb.Commit) (p : pendingCommit) : pendingCommit :=
  foldl (fun p b => mkPending (header p) (nextPart p)
                      (p_blocks p ++ [mkBlock (pb.Block_Index b) (pb.Block_Data b)])%list
                      (u64 (size_ p + zlen (pb.Block_Data b))))
    (mkPending (header p) (u32 (nextPart p + 1)) (p_blocks p) (size_ p)) (pb.Commit_Blocks req).

(** The [switch] of [commit]: the pending commit that this part belongs to. *)
Definition pending_for (req : pb.Commit) (pending : option pendingCommit) : option pendingCommit :=
  if pb.Commit_Part req =? 0 then Some (mkPending (header_of req) 0 [] 0)
  else match pending with
       | Some p =>
           if negb (pb.Commit_Part req =? nextPart p) || negb (continues (header p) req) then None
           else Some p
       | None => None
       end.

Definition commit_request (db : openDB) (p : pendingCommit) (now : Time) : CommitRequest :=
  mkCommitRequest (o_key db) (h_CommitId (header p)) (h_LeaseEpoch (header p))
    (h_BaseVersion (header p)) (h_PageCount (header p)) (p_blocks p) now (LeaseTTL opts).

Definition commit (now : Time) (id : Z) (req : pb.Commit) (w : world S) : world S :=
  let dbID := pb.Commit_DbId req in
  match w_dbs w !! dbID with
  | None => fail id (bad "database is not open on this connection") w
  | Some db =>
      let discard := set_db dbID (set_pending None db) in
      if negb (slice_len (pb.Commit_CommitId req) =? commitIDBytes) then
        fail id (bad "commit id must have 16 bytes") (discard w)
      else match pending_for req (o_pending db) with
      | None => fail id (bad "part does not continue a pending commit") (discard w)
      | Some p =>
          let p := add_part req p in
          if MaxCommitBytes opts <? size_ p then fail id TooLarge (discard w)
          else if pb.Commit_More req then set_db dbID (set_pending (Some p) db) w
          else
            let '(res, w) := call_Commit (commit_request db p now) (discard w) in
            match res with
            | Err e => fail id (gone e) w
            | Ok version =>
                let w := set_db dbID (set_renewed now (set_pending None db)) w in
                answer_frame id (pb.ServerFrame_CommitAck
                  (pb.mkCommitAck (h_CommitId (header p)) version)) w
            end
      end
  end.

(** ** Ping, close and delete *)

Definition renewDue (db : openDB) (now : Time) : bool :=
  LeaseTTL opts ÷ 2 <=? time_Sub now (o_renewed db).

Definition ping_one (now : Time) (w : world S) (dbID : string) : world S :=
  match w_dbs w !! dbID with
  | None => w
  | Some db =>
      if negb (renewDue db now) then w
      else
        let '(res, w) := call_Renew (o_key db) (o_epoch db) now (LeaseTTL opts) w in
        match res with
        | Err _ => w
        | Ok _ => set_db dbID (set_renewed now db) w
        end
  end.

(** [order] is the order in which the map of open databases is ranged over. *)
Definition ping (order : list string) (now : Time) (id : Z) (req : pb.Ping) (w : world S) : world S :=
  answer_frame id (pb.ServerFrame_Pong (pb.mkPong (pb.Ping_ClientTimeMs req)))
    (foldl (ping_one now) w order).

Definition closeDB (id : Z) (req : pb.CloseDb) (w : world S) : world S :=
  let dbID := pb.CloseDb_DbId req in
  match w_dbs w !! dbID with
  | None => fail id (bad "database is not open on this connection") w
  | Some db =>
      let '(res, w) := call_Release (o_key db) (pb.CloseDb_LeaseEpoch req) w in
      match res with
      | Err e => fail id (StoreError e) w
      | Ok _ =>
          let w := set_dbs (delete dbID (w_dbs w)) w in
          let w := with_holders (fun m => (holders_remove (o_key db) (self c) m, [])) w in
          answer_frame id pb.ServerFrame_Ok w
      end
  end.

Definition deleteDB (now : Time) (id : Z) (req : pb.Delete) (w : world S) : world S :=
  let dbID := pb.Delete_DbId req in
  match checkDBID dbID with
  | Some e => fail id e w
  | None =>
      match w_dbs w !! dbID with
      | Some _ => fail id (bad "database is open on this connection; close it first") w
      | None =>
          let key := key_of dbID in
          let '(res, w) := call_Delete (mkDeleteRequest key (pb.Delete_Takeover req) now) w in
          match res with
          | Err e => fail id (StoreError e) w
          | Ok res =>
              let w := if 0 <? del_Epoch res then with_holders (holders_revoke key (del_Epoch res)) w
                       else w in
              answer_frame id pb.ServerFrame_Ok w
          end
      end
  end.

(** ** Slots *)

Definition no_owner : perr := bad "slots need access tokens with a sub claim".

Definition slotFrame (slot : Slot) (replaced : string) : pb.ServerBody :=
  pb.ServerFrame_Slot (pb.mkSlot (slot_Label slot) (u64 (time_UnixMilli (slot_ClaimedAt slot))) replaced).

Definition purge_all (keys : list Key) (w : world S) : world S :=
  foldl (fun w k => with_holders (holders_purge k) w) w keys.

Definition claimSlot (now : Time) (id : Z) (w : world S) : world S :=
  if bool_decide (owner c = EmptyString) then fail id no_owner w
  else
    let '(res, w) := call_ClaimSlot (mkClaimRequest (owner c) (subject c) now) w in
    match res with
    | Err e => fail id (StoreError e) w
    | Ok res =>
        let replaced := match cres_Replaced res with Some old => slot_Label old | None => EmptyString end in
        answer_frame id (slotFrame (cres_Slot res) replaced) (purge_all (cres_Deleted res) w)
    end.

Definition setSlotLabel (id : Z) (req : pb.SetSlotLabel) (w : world S) : world S :=
  if bool_decide (owner c = EmptyString) then fail id no_owner w
  else if maxSlotLabelBytes <? Z.of_nat (String.length (pb.SetSlotLabel_Label req)) then
    fail id (bad "label must have at most 256 bytes") w
  else
    let '(res, w) := call_SetSlotLabel (owner c) (subject c) (pb.SetSlotLabel_Label req) w in
    match res with
    | Err e => fail id (StoreError e) w
    | Ok slot => answer_frame id (slotFrame slot EmptyString) w
    end.

Definition deleteSlot (id : Z) (w : world S) : world S :=
  if bool_decide (owner c = EmptyString) then fail id no_owner w
  else if negb (bool_decide (w_dbs w = ∅)) then
    fail id (bad "databases are open on this connection; close them first") w
  else
    let '(res, w) := call_DeleteSlot (owner c) (subject c) w in
    match res with
    | Err e => fail id (StoreError e) w
    | Ok deleted => answer_frame id pb.ServerFrame_Ok (purge_all deleted w)
    end.

(** ** Frames *)

(** What the environment provides for one frame. *)
Record env := mkEnv { now : Time; random : bytes; map_order : list string }.

Definition handle (e : env) (frame : pb.ClientFrame) (w : world S) : world S :=
  let id := pb.ClientFrame_RequestId frame in
  if id =? 0 then fail 0 (bad "request id must be greater than 0") w
  else match pb.ClientFrame_Body frame with
  | pb.ClientFrame_Open m => open (random e) (now e) id m w
  | pb.ClientFrame_Fetch m => fetch id m w
  | pb.ClientFrame_Commit m => commit (now e) id m w
  | pb.ClientFrame_Changed m => changed id m w
  | pb.ClientFrame_Ping m => ping (map_order e) (now e) id m w
  | pb.ClientFrame_CloseDb m => closeDB id m w
  | pb.ClientFrame_Delete m => deleteDB (now e) id m w
  | pb.ClientFrame_ClaimSlot => claimSlot (now e) id w
  | pb.ClientFrame_DeleteSlot => deleteSlot id w
  | pb.ClientFrame_SetSlotLabel m => setSlotLabel id m w
  | pb.ClientFrame_Hello _ => fail id (bad "Hello was already sent") w
  | pb.ClientFrame_Proof _ | pb.ClientFrame_None => fail id (bad "empty frame") w
  end.

(** The store panics while it handles the frame, which only [Fetch] does: the handler does not answer, and
    the panic goes on through [run] and [serve]. *)
Definition panics (frame : pb.ClientFrame) (w : world S) : bool :=
  match pb.ClientFrame_Body frame with
  | pb.ClientFrame_Fetch req =>
      match w_dbs w !! pb.Fetch_DbId req with
      | Some db =>
          negb (pb.ClientFrame_RequestId frame =? 0) && negb (maxFetchRanges <? zlen (ranges_of req)) &&
          ranges_sorted None (ranges_of req) &&
          match (fetch_runs (o_key db) (pb.Fetch_Version req) (ranges_of req) w).1 with
          | Err e => is_panic e
          | Ok _ => false
          end
      | None => false
      end
  | _ => false
  end.

(** The access token expired more than the leeway ago. *)
Definition tokenExpired (leeway : Duration) (t : Time) : bool :=
  negb (time_IsZero (tokenExpires c)) && time_After t (time_Add (tokenExpires c) leeway).

Definition is_ping (frame : pb.ClientFrame) : bool :=
  match pb.ClientFrame_Body frame with pb.ClientFrame_Ping _ => true | _ => false end.

(** The loop of [run] over the frames that arrive: it stops at a frame other than a ping after the
    token has expired, and after a frame on which it panics.  The result says whether it stopped. *)
Fixpoint run_frames (leeway : Duration) (frames : list (env * pb.ClientFrame)) (w : world S) :
    bool * world S :=
  match frames with
  | [] => (false, w)
  | (e, frame) :: rest =>
      if negb (is_ping frame) && tokenExpired leeway (now e) then (true, w)
      else if panics frame w then (true, handle e frame w)
      else run_frames leeway rest (handle e frame w)
  end.

(** The end of [serve]: the connection gives up its entries in the table of holders; the leases stay
    in the store. *)
Definition disconnect (w : world S) : world S :=
  mkWorld (w_store w) (w_calls w)
    (map_fold (fun _ db m => holders_remove (o_key db) (self c) m) (w_holders w) (w_dbs w))
    (w_dbs w) (w_sent w) (w_pushes w).
End handlers.
