(* ===== verification/ConnFacts.v ===== *)
(** * What a connection may do: its calls to the store and its answers

    Every frame leads to calls on databases of the connection's own subject only, and to answers with
    the id of the request; a database of another subject is never changed. *)

From S2P Require Import Prelude Store StoreFacts Memory Trace MemoryInv MemoryStep Samples MemoryLease MemorySlots Messages Connection.

Local Open Scope Z_scope.

Section facts.
Context {S : Type} `{!StoreAPI S}.
Variable opts : Options.
Variable c : session.

(** A call on behalf of the connection's own key. *)
Definition own_call (o : op) : Prop :=
  match o with
  | OpOpen _ req => Subject (or_Key req) = subject c /\ or_Owner req = owner c
  | OpFetch k _ _ _ | OpChanges k _ | OpRenew k _ _ _ | OpRelease k _ => Subject k = subject c
  | OpCommit req => Subject (cr_Key req) = subject c
  | OpDelete req => Subject (dr_Key req) = subject c
  | OpClaimSlot req => cl_Owner req = owner c /\ cl_Subject req = subject c /\ owner c <> EmptyString
  | OpSetSlotLabel o s _ | OpDeleteSlot o s => o = owner c /\ s = subject c /\ owner c <> EmptyString
  | OpGetSlot _ | OpDeleteUnused _ _ _ => False
  end.

(** Calls that leave everything but expiries alone. *)
Definition harmless (o : op) : Prop :=
  match o with OpFetch _ _ _ _ | OpRenew _ _ _ _ => True | _ => False end.

(** Every open database of the connection is one of its own subject. *)
Definition own_dbs (w : world S) : Prop :=
  map_Forall (fun dbID db => o_key db = key_of c dbID) (w_dbs w).

(** A store commit is called for a [Commit] frame only. *)
Definition fits_frame (b : pb.ClientBody) (o : op) : Prop :=
  match o with
  | OpCommit _ => match b with pb.ClientFrame_Commit _ => True | _ => False end
  | _ => True
  end.

(** From [w] to [w'], for a frame with body [b], the connection made only calls of its own. *)
Definition extends (b : pb.ClientBody) (w w' : world S) : Prop :=
  own_dbs w' /\ exists new, w_calls w' = w_calls w ++ new /\ w_store w' = (run new (w_store w)).1 /\
    Forall own_call new /\ Forall (fits_frame b) new /\ ((length new <= 1)%nat \/ Forall harmless new).

(** Nothing was called, and the open databases are still the connection's own. *)
Lemma extends_same b (w w' : world S) :
  w_store w' = w_store w -> w_calls w' = w_calls w -> own_dbs w' -> extends b w w'.
Proof.
  intros Hs Hc Ho. split; [done|]. exists []. rewrite app_nil_r. split_and!; try done. left. simpl. lia.
Qed.

(** One call was made. *)
Lemma extends_one b (w w' : world S) o :
  w_calls w' = w_calls w ++ [o] -> w_store w' = (step o (w_store w)).1 -> own_call o -> own_dbs w' ->
  fits_frame b o -> extends b w w'.
Proof.
  intros Hc Hs Ho Hd Hb. split; [done|]. exists [o]. split_and!; try done.
  - rewrite Hs. simpl. by destruct (step o (w_store w)).
  - by repeat constructor.
  - by repeat constructor.
  - left. simpl. lia.
Qed.

(** Effects that make no call. *)
Definition quiet (w w' : world S) : Prop := w_store w' = w_store w /\ w_calls w' = w_calls w.

Lemma purge_all_quiet keys (w : world S) :
  quiet w (purge_all keys w) /\ w_dbs (purge_all keys w) = w_dbs w /\ w_sent (purge_all keys w) = w_sent w.
Proof.
  unfold purge_all. revert w. induction keys as [|k keys IH]; intros w; simpl; [done|].
  destruct (IH (with_holders (holders_purge k) w)) as ([Hs Hc] & Hd & Hf).
  rewrite Hd, Hf. unfold quiet. rewrite Hs, Hc. unfold with_holders.
  by destruct (holders_purge k (w_holders w)).
Qed.

Lemma send_pages_quiet id frames (w : world S) :
  quiet w (send_pages id frames w) /\ w_dbs (send_pages id frames w) = w_dbs w /\
  w_sent (send_pages id frames w) =
    w_sent w ++ ((fun p => pb.mkServerFrame id (pb.ServerFrame_Pages p)) <$> frames).
Proof.
  unfold send_pages. revert w. induction frames as [|f frames IH]; intros w; simpl.
  - by rewrite app_nil_r.
  - destruct (IH (answer_frame id (pb.ServerFrame_Pages f) w)) as ([Hs Hc] & Hd & Hf).
    rewrite Hd, Hf. unfold quiet. rewrite Hs, Hc. simpl. by rewrite <- app_assoc.
Qed.

Lemma fetch_runs_calls k ver ranges : forall (w : world S),
  Subject k = subject c ->
  exists new, w_calls (fetch_runs k ver ranges w).2 = w_calls w ++ new /\
    w_store (fetch_runs k ver ranges w).2 = w_store w /\
    (run new (w_store w)).1 = w_store w /\
    Forall own_call new /\ Forall harmless new /\
    w_dbs (fetch_runs k ver ranges w).2 = w_dbs w /\ w_sent (fetch_runs k ver ranges w).2 = w_sent w.
Proof.
  induction ranges as [|r ranges IH]; intros w Hk; simpl.
  { exists []. rewrite app_nil_r. split_and!; done || constructor. }
  set (w1 := mkWorld _ _ _ _ _ _). destruct (st_Fetch _ _ _ _ _) as [blocks|e].
  - destruct (IH w1 Hk) as (new & Hc & Hs & Hr & Ho & Hh & Hd & Hf).
    destruct (fetch_runs k ver ranges w1) as [res w2]. simpl in *.
    exists (OpFetch k ver (pb.Range_FirstBlock r) (pb.Range_Count r) :: new).
    rewrite Hc, Hs, Hd, Hf, <- app_assoc. split_and!; try done; try by constructor.
    simpl. by destruct (run new (w_store w)).
  - exists [OpFetch k ver (pb.Range_FirstBlock r) (pb.Range_Count r)].
    split_and!; try done; by repeat constructor.
Qed.

Lemma own_dbs_set (w : world S) dbID db :
  own_dbs w -> o_key db = key_of c dbID -> own_dbs (set_db dbID db w).
Proof. intros Ho Hk. by apply map_Forall_insert_2. Qed.

Lemma ping_calls now order : forall (w : world S),
  own_dbs w ->
  exists new, w_calls (foldl (ping_one opts now) w order) = w_calls w ++ new /\
    w_store (foldl (ping_one opts now) w order) = (run new (w_store w)).1 /\
    Forall own_call new /\ Forall harmless new /\
    own_dbs (foldl (ping_one opts now) w order) /\
    w_sent (foldl (ping_one opts now) w order) = w_sent w.
Proof.
  induction order as [|dbID order IH]; intros w Hw; simpl.
  { exists []. rewrite app_nil_r. split_and!; done || constructor. }
  assert (exists new, w_calls (ping_one opts now w dbID) = w_calls w ++ new /\
    w_store (ping_one opts now w dbID) = (run new (w_store w)).1 /\ Forall own_call new /\
    Forall harmless new /\ own_dbs (ping_one opts now w dbID) /\
    w_sent (ping_one opts now w dbID) = w_sent w) as (n1 & Hc1 & Hs1 & Ho1 & Hh1 & Hd1 & Hf1).
  { unfold ping_one. destruct (w_dbs w !! dbID) as [db|] eqn:Hdb.
    - destruct (negb _).
      + exists []. rewrite app_nil_r. split_and!; done || constructor.
      + pose proof (Hw _ _ Hdb) as Hk. simpl in Hk. unfold call_Renew, called.
        exists [OpRenew (o_key db) (o_epoch db) now (LeaseTTL opts)]. simpl.
        assert (own_call (OpRenew (o_key db) (o_epoch db) now (LeaseTTL opts))) as Hown
          by (simpl; by rewrite Hk).
        destruct (st_Renew _ _ _ _ _) as [s' [u|e]]; simpl;
          (split; [done|split; [done|split; [by constructor|split; [by constructor|split; [|done]]]]]).
        * by apply own_dbs_set.
        * done.
    - exists []. rewrite app_nil_r. split_and!; done || constructor. }
  destruct (IH _ Hd1) as (n2 & Hc2 & Hs2 & Ho2 & Hh2 & Hd2 & Hf2).
  exists (n1 ++ n2). rewrite Hc2, Hc1, app_assoc. split_and!; try done.
  - by rewrite Hs2, Hs1, run_app.
  - by apply Forall_app.
  - by apply Forall_app.
  - by rewrite Hf2, Hf1.
Qed.

(** No call, or reads and renewals only. *)
Lemma extends_harmless b (w w' : world S) new :
  own_dbs w' -> w_calls w' = w_calls w ++ new -> w_store w' = (run new (w_store w)).1 ->
  Forall own_call new -> Forall harmless new -> extends b w w'.
Proof.
  intros ? ? ? ? Hh. split; [done|]. exists new. split_and!; try done; [|by right].
  apply (Forall_impl _ _ _ Hh). by intros [].
Qed.

(** ** Every frame *)

Lemma with_holders_quiet f (w : world S) :
  quiet w (with_holders f w) /\ w_dbs (with_holders f w) = w_dbs w /\
  w_sent (with_holders f w) = w_sent w.
Proof. unfold with_holders. by destruct (f (w_holders w)). Qed.

Lemma extends_open newID now id req (w : world S) : own_dbs w -> extends (pb.ClientFrame_Open req) w (open opts c newID now id req w).
Proof.
  intros Hw. unfold open. destruct (checkDBID _); [by apply extends_same|].
  destruct (w_dbs w !! _); [by apply extends_same|].
  unfold call_Open, called. destruct (st_Open _ _ _) as [s' [res|e]] eqn:E; cbn [fst snd].
  - match goal with |- context [with_holders ?f ?w1] =>
      destruct (with_holders_quiet f w1) as ([Hs Hc] & Hd & _) end.
    apply (extends_one _ _ _ (OpOpen newID (open_request opts c req now)));
      unfold answer_frame, send, own_dbs; cbn [w_store w_calls w_dbs].
    + by rewrite Hc.
    + rewrite Hs. simpl. by rewrite E.
    + done.
    + rewrite Hd. by apply own_dbs_set.
    + done.
  - apply (extends_one _ _ _ (OpOpen newID (open_request opts c req now))); simpl; try done. by rewrite E.
Qed.

Lemma extends_fetch id req (w : world S) : own_dbs w -> extends (pb.ClientFrame_Fetch req) w (fetch opts id req w).
Proof.
  intros Hw. unfold fetch. destruct (w_dbs w !! _) as [db|] eqn:Hdb; [|by apply extends_same].
  destruct (_ <? _); [by apply extends_same|]. destruct (negb _); [by apply extends_same|].
  assert (Subject (o_key db) = subject c) as Hk by (by rewrite (Hw _ _ Hdb)).
  destruct (fetch_runs_calls (o_key db) (pb.Fetch_Version req) (ranges_of req) w Hk)
    as (new & Hc & Hs & Hr & Ho & Hh & Hd & _).
  destruct (fetch_runs _ _ _ _) as [[runs|e] w1]; simpl in *.
  - destruct (pages_of_runs _ _) as [frames|].
    + destruct (send_pages_quiet id frames w1) as ([Hs1 Hc1] & Hd1 & _).
      apply (extends_harmless _ _ _ new); unfold own_dbs; try done;
        [by rewrite Hd1, Hd | by rewrite Hc1 | by rewrite Hs1, Hs].
    + apply (extends_harmless _ _ _ new); unfold own_dbs; try done; [by rewrite Hd | by rewrite Hs].
  - destruct (is_panic e); apply (extends_harmless _ _ _ new); unfold own_dbs; simpl; try done;
      by rewrite ?Hd, ?Hs.
Qed.

Lemma extends_commit now id req (w : world S) : own_dbs w -> extends (pb.ClientFrame_Commit req) w (commit opts now id req w).
Proof.
  intros Hw. unfold commit. destruct (w_dbs w !! _) as [db|] eqn:Hdb; [|by apply extends_same].
  pose proof (Hw _ _ Hdb) as Hk. simpl in Hk.
  assert (forall p, own_dbs (set_db (pb.Commit_DbId req) (set_pending p db) w)) as Hset
    by (intros p; by apply own_dbs_set).
  destruct (negb _); [apply extends_same; [done|done|apply Hset]|].
  destruct (pending_for _ _) as [p|]; [|apply extends_same; [done|done|apply Hset]].
  destruct (_ <? _); [apply extends_same; [done|done|apply Hset]|].
  destruct (pb.Commit_More req); [by apply extends_same|].
  unfold call_Commit, called. simpl.
  destruct (st_Commit _ _) as [s' [v|e]] eqn:E; simpl;
    apply (extends_one _ _ _ (OpCommit (commit_request opts db (add_part req p) now))); simpl;
    try done; try (by rewrite Hk); try (by rewrite E).
  - unfold own_dbs. simpl. apply map_Forall_insert_2; [done|]. apply Hset.
  - apply Hset.
Qed.

Lemma extends_closeDB id req (w : world S) :
  own_dbs w -> extends (pb.ClientFrame_CloseDb req) w (closeDB c id req w).
Proof.
  intros Hw.
  unfold closeDB. destruct (w_dbs w !! _) as [db|] eqn:Hdb; [|by apply extends_same].
  pose proof (Hw _ _ Hdb) as Hk. simpl in Hk. unfold call_Release, called.
  destruct (st_Release _ _ _) as [s' [u|err]] eqn:E; simpl;
    apply (extends_one _ _ _ (OpRelease (o_key db) (pb.CloseDb_LeaseEpoch req))); simpl;
    try done; try (by rewrite Hk); try (by rewrite E).
  unfold own_dbs. simpl. by apply map_Forall_delete.
Qed.

Lemma extends_deleteDB now id req (w : world S) :
  own_dbs w -> extends (pb.ClientFrame_Delete req) w (deleteDB c now id req w).
Proof.
  intros Hw.
  unfold deleteDB. destruct (checkDBID _); [by apply extends_same|].
  destruct (w_dbs w !! _); [by apply extends_same|]. unfold call_Delete, called.
  destruct (st_Delete _ _) as [s' [res|err]] eqn:E; simpl;
    apply (extends_one _ _ _ (OpDelete (mkDeleteRequest (key_of c (pb.Delete_DbId req)) (pb.Delete_Takeover req) now)));
    simpl; try done; try (by rewrite E).
  all: destruct (0 <? del_Epoch res); try done; try (by rewrite E).
  all: unfold own_dbs, with_holders; destruct (holders_revoke _ _ _); simpl; try done; by rewrite E.
Qed.

Lemma extends_changed id req (w : world S) :
  own_dbs w -> extends (pb.ClientFrame_Changed req) w (changed opts id req w).
Proof.
  intros Hw.
  unfold changed. destruct (w_dbs w !! _) as [db|] eqn:Hdb; [|by apply extends_same].
  pose proof (Hw _ _ Hdb) as Hk. simpl in Hk. unfold call_Changes, called. simpl.
  destruct (st_Changes _ _ _) as [set|err]; simpl;
    apply (extends_one _ _ _ (OpChanges (o_key db) (pb.Changed_FromVersion req))); simpl; try done;
    by rewrite Hk.
Qed.

Lemma extends_claimSlot now id (w : world S) :
  own_dbs w -> extends (pb.ClientFrame_ClaimSlot) w (claimSlot c now id w).
Proof.
  intros Hw.
  unfold claimSlot. case_bool_decide; [by apply extends_same|]. unfold call_ClaimSlot, called.
  destruct (st_ClaimSlot _ _) as [s' [res|err]] eqn:E; simpl;
    apply (extends_one _ _ _ (OpClaimSlot (mkClaimRequest (owner c) (subject c) now))); simpl;
    try done; try (by rewrite E).
  all: set (w1 := mkWorld s' _ _ _ _ _); destruct (purge_all_quiet (cres_Deleted res) w1) as ([Hs Hc] & Hd & _).
  - by rewrite Hc.
  - by rewrite Hs, E.
  - unfold own_dbs. simpl. by rewrite Hd.
Qed.

Lemma extends_deleteSlot id (w : world S) :
  own_dbs w -> extends (pb.ClientFrame_DeleteSlot) w (deleteSlot c id w).
Proof.
  intros Hw.
  unfold deleteSlot. case_bool_decide; [by apply extends_same|].
  destruct (negb _); [by apply extends_same|]. unfold call_DeleteSlot, called.
  destruct (st_DeleteSlot _ _ _) as [s' [keys|err]] eqn:E; simpl;
    apply (extends_one _ _ _ (OpDeleteSlot (owner c) (subject c))); simpl; try done; try (by rewrite E).
  all: set (w1 := mkWorld s' _ _ _ _ _); destruct (purge_all_quiet keys w1) as ([Hs Hc] & Hd & _).
  - by rewrite Hc.
  - by rewrite Hs, E.
  - unfold own_dbs. simpl. by rewrite Hd.
Qed.

Lemma extends_setSlotLabel id req (w : world S) :
  own_dbs w -> extends (pb.ClientFrame_SetSlotLabel req) w (setSlotLabel c id req w).
Proof.
  intros Hw.
  unfold setSlotLabel. case_bool_decide; [by apply extends_same|].
  destruct (_ <? _); [by apply extends_same|]. unfold call_SetSlotLabel, called.
  destruct (st_SetSlotLabel _ _ _ _) as [s' [slot|err]] eqn:E; simpl;
    apply (extends_one _ _ _ (OpSetSlotLabel (owner c) (subject c) (pb.SetSlotLabel_Label req))); simpl;
    try done; by rewrite E.
Qed.

Lemma extends_handle e frame (w : world S) : own_dbs w -> extends (pb.ClientFrame_Body frame) w (handle opts c e frame w).
Proof.
  intros Hw. unfold handle. destruct (_ =? 0); [by apply extends_same|].
  destruct (pb.ClientFrame_Body frame) as [?|m|m|m|m|m|?|m|m| | |m|]; try (by apply extends_same).
  - by apply extends_open.
  - by apply extends_fetch.
  - by apply extends_commit.
  - unfold ping. destruct (ping_calls (now e) (map_order e) w Hw) as (new & Hc & Hs & Ho & Hh & Hd & _).
    by apply (extends_harmless _ _ _ new).
  - by apply extends_closeDB.
  - by apply extends_deleteDB.
  - by apply extends_changed.
  - by apply extends_claimSlot.
  - by apply extends_deleteSlot.
  - by apply extends_setSlotLabel.
Qed.
End facts.
