(* ===== verification/ConnSamples.v ===== *)
(** * Sample connections

    Options as in the server's defaults, a session and its frames, at which the theorems on
    connections are applied. *)

From S2P Require Import Prelude Store Memory Trace Samples Messages Connection.

Local Open Scope Z_scope.
Local Open Scope string_scope.

Definition opts0 : Options :=
  mkOptions 1048576 (10 * Second) (5 * Minute) 268435456 "wss://vfs.example/v1/ws" 0 [].

(** Alice's connection, with an owner that has no slot; connection number 7. *)
Definition alice : session := mkSession 7 "alice" (Some [x02]) "p" 0.

Definition world_of (s : MemStore) : world MemStore := mkWorld s [] ∅ ∅ [] [].

Definition at_ (t : Z) : env := mkEnv t [x0f] ["main"].

Definition frame (id : Z) (b : pb.ClientBody) : pb.ClientFrame := pb.mkClientFrame id b.

Definition open_main : pb.ClientBody :=
  pb.ClientFrame_Open (pb.mkOpen "main" 512 true true None).

Definition id16 (b : Byte.byte) : slice := Some (replicate 16 b).

(** Part [part] of a commit of [pages] pages on version [base] under epoch [epoch]. *)
Definition commit_part (b : Byte.byte) (epoch base pages part : Z) (more : bool) (bs : list pb.Block) :
    pb.ClientBody :=
  pb.ClientFrame_Commit (pb.mkCommit "main" (id16 b) epoch base pages bs more part).

(** A time in the present: all samples of the store are in the past. *)
Definition t0 : Time := unix_epoch + 1700000000 * Second.

(** Alice opens her database of [s1], which grants epoch 2, and commits block 0 and block 3 in two parts. *)
Definition session1 : list (env * pb.ClientFrame) :=
  [(at_ t0, frame 1 open_main);
   (at_ (t0 + Second), frame 2 (commit_part x71 2 1 4 0 true [pb.mkBlock 0 (page x11)]));
   (at_ (t0 + 2 * Second), frame 3 (commit_part x71 2 1 4 1 false [pb.mkBlock 3 (page x12)]));
   (at_ (t0 + 3 * Second), frame 4 (pb.ClientFrame_Fetch (pb.mkFetch "main" 2 0 4 [])))].
