(* ===== verification/ConnSubject.v ===== *)
(** * Connections of different subjects

    With the memory store behind it, a connection changes no database of another subject (except
    that it takes its owner's slot away from a key) and learns nothing about them: what it is sent
    depends on its own databases and on the slots only. *)

From S2P Require Import Prelude Store StoreFacts Memory Trace MemoryInv MemoryStep Samples MemoryLease MemorySlots Messages Connection ConnFacts ConnSamples.

Local Open Scope Z_scope.

Section subjects.
Variable opts : Options.
Variable c : session.

(** ** Integrity *)

(** A call of the connection touches databases of its own subject, or of the key that holds its
    owner's slot. *)
Lemma own_call_touches o s k :
  own_call c o -> touches o s k ->
  Subject k = subject c \/ exists slot, slots s !! owner c = Some slot /\ slot_Subject slot = Subject k.
Proof.
  intros Ho Ht. destruct o; simpl in Ho, Ht; try done; try (left; by rewrite <- Ht); try (left; by destruct Ho as [? _]; rewrite <- Ht).
  - revert Ht. destruct Ho as (Ho & Hs & _). rewrite Ho, Hs. destruct (slots s !! owner c) as [slot|]; simpl; [|done].
    case_decide; [done|]. intros [= Hk]. right. by exists slot.
  - revert Ht. destruct Ho as (-> & -> & _). destruct (slots s !! owner c); [case_decide|]; intros [= Hk]; auto.
Qed.

Lemma run_harmless_other ops s k :
  Forall (own_call c) ops -> Forall harmless ops -> Subject k <> subject c ->
  dbs (run ops s).1 !! k = dbs s !! k.
Proof.
  intros Ho Hh Hk. revert s Ho Hh. induction ops as [|o ops IH]; intros s Ho Hh; [done|].
  apply Forall_cons in Ho as [Ho1 Ho]. apply Forall_cons in Hh as [Hh1 Hh]. simpl.
  destruct (step o s) as [s' a] eqn:E. specialize (IH s' Ho Hh).
  destruct (run ops s') as [s2 as2]. simpl in *. rewrite IH.
  assert (s' = (step o s).1) as -> by by rewrite E.
  destruct o; try done. simpl in *. unfold Renew.
  repeat case_match; simplify_eq; try done. apply lookup_insert_ne. by intros ->.
Qed.

(** C19: Integrity across subjects.  Whatever frame a client sends, the databases of every other
    subject stay exactly as they are; the one exception is a key that holds the slot of the client's
    own owner, from which the client may take the slot. *)
Theorem other_subjects_untouched (n : Z) (e : env) (frame : pb.ClientFrame) (w : world MemStore) (k : Key) :
  wf_store n (w_store w) -> own_dbs c w -> Subject k <> subject c ->
  (forall slot, slots (w_store w) !! owner c = Some slot -> slot_Subject slot <> Subject k) ->
  dbs (w_store (handle opts c e frame w)) !! k = dbs (w_store w) !! k.
Proof.
  intros Hwf Hown Hk Hslot.
  destruct (extends_handle opts c e frame w Hown) as (_ & new & _ & -> & Ho & _ & [Hl|Hh]).
  - destruct new as [|o [|]]; simpl in Hl; [done| |lia]. apply Forall_cons in Ho as [Ho _].
    pose proof (step_other n o (w_store w) k Hwf) as Hs. simpl. destruct (step o (w_store w)) as [s' a].
    simpl in *. apply Hs.
    + by destruct o.
    + intros Ht. destruct (own_call_touches _ _ _ Ho Ht) as [?|(slot & H1 & H2)]; [done|].
      by apply (Hslot slot).
  - by apply run_harmless_other.
Qed.

(** ** Confidentiality *)

(** Two stores look the same to the subject: same slots and same databases of its own. *)
Definition agree (s t : MemStore) : Prop :=
  slots s = slots t /\ forall k, Subject k = subject c -> dbs s !! k = dbs t !! k.

Lemma agree_put k db s t : agree s t -> agree (put k db s) (put k db t).
Proof.
  intros [Hsl Hd]. split; [done|]. intros k' Hk'. rewrite !lookup_put. case_decide; auto.
Qed.

Lemma agree_put_slot o sl s t : agree s t -> agree (put_slot o sl s) (put_slot o sl t).
Proof. intros [Hsl Hd]. split; [by simpl; rewrite Hsl|done]. Qed.

Lemma agree_purge sub s t :
  agree s t -> agree (purge sub s).1 (purge sub t).1.
Proof.
  intros [Hsl Hd]. split; [done|]. intros k Hk. rewrite !purge_dbs. case_decide; auto.
Qed.
#[local] Opaque purge.
Hint Resolve agree_put agree_put_slot agree_purge : go.

(** The same call on both: stores that agree again, and the same answer. *)
Definition alike {A} (r1 r2 : MemStore * A) : Prop := agree r1.1 r2.1 /\ r1.2 = r2.2.

Lemma alike_open_lease newID req db s t :
  agree s t -> alike (open_lease newID req db s) (open_lease newID req db t).
Proof. intros. unfold open_lease. repeat case_match; split; simpl; eauto with go. Qed.

Lemma alike_Open newID req s t :
  agree s t -> Subject (or_Key req) = subject c -> alike (Open newID req s) (Open newID req t).
Proof.
  intros Ha Hk. destruct (Ha) as [Hsl Hd]. unfold Open, slot_taken. rewrite Hsl, (Hd _ Hk).
  destruct (match slots t !! or_Owner req with Some _ => _ | None => _ end); [done|].
  destruct (dbs t !! or_Key req) as [db|].
  - destruct (if deleted db then _ else _) as [db'|]; [|done]. case_match.
    + split; simpl; eauto with go.
    + apply alike_open_lease; eauto with go.
  - repeat case_match; try done. apply alike_open_lease; eauto with go.
Qed.

Lemma alike_Commit req s t :
  agree s t -> Subject (cr_Key req) = subject c -> alike (Commit req s) (Commit req t).
Proof.
  intros Ha Hk. unfold Commit. rewrite (proj2 Ha _ Hk). repeat case_match; split; simpl; eauto with go.
Qed.

Lemma alike_Renew k e now ttl s t :
  agree s t -> Subject k = subject c -> alike (Renew k e now ttl s) (Renew k e now ttl t).
Proof.
  intros Ha Hk. unfold Renew. rewrite (proj2 Ha _ Hk). repeat case_match; split; simpl; eauto with go.
Qed.

Lemma alike_Release k e s t :
  agree s t -> Subject k = subject c -> alike (Release k e s) (Release k e t).
Proof.
  intros Ha Hk. unfold Release. rewrite (proj2 Ha _ Hk). repeat case_match; split; simpl; eauto with go.
Qed.

Lemma alike_Delete req s t :
  agree s t -> Subject (dr_Key req) = subject c -> alike (Delete req s) (Delete req t).
Proof.
  intros Ha Hk. unfold Delete. rewrite (proj2 Ha _ Hk). repeat case_match; split; simpl; eauto with go.
Qed.

Lemma alike_SetSlotLabel o sub l s t :
  agree s t -> alike (SetSlotLabel o sub l s) (SetSlotLabel o sub l t).
Proof.
  intros Ha. unfold SetSlotLabel. rewrite (proj1 Ha). repeat case_match; split; simpl; eauto with go.
Qed.

(** What a client sees of the answers of the slot calls: not the keys that were purged. *)
Definition claim_seen (r : result Error ClaimResult) : result Error (Slot * option Slot) :=
  res ← r; Ok (cres_Slot res, cres_Replaced res).

Lemma agree_ClaimSlot req s t :
  agree s t -> agree (ClaimSlot req s).1 (ClaimSlot req t).1 /\
  claim_seen (ClaimSlot req s).2 = claim_seen (ClaimSlot req t).2.
Proof.
  intros Ha. unfold ClaimSlot. rewrite (proj1 Ha). destruct (slots t !! _) as [old|]; simpl; [|eauto with go].
  case_bool_decide; [done|]. pose proof (agree_purge (slot_Subject old) s t Ha).
  destruct (purge _ s), (purge _ t). simpl in *. split; [by apply agree_put_slot|done].
Qed.

Definition delete_seen (r : result Error (list Key)) : result Error unit := _ ← r; Ok tt.

Lemma agree_DeleteSlot o sub s t :
  agree s t -> agree (DeleteSlot o sub s).1 (DeleteSlot o sub t).1 /\
  delete_seen (DeleteSlot o sub s).2 = delete_seen (DeleteSlot o sub t).2.
Proof.
  intros Ha. unfold DeleteSlot. rewrite (proj1 Ha). destruct (slots t !! o) as [old|]; simpl.
  - case_bool_decide; [|done]. simpl.
    assert (agree (mkStore (dbs s) (delete o (slots t))) (mkStore (dbs t) (delete o (slots t)))) as Ha'
      by (split; [done|apply Ha]).
    pose proof (agree_purge sub _ _ Ha'). by destruct (purge _ _), (purge _ _).
  - pose proof (agree_purge sub s t Ha). by destruct (purge _ s), (purge _ t).
Qed.

(** Two worlds look the same to the client. *)
Definition same (w v : world MemStore) : Prop :=
  agree (w_store w) (w_store v) /\ w_dbs w = w_dbs v /\ w_sent w = w_sent v.

Lemma same_send f w v : same w v -> same (send f w) (send f v).
Proof. intros (Ha & Hd & Hs). split_and!; [done|done|by simpl; rewrite Hs]. Qed.

Lemma same_fail id e w v : same w v -> same (fail id e w) (fail id e v).
Proof. apply same_send. Qed.

Lemma same_answer id b w v : same w v -> same (answer_frame id b w) (answer_frame id b v).
Proof. apply same_send. Qed.

Lemma same_set_dbs m w v : same w v -> same (set_dbs m w) (set_dbs m v).
Proof. intros (Ha & Hd & Hs). by split_and!. Qed.

Lemma same_set_db i db w v : same w v -> same (set_db i db w) (set_db i db v).
Proof. intros (Ha & Hd & Hs). unfold set_db. rewrite Hd. by split_and!. Qed.

Lemma same_holders f g w v : same w v -> same (with_holders f w) (with_holders g v).
Proof.
  intros (Ha & Hd & Hs). unfold with_holders.
  destruct (f (w_holders w)), (g (w_holders v)). by split_and!.
Qed.

Lemma same_purge_all l1 l2 w v : same w v -> same (purge_all l1 w) (purge_all l2 v).
Proof.
  intros (Ha & Hd & Hs). destruct (purge_all_quiet l1 w) as ([H1 _] & H2 & H3).
  destruct (purge_all_quiet l2 v) as ([H4 _] & H5 & H6).
  unfold same. rewrite H1, H2, H3, H4, H5, H6. by split_and!.
Qed.
Hint Resolve same_fail same_answer same_set_dbs same_set_db same_holders same_purge_all : go.

Lemma same_called {A} o (r1 r2 : MemStore * A) w v :
  alike r1 r2 -> same w v ->
  exists a, called o r1 w = (a, (called o r1 w).2) /\ called o r2 v = (a, (called o r2 v).2) /\
    same (called o r1 w).2 (called o r2 v).2.
Proof.
  destruct r1 as [s a], r2 as [t b]. intros [Ha Hr] (_ & Hd & Hs). simpl in *. subst b.
  exists a. by split_and!.
Qed.

(** ** Every frame *)

(** Both worlds make the same call: [L] says that its answers are alike. *)
Ltac same_call L Hw :=
  match type of Hw with same ?w ?v =>
    match goal with |- context [called ?o ?r1 w] =>
      match goal with |- context [called o ?r2 v] =>
        let HL := fresh in
        assert (alike r1 r2) as HL by (apply L; [apply Hw | try done ..]);
        let a := fresh "a" in let E1 := fresh in let E2 := fresh in let Hn := fresh "Hn" in
        destruct (same_called o r1 r2 w v HL Hw) as (a & E1 & E2 & Hn);
        rewrite E1, E2; clear E1 E2 HL; destruct a; eauto with go
      end
    end
  end.

Lemma same_open newID now id req w v :
  same w v -> same (open opts c newID now id req w) (open opts c newID now id req v).
Proof.
  intros Hw. unfold open. destruct (checkDBID _); [by apply same_fail|].
  rewrite <- (proj1 (proj2 Hw)). destruct (w_dbs w !! _); [by apply same_fail|].
  unfold call_Open. same_call alike_Open Hw.
Qed.

Lemma alike_Fetch k ver first count s t :
  agree s t -> Subject k = subject c -> alike (s, Fetch k ver first count s) (t, Fetch k ver first count t).
Proof. intros Ha Hk. split; [done|]. simpl. unfold Fetch. by rewrite (proj2 Ha _ Hk). Qed.

Lemma alike_Changes k from s t :
  agree s t -> Subject k = subject c -> alike (s, Changes k from s) (t, Changes k from t).
Proof. intros Ha Hk. split; [done|]. simpl. unfold Changes. by rewrite (proj2 Ha _ Hk). Qed.

Lemma same_fetch_runs k ver ranges : forall w v,
  same w v -> Subject k = subject c ->
  same (fetch_runs k ver ranges w).2 (fetch_runs k ver ranges v).2 /\
  (fetch_runs k ver ranges w).1 = (fetch_runs k ver ranges v).1.
Proof.
  induction ranges as [|r ranges IH]; intros w v Hw Hk; [done|]. cbn [fetch_runs]. unfold call_Fetch.
  same_call alike_Fetch Hw. destruct (IH _ _ Hn Hk) as [H1 H2].
  destruct (fetch_runs k ver ranges _) as [x w1], (fetch_runs k ver ranges _) as [y v1].
  simpl in *. by subst.
Qed.

Lemma same_send_pages id frames : forall w v,
  same w v -> same (send_pages id frames w) (send_pages id frames v).
Proof.
  unfold send_pages. induction frames as [|f frames IH]; intros w v Hw; simpl; [done|].
  apply IH. by apply same_answer.
Qed.
Hint Resolve same_send_pages : go.

(** The open database of a request, in both worlds. *)
Lemma own_key (w : world MemStore) dbID db : own_dbs c w -> w_dbs w !! dbID = Some db -> Subject (o_key db) = subject c.
Proof. intros Ho Hdb. by rewrite (Ho _ _ Hdb). Qed.

Ltac same_db Hw :=
  rewrite <- (proj1 (proj2 Hw));
  match goal with |- context [w_dbs ?w !! ?i] =>
    let db := fresh "db" in let Hdb := fresh "Hdb" in
    destruct (w_dbs w !! i) as [db|] eqn:Hdb; [|by apply same_fail];
    match goal with Ho : own_dbs c w |- _ => pose proof (own_key _ _ _ Ho Hdb) as Hk end
  end.

Lemma same_fetch id req w v : own_dbs c w -> same w v -> same (fetch opts id req w) (fetch opts id req v).
Proof.
  intros Ho Hw. unfold fetch. same_db Hw.
  destruct (_ <? _); [by apply same_fail|]. destruct (negb _); [by apply same_fail|].
  destruct (same_fetch_runs (o_key db) (pb.Fetch_Version req) (ranges_of req) w v Hw Hk) as [H1 H2].
  destruct (fetch_runs _ _ _ w) as [x w1], (fetch_runs _ _ _ v) as [y v1]. simpl in *. subst y.
  destruct x as [runs|er]; [|destruct (is_panic er); [done|by apply same_fail]]. destruct (pages_of_runs _ _); eauto with go.
Qed.

Lemma same_changed id req w v :
  own_dbs c w -> same w v -> same (changed opts id req w) (changed opts id req v).
Proof. intros Ho Hw. unfold changed. same_db Hw. unfold call_Changes. same_call alike_Changes Hw. Qed.

Lemma same_commit now id req w v :
  own_dbs c w -> same w v -> same (commit opts now id req w) (commit opts now id req v).
Proof.
  intros Ho Hw. unfold commit. same_db Hw.
  destruct (negb _); [eauto with go|]. destruct (pending_for _ _) as [p|]; [|eauto with go].
  destruct (_ <? _); [eauto with go|]. destruct (pb.Commit_More req); [eauto with go|].
  assert (same (set_db (pb.Commit_DbId req) (set_pending None db) w)
            (set_db (pb.Commit_DbId req) (set_pending None db) v)) as Hw' by eauto with go.
  unfold call_Commit. same_call alike_Commit Hw'.
Qed.

Lemma same_closeDB id req w v :
  own_dbs c w -> same w v -> same (closeDB c id req w) (closeDB c id req v).
Proof.
  intros Ho Hw. unfold closeDB. same_db Hw. unfold call_Release. same_call alike_Release Hw.
  rewrite (proj1 (proj2 Hn)). eauto with go.
Qed.

Lemma same_deleteDB now id req w v :
  same w v -> same (deleteDB c now id req w) (deleteDB c now id req v).
Proof.
  intros Hw. unfold deleteDB. destruct (checkDBID _); [by apply same_fail|].
  rewrite <- (proj1 (proj2 Hw)). destruct (w_dbs w !! _); [by apply same_fail|].
  unfold call_Delete. same_call alike_Delete Hw. destruct (0 <? _); eauto with go.
Qed.

Lemma same_ping_one now w v dbID :
  own_dbs c w -> same w v -> same (ping_one opts now w dbID) (ping_one opts now v dbID).
Proof.
  intros Ho Hw. unfold ping_one. rewrite <- (proj1 (proj2 Hw)).
  destruct (w_dbs w !! dbID) as [db|] eqn:Hdb; [|done]. pose proof (own_key _ _ _ Ho Hdb) as Hk.
  destruct (negb _); [done|]. unfold call_Renew. same_call alike_Renew Hw.
Qed.

Lemma same_ping order now id req w v :
  own_dbs c w -> same w v -> same (ping opts order now id req w) (ping opts order now id req v).
Proof.
  intros Ho Hw. unfold ping. apply same_answer. revert w v Ho Hw.
  induction order as [|dbID order IH]; intros w v Ho Hw; simpl; [done|].
  apply IH; [|by apply same_ping_one].
  destruct (ping_calls opts c now [dbID] w Ho) as (_ & _ & _ & _ & _ & Hd & _). done.
Qed.

Lemma same_claimSlot now id w v : same w v -> same (claimSlot c now id w) (claimSlot c now id v).
Proof.
  intros Hw. unfold claimSlot. case_bool_decide; [by apply same_fail|]. unfold call_ClaimSlot, called.
  destruct (agree_ClaimSlot (mkClaimRequest (owner c) (subject c) now) _ _ (proj1 Hw)) as [Ha Hr].
  destruct Hw as (_ & Hd & Hs). cbn [st_ClaimSlot MemStore_api].
  destruct (ClaimSlot _ (w_store w)) as [s1 r1], (ClaimSlot _ (w_store v)) as [t1 r2]. simpl in Ha, Hr.
  assert (forall cs1 cs2, same (mkWorld s1 cs1 (w_holders w) (w_dbs w) (w_sent w) (w_pushes w))
    (mkWorld t1 cs2 (w_holders v) (w_dbs v) (w_sent v) (w_pushes v))) as Hw by done.
  destruct r1 as [res1|e1], r2 as [res2|e2]; simpl in Hr; try discriminate; injection Hr; cbn [fst snd].
  - intros H1 H2. rewrite H1, H2. eauto with go.
  - intros ->. eauto with go.
Qed.

Lemma same_deleteSlot id w v : same w v -> same (deleteSlot c id w) (deleteSlot c id v).
Proof.
  intros Hw. unfold deleteSlot. case_bool_decide; [by apply same_fail|].
  rewrite <- (proj1 (proj2 Hw)). destruct (negb _); [by apply same_fail|]. unfold call_DeleteSlot, called.
  destruct (agree_DeleteSlot (owner c) (subject c) _ _ (proj1 Hw)) as [Ha Hr].
  destruct Hw as (_ & Hd & Hs). cbn [st_DeleteSlot MemStore_api].
  destruct (DeleteSlot _ _ (w_store w)) as [s1 r1], (DeleteSlot _ _ (w_store v)) as [t1 r2]. simpl in Ha, Hr.
  assert (forall cs1 cs2, same (mkWorld s1 cs1 (w_holders w) (w_dbs w) (w_sent w) (w_pushes w))
    (mkWorld t1 cs2 (w_holders v) (w_dbs v) (w_sent v) (w_pushes v))) as Hw by done.
  destruct r1 as [res1|e1], r2 as [res2|e2]; simpl in Hr; simplify_eq; cbn [fst snd]; eauto with go.
Qed.

Lemma same_setSlotLabel id req w v : same w v -> same (setSlotLabel c id req w) (setSlotLabel c id req v).
Proof.
  intros Hw. unfold setSlotLabel. case_bool_decide; [by apply same_fail|].
  destruct (_ <? _); [by apply same_fail|]. unfold call_SetSlotLabel. same_call alike_SetSlotLabel Hw.
Qed.

Lemma same_handle e frame w v :
  own_dbs c w -> same w v -> same (handle opts c e frame w) (handle opts c e frame v).
Proof.
  intros Ho Hw. unfold handle. destruct (_ =? 0); [by apply same_fail|].
  destruct (pb.ClientFrame_Body frame); try (by apply same_fail);
    eauto using same_open, same_fetch, same_changed, same_commit, same_closeDB, same_deleteDB,
      same_ping, same_claimSlot, same_deleteSlot, same_setSlotLabel.
Qed.

(** The two connections panic at the same frame. *)
Lemma same_panics frame w v : own_dbs c w -> same w v -> panics frame w = panics frame v.
Proof.
  intros Ho Hw. unfold panics. destruct (pb.ClientFrame_Body frame) as [|?|req|?|?|?|?|?|?| | |?|]; try done.
  rewrite <- (proj1 (proj2 Hw)). destruct (w_dbs w !! _) as [db|] eqn:Hdb; [|done].
  pose proof (own_key _ _ _ Ho Hdb) as Hk.
  by destruct (same_fetch_runs (o_key db) (pb.Fetch_Version req) (ranges_of req) w v Hw Hk) as [_ ->].
Qed.

(** C20: Confidentiality across subjects.  What a client is sent, over any sequence of frames, does not
    depend on the databases of other subjects: run against two stores that have the same slots and
    the same databases of the client's subject, and however the other databases differ, the server
    sends the same frames, opens the same databases and stops at the same frame. *)
Theorem other_subjects_unseen (leeway : Duration) (frames : list (env * pb.ClientFrame)) (w v : world MemStore) :
  own_dbs c w -> same w v ->
  w_sent (run_frames opts c leeway frames w).2 = w_sent (run_frames opts c leeway frames v).2 /\
  w_dbs (run_frames opts c leeway frames w).2 = w_dbs (run_frames opts c leeway frames v).2 /\
  (run_frames opts c leeway frames w).1 = (run_frames opts c leeway frames v).1.
Proof.
  revert w v. induction frames as [|[e frame] frames IH]; intros w v Ho Hw; simpl.
  - split_and!; apply Hw || done.
  - destruct (_ && _); [split_and!; apply Hw || done|]. rewrite <- (same_panics frame w v) by done.
    pose proof (same_handle e frame w v Ho Hw) as Hw'. destruct (panics frame w); [split_and!; apply Hw' || done|].
    apply IH; [|done]. apply (extends_handle opts c e frame w Ho).
Qed.
End subjects.

(** ** Witnesses *)

Lemma own_dbs_new c s : own_dbs c (world_of s).
Proof. apply map_Forall_empty. Qed.

Lemma other_subjects_untouched_witness :
  dbs (w_store (handle opts0 alice (at_ t0) (frame 1 open_main) (world_of s4))) !! kB = dbs s4 !! kB /\
  dbs (w_store (handle opts0 alice (at_ t0) (frame 1 open_main) (world_of s4))) !! kA <> dbs s4 !! kA.
Proof.
  split; [|by vm_compute].
  apply (other_subjects_untouched opts0 alice 4 (at_ t0) (frame 1 open_main) (world_of s4) kB s4_wf).
  - apply own_dbs_new.
  - done.
  - intros slot Hs. by vm_compute in Hs.
Defined.

(** The store of [s4] without bob's database. *)
Definition s4_without_bob : MemStore := mkStore (delete kB (dbs s4)) (slots s4).

Lemma other_subjects_unseen_witness :
  w_sent (run_frames opts0 alice 0 session1 (world_of s4)).2 =
  w_sent (run_frames opts0 alice 0 session1 (world_of s4_without_bob)).2.
Proof.
  apply (other_subjects_unseen opts0 alice 0 session1 (world_of s4) (world_of s4_without_bob)).
  - apply own_dbs_new.
  - split_and!; [|done|done]. split; [done|]. intros k Hk.
    change (dbs s4 !! k = delete kB (dbs s4) !! k).
    rewrite lookup_delete_ne; [done|]. by intros <-.
Defined.
