(* ===== verification/ConnFetch.v ===== *)
(** * Answers of a connection

    The frames of a fetch: they carry the requested blocks with their indexes, each frame fits the
    limit, and the last one is marked.  And every request is answered under its own id. *)

From S2P Require Import Prelude Store StoreFacts Memory Trace Samples MemoryInv MemoryCommit Messages Connection ConnFacts ConnSamples.

Local Open Scope Z_scope.

(** ** The frames of one range *)

(** What a client reads from a frame: the blocks with their indexes. *)
Definition indexed (first : Z) (l : list bytes) : list (Z * bytes) :=
  imap (fun i b => (u64 (first + Z.of_nat i), b)) l.

Definition frame_blocks (p : pb.Pages) : list (Z * bytes) :=
  indexed (pb.Pages_FirstBlock p) (pb.Pages_Blocks p).

(** Only the last frame is marked. *)
Definition marked_last (l : list pb.Pages) : Prop :=
  exists front p, l = front ++ [p] /\ pb.Pages_Last p = true /\ Forall (fun q => pb.Pages_Last q = false) front.

Definition unmarked (l : list pb.Pages) : Prop := Forall (fun q => pb.Pages_Last q = false) l.

Lemma u64_add_l a b : u64 (u64 a + b) = u64 (a + b).
Proof. unfold u64. by rewrite Zplus_mod_idemp_l. Qed.

Lemma indexed_u64 first l : indexed (u64 first) l = indexed first l.
Proof. unfold indexed. apply imap_ext. intros. by rewrite u64_add_l. Qed.

Lemma indexed_app first l k : indexed first (l ++ k) = indexed first l ++ indexed (first + zlen l) k.
Proof.
  unfold indexed. rewrite imap_app. f_equal. apply imap_ext. intros i b _. simpl.
  unfold zlen. do 2 f_equal. lia.
Qed.

Lemma marked_cons p l : pb.Pages_Last p = false -> marked_last l -> marked_last (p :: l).
Proof.
  intros Hp (front & q & -> & Hq & Hf). exists (p :: front), q. split_and!; try done. by constructor.
Qed.

Lemma marked_app l k : unmarked l -> marked_last k -> marked_last (l ++ k).
Proof.
  intros Hl (front & q & -> & Hq & Hf). exists (l ++ front), q. rewrite app_assoc.
  split_and!; try done. by apply Forall_app.
Qed.

(** The inner loop terminates, and its frames hold the rest of the range, at most [per] blocks each. *)
Lemma pages_of_run_spec per first lastRun blocks : 1 <= per -> forall fuel start,
  0 <= start <= zlen blocks -> zlen blocks - start < Z.of_nat fuel ->
  exists frames, pages_of_run fuel per first lastRun start blocks = Some frames /\
    frames <> [] /\
    mjoin (frame_blocks <$> frames) = indexed (first + start) (drop (Z.to_nat start) blocks) /\
    Forall (fun p => zlen (pb.Pages_Blocks p) <= per) frames /\
    Forall (fun p => pb.Pages_Blocks p ⊆ blocks) frames /\
    (if lastRun then marked_last frames else unmarked frames).
Proof.
  intros Hper. induction fuel as [|fuel IH]; intros start Hs Hf; [lia|]. cbn [pages_of_run].
  set (end_ := Z.min (start + per) (zlen blocks)).
  set (p := pb.mkPages _ _ _).
  assert (start <= end_ <= zlen blocks) as Hend by lia.
  assert (zlen (pb.Pages_Blocks p) <= per) as Hlen.
  { unfold p, zlen. simpl. rewrite length_take. lia. }
  assert (pb.Pages_Blocks p ⊆ blocks) as Hsub.
  { intros b Hb. simpl in Hb. apply elem_of_take in Hb as (i & Hb & _).
    rewrite lookup_drop in Hb. by eapply list_elem_of_lookup_2. }
  destruct (end_ =? zlen blocks) eqn:E; bool_hyps.
  - exists [p]. split_and!; try done.
    + simpl. rewrite app_nil_r. unfold frame_blocks, p. simpl. rewrite indexed_u64.
      rewrite firstn_all2; [done|]. rewrite length_drop. unfold zlen in *. lia.
    + by constructor.
    + by constructor.
    + destruct lastRun.
      * exists [], p. by split_and!.
      * by constructor.
  - assert (0 < end_ - start) by lia.
    destruct (IH end_) as (frames & -> & Hne & Hj & Hall & Hincl & Hm); [lia|lia|].
    exists (p :: frames). split_and!; try done; try by constructor.
    + change (frame_blocks p ++ mjoin (frame_blocks <$> frames) =
              indexed (first + start) (drop (Z.to_nat start) blocks)).
      rewrite Hj. unfold frame_blocks, p. cbn [pb.Pages_FirstBlock pb.Pages_Blocks]. rewrite indexed_u64.
      replace (first + end_) with (first + start + zlen (take (Z.to_nat (end_ - start)) (drop (Z.to_nat start) blocks))).
      2:{ unfold zlen. rewrite length_take, length_drop. unfold zlen in *. lia. }
      replace (drop (Z.to_nat end_) blocks)
        with (drop (Z.to_nat (end_ - start)) (drop (Z.to_nat start) blocks))
        by (rewrite drop_drop; f_equal; lia).
      by rewrite <- indexed_app, take_drop.
    + assert (pb.Pages_Last p = false) by (apply andb_false_r).
      destruct lastRun; [by apply marked_cons|by constructor].
Qed.

(** ** The frames of all ranges *)

Lemma pages_of_runs_spec per runs : 1 <= per ->
  exists frames, pages_of_runs per runs = Some frames /\
    mjoin (frame_blocks <$> frames) = mjoin ((fun rb => indexed (pb.Range_FirstBlock rb.1) rb.2) <$> runs) /\
    Forall (fun p => zlen (pb.Pages_Blocks p) <= per) frames /\
    Forall (fun p => exists r, r ∈ runs.*2 /\ pb.Pages_Blocks p ⊆ r) frames /\
    (runs <> [] -> marked_last frames).
Proof.
  intros Hper. induction runs as [|[r blocks] runs (others & Ho & Hj & Hall & Hin & Hm)].
  { exists []. by split_and!. }
  destruct (pages_of_run_spec per (pb.Range_FirstBlock r) (bool_decide (runs = [])) blocks Hper
              (S (length blocks)) 0) as (frames & Hf & Hne & Hfj & Hfall & Hfin & Hfm);
    [unfold zlen; lia|unfold zlen; lia|].
  exists (frames ++ others). split_and!.
  - cbn [pages_of_runs]. rewrite Hf. simpl. by rewrite Ho.
  - rewrite fmap_app, join_app, Hfj, Hj. simpl. rewrite drop_0, Z.add_0_r. done.
  - by apply Forall_app.
  - apply Forall_app. split.
    + apply (Forall_impl _ _ _ Hfin). intros p Hp. exists blocks. split; [by left|done].
    + apply (Forall_impl _ _ _ Hin). intros p (x & Hx & Hp). exists x. split; [by right|done].
  - intros _. case_bool_decide as Hr.
    + subst runs. simpl in Ho. injection Ho as <-. by rewrite app_nil_r.
    + apply marked_app; auto.
Qed.

Lemma perFrame_pos opts pageSize : 1 <= perFrame opts pageSize.
Proof. unfold perFrame. lia. Qed.

Section fetch.
Context {S : Type} `{!StoreAPI S}.
Variable opts : Options.

Lemma fetch_runs_ok k ver ranges : forall runs (w : world S),
  Forall2 (fun r bs => st_Fetch k ver (pb.Range_FirstBlock r) (pb.Range_Count r) (w_store w) = Ok bs) ranges runs ->
  (fetch_runs k ver ranges w).1 = Ok runs.
Proof.
  induction ranges as [|r ranges IH]; intros runs w Hr; inversion Hr as [|? bs ? runs' H1 H2]; subst; [done|].
  cbn [fetch_runs]. unfold call_Fetch, called. cbn [fst snd]. rewrite H1.
  specialize (IH runs' (mkWorld (w_store w) (w_calls w ++ [OpFetch k ver (pb.Range_FirstBlock r) (pb.Range_Count r)])
                          (w_holders w) (w_dbs w) (w_sent w) (w_pushes w)) H2).
  destruct (fetch_runs k ver ranges _) as [x w1]. simpl in *. by subst.
Qed.

Lemma fetch_runs_inv k ver ranges : forall runs (w : world S),
  (fetch_runs k ver ranges w).1 = Ok runs ->
  Forall2 (fun r bs => st_Fetch k ver (pb.Range_FirstBlock r) (pb.Range_Count r) (w_store w) = Ok bs) ranges runs.
Proof.
  induction ranges as [|r ranges IH]; intros runs w; cbn [fetch_runs].
  { intros [= <-]. constructor. }
  unfold call_Fetch, called. cbn [fst snd].
  destruct (st_Fetch _ _ _ _ _) as [bs|e] eqn:E; [|done]. set (w1 := mkWorld _ _ _ _ _ _).
  specialize (IH (match (fetch_runs k ver ranges w1).1 with Ok l => l | _ => [] end) w1).
  destruct (fetch_runs k ver ranges w1) as [[l|e] w2]; simpl; [|done].
  intros [= <-]. constructor; [done|]. by apply IH.
Qed.

(** A fetch whose ranges the store can read is answered with frames that hold exactly these blocks. *)
Lemma fetch_sends id req (w : world S) db runs :
  w_dbs w !! pb.Fetch_DbId req = Some db ->
  zlen (ranges_of req) <= maxFetchRanges -> ranges_sorted None (ranges_of req) = true ->
  Forall2 (fun r bs => st_Fetch (o_key db) (pb.Fetch_Version req) (pb.Range_FirstBlock r) (pb.Range_Count r)
                         (w_store w) = Ok bs) (ranges_of req) runs ->
  exists frames,
    w_sent (fetch opts id req w) =
      w_sent w ++ ((fun p => pb.mkServerFrame id (pb.ServerFrame_Pages p)) <$> frames) /\
    mjoin (frame_blocks <$> frames) =
      mjoin (zip_with (fun r bs => indexed (pb.Range_FirstBlock r) bs) (ranges_of req) runs) /\
    Forall (fun p => zlen (pb.Pages_Blocks p) <= perFrame opts (o_pageSize db)) frames /\
    Forall (fun p => exists r, r ∈ runs /\ pb.Pages_Blocks p ⊆ r) frames /\
    marked_last frames.
Proof.
  intros Hdb Hlen Hsort Hr. unfold fetch. rewrite Hdb. cbv zeta.
  rewrite (proj2 (Z.ltb_ge _ _)) by done. rewrite Hsort. simpl negb. cbv iota.
  pose proof (fetch_runs_ok _ _ _ _ _ Hr) as Hok.
  assert (Subject (o_key db) = subject (mkSession 0 (Subject (o_key db)) None EmptyString 0)) as Hs by done.
  destruct (fetch_runs_calls _ _ (pb.Fetch_Version req) (ranges_of req) w Hs) as (_ & _ & _ & _ & _ & _ & _ & Hsent).
  destruct (fetch_runs _ _ _ _) as [x w1]. simpl in Hok, Hsent. subst x.
  destruct (pages_of_runs_spec (perFrame opts (o_pageSize db)) (zip (ranges_of req) runs) (perFrame_pos _ _))
    as (frames & -> & Hj & Hall & Hin & Hm).
  exists frames. destruct (send_pages_quiet id frames w1) as (_ & _ & ->). rewrite Hsent.
  assert (length (ranges_of req) = length runs) as Hl by (by eapply Forall2_length).
  rewrite snd_zip in Hin by lia. split_and!; try done.
  - rewrite Hj. f_equal. rewrite (zip_with_zip (fun r bs => indexed _ bs)). apply list_fmap_ext. by intros ? [].
  - apply Hm. unfold ranges_of in *. destruct (pb.Fetch_Ranges req); destruct runs; done.
Qed.
End fetch.

(** The runs of the ranges of a request, as the store reads them, with their indexes. *)
Definition runs_of (db : database) (ranges : list pb.Range) : list (list bytes) :=
  (fun r => (fun i => read_block db (pb.Range_FirstBlock r + i)) <$> seqZ 0 (pb.Range_Count r)) <$> ranges.

Definition range_within (db : database) (r : pb.Range) : Prop :=
  in_u64 (pb.Range_FirstBlock r) /\ in_u64 (pb.Range_Count r) /\
  pb.Range_FirstBlock r + pb.Range_Count r <= PageCount (state db) /\ makeable (pb.Range_Count r) = true.

Definition blocks_of_ranges (db : database) (ranges : list pb.Range) : list (Z * bytes) :=
  mjoin ((fun r => (fun i => (i, read_block db i)) <$> seqZ (pb.Range_FirstBlock r) (pb.Range_Count r)) <$> ranges).

Lemma indexed_runs n db ranges : wf_db n db -> Forall (range_within db) ranges ->
  mjoin (zip_with (fun r bs => indexed (pb.Range_FirstBlock r) bs) ranges (runs_of db ranges)) =
  blocks_of_ranges db ranges.
Proof.
  intros Hdb Hranges. pose proof (wf_pagecount _ _ Hdb) as Hpc. unfold runs_of, blocks_of_ranges. f_equal.
  rewrite zip_with_fmap_r, zip_with_diag. apply list_fmap_ext. intros j r Hr.
  pose proof (Forall_lookup_1 _ _ _ _ Hranges Hr) as (Hf & Hc & Hle & _).
  unfold indexed. apply list_eq. intros i. rewrite list_lookup_imap, !list_lookup_fmap.
  destruct (decide (Z.of_nat i < pb.Range_Count r)).
  - rewrite !lookup_seqZ_lt by done. simpl. rewrite Z.add_0_l.
    rewrite u64_small; [done|]. unfold in_u64 in *. lia.
  - by rewrite !lookup_seqZ_ge by lia.
Qed.

Lemma runs_fetched n k ver s db ranges :
  wf_store n s -> dbs s !! k = Some db -> deleted db = false -> ver = Version (state db) ->
  Forall (range_within db) ranges ->
  Forall2 (fun r bs => Fetch k ver (pb.Range_FirstBlock r) (pb.Range_Count r) s = Ok bs) ranges (runs_of db ranges).
Proof.
  intros Hwf Hk Hd Hv Hranges. pose proof (wf_pagecount _ _ (wf_lookup _ _ _ _ Hwf Hk)) as Hpc.
  apply Forall2_fmap_r, Forall_Forall2_diag. apply (Forall_impl _ _ _ Hranges).
  intros r (Hf & Hc & Hle & Hm). by apply Fetch_ok.
Qed.

(** C22: A fetch delivers the database.  If a client asks for ranges within the file of its open
    database at the current version, none larger than what [make] can allocate, the server answers with [Pages] frames under the request's id
    that together hold exactly the blocks of the requested ranges, in order and each with its index;
    no frame has more than [perFrame] blocks, and exactly the last frame is marked as last.  The
    loops of the code terminate. *)
Theorem fetch_delivers (n : Z) (opts : Options) (id : Z) (req : pb.Fetch) (w : world MemStore)
    (o : openDB) (db : database) :
  wf_store n (w_store w) -> w_dbs w !! pb.Fetch_DbId req = Some o ->
  dbs (w_store w) !! o_key o = Some db -> deleted db = false ->
  pb.Fetch_Version req = Version (state db) ->
  zlen (ranges_of req) <= maxFetchRanges -> ranges_sorted None (ranges_of req) = true ->
  Forall (range_within db) (ranges_of req) ->
  exists frames,
    w_sent (fetch opts id req w) =
      w_sent w ++ ((fun p => pb.mkServerFrame id (pb.ServerFrame_Pages p)) <$> frames) /\
    mjoin (frame_blocks <$> frames) = blocks_of_ranges db (ranges_of req) /\
    Forall (fun p => zlen (pb.Pages_Blocks p) <= perFrame opts (o_pageSize o)) frames /\
    marked_last frames.
Proof.
  intros Hwf Ho Hk Hd Hv Hlen Hsort Hranges.
  destruct (fetch_sends opts id req w o (runs_of db (ranges_of req)) Ho Hlen Hsort) as (frames & Hs & Hj & Hall & _ & Hm).
  { by apply (runs_fetched n). }
  exists frames. split_and!; try done. rewrite Hj. eapply indexed_runs; [|done]. by eapply wf_lookup.
Qed.

(** Two ranges of the sample database: blocks 0 and 2. *)
Definition fetch2 : pb.Fetch := pb.mkFetch "main" 1 0 0 [pb.mkRange 0 1; pb.mkRange 2 1].

Definition opened1 : world MemStore :=
  mkWorld s1 [] ∅ {[ "main"%string := mkOpenDB kA 1 512 None 0 ]} [] [].

Lemma fetch_delivers_witness :
  exists frames,
    w_sent (fetch opts0 9 fetch2 opened1) =
      ((fun p => pb.mkServerFrame 9 (pb.ServerFrame_Pages p)) <$> frames) /\
    mjoin (frame_blocks <$> frames) = [(0, page x01); (2, page x02)].
Proof.
  destruct (fetch_delivers 2 opts0 9 fetch2 opened1 (mkOpenDB kA 1 512 None 0) db1 s1_wf)
    as (frames & Hs & Hj & _); [vm_compute; reflexivity..| | | |].
  - vm_compute. congruence.
  - vm_compute. reflexivity.
  - repeat constructor; vm_compute; congruence.
  - exists frames. split; [exact Hs|]. rewrite Hj. vm_compute. reflexivity.
Defined.
