(* ===== verification/ConnSync.v ===== *)
(** * Catching up a copy

    The purpose of [Changed] and of ranges in [Fetch]: a client that has a copy of a database of some
    earlier version asks for the changes since, and then for the blocks it cannot keep.  Here the two
    handlers are composed with the change log of the store: what the client puts together is the
    current database. *)

From S2P Require Import Prelude Store StoreFacts Memory Trace MemoryInv MemoryStep MemoryLease MemoryCommit MemoryHistory Samples Messages Connection ConnFacts ConnSamples ConnFetch.

Local Open Scope Z_scope.

(** The client's copy with the blocks of the frames put in. *)
Definition patched (copy : Z -> bytes) (frames : list pb.Pages) (i : Z) : bytes :=
  match list_find (fun p => p.1 = i) (mjoin (frame_blocks <$> frames)) with
  | Some (_, (_, data)) => data
  | None => copy i
  end.

Definition in_range_of (i : Z) (r : pb.Range) : Prop :=
  pb.Range_FirstBlock r <= i < pb.Range_FirstBlock r + pb.Range_Count r.

Lemma elem_of_ranges db ranges i data :
  (i, data) ∈ blocks_of_ranges db ranges <-> data = read_block db i /\ Exists (in_range_of i) ranges.
Proof.
  unfold blocks_of_ranges. rewrite list_elem_of_join. setoid_rewrite list_elem_of_fmap. rewrite Exists_exists. split.
  - intros (l & Hi & r & -> & Hr). apply list_elem_of_fmap in Hi as (j & [= -> ->] & Hj%elem_of_seqZ).
    split; [done|]. exists r. split; [done|]. unfold in_range_of. lia.
  - intros [-> (r & Hr & Hi)]. eexists. split; [|by exists r]. apply list_elem_of_fmap.
    exists i. split; [done|]. apply elem_of_seqZ. unfold in_range_of in Hi. lia.
Qed.

(** Putting in the blocks of ranges of a database changes these to its own and leaves the others. *)
Lemma patched_ranges copy frames db ranges i :
  mjoin (frame_blocks <$> frames) = blocks_of_ranges db ranges ->
  (Exists (in_range_of i) ranges -> patched copy frames i = read_block db i) /\
  (~ Exists (in_range_of i) ranges -> patched copy frames i = copy i).
Proof.
  intros Hf. unfold patched. rewrite Hf.
  destruct (list_find _ _) as [[j [i' data]]|] eqn:E.
  - apply list_find_Some in E as (Hj & Hi & _). simpl in Hi. subst i'.
    apply list_elem_of_lookup_2, elem_of_ranges in Hj as [-> Hex]. by split.
  - apply list_find_None in E. split; [|done]. intros Hex. exfalso.
    rewrite Forall_forall in E. apply (E (i, read_block db i)); [|done]. by apply elem_of_ranges.
Qed.

(** The change set in an answer that is complete is that of the store. *)
Lemma changed_complete opts id req (w : world MemStore) o m :
  w_dbs w !! pb.Changed_DbId req = Some o ->
  w_sent (changed opts id req w) = w_sent w ++ [pb.mkServerFrame id (pb.ServerFrame_Changes m)] ->
  pb.Changes_Complete m = true ->
  w_store (changed opts id req w) = w_store w /\ w_dbs (changed opts id req w) = w_dbs w /\
  exists cs, Changes (o_key o) (pb.Changed_FromVersion req) (w_store w) = Ok cs /\ Complete cs = true /\
    ToVersion cs = pb.Changes_ToVersion m /\ cs_Blocks cs = pb.Changes_Blocks m.
Proof.
  intros Ho. unfold changed. rewrite Ho. unfold call_Changes, called. cbn [fst snd].
  change (st_Changes (o_key o) (pb.Changed_FromVersion req) (w_store w))
    with (Changes (o_key o) (pb.Changed_FromVersion req) (w_store w)).
  destruct (Changes _ _ _) as [cs|e] eqn:HC; simpl; intros Hs Hm; apply app_inj_tail in Hs as [_ Hs].
  - split_and!; [done..|]. exists cs. injection Hs as <-. simpl in Hm |- *.
    destruct (_ <? _); [done|]. by split_and!.
  - destruct e; discriminate Hs.
Qed.

(** C18: A client catches up.  A client has a copy of a database as it was in some reachable state; then
    other calls happen to the store.  The client asks for the changes since the version of its copy and
    gets a complete answer, and fetches ranges at the version that the answer names.  If these
    cover every block of the current file except ones that the answer does not list and that the
    file has had all along, then the frames of the fetch, put into the copy, make it the current
    database, block by block. *)
Theorem copy_catches_up (opts : Options) (id1 id2 : Z) (creq : pb.Changed) (freq : pb.Fetch) (m : pb.Changes)
    (ops0 ops : list op) (answers0 answers : list answer) (s0 : MemStore) (w : world MemStore) (o : openDB)
    (db0 db1 : database) :
  let w1 := changed opts id1 creq w in
  steps ops0 New answers0 s0 -> steps ops s0 answers (w_store w) -> zlen ops0 + zlen ops < two64 ->
  dbs s0 !! o_key o = Some db0 -> dbs (w_store w) !! o_key o = Some db1 ->
  w_dbs w !! pb.Changed_DbId creq = Some o -> pb.Changed_FromVersion creq = Version (state db0) ->
  w_sent w1 = w_sent w ++ [pb.mkServerFrame id1 (pb.ServerFrame_Changes m)] -> pb.Changes_Complete m = true ->
  pb.Fetch_DbId freq = pb.Changed_DbId creq -> pb.Fetch_Version freq = pb.Changes_ToVersion m ->
  zlen (ranges_of freq) <= maxFetchRanges -> ranges_sorted None (ranges_of freq) = true ->
  Forall (range_within db1) (ranges_of freq) ->
  (forall i, 0 <= i < PageCount (state db1) ->
     Exists (in_range_of i) (ranges_of freq) \/
     (i ∉ pb.Changes_Blocks m) /\ steps_while (has_block (o_key o) i) ops s0 (w_store w)) ->
  exists frames,
    w_sent (fetch opts id2 freq w1) =
      w_sent w1 ++ ((fun p => pb.mkServerFrame id2 (pb.ServerFrame_Pages p)) <$> frames) /\
    marked_last frames /\
    forall i, 0 <= i < PageCount (state db1) -> patched (read_block db0) frames i = read_block db1 i.
Proof.
  intros w1 H0 H1 Hb Hk0 Hk1 Ho Hfrom Hsent Hcomp Hid Hver Hlen Hsort Hranges Hcover.
  pose proof (zlen_nonneg ops0). pose proof (zlen_nonneg ops).
  assert (wf_store (zlen ops0) s0) as Hwf0 by (eapply wf_reachable; [done|lia]).
  assert (wf_store (zlen ops0 + zlen ops) (w_store w)) as Hwf
    by (eapply (wf_steps ops s0 answers _ (zlen ops0)); [done|lia..|done]).
  pose proof (wf_version _ _ (wf_lookup _ _ _ _ Hwf0 Hk0)) as [Hv0 _].
  destruct (changed_complete opts id1 creq w o m Ho Hsent Hcomp) as (Hst & Hdbs & cs & HC & Hcs & Hto & Hbl).
  fold w1 in Hst, Hdbs. rewrite Hfrom in HC.
  destruct (Changes_complete _ _ _ _ _ _ Hwf ltac:(lia) Hk1 Hv0 HC) as (Hlive & _ & _ & Hv & _).
  destruct (fetch_sends opts id2 freq w1 o (runs_of db1 (ranges_of freq))) as (frames & Hf & Hj & _ & _ & Hm).
  - by rewrite Hdbs, Hid.
  - done.
  - done.
  - rewrite Hst. eapply (runs_fetched _ _ _ _ _ _ Hwf Hk1 Hlive); [|done]. by rewrite Hver, <- Hto, Hv.
  - exists frames. split_and!; [done..|]. intros i Hi.
    rewrite (indexed_runs _ _ _ (wf_lookup _ _ _ _ Hwf Hk1) Hranges) in Hj.
    destruct (patched_ranges (read_block db0) frames db1 (ranges_of freq) i Hj) as [Hin Hout].
    destruct (decide (Exists (in_range_of i) (ranges_of freq))) as [Hex|Hex]; [by apply Hin|].
    rewrite Hout by done. destruct (Hcover i Hi) as [?|[Hnl Hw]]; [done|]. symmetry.
    eapply (unlisted_block _ _ _ _ _ _ _ Hwf ltac:(lia) Hv0 Hk1); [|done|done|by rewrite Hbl].
    eapply log_covers_since; [done|done|lia|done..].
Qed.

(** Database [kA] of [s3], open on a connection whose client has it as in [s1]: block 1 was written and
    block 3 is new. *)
Definition opened3 : world MemStore :=
  mkWorld s3 [] ∅ {[ "main"%string := mkOpenDB kA 2 512 None 0 ]} [] [].

Definition fetch_missing : pb.Fetch := pb.mkFetch "main" 2 0 0 [pb.mkRange 1 1; pb.mkRange 3 1].

Lemma copy_catches_up_witness :
  exists frames, w_sent (fetch opts0 5 fetch_missing (changed opts0 4 (pb.mkChanged "main" 1) opened3)) =
    pb.mkServerFrame 4 (pb.ServerFrame_Changes (pb.mkChanges 1 2 [1] true)) ::
      ((fun p => pb.mkServerFrame 5 (pb.ServerFrame_Pages p)) <$> frames) /\
  forall i, 0 <= i < 4 -> patched (read_block db1) frames i = read_block db3 i.
Proof.
  pose (later := OpOpen [x0b] take2 :: ops3).
  assert (s3 = (run later s1).1) as E by (vm_compute; reflexivity).
  assert (forall i, i = 0 \/ i = 2 -> steps_while (has_block kA i) later s1 s3) as Hkept.
  { intros i Hi. rewrite E. destruct Hi as [-> | ->];
      (refine (while_check _ later s1 _); vm_compute; reflexivity). }
  destruct (copy_catches_up opts0 4 5 (pb.mkChanged "main" 1) fetch_missing (pb.mkChanges 1 2 [1] true) ops1 later
              (run ops1 New).2 (run later s1).2 s1 opened3 (mkOpenDB kA 2 512 None 0) db1 db3)
    as (frames & Hf & _ & Hp).
  - exact s1_steps.
  - change (w_store opened3) with s3. rewrite E. apply run_check. vm_compute. reflexivity.
  - reflexivity.
  - vm_compute. reflexivity.
  - vm_compute. reflexivity.
  - reflexivity.
  - vm_compute. reflexivity.
  - vm_compute. reflexivity.
  - reflexivity.
  - reflexivity.
  - reflexivity.
  - vm_compute. congruence.
  - reflexivity.
  - repeat constructor; vm_compute; congruence.
  - intros i Hi. change (PageCount (state db3)) with 4 in Hi.
    assert (i = 1 \/ i = 3 \/ i = 0 \/ i = 2) as [-> |[-> |Hk]] by lia.
    + left. apply Exists_exists. exists (pb.mkRange 1 1). split; [by left|]. unfold in_range_of. simpl. lia.
    + left. apply Exists_exists. exists (pb.mkRange 3 1). split; [right; by left|]. unfold in_range_of. simpl. lia.
    + right. split; [|by apply Hkept]. simpl. destruct Hk; subst; set_solver.
  - exists frames. split; [|exact Hp]. rewrite Hf. vm_compute. reflexivity.
Defined.
