(* ===== verification/ConnWire.v ===== *)
(** * The size of frames on the wire

    The overhead constants of [connection.go] against the protobuf encoding: with the limits the
    server's configuration accepts, a [Pages] and a [Changes] frame does not exceed the maximum frame
    size, as long as the database has the page size that it had when the connection opened it.

    The protobuf library is a parameter.  What is used of it is the documented size of a field: a tag,
    which is a varint of the field number and a wire type; a number as a varint, and nothing if it is
    zero; bytes, messages and packed lists with their length in front.  The field numbers are those of
    [src/proto/sqlite_remote/v1/sqlite_remote.proto]. *)

From S2P Require Import Prelude Store StoreFacts Memory Trace MemoryInv MemoryCommit Samples Messages Connection ConnFacts ConnSamples ConnFetch.

Local Open Scope Z_scope.

(** ** Sizes in the wire format *)

(** The bytes of a varint: one per seven bits, at most ten for 64 bits. *)
Fixpoint varint_size_loop (fuel : nat) (n : Z) : Z :=
  match fuel with
  | O => 0
  | S fuel => if n <? 128 then 1 else 1 + varint_size_loop fuel (n / 128)
  end.

Definition varint_size (n : Z) : Z := varint_size_loop 10 n.

(** The tag of a field. *)
Definition tag_size (num : Z) : Z := varint_size (num * 8).

Definition number_size (num n : Z) : Z := if n =? 0 then 0 else tag_size num + varint_size n.

Definition bool_size (num : Z) (b : bool) : Z := if b then tag_size num + 1 else 0.

(** A field with a length prefix. *)
Definition len_size (num len : Z) : Z := tag_size num + varint_size len + len.

Definition sum (l : list Z) : Z := foldr Z.add 0 l.

Definition pages_size (p : pb.Pages) : Z :=
  number_size 1 (pb.Pages_FirstBlock p) + sum ((fun b => len_size 2 (zlen b)) <$> pb.Pages_Blocks p) +
  bool_size 3 (pb.Pages_Last p).

Definition changes_size (m : pb.Changes) : Z :=
  number_size 1 (pb.Changes_FromVersion m) + number_size 2 (pb.Changes_ToVersion m) +
  (if bool_decide (pb.Changes_Blocks m = []) then 0 else len_size 3 (sum (varint_size <$> pb.Changes_Blocks m))) +
  bool_size 4 (pb.Changes_Complete m).

(** A server frame has its request id in field 1, [Pages] in field 12 and [Changes] in field 19. *)
Definition pages_frame_size (id : Z) (p : pb.Pages) : Z := number_size 1 id + len_size 12 (pages_size p).
Definition changes_frame_size (id : Z) (m : pb.Changes) : Z := number_size 1 id + len_size 19 (changes_size m).

(** ** Bounds on the sizes *)

Lemma varint_size_loop_bound fuel : forall n, 0 <= varint_size_loop fuel n <= Z.of_nat fuel.
Proof.
  induction fuel as [|fuel IH]; intros n; [done|]. cbn [varint_size_loop].
  destruct (n <? 128); [lia|]. specialize (IH (n / 128)). lia.
Qed.

Lemma varint_size_bound n : 0 <= varint_size n <= 10.
Proof. apply (varint_size_loop_bound 10). Qed.

Lemma varint_size_loop_small k : forall fuel n,
  0 <= n < 128 ^ Z.of_nat k -> varint_size_loop fuel n <= Z.max 1 (Z.of_nat k).
Proof.
  induction k as [|k IH]; intros [|fuel] n Hn; cbn [varint_size_loop]; try lia.
  - rewrite (proj2 (Z.ltb_lt _ _)) by lia. lia.
  - destruct (n <? 128) eqn:E; [lia|]. bool_hyps.
    assert (0 <= n / 128 < 128 ^ Z.of_nat k) as Hd.
    { rewrite Nat2Z.inj_succ, Z.pow_succ_r in Hn by lia. split; [apply Z.div_pos; lia|].
      apply Z.div_lt_upper_bound; lia. }
    specialize (IH fuel _ Hd). destruct k; [|lia].
    simpl in Hd. assert (0 < n / 128) by (apply Z.div_str_pos; lia). lia.
Qed.

Lemma varint_size_small n : 0 <= n < two32 -> varint_size n <= 5.
Proof. intros Hn. apply (varint_size_loop_small 5 10). unfold two32 in *. lia. Qed.

Lemma number_size_bound num n : 0 <= number_size num n <= tag_size num + 10.
Proof.
  unfold number_size, tag_size. pose proof (varint_size_bound n). pose proof (varint_size_bound (num * 8)).
  destruct (n =? 0); lia.
Qed.

Lemma bool_size_bound num b : 0 <= bool_size num b <= tag_size num + 1.
Proof. unfold bool_size, tag_size. pose proof (varint_size_bound (num * 8)). destruct b; lia. Qed.

Lemma len_size_bound num len : 0 <= len < two32 -> 0 <= len_size num len <= tag_size num + 5 + len.
Proof.
  intros Hd. unfold len_size, tag_size. pose proof (varint_size_small len Hd). pose proof (varint_size_bound len).
  pose proof (varint_size_bound (num * 8)). lia.
Qed.

Lemma sum_bound {A} (f : A -> Z) (c : Z) l :
  Forall (fun a => 0 <= f a <= c) l -> 0 <= sum (f <$> l) <= c * zlen l.
Proof.
  induction 1 as [|a l Ha _ IH]; [unfold zlen; simpl; lia|].
  rewrite fmap_cons. unfold sum in *. cbn [foldr]. unfold zlen in *. simpl length. lia.
Qed.

Lemma len_size_nonneg num len : 0 <= len -> 0 <= len_size num len.
Proof.
  intros Hl. unfold len_size, tag_size. pose proof (varint_size_bound len). pose proof (varint_size_bound (num * 8)). lia.
Qed.

Lemma sum_nonneg {A} (f : A -> Z) l : (forall a, 0 <= f a) -> 0 <= sum (f <$> l).
Proof. intros Hf. induction l as [|a l IH]; [done|]. rewrite fmap_cons. unfold sum in *. cbn [foldr]. specialize (Hf a). lia. Qed.

Lemma pages_frame_size_nonneg id p : 0 <= pages_frame_size id p.
Proof.
  unfold pages_frame_size. pose proof (number_size_bound 1 id). pose proof (len_size_nonneg 12 (pages_size p)).
  assert (0 <= pages_size p); [|lia]. unfold pages_size. pose proof (number_size_bound 1 (pb.Pages_FirstBlock p)).
  pose proof (bool_size_bound 3 (pb.Pages_Last p)).
  pose proof (sum_nonneg (fun b => len_size 2 (zlen b)) (pb.Pages_Blocks p) (fun b => len_size_nonneg 2 (zlen b) (zlen_nonneg b))). lia.
Qed.

Lemma changes_frame_size_nonneg id m : 0 <= changes_frame_size id m.
Proof.
  unfold changes_frame_size. pose proof (number_size_bound 1 id). pose proof (len_size_nonneg 19 (changes_size m)).
  assert (0 <= changes_size m); [|lia]. unfold changes_size. pose proof (number_size_bound 1 (pb.Changes_FromVersion m)).
  pose proof (number_size_bound 2 (pb.Changes_ToVersion m)). pose proof (bool_size_bound 4 (pb.Changes_Complete m)).
  pose proof (sum_nonneg varint_size (pb.Changes_Blocks m) (fun n => proj1 (varint_size_bound n))).
  pose proof (len_size_nonneg 3 (sum (varint_size <$> pb.Changes_Blocks m))). case_bool_decide; lia.
Qed.

(** ** Limits *)

(** [minMaxFrameBytes] of [src/server/server.go]. *)
Definition minMaxFrameBytes : Z := 65536 + 1024.

Lemma perFrame_fits opts pageSize n :
  minMaxFrameBytes <= MaxFrameBytes opts < two32 -> 0 <= pageSize <= MaxPageSize ->
  n <= perFrame opts pageSize ->
  (pageSize + pagesBlockOverhead) * n <= MaxFrameBytes opts - pagesFrameOverhead.
Proof.
  unfold minMaxFrameBytes, MaxPageSize, perFrame, pagesBlockOverhead, pagesFrameOverhead. intros Hm Hp Hn.
  rewrite !u32_small in Hn by (unfold in_u32, two32 in *; lia).
  set (M := MaxFrameBytes opts - 64) in *. set (b := pageSize + 8) in *.
  assert (0 < b <= M) by lia. pose proof (Z.mul_div_le M b). pose proof (Z.div_str_pos M b).
  nia.
Qed.

Lemma pages_fit opts pageSize id p :
  minMaxFrameBytes <= MaxFrameBytes opts < two32 -> 0 <= pageSize <= MaxPageSize ->
  zlen (pb.Pages_Blocks p) <= perFrame opts pageSize ->
  Forall (fun b => zlen b <= pageSize) (pb.Pages_Blocks p) ->
  pages_frame_size id p <= MaxFrameBytes opts.
Proof.
  intros Hm Hp Hn Hb. pose proof (perFrame_fits _ _ _ Hm Hp Hn) as Hfit.
  assert (0 <= sum ((fun b => len_size 2 (zlen b)) <$> pb.Pages_Blocks p) <=
          (pageSize + pagesBlockOverhead) * zlen (pb.Pages_Blocks p)) as Hblocks.
  { apply sum_bound. apply (Forall_impl _ _ _ Hb). intros b Hlen. pose proof (zlen_nonneg b).
    pose proof (len_size_bound 2 (zlen b)). change (tag_size 2) with 1 in *.
    unfold MaxPageSize, pagesBlockOverhead, two32 in *. lia. }
  pose proof (number_size_bound 1 id). pose proof (number_size_bound 1 (pb.Pages_FirstBlock p)).
  pose proof (bool_size_bound 3 (pb.Pages_Last p)).
  change (tag_size 1) with 1 in *. change (tag_size 3) with 1 in *. unfold pagesFrameOverhead in *.
  assert (0 <= pages_size p <= 13 + (MaxFrameBytes opts - 64)) as Hpages by (unfold pages_size; lia).
  pose proof (len_size_bound 12 (pages_size p)). change (tag_size 12) with 1 in *.
  unfold pages_frame_size. lia.
Qed.

Lemma changes_fit opts id m :
  minMaxFrameBytes <= MaxFrameBytes opts < two32 ->
  zlen (pb.Changes_Blocks m) <= changesPerFrame opts ->
  changes_frame_size id m <= MaxFrameBytes opts.
Proof.
  unfold minMaxFrameBytes, changesPerFrame, changesFrameOverhead. intros Hm Hn.
  rewrite u32_small in Hn by (unfold in_u32, two32 in *; lia).
  assert (10 * zlen (pb.Changes_Blocks m) <= MaxFrameBytes opts - 64) as Hfit.
  { pose proof (Z.mul_div_le (MaxFrameBytes opts - 64) 10). pose proof (Z.div_str_pos (MaxFrameBytes opts - 64) 10). lia. }
  assert (0 <= sum (varint_size <$> pb.Changes_Blocks m) <= 10 * zlen (pb.Changes_Blocks m)) as Hblocks.
  { apply sum_bound, Forall_forall. intros x _. apply varint_size_bound. }
  pose proof (number_size_bound 1 id). pose proof (number_size_bound 1 (pb.Changes_FromVersion m)).
  pose proof (number_size_bound 2 (pb.Changes_ToVersion m)). pose proof (bool_size_bound 4 (pb.Changes_Complete m)).
  pose proof (len_size_bound 3 (sum (varint_size <$> pb.Changes_Blocks m))).
  change (tag_size 1) with 1 in *. change (tag_size 2) with 1 in *. change (tag_size 3) with 1 in *.
  change (tag_size 4) with 1 in *. unfold two32 in *.
  assert (0 <= changes_size m <= 30 + (MaxFrameBytes opts - 64)) as Hc.
  { unfold changes_size. case_bool_decide; lia. }
  pose proof (len_size_bound 19 (changes_size m)). change (tag_size 19) with 2 in *.
  unfold changes_frame_size, two32 in *. lia.
Qed.

(** ** What the handlers send *)

Lemma fetch_pages_bound {S} `{!StoreAPI S} opts id req (w : world S) db :
  w_dbs w !! pb.Fetch_DbId req = Some db ->
  (forall ver first count bs, st_Fetch (o_key db) ver first count (w_store w) = Ok bs ->
     Forall (fun b => zlen b <= o_pageSize db) bs) ->
  forall id' p, pb.mkServerFrame id' (pb.ServerFrame_Pages p) ∈ w_sent (fetch opts id req w) ->
    pb.mkServerFrame id' (pb.ServerFrame_Pages p) ∈ w_sent w \/
    (zlen (pb.Pages_Blocks p) <= perFrame opts (o_pageSize db) /\
     Forall (fun b => zlen b <= o_pageSize db) (pb.Pages_Blocks p)).
Proof.
  intros Hdb Hst id' p. unfold fetch. rewrite Hdb. cbv zeta.
  assert (forall e (v : world S), w_sent v = w_sent w ->
    pb.mkServerFrame id' (pb.ServerFrame_Pages p) ∈ w_sent (fail id e v) ->
    pb.mkServerFrame id' (pb.ServerFrame_Pages p) ∈ w_sent w) as Hfail.
  { intros e v Hv. simpl. rewrite Hv. intros [?|Hf%list_elem_of_singleton]%elem_of_app; [done|].
    unfold errorFrame in Hf. destruct e as [[]| | | | |]; discriminate Hf. }
  destruct (_ <? _); [left; by eapply Hfail|]. destruct (negb _); [left; by eapply Hfail|].
  assert (Subject (o_key db) = subject (mkSession 0 (Subject (o_key db)) None EmptyString 0)) as Hs by done.
  destruct (fetch_runs_calls _ _ (pb.Fetch_Version req) (ranges_of req) w Hs) as (_ & _ & _ & _ & _ & _ & _ & Hsent).
  pose proof (fetch_runs_inv (o_key db) (pb.Fetch_Version req) (ranges_of req)) as Hinv.
  destruct (fetch_runs _ _ _ w) as [[runs|e] w1] eqn:E; simpl in Hsent;
    [|left; destruct (is_panic e); [by rewrite <- Hsent|by eapply Hfail]].
  specialize (Hinv runs w). rewrite E in Hinv. specialize (Hinv eq_refl).
  destruct (pages_of_runs_spec (perFrame opts (o_pageSize db)) (zip (ranges_of req) runs) (perFrame_pos _ _))
    as (frames & -> & _ & Hall & Hin & _).
  destruct (send_pages_quiet id frames w1) as (_ & _ & ->). rewrite Hsent.
  assert (length (ranges_of req) = length runs) as Hl by (by eapply Forall2_length).
  rewrite snd_zip in Hin by lia.
  intros [?|(q & [= _ ->] & Hq)%list_elem_of_fmap]%elem_of_app; [by left|right].
  rewrite Forall_forall in Hall, Hin. split; [by apply Hall|].
  destruct (Hin _ Hq) as (r & Hr & Hsub). apply list_elem_of_lookup in Hr as (i & Hi).
  destruct (Forall2_lookup_r _ _ _ _ _ Hinv Hi) as (rg & _ & Hf). apply Hst in Hf.
  rewrite Forall_forall in Hf |- *. auto.
Qed.

Lemma not_error_changes id e id' m : pb.mkServerFrame id' (pb.ServerFrame_Changes m) <> errorFrame id e.
Proof. by destruct e as [[]| | | | |]. Qed.

(** The blocks of a read have the page size of the database. *)
Lemma fetched_sizes n k ver first count s size bs :
  wf_store n s -> (forall db, dbs s !! k = Some db -> PageSize (state db) = size) ->
  Fetch k ver first count s = Ok bs -> Forall (fun b => zlen b <= size) bs.
Proof.
  intros Hwf Hps Hf. unfold Fetch in Hf. destruct (dbs s !! k) as [db|] eqn:Hk; [|done]. specialize (Hps db eq_refl).
  destruct (deleted db); [done|]. destruct (negb _); [done|].
  destruct (CheckRange _ _ _); simpl in Hf; [|done]. destruct (make_blocks count); simpl in Hf; [|done]. injection Hf as <-.
  apply Forall_fmap, Forall_forall. intros i _. simpl. rewrite <- Hps.
  apply Z.eq_le_incl, (read_block_size n). exact (wf_lookup _ _ _ _ Hwf Hk).
Qed.

(** What a change request sends. *)
Lemma changed_sends opts id req (w : world MemStore) f :
  w_sent w = [] -> f ∈ w_sent (changed opts id req w) ->
  (exists e, f = errorFrame id e) \/
  exists m, f = pb.mkServerFrame id (pb.ServerFrame_Changes m) /\ zlen (pb.Changes_Blocks m) <= changesPerFrame opts.
Proof.
  intros Hsent. unfold changed. destruct (w_dbs w !! pb.Changed_DbId req) as [d|].
  2:{ cbn [fail send w_sent]. rewrite Hsent. intros Hin%list_elem_of_singleton. left. by eexists. }
  unfold call_Changes, called. cbn [fst snd]. destruct (st_Changes _ _ _) as [set|e].
  2:{ cbn [fail send w_sent]. rewrite Hsent. intros Hin%list_elem_of_singleton. left. by eexists. }
  simpl. rewrite Hsent. intros ->%list_elem_of_singleton. right. eexists. split; [done|].
  destruct (changesPerFrame opts <? zlen (cs_Blocks set)) eqn:E; bool_hyps; simpl.
  - unfold changesPerFrame, zlen. simpl. lia.
  - done.
Qed.

Lemma changed_bound opts id req (w : world MemStore) id' m :
  w_sent w = [] -> pb.mkServerFrame id' (pb.ServerFrame_Changes m) ∈ w_sent (changed opts id req w) ->
  zlen (pb.Changes_Blocks m) <= changesPerFrame opts.
Proof.
  intros Hs Hin. destruct (changed_sends _ _ _ _ _ Hs Hin) as [(e & He)|(m' & [= _ ->] & ?)]; [|done].
  by apply not_error_changes in He.
Qed.

(** C24: Data frames fit the limit.  With a maximum frame size that the configuration accepts, every
    [Pages] frame that a fetch sends and every [Changes] frame that a change request sends is at most
    [MaxFrameBytes] long as the protobuf library encodes it, as long as the database still has the page
    size that it had when the connection opened it: the overheads that the code subtracts (64 bytes per
    frame, 8 per block, 10 per index) are enough.  (If the database was deleted and created again with
    larger pages, they are not: [stale_page_size_exceeds_limit].) *)
Theorem data_frames_fit (marshal : pb.ServerFrame -> option bytes) (n : Z) (opts : Options) (id id' : Z)
    (freq : pb.Fetch) (creq : pb.Changed) (w : world MemStore) (o : openDB) (p : pb.Pages) (m : pb.Changes) :
  (forall id p data, marshal (pb.mkServerFrame id (pb.ServerFrame_Pages p)) = Some data -> zlen data = pages_frame_size id p) ->
  (forall id m data, marshal (pb.mkServerFrame id (pb.ServerFrame_Changes m)) = Some data -> zlen data = changes_frame_size id m) ->
  wf_store n (w_store w) -> minMaxFrameBytes <= MaxFrameBytes opts < two32 ->
  w_dbs w !! pb.Fetch_DbId freq = Some o ->
  (forall db, dbs (w_store w) !! o_key o = Some db -> PageSize (state db) = o_pageSize o) ->
  ValidPageSize (o_pageSize o) = true -> w_sent w = [] ->
  (forall data, pb.mkServerFrame id' (pb.ServerFrame_Pages p) ∈ w_sent (fetch opts id freq w) ->
     marshal (pb.mkServerFrame id' (pb.ServerFrame_Pages p)) = Some data -> zlen data <= MaxFrameBytes opts) /\
  (forall data, pb.mkServerFrame id' (pb.ServerFrame_Changes m) ∈ w_sent (changed opts id creq w) ->
     marshal (pb.mkServerFrame id' (pb.ServerFrame_Changes m)) = Some data -> zlen data <= MaxFrameBytes opts).
Proof.
  intros Hpages Hchanges Hwf Hm Ho Hps Hvalid Hsent. apply ValidPageSize_range in Hvalid.
  unfold MinPageSize in *. split; intros data Hin Hd.
  - rewrite (Hpages _ _ _ Hd).
    destruct (fetch_pages_bound opts id freq w o Ho) with (id' := id') (p := p) as [Hold|[Hl Hb]]; try done.
    + intros ver first count bs Hf. by eapply fetched_sizes.
    + rewrite Hsent in Hold. by apply not_elem_of_nil in Hold.
    + apply (pages_fit opts (o_pageSize o)); try done. lia.
  - rewrite (Hchanges _ _ _ Hd). apply changes_fit; [done|]. by eapply changed_bound.
Qed.

Definition pages2 : pb.Pages := pb.mkPages 2 [page x02] true.

(** A stand-in for the library that gets the sizes of the two frames right. *)
Definition sizes_only (f : pb.ServerFrame) : option bytes :=
  match f with
  | pb.mkServerFrame id (pb.ServerFrame_Pages p) => Some (zeros (pages_frame_size id p))
  | pb.mkServerFrame id (pb.ServerFrame_Changes m) => Some (zeros (changes_frame_size id m))
  | _ => None
  end.

Lemma zeros_length n : 0 <= n -> zlen (zeros n) = n.
Proof. intros Hn. unfold zlen, zeros. rewrite length_replicate. lia. Qed.

Lemma data_frames_fit_witness :
  exists data, sizes_only (pb.mkServerFrame 9 (pb.ServerFrame_Pages pages2)) = Some data /\ zlen data <= 1048576.
Proof.
  eexists. split; [reflexivity|].
  refine (proj1 (data_frames_fit sizes_only 2 opts0 9 9 fetch2 (pb.mkChanged "main" 0) opened1
                   (mkOpenDB kA 1 512 None 0) pages2 (pb.mkChanges 0 0 [] true) _ _ s1_wf _ _ _ _ _) _ _ eq_refl);
    try done.
  - intros id p data [= <-]. apply zeros_length, pages_frame_size_nonneg.
  - intros id m data [= <-]. apply zeros_length, changes_frame_size_nonneg.
  - intros db Hdb. vm_compute in Hdb. injection Hdb as <-. reflexivity.
  - replace (w_sent (fetch opts0 9 fetch2 opened1))
      with [pb.mkServerFrame 9 (pb.ServerFrame_Pages (pb.mkPages 0 [page x01] false));
            pb.mkServerFrame 9 (pb.ServerFrame_Pages pages2)] by (vm_compute; reflexivity).
    right. left.
Defined.

(** ** A page size that has changed *)

(** A database with pages of 512 bytes is deleted by another connection and created again with pages
    of 64 KiB, two of them. *)
Definition ops_resized : list op :=
  [OpOpen [x0a] (open_at kA x01 false 1000);
   OpDelete (mkDeleteRequest kA true (1001 * Microsecond));
   OpOpen [x0b] (mkOpenRequest kA EmptyString (Some [x02]) 65536 true false None (1002 * Microsecond) (100 * Microsecond));
   OpCommit (commit_at kA x61 3 1 2 [] 1003)].

Definition small_frames : Options :=
  mkOptions minMaxFrameBytes (10 * Second) (5 * Minute) 268435456 "wss://vfs.example/v1/ws" 0 [].

(** The connection that opened it first still has the old page size, and reads need no lease. *)
Definition outdated : world MemStore :=
  mkWorld (run ops_resized New).1 [] ∅ {[ "main"%string := mkOpenDB kA 1 512 None 0 ]} [] [].

(** To that connection the server then sends a frame larger than the limit: the number of blocks per frame is computed
    from the page size of the time of the open. *)
Theorem stale_page_size_exceeds_limit :
  match w_sent (fetch small_frames 9 (pb.mkFetch "main" 2 0 2 []) outdated) with
  | [pb.mkServerFrame _ (pb.ServerFrame_Pages p)] =>
      (MaxFrameBytes small_frames <? pages_frame_size 9 p) = true
  | _ => False
  end.
Proof. vm_compute. reflexivity. Qed.
