(* ===== verification/ConnAnswer.v ===== *)
(** * Every request is answered *)

From S2P Require Import Prelude Store StoreFacts Memory Trace Samples Messages Connection ConnFacts ConnFetch ConnSamples.

Local Open Scope Z_scope.

Section answers.
Context {S : Type} `{!StoreAPI S}.
Variable opts : Options.
Variable c : session.

(** From [w] to [w'] the client was sent at least one frame, all of them under [id]. *)
Definition answered (id : Z) (w w' : world S) : Prop :=
  exists new, w_sent w' = w_sent w ++ new /\ new <> [] /\ Forall (fun f => pb.ServerFrame_RequestId f = id) new.

Lemma answered_send id f (w w1 : world S) :
  w_sent w1 = w_sent w -> pb.ServerFrame_RequestId f = id -> answered id w (send f w1).
Proof. intros Hs Hf. exists [f]. simpl. rewrite Hs. split_and!; try done. by constructor. Qed.

Lemma errorFrame_id id e : pb.ServerFrame_RequestId (errorFrame id e) = id.
Proof. by destruct e as [[]| | | | |]. Qed.

Lemma answered_fail id e (w w1 : world S) : w_sent w1 = w_sent w -> answered id w (fail id e w1).
Proof. intros Hs. apply answered_send; [done|]. apply errorFrame_id. Qed.

Lemma answered_answer id b (w w1 : world S) :
  w_sent w1 = w_sent w -> answered id w (answer_frame id b w1).
Proof. intros Hs. by apply answered_send. Qed.
Hint Resolve answered_fail answered_answer : go.

Lemma sent_holders f (w : world S) : w_sent (with_holders f w) = w_sent w.
Proof. unfold with_holders. by destruct (f (w_holders w)). Qed.

Lemma sent_purge l (w : world S) : w_sent (purge_all l w) = w_sent w.
Proof. apply purge_all_quiet. Qed.

(** The frame is a part of a commit that the server keeps and does not answer yet. *)
Definition keeps_part (frame : pb.ClientFrame) (w : world S) : bool :=
  match pb.ClientFrame_Body frame with
  | pb.ClientFrame_Commit req =>
      negb (pb.ClientFrame_RequestId frame =? 0) &&
      match w_dbs w !! pb.Commit_DbId req with
      | Some db =>
          (slice_len (pb.Commit_CommitId req) =? commitIDBytes) &&
          match pending_for req (o_pending db) with
          | Some p => negb (MaxCommitBytes opts <? size_ (add_part req p)) && pb.Commit_More req
          | None => false
          end
      | None => false
      end
  | _ => false
  end.

Lemma answered_fetch id req (w : world S) :
  id <> 0 ->
  if panics (pb.mkClientFrame id (pb.ClientFrame_Fetch req)) w
  then w_sent (fetch opts id req w) = w_sent w
  else answered id w (fetch opts id req w).
Proof.
  intros Hid. unfold panics, fetch. simpl. rewrite (proj2 (Z.eqb_neq _ _)) by done. simpl.
  destruct (w_dbs w !! _) as [db|]; [|by apply answered_fail].
  destruct (_ <? _); simpl; [by apply answered_fail|]. destruct (ranges_sorted _ _); simpl; [|by apply answered_fail].
  assert (Subject (o_key db) = subject (mkSession 0 (Subject (o_key db)) None EmptyString 0)) as Hs by done.
  destruct (fetch_runs_calls _ _ (pb.Fetch_Version req) (ranges_of req) w Hs) as (_ & _ & _ & _ & _ & _ & _ & Hsent).
  pose proof (fetch_runs_inv (o_key db) (pb.Fetch_Version req) (ranges_of req)) as Hinv.
  destruct (fetch_runs _ _ _ w) as [[runs|e] w1] eqn:E; simpl in Hsent |- *;
    [|destruct (is_panic e); [done|by apply answered_fail]].
  specialize (Hinv runs w). rewrite E in Hinv. specialize (Hinv eq_refl).
  destruct (pages_of_runs_spec (perFrame opts (o_pageSize db)) (zip (ranges_of req) runs) (perFrame_pos _ _))
    as (frames & -> & _ & _ & _ & Hm).
  destruct Hm as (front & p & -> & _).
  { unfold ranges_of in *. destruct (pb.Fetch_Ranges req); inversion Hinv; by subst. }
  destruct (send_pages_quiet id (front ++ [p]) w1) as (_ & _ & Hsp).
  eexists. rewrite Hsp, Hsent. split_and!; [done| |].
  - rewrite fmap_app. by destruct front.
  - apply Forall_fmap, Forall_forall. done.
Qed.

Lemma answered_commit now id req (w : world S) :
  id <> 0 ->
  if keeps_part (pb.mkClientFrame id (pb.ClientFrame_Commit req)) w
  then w_sent (commit opts now id req w) = w_sent w
  else answered id w (commit opts now id req w).
Proof.
  intros Hid. unfold keeps_part. simpl. rewrite (proj2 (Z.eqb_neq _ _)) by done. simpl.
  unfold commit. destruct (w_dbs w !! _) as [db|]; [|by apply answered_fail].
  destruct (_ =? commitIDBytes); simpl; [|by apply answered_fail].
  destruct (pending_for _ _) as [p|]; [|by apply answered_fail].
  destruct (_ <? _); simpl; [by apply answered_fail|]. destruct (pb.Commit_More req); [done|].
  destruct (st_Commit _ _) as [s' [v|e]]; [by apply answered_answer|by apply answered_fail].
Qed.

Lemma answered_ping order now id req (w : world S) : answered id w (ping opts order now id req w).
Proof.
  apply answered_answer. revert w. induction order as [|dbID order IH]; intros w; [done|]. simpl.
  rewrite IH. unfold ping_one. destruct (w_dbs w !! dbID); [|done]. destruct (negb _); [done|].
  unfold call_Renew, called. by destruct (st_Renew _ _ _ _ _) as [s' [u|e]].
Qed.

Lemma answered_open newID now id req (w : world S) : answered id w (open opts c newID now id req w).
Proof.
  unfold open. destruct (checkDBID _); [by apply answered_fail|].
  destruct (w_dbs w !! _); [by apply answered_fail|]. unfold call_Open, called.
  destruct (st_Open _ _ _) as [s' [res|er]]; cbn [fst snd]; [|by apply answered_fail].
  apply answered_answer. by rewrite sent_holders.
Qed.

Lemma answered_closeDB id req (w : world S) : answered id w (closeDB c id req w).
Proof.
  unfold closeDB. destruct (w_dbs w !! _); [|by apply answered_fail]. unfold call_Release, called.
  destruct (st_Release _ _ _) as [s' [res|er]]; cbn [fst snd]; [|by apply answered_fail].
  apply answered_answer. by rewrite sent_holders.
Qed.

Lemma answered_deleteDB now id req (w : world S) : answered id w (deleteDB c now id req w).
Proof.
  unfold deleteDB. destruct (checkDBID _); [by apply answered_fail|].
  destruct (w_dbs w !! _); [by apply answered_fail|]. unfold call_Delete, called.
  destruct (st_Delete _ _) as [s' [res|er]]; cbn [fst snd]; [|by apply answered_fail].
  apply answered_answer. destruct (0 <? _); [by rewrite sent_holders|done].
Qed.

Lemma answered_changed id req (w : world S) : answered id w (changed opts id req w).
Proof.
  unfold changed. destruct (w_dbs w !! _); [|by apply answered_fail]. unfold call_Changes, called. cbn [fst snd].
  destruct (st_Changes _ _ _) as [set|er]; [by apply answered_answer|by apply answered_fail].
Qed.

Lemma answered_claimSlot now id (w : world S) : answered id w (claimSlot c now id w).
Proof.
  unfold claimSlot. case_bool_decide; [by apply answered_fail|]. unfold call_ClaimSlot, called.
  destruct (st_ClaimSlot _ _) as [s' [res|er]]; cbn [fst snd]; [|by apply answered_fail].
  apply answered_answer. by rewrite sent_purge.
Qed.

Lemma answered_deleteSlot id (w : world S) : answered id w (deleteSlot c id w).
Proof.
  unfold deleteSlot. case_bool_decide; [by apply answered_fail|].
  destruct (negb _); [by apply answered_fail|]. unfold call_DeleteSlot, called.
  destruct (st_DeleteSlot _ _ _) as [s' [res|er]]; cbn [fst snd]; [|by apply answered_fail].
  apply answered_answer. by rewrite sent_purge.
Qed.

Lemma answered_setSlotLabel id req (w : world S) : answered id w (setSlotLabel c id req w).
Proof.
  unfold setSlotLabel. case_bool_decide; [by apply answered_fail|].
  destruct (_ <? _); [by apply answered_fail|]. unfold call_SetSlotLabel, called.
  destruct (st_SetSlotLabel _ _ _ _) as [s' [res|er]]; cbn [fst snd]; [|by apply answered_fail].
  by apply answered_answer.
Qed.

(** Handling one frame. *)
Lemma handle_answers e frame (w : world S) :
  if panics frame w || keeps_part frame w then w_sent (handle opts c e frame w) = w_sent w
  else answered (pb.ClientFrame_RequestId frame) w (handle opts c e frame w).
Proof.
  unfold handle. destruct (pb.ClientFrame_RequestId frame =? 0) eqn:E; bool_hyps.
  { assert (panics frame w || keeps_part frame w = false) as ->.
    { unfold panics, keeps_part. destruct (pb.ClientFrame_Body frame); try done; rewrite E; by destruct (w_dbs w !! _). }
    rewrite E. by apply answered_fail. }
  destruct frame as [id body]. simpl in *. destruct body; simpl; try (by apply answered_fail).
  - by apply answered_open.
  - rewrite orb_false_r. by apply answered_fetch.
  - by apply answered_commit.
  - apply answered_ping.
  - by apply answered_closeDB.
  - by apply answered_deleteDB.
  - by apply answered_changed.
  - by apply answered_claimSlot.
  - by apply answered_deleteSlot.
  - by apply answered_setSlotLabel.
Qed.

(** C23: Every request that the connection handles is answered under its own id.  For each frame that
    arrives there are four cases.  If the access token has expired and the frame is no ping, the
    connection stops without handling it.  If the store panics, which is possible in a fetch, the
    connection stops without an answer.  If the frame is a part of a commit that is kept until the last
    part arrives, the connection goes on without an answer.  In all other cases it goes on, and has sent
    at least one frame with the id of the request and none with another id. *)
Theorem every_request_answered (leeway : Duration) (e : env) (frame : pb.ClientFrame) (w : world S) :
  let '(stopped, w') := run_frames opts c leeway [(e, frame)] w in
  if negb (is_ping frame) && tokenExpired c leeway (now e) then stopped = true /\ w' = w
  else stopped = panics frame w /\
    if panics frame w || keeps_part frame w then w_sent w' = w_sent w
    else answered (pb.ClientFrame_RequestId frame) w w'.
Proof.
  simpl. destruct (_ && _); [done|]. pose proof (handle_answers e frame w) as Ha.
  destruct (panics frame w); by split.
Qed.
End answers.

(** Closing a database whose record was purged with a slot is answered with NOT_FOUND, not with FENCED. *)
Theorem close_after_purge :
  let w := mkWorld New [] ∅ {[ "main"%string := mkOpenDB kA 1 512 None 0 ]} [] [] in
  w_sent (closeDB alice 3 (pb.mkCloseDb "main" 1) w) =
    [errorFrame 3 (StoreError ErrNotFound)] /\
  w_sent (fetch opts0 3 (pb.mkFetch "main" 1 0 1 []) w) = [errorFrame 3 DatabaseGone].
Proof. split; vm_compute; reflexivity. Qed.
