(* ===== verification/ConnCommit.v ===== *)
(** * Commits in parts

    A commit that does not fit one frame is sent in parts.  The server applies it only as a whole: a
    commit reaches the store with the blocks of parts 0, 1, ..., k that arrived one after the other
    under one header, or not at all. *)

From S2P Require Import Prelude Store StoreFacts Memory Trace Samples Messages Connection ConnFacts ConnSamples ConnSubject.

Local Open Scope Z_scope.

(** ** What the parts add up to *)

Definition part_blocks (req : pb.Commit) : list Block :=
  (fun b => mkBlock (pb.Block_Index b) (pb.Block_Data b)) <$> pb.Commit_Blocks req.

Definition blocks_bytes (l : list Block) : Z := foldr (fun b n => zlen (Data b) + n) 0 l.

Definition part_bytes (req : pb.Commit) : Z := blocks_bytes (part_blocks req).

Definition parts_bytes (parts : list pb.Commit) : Z := foldr (fun r n => part_bytes r + n) 0 parts.

(** The parts of one commit: numbered from 0 and under the same header. *)
Definition numbered (parts : list pb.Commit) : Prop :=
  forall i r, parts !! i = Some r -> pb.Commit_Part r = Z.of_nat i.

Definition same_header (h : commit_header) (r : pb.Commit) : Prop :=
  content (pb.Commit_CommitId r) = content (h_CommitId h) /\ pb.Commit_LeaseEpoch r = h_LeaseEpoch h /\
  pb.Commit_BaseVersion r = h_BaseVersion h /\ pb.Commit_PageCount r = h_PageCount h.

(** [parts] is what the pending commit [p] has collected. *)
Record collects (limit : Z) (parts : list pb.Commit) (p : pendingCommit) : Prop := {
  col_numbered : numbered parts;
  col_count : 0 < zlen parts <= two32;
  col_header : Forall (same_header (header p)) parts;
  col_next : nextPart p = u32 (zlen parts);
  col_blocks : p_blocks p = mjoin (part_blocks <$> parts);
  col_size : size_ p = parts_bytes parts;
  col_limit : size_ p <= limit }.

Lemma blocks_bytes_app l k : blocks_bytes (l ++ k) = blocks_bytes l + blocks_bytes k.
Proof. induction l as [|b l IH]; simpl; [done|]. rewrite IH. lia. Qed.

Lemma blocks_bytes_nonneg l : 0 <= blocks_bytes l.
Proof. induction l as [|b l IH]; simpl; [done|]. pose proof (zlen_nonneg (Data b)). lia. Qed.

Lemma parts_bytes_app l k : parts_bytes (l ++ k) = parts_bytes l + parts_bytes k.
Proof. induction l as [|b l IH]; simpl; [done|]. rewrite IH. lia. Qed.

(** [add_part] as a whole. *)
Lemma add_part_spec req p :
  add_part req p = mkPending (header p) (u32 (nextPart p + 1)) (p_blocks p ++ part_blocks req)
                     (size_ (add_part req p)) /\
  (in_u64 (size_ p) -> size_ (add_part req p) = u64 (size_ p + part_bytes req)).
Proof.
  unfold add_part, part_bytes, part_blocks.
  set (q := mkPending (header p) (u32 (nextPart p + 1)) (p_blocks p) (size_ p)).
  change (header p) with (header q). change (u32 (nextPart p + 1)) with (nextPart q).
  change (p_blocks p) with (p_blocks q). change (size_ p) with (size_ q). generalize q. clear p q.
  induction (pb.Commit_Blocks req) as [|b bs IH]; intros q; simpl.
  - rewrite app_nil_r, Z.add_0_r. split; [by destruct q|]. intros. by rewrite u64_small.
  - set (q1 := mkPending _ _ _ (u64 _)). destruct (IH q1) as [H1 H2]. split.
    + rewrite H1 at 1. simpl. by rewrite <- app_assoc.
    + intros _. rewrite H2 by (simpl; apply u64_range). simpl. unfold u64.
      rewrite Zplus_mod_idemp_l. f_equal. rewrite <- Z.add_assoc. reflexivity.
Qed.

(** Frames are far smaller than 2^63 bytes, and so is the limit. *)
Definition bounded (limit : Z) (req : pb.Commit) : Prop := limit < two63 /\ part_bytes req < two63.

Lemma collects_first limit req p :
  bounded limit req -> pb.Commit_Part req = 0 -> p = mkPending (header_of req) 0 [] 0 ->
  size_ (add_part req p) <= limit -> collects limit [req] (add_part req p).
Proof.
  intros [Hl Hb] Hpart -> Hs. pose proof (blocks_bytes_nonneg (part_blocks req)) as Hn.
  destruct (add_part_spec req (mkPending (header_of req) 0 [] 0)) as [Ha Hsz].
  rewrite Ha. specialize (Hsz ltac:(split; done)). simpl in Hsz. unfold part_bytes in *.
  rewrite u64_small in Hsz by (unfold in_u64, two63, two64 in *; lia).
  split; simpl; try done.
  - intros [|i] r Hi; [by injection Hi as <-|done].
  - by constructor.
  - by rewrite app_nil_r.
  - unfold parts_bytes, part_bytes. simpl. lia.
Qed.

Lemma collects_next limit parts req p :
  bounded limit req -> collects limit parts p -> pb.Commit_Part req <> 0 ->
  pb.Commit_Part req = nextPart p -> continues (header p) req = true ->
  size_ (add_part req p) <= limit -> collects limit (parts ++ [req]) (add_part req p).
Proof.
  intros [Hl Hb] [Hn Hc Hh Hnext Hbl Hsz Hlim] H0 Hpart Hcont Hs.
  pose proof (blocks_bytes_nonneg (part_blocks req)) as Hnn.
  assert (0 <= size_ p) as Hpos.
  { rewrite Hsz. clear. induction parts as [|r parts IH]; simpl; [done|].
    pose proof (blocks_bytes_nonneg (part_blocks r)). unfold part_bytes. lia. }
  destruct (add_part_spec req p) as [Ha Hadd]. unfold part_bytes in *.
  specialize (Hadd ltac:(unfold in_u64, two63, two64 in *; lia)).
  rewrite u64_small in Hadd by (unfold in_u64, two63, two64 in *; lia).
  assert (zlen parts < two32) as Hlt.
  { rewrite Hpart, Hnext in H0. unfold u32, two32 in *.
    destruct (decide (zlen parts = 4294967296)) as [Heq|]; [|lia]. by rewrite Heq in H0. }
  rewrite u32_small in Hnext by (unfold in_u32; lia).
  rewrite Ha. split; simpl.
  - intros i r Hi. apply lookup_app_Some in Hi as [Hi|[Hge Hi]]; [by apply Hn|].
    apply list_lookup_singleton_Some in Hi as [Hi <-]. unfold zlen in *. lia.
  - rewrite zlen_app. unfold zlen at 2 4. simpl. lia.
  - apply Forall_app. split; [done|]. constructor; [|done]. unfold continues in Hcont. bool_hyps.
    rewrite bytes_Equal_spec in *. by split_and!.
  - rewrite zlen_app. unfold zlen at 2. simpl. rewrite Hnext. done.
  - rewrite fmap_app, join_app, Hbl. simpl. by rewrite app_nil_r.
  - rewrite parts_bytes_app, Hadd, Hsz. unfold parts_bytes at 3, part_bytes. simpl. lia.
  - done.
Qed.

(** ** The history of a connection *)

(** The parts for one database among the frames that were handled, in order. *)
Definition part_for (dbID : string) (frame : pb.ClientFrame) : list pb.Commit :=
  match pb.ClientFrame_Body frame with
  | pb.ClientFrame_Commit req =>
      if negb (pb.ClientFrame_RequestId frame =? 0) && bool_decide (pb.Commit_DbId req = dbID) then [req] else []
  | _ => []
  end.

Definition parts_for (dbID : string) (frames : list pb.ClientFrame) : list pb.Commit :=
  mjoin (part_for dbID <$> frames).

Section history.
Context {S : Type} `{!StoreAPI S}.
Variable opts : Options.
Variable c : session.

Definition pending_of (w : world S) (dbID : string) : option pendingCommit := w_dbs w !! dbID ≫= o_pending.

(** What is pending was collected from the latest parts for the database, none of them the last. *)
Definition pending_ok (h : list pb.ClientFrame) (w : world S) : Prop :=
  forall dbID p, pending_of w dbID = Some p ->
    exists before parts, parts_for dbID h = before ++ parts /\
      collects (MaxCommitBytes opts) parts p /\ Forall (fun r => pb.Commit_More r = true) parts.

(** A frame leaves the pending commits alone, or drops some. *)
Definition drops_only (w w' : world S) : Prop :=
  forall dbID, pending_of w' dbID = pending_of w dbID \/ pending_of w' dbID = None.

Lemma drops_same (w w' : world S) : w_dbs w' = w_dbs w -> drops_only w w'.
Proof. intros Hd dbID. unfold pending_of. rewrite Hd. by left. Qed.

Lemma pending_set (w : world S) i db dbID :
  pending_of (set_db i db w) dbID = if decide (dbID = i) then o_pending db else pending_of w dbID.
Proof.
  unfold pending_of. simpl. case_decide as E; [subst; by rewrite lookup_insert_eq|].
  by rewrite lookup_insert_ne.
Qed.

Lemma dbs_holders f (w : world S) : w_dbs (with_holders f w) = w_dbs w.
Proof. apply with_holders_quiet. Qed.

Lemma dbs_purge l (w : world S) : w_dbs (purge_all l w) = w_dbs w.
Proof. apply purge_all_quiet. Qed.

Lemma drops_ping now order : forall w : world S, drops_only w (foldl (ping_one opts now) w order).
Proof.
  induction order as [|i order IH]; intros w dbID; [by left|]. simpl.
  assert (pending_of (ping_one opts now w i) dbID = pending_of w dbID) as Hone.
  { unfold ping_one. destruct (w_dbs w !! i) as [db|] eqn:Hdb; [|done]. destruct (negb _); [done|].
    unfold call_Renew, called. destruct (st_Renew _ _ _ _ _) as [s' [u|e]]; cbn [fst snd]; [|done].
    rewrite pending_set. case_decide as E; [|done]. subst. unfold pending_of. by rewrite Hdb. }
  destruct (IH (ping_one opts now w i) dbID) as [H1|H1]; rewrite H1; [left; exact Hone|by right].
Qed.

Lemma drops_open newID now id req (w : world S) : drops_only w (open opts c newID now id req w).
Proof.
  unfold open. destruct (checkDBID _); [by apply drops_same|].
  destruct (w_dbs w !! _) eqn:Hn; [by apply drops_same|]. unfold call_Open, called.
  destruct (st_Open _ _ _) as [s' [res|er]]; cbn [fst snd]; [|by apply drops_same].
  intros dbID. unfold pending_of, answer_frame, send. cbn [w_dbs].
  rewrite dbs_holders. simpl.
  destruct (decide (dbID = pb.Open_DbId req)) as [->|E]; [right; by rewrite lookup_insert_eq|].
  left. by rewrite lookup_insert_ne.
Qed.

Lemma drops_fetch id req (w : world S) : drops_only w (fetch opts id req w).
Proof.
  unfold fetch. destruct (w_dbs w !! _) as [db|]; [|by apply drops_same].
  destruct (_ <? _); [by apply drops_same|]. destruct (negb _); [by apply drops_same|].
  destruct (fetch_runs_calls (mkSession 0 (Subject (o_key db)) None EmptyString 0) (o_key db)
    (pb.Fetch_Version req) (ranges_of req) w eq_refl) as (_ & _ & _ & _ & _ & _ & Hd & _).
  destruct (fetch_runs _ _ _ _) as [[runs|er] w1]; simpl in Hd; [|destruct (is_panic er); by apply drops_same].
  destruct (pages_of_runs _ _); apply drops_same; [|done].
  destruct (send_pages_quiet id l w1) as (_ & -> & _). done.
Qed.

Lemma drops_closeDB id req (w : world S) : drops_only w (closeDB c id req w).
Proof.
  unfold closeDB. destruct (w_dbs w !! _) as [db|]; [|by apply drops_same]. unfold call_Release, called.
  destruct (st_Release _ _ _) as [s' [res|er]]; cbn [fst snd]; [|by apply drops_same].
  intros dbID. unfold pending_of. simpl.
  destruct (decide (dbID = pb.CloseDb_DbId req)) as [->|E]; [right; by rewrite lookup_delete_eq|].
  left. by rewrite lookup_delete_ne.
Qed.

Lemma drops_deleteDB now id req (w : world S) : drops_only w (deleteDB c now id req w).
Proof.
  unfold deleteDB. destruct (checkDBID _); [by apply drops_same|].
  destruct (w_dbs w !! _); [by apply drops_same|]. unfold call_Delete, called.
  destruct (st_Delete _ _) as [s' [res|er]]; cbn [fst snd]; [|by apply drops_same].
  apply drops_same. destruct (0 <? _); simpl; [by rewrite dbs_holders|done].
Qed.

Lemma drops_changed id req (w : world S) : drops_only w (changed opts id req w).
Proof.
  unfold changed. destruct (w_dbs w !! _); [|by apply drops_same]. unfold call_Changes, called. cbn [fst snd].
  destruct (st_Changes _ _ _); by apply drops_same.
Qed.

Lemma drops_claimSlot now id (w : world S) : drops_only w (claimSlot c now id w).
Proof.
  unfold claimSlot. case_bool_decide; [by apply drops_same|]. unfold call_ClaimSlot, called.
  destruct (st_ClaimSlot _ _) as [s' [res|er]]; cbn [fst snd]; [|by apply drops_same].
  apply drops_same. simpl. by rewrite dbs_purge.
Qed.

Lemma drops_deleteSlot id (w : world S) : drops_only w (deleteSlot c id w).
Proof.
  unfold deleteSlot. case_bool_decide; [by apply drops_same|].
  destruct (negb _); [by apply drops_same|]. unfold call_DeleteSlot, called.
  destruct (st_DeleteSlot _ _ _) as [s' [res|er]]; cbn [fst snd]; [|by apply drops_same].
  apply drops_same. simpl. by rewrite dbs_purge.
Qed.

Lemma drops_setSlotLabel id req (w : world S) : drops_only w (setSlotLabel c id req w).
Proof.
  unfold setSlotLabel. case_bool_decide; [by apply drops_same|].
  destruct (_ <? _); [by apply drops_same|]. unfold call_SetSlotLabel, called.
  destruct (st_SetSlotLabel _ _ _ _) as [s' [res|er]]; by apply drops_same.
Qed.

Lemma drops_handle e frame (w : world S) :
  match pb.ClientFrame_Body frame with pb.ClientFrame_Commit _ => False | _ => True end ->
  drops_only w (handle opts c e frame w).
Proof.
  intros Hf. unfold handle. destruct (_ =? 0); [by apply drops_same|].
  destruct (pb.ClientFrame_Body frame); try done; try (by apply drops_same).
  - by apply drops_open.
  - by apply drops_fetch.
  - apply drops_ping.
  - by apply drops_closeDB.
  - by apply drops_deleteDB.
  - by apply drops_changed.
  - by apply drops_claimSlot.
  - by apply drops_deleteSlot.
  - by apply drops_setSlotLabel.
Qed.

(** ** Whole commits *)

(** [parts] are all parts of the commit that the store is asked to apply. *)
Definition whole_commit (parts : list pb.Commit) (cr : CommitRequest) : Prop :=
  exists front last, parts = front ++ [last] /\
    Forall (fun r => pb.Commit_More r = true) front /\ pb.Commit_More last = false /\
    numbered parts /\
    Forall (same_header (mkHeader (cr_CommitID cr) (cr_LeaseEpoch cr) (cr_BaseVersion cr) (cr_PageCount cr))) parts /\
    cr_Blocks cr = mjoin (part_blocks <$> parts) /\
    parts_bytes parts <= MaxCommitBytes opts.

(** The commit is whole in the history [h]: its parts are the latest ones for its database. *)
Definition whole_in (h : list pb.ClientFrame) (cr : CommitRequest) : Prop :=
  exists before parts, parts_for (DBID (cr_Key cr)) h = before ++ parts /\ whole_commit parts cr.

Lemma parts_for_snoc dbID h frame : parts_for dbID (h ++ [frame]) = parts_for dbID h ++ part_for dbID frame.
Proof. unfold parts_for. rewrite fmap_app, join_app. simpl. by rewrite app_nil_r. Qed.

(** A part that the [switch] accepts extends what was collected before. *)
Lemma pending_for_collects h (w : world S) db req p :
  pending_ok h w -> w_dbs w !! pb.Commit_DbId req = Some db -> bounded (MaxCommitBytes opts) req ->
  pending_for req (o_pending db) = Some p -> size_ (add_part req p) <= MaxCommitBytes opts ->
  exists before parts, parts_for (pb.Commit_DbId req) h ++ [req] = before ++ parts ++ [req] /\
    collects (MaxCommitBytes opts) (parts ++ [req]) (add_part req p) /\
    Forall (fun r => pb.Commit_More r = true) parts.
Proof.
  intros Hok Hdb Hb Hp Hs. unfold pending_for in Hp.
  destruct (pb.Commit_Part req =? 0) eqn:E; bool_hyps.
  - exists (parts_for (pb.Commit_DbId req) h), []. split_and!; try done.
    injection Hp as <-. by apply collects_first.
  - destruct (o_pending db) as [q|] eqn:Hq; [|done].
    destruct (negb _ || negb _) eqn:En; [done|]. injection Hp as ->. bool_hyps.
    destruct (Hok (pb.Commit_DbId req) p) as (before & parts & Hpf & Hc & Hm).
    { unfold pending_of. by rewrite Hdb. }
    exists before, parts. rewrite Hpf, app_assoc. split_and!; try done. by apply collects_next.
Qed.

Lemma pending_ok_same h frame (w w' : world S) :
  pending_ok h w -> drops_only w w' -> (forall dbID, part_for dbID frame = []) ->
  pending_ok (h ++ [frame]) w'.
Proof.
  intros Hok Hd Hp dbID p Hpend. destruct (Hd dbID) as [He|He]; [|by rewrite He in Hpend].
  rewrite He in Hpend. rewrite parts_for_snoc, Hp, app_nil_r. by apply Hok.
Qed.

(** One [Commit] frame: the pending parts stay accounted for, and what is called is whole. *)
Lemma commit_frame h now id req (w : world S) :
  id <> 0 -> own_dbs c w -> pending_ok h w -> bounded (MaxCommitBytes opts) req ->
  let frame := pb.mkClientFrame id (pb.ClientFrame_Commit req) in
  let w' := commit opts now id req w in
  pending_ok (h ++ [frame]) w' /\
  forall cr, OpCommit cr ∈ w_calls w' -> OpCommit cr ∈ w_calls w \/ whole_in (h ++ [frame]) cr.
Proof.
  intros Hid Hown Hok Hb frame w'. unfold w', commit. clear w'.
  assert (forall dbID, part_for dbID frame = if bool_decide (pb.Commit_DbId req = dbID) then [req] else []) as Hpart.
  { intros dbID. unfold part_for, frame. simpl. by rewrite (proj2 (Z.eqb_neq _ _)). }
  destruct (w_dbs w !! pb.Commit_DbId req) as [db|] eqn:Hdb.
  2:{ split; [|by left]. intros dbID p Hp. rewrite parts_for_snoc, Hpart. case_bool_decide as Eq.
      - subst. unfold pending_of in Hp. simpl in Hp. by rewrite Hdb in Hp.
      - rewrite app_nil_r. by apply Hok. }
  assert (forall (v : world S) q, w_dbs v = <[pb.Commit_DbId req := q]> (w_dbs w) ->
    (forall p, o_pending q = Some p -> exists before parts,
       parts_for (pb.Commit_DbId req) h ++ [req] = before ++ parts /\
       collects (MaxCommitBytes opts) parts p /\ Forall (fun r => pb.Commit_More r = true) parts) ->
    pending_ok (h ++ [frame]) v) as Hset.
  { intros v q Hv Hq dbID p Hp. rewrite parts_for_snoc, Hpart. unfold pending_of in Hp. rewrite Hv in Hp.
    case_bool_decide as Eq; [subst dbID; rewrite lookup_insert_eq in Hp; by apply Hq|].
    rewrite lookup_insert_ne in Hp by done. rewrite app_nil_r. by apply Hok. }
  destruct (negb _); [split; [by eapply Hset|by left]|].
  destruct (pending_for req (o_pending db)) as [p|] eqn:Hpf; [|split; [by eapply Hset|by left]].
  cbv zeta. destruct (MaxCommitBytes opts <? size_ (add_part req p)) eqn:Hsize; [split; [by eapply Hset|by left]|].
  bool_hyps. destruct (pending_for_collects h w db req p Hok Hdb Hb Hpf Hsize) as (before & parts & He & Hc & Hm).
  destruct (pb.Commit_More req) eqn:Hmore.
  { split; [|by left]. eapply Hset; [done|]. intros p' [= <-]. exists before, (parts ++ [req]).
    split_and!; try done. apply Forall_app. split; [done|]. by constructor. }
  unfold call_Commit, called. destruct (st_Commit _ _) as [s' [v|e]]; cbn [fst snd].
  all: split; [eapply Hset; simpl; [by rewrite ?insert_insert_eq|done]|].
  all: simpl; intros cr [?|Hcr%list_elem_of_singleton]%elem_of_app; [by left|right].
  all: injection Hcr as ->; exists before, (parts ++ [req]).
  all: simpl; rewrite (Hown _ _ Hdb); simpl; rewrite parts_for_snoc, Hpart, bool_decide_true by done.
  all: split; [done|]; exists parts, req; destruct Hc as [Hn _ Hh _ Hbl Hsz Hlim]; split_and!; try done.
  all: simpl; try lia.
  all: by destruct (header (add_part req p)).
Qed.

(** Every part of a frame is bounded. *)
Definition frame_bounded (frame : pb.ClientFrame) : Prop :=
  match pb.ClientFrame_Body frame with
  | pb.ClientFrame_Commit req => bounded (MaxCommitBytes opts) req
  | _ => True
  end.

Lemma handle_commits h e frame (w : world S) :
  own_dbs c w -> pending_ok h w -> frame_bounded frame ->
  pending_ok (h ++ [frame]) (handle opts c e frame w) /\
  forall cr, OpCommit cr ∈ w_calls (handle opts c e frame w) ->
    OpCommit cr ∈ w_calls w \/ whole_in (h ++ [frame]) cr.
Proof.
  intros Hown Hok Hb.
  assert (match pb.ClientFrame_Body frame with pb.ClientFrame_Commit _ => True | _ => False end \/
          ~ match pb.ClientFrame_Body frame with pb.ClientFrame_Commit _ => True | _ => False end) as [Hc|Hc]
    by (destruct (pb.ClientFrame_Body frame); tauto).
  - destruct frame as [id body]. simpl in *. destruct body as [| | |req| | | | | | | | |]; try done.
    unfold handle. simpl. destruct (id =? 0) eqn:E; bool_hyps.
    + subst. split; [|by left]. eapply pending_ok_same; [done|by apply drops_same|done].
    + by apply commit_frame.
  - split.
    + eapply pending_ok_same; [done| |].
      * apply drops_handle. by destruct (pb.ClientFrame_Body frame); try (exfalso; apply Hc; done).
      * intros dbID. unfold part_for. by destruct (pb.ClientFrame_Body frame); try (exfalso; apply Hc; done).
    + intros cr Hcr. destruct (extends_handle opts c e frame w Hown) as (_ & new & Hcalls & _ & _ & Hfit & _).
      rewrite Hcalls in Hcr. apply elem_of_app in Hcr as [?|Hnew]; [by left|].
      rewrite Forall_forall in Hfit. apply Hfit in Hnew. simpl in Hnew.
      by destruct (pb.ClientFrame_Body frame); try (exfalso; apply Hc; done).
Qed.

(** C21: Commits are atomic on the wire.  Whatever frames a client sends on a new connection, every
    commit that reaches the store consists of exactly the blocks of parts 0, 1, ..., k for one
    database that arrived one after the other, all with the same commit id, lease epoch, base version
    and page count, all but the last announcing more and the last not, and together within the limit
    on a commit: a lost, repeated, reordered or refused part never leads to a partial commit. *)
Theorem commits_are_whole (leeway : Duration) (frames : list (env * pb.ClientFrame)) (w : world S)
    (cr : CommitRequest) :
  w_dbs w = ∅ -> w_calls w = [] -> Forall frame_bounded frames.*2 ->
  OpCommit cr ∈ w_calls (run_frames opts c leeway frames w).2 ->
  exists handled rest, frames.*2 = handled ++ rest /\ whole_in handled cr.
Proof.
  intros Hd Hcalls Hb Hin.
  assert (own_dbs c w) as Hown by (unfold own_dbs; rewrite Hd; apply map_Forall_empty).
  assert (pending_ok [] w) as Hok by (intros dbID p; unfold pending_of; by rewrite Hd).
  assert (forall frames h (w : world S), own_dbs c w -> pending_ok h w -> Forall frame_bounded frames.*2 ->
    OpCommit cr ∈ w_calls (run_frames opts c leeway frames w).2 ->
    OpCommit cr ∈ w_calls w \/ exists handled rest, frames.*2 = handled ++ rest /\ whole_in (h ++ handled) cr)
    as Hgen.
  { clear. induction frames as [|[e frame] frames IH]; intros h w Hown Hok Hb; simpl; [by left|].
    apply Forall_cons in Hb as [Hb1 Hb]. destruct (_ && _); [by left|].
    destruct (handle_commits h e frame w Hown Hok Hb1) as [Hok' Hcr]. destruct (panics frame w); intros Hin.
    { destruct (Hcr _ Hin) as [?|Hw]; [by left|]. right. by exists [frame], (frames.*2). }
    destruct (IH (h ++ [frame]) _ (proj1 (extends_handle opts c e frame w Hown)) Hok' Hb Hin)
      as [Hold|(handled & rest & Hf & Hw)].
    - destruct (Hcr _ Hold) as [?|Hw]; [by left|]. right. by exists [frame], (frames.*2).
    - right. exists (frame :: handled), rest. split; [simpl; f_equal; exact Hf|].
      by rewrite cons_middle, app_assoc. }
  destruct (Hgen frames [] w Hown Hok Hb Hin) as [Hold|(handled & rest & Hf & Hw)]; [|by exists handled, rest].
  rewrite Hcalls in Hold. by apply not_elem_of_nil in Hold.
Qed.
End history.

(** The commit of the sample session: two parts, one store call. *)
Definition whole1 : CommitRequest :=
  mkCommitRequest kA (id16 x71) 2 1 4 [mkBlock 0 (page x11); mkBlock 3 (page x12)] (t0 + 2 * Second) (5 * Minute).

Lemma commits_are_whole_witness :
  exists handled rest, session1.*2 = handled ++ rest /\ whole_in opts0 handled whole1.
Proof.
  apply (commits_are_whole opts0 alice 0 session1 (world_of s4) whole1).
  - done.
  - done.
  - repeat constructor.
  - vm_compute. right. left.
Defined.
