(* ===== verification/ConnDurable.v ===== *)
(** * From a commit on one connection to a fetch on another

    The purpose of the server: what it acknowledged is what clients get.  Here the parts of a commit
    ([commit] of [connection.go]), the store, any calls afterwards and the frames of a fetch are
    composed. *)

From S2P Require Import Prelude Store StoreFacts Memory Trace MemoryInv MemoryStep MemoryLease MemoryCommit MemoryHistory Samples Messages Connection ConnFacts ConnSamples ConnSubject ConnFetch ConnCommit.

Local Open Scope Z_scope.

(** ** All parts of a commit *)

Section parts.
Variable opts : Options.
Variable c : session.
Hypothesis limit_small : MaxCommitBytes opts < two63.

Definition handle_all (frames : list (env * pb.ClientFrame)) (w : world MemStore) : world MemStore :=
  foldl (fun w ef => handle opts c ef.1 ef.2 w) w frames.

(** The frame carries the part. *)
Definition carries (ef : env * pb.ClientFrame) (req : pb.Commit) : Prop :=
  pb.ClientFrame_RequestId ef.2 <> 0 /\ pb.ClientFrame_Body ef.2 = pb.ClientFrame_Commit req.

Lemma handle_carried ef req w : carries ef req ->
  handle opts c ef.1 ef.2 w = commit opts (now ef.1) (pb.ClientFrame_RequestId ef.2) req w.
Proof. intros [Hid Hb]. unfold handle. by rewrite (proj2 (Z.eqb_neq _ _) Hid), Hb. Qed.

(** What the database has pending after some parts. *)
Definition collected (parts : list pb.Commit) (pending : option pendingCommit) : Prop :=
  parts <> [] -> exists p, pending = Some p /\ collects (MaxCommitBytes opts) parts p.

Lemma parts_bytes_nonneg parts : 0 <= parts_bytes parts.
Proof.
  induction parts as [|r parts IH]; [done|]. change (0 <= part_bytes r + parts_bytes parts).
  pose proof (blocks_bytes_nonneg (part_blocks r)). unfold part_bytes. lia.
Qed.

(** The next part of a commit is accepted. *)
Lemma next_part h parts req pending :
  collected parts pending -> numbered (parts ++ [req]) -> Forall (same_header h) (parts ++ [req]) ->
  zlen (parts ++ [req]) <= two32 -> parts_bytes (parts ++ [req]) <= MaxCommitBytes opts ->
  exists p, pending_for req pending = Some p /\ size_ (add_part req p) <= MaxCommitBytes opts /\
    collects (MaxCommitBytes opts) (parts ++ [req]) (add_part req p).
Proof.
  intros Hcol Hnum Hhead Hlen Hsize. rewrite parts_bytes_app in Hsize. pose proof (parts_bytes_nonneg parts).
  assert (parts_bytes [req] = part_bytes req) as Hone by (unfold parts_bytes; simpl; lia). rewrite Hone in Hsize.
  pose proof (blocks_bytes_nonneg (part_blocks req)) as Hnn. fold (part_bytes req) in Hnn.
  assert (bounded (MaxCommitBytes opts) req) as Hb by (split; [done|lia]).
  assert (pb.Commit_Part req = zlen parts) as Hpart.
  { apply (Hnum (length parts)). by rewrite lookup_app_r, Nat.sub_diag by lia. }
  rewrite zlen_app in Hlen. change (zlen [req]) with 1 in Hlen. unfold pending_for. rewrite Hpart.
  destruct parts as [|r0 parts'] eqn:Hparts.
  - change (zlen []) with 0. exists (mkPending (header_of req) 0 [] 0). split; [done|].
    assert (size_ (add_part req (mkPending (header_of req) 0 [] 0)) <= MaxCommitBytes opts) as Hs.
    { rewrite (proj2 (add_part_spec req _)) by done. simpl. rewrite u64_small by zlia. lia. }
    split; [done|]. by apply collects_first.
  - rewrite <- Hparts in *. destruct (Hcol ltac:(by rewrite Hparts)) as (p & -> & Hp).
    assert (0 < zlen parts) by (rewrite Hparts; unfold zlen; simpl; lia).
    rewrite (proj2 (Z.eqb_neq _ _)) by lia.
    assert (nextPart p = zlen parts) as Hnext by (rewrite (col_next _ _ _ Hp); apply u32_small; unfold in_u32; lia).
    apply Forall_app in Hhead as [Hold [Hnew _]%Forall_cons].
    assert (continues (header p) req = true) as Hcont.
    { pose proof (col_header _ _ _ Hp) as Hh. rewrite Hparts in Hh, Hold.
      apply Forall_cons in Hh as [(A1 & A2 & A3 & A4) _], Hold as [(B1 & B2 & B3 & B4) _].
      destruct Hnew as (C1 & C2 & C3 & C4). unfold continues.
      rewrite !andb_true_iff, bytes_Equal_spec, !Z.eqb_eq. split_and!; congruence. }
    rewrite Hnext, Z.eqb_refl, Hcont. simpl. exists p. split; [done|].
    assert (size_ (add_part req p) <= MaxCommitBytes opts) as Hs.
    { pose proof (col_size _ _ _ Hp) as Hsz. rewrite (proj2 (add_part_spec req p)) by zlia.
      rewrite u64_small by zlia. lia. }
    split; [done|]. apply collects_next; try done; lia.
Qed.

(** Parts that announce more are only collected. *)
Lemma front_collected h dbID o front : forall frames w,
  Forall2 carries frames front -> numbered front -> Forall (same_header h) front ->
  Forall (fun r => pb.Commit_DbId r = dbID) front -> Forall (fun r => pb.Commit_More r = true) front ->
  slice_len (h_CommitId h) = commitIDBytes -> zlen front <= two32 -> parts_bytes front <= MaxCommitBytes opts ->
  w_dbs w !! dbID = Some o ->
  exists pending, collected front pending /\
    (front = [] -> pending = o_pending o) /\
    handle_all frames w = set_db dbID (set_pending pending o) w.
Proof.
  induction front as [|req front IH] using rev_ind; intros frames w Hf Hnum Hhead Hid Hmore Hcid Hlen Hsize Ho.
  { apply Forall2_nil_inv_r in Hf as ->. exists (o_pending o). split_and!; [by intros []|done|].
    unfold handle_all, set_db, set_dbs. simpl. destruct w, o. simpl in *. by rewrite insert_id. }
  apply Forall2_app_inv_r in Hf as (frames1 & frames2 & Hf1 & Hf2 & ->).
  apply Forall2_cons_inv_r in Hf2 as (ef & frames3 & Hc & Hf3 & ->). apply Forall2_nil_inv_r in Hf3 as ->.
  pose proof Hhead as [Hhead1 [Hh _]%Forall_cons]%Forall_app. apply Forall_app in Hid as [Hid1 [Hid _]%Forall_cons].
  apply Forall_app in Hmore as [Hmore1 [Hmore _]%Forall_cons].
  assert (zlen front <= two32) by (rewrite zlen_app in Hlen; unfold zlen in *; simpl in *; lia).
  assert (parts_bytes front <= MaxCommitBytes opts)
    by (rewrite parts_bytes_app in Hsize; pose proof (parts_bytes_nonneg [req]); lia).
  assert (numbered front) as Hnum1 by (intros i r Hi; apply Hnum; by apply lookup_app_l_Some).
  destruct (IH frames1 w Hf1 Hnum1 Hhead1 Hid1 Hmore1 Hcid) as (pending & Hcol & _ & Hw); [done..|].
  destruct (next_part h front req pending Hcol Hnum Hhead Hlen Hsize) as (p & Hp & Hs & Hcol').
  exists (Some (add_part req p)). split_and!; [by exists (add_part req p)|by destruct front|].
  unfold handle_all in *. rewrite foldl_app, Hw. simpl. rewrite (handle_carried _ _ _ Hc). unfold commit.
  rewrite Hid. simpl. rewrite lookup_insert_eq.
  destruct Hh as (Hh & _). unfold slice_len in Hcid |- *. rewrite Hh, Hcid, Z.eqb_refl. simpl. rewrite Hp.
  rewrite (proj2 (Z.ltb_ge _ _)) by done. rewrite Hmore. unfold set_db, set_dbs. simpl. by rewrite insert_insert_eq.
Qed.
(** The last part makes the one call to the store, with the blocks of all parts. *)
Lemma whole_commit_called dbID o cr parts frames w id m :
  w_dbs w !! dbID = Some o -> cr_Key cr = o_key o -> slice_len (cr_CommitID cr) = commitIDBytes ->
  whole_commit opts parts cr -> zlen parts <= two32 -> Forall2 carries frames parts ->
  Forall (fun r => pb.Commit_DbId r = dbID) parts ->
  w_sent (handle_all frames w) = w_sent w ++ [pb.mkServerFrame id (pb.ServerFrame_CommitAck m)] ->
  exists req s', Commit req (w_store w) = (s', Ok (pb.CommitAck_Version m)) /\
    w_store (handle_all frames w) = s' /\ cr_Key req = cr_Key cr /\ cr_Blocks req = cr_Blocks cr /\
    cr_LeaseEpoch req = cr_LeaseEpoch cr /\ cr_BaseVersion req = cr_BaseVersion cr /\
    cr_PageCount req = cr_PageCount cr.
Proof.
  intros Ho Hkey Hcid (front & last & -> & Hmore & Hlast & Hnum & Hhead & Hbl & Hsize) Hlen Hf Hid.
  apply Forall2_app_inv_r in Hf as (frames1 & frames2 & Hf1 & Hf2 & ->).
  apply Forall2_cons_inv_r in Hf2 as (ef & frames3 & Hc & Hf3 & ->). apply Forall2_nil_inv_r in Hf3 as ->.
  set (h := mkHeader _ _ _ _) in Hhead.
  pose proof Hhead as [Hhead1 [Hh _]%Forall_cons]%Forall_app. apply Forall_app in Hid as [Hid1 [Hid _]%Forall_cons].
  destruct (front_collected h dbID o front frames1 w) as (pending & Hcol & _ & Hw); try done.
  { intros i r Hi. apply Hnum. by apply lookup_app_l_Some. }
  { rewrite zlen_app in Hlen. unfold zlen in *. simpl in *. lia. }
  { rewrite parts_bytes_app in Hsize. pose proof (parts_bytes_nonneg [last]). lia. }
  destruct (next_part h front last pending Hcol Hnum Hhead Hlen Hsize) as (p & Hp & Hs & Hcol').
  unfold handle_all in *. rewrite foldl_app, Hw. simpl. rewrite (handle_carried _ _ _ Hc). unfold commit.
  rewrite Hid. simpl. rewrite lookup_insert_eq.
  pose proof Hh as (Hhc & _). unfold slice_len in Hcid |- *. rewrite Hhc. change (h_CommitId h) with (cr_CommitID cr).
  rewrite Hcid, Z.eqb_refl. simpl. rewrite Hp, (proj2 (Z.ltb_ge _ _)), Hlast by done.
  unfold call_Commit, called. cbn [fst snd]. set (req := commit_request opts _ _ _). intros Hsent.
  change (st_Commit req (w_store w)) with (Commit req (w_store w)) in *. exists req, (Commit req (w_store w)).1.
  destruct (Commit req (w_store w)) as [s' [v|e]]; simpl in Hsent |- *; apply app_inj_tail in Hsent as [_ Hsent];
    [|destruct e; discriminate Hsent].
  pose proof (col_header _ _ _ Hcol') as [_ [(A1 & A2 & A3 & A4) _]%Forall_cons]%Forall_app.
  destruct Hh as (_ & B2 & B3 & B4). injection Hsent as <- <-. split_and!; simpl in *; try congruence; try done.
  by rewrite (col_blocks _ _ _ Hcol').
Qed.
End parts.

(** ** The database as long as its version is current *)

(** [db] has a later version than the commit [req] made of [db0], or it is what that commit made. *)
Definition still (req : CommitRequest) (db0 db : database) : Prop :=
  let new := apply_commit req db0 in
  Version (state new) < Version (state db) \/
  (Version (state db) = Version (state new) /\ deleted db = false /\ blocks db = blocks new /\
   PageCount (state db) = PageCount (state new) /\ PageSize (state db) = PageSize (state new)).

Lemma step_still n req db0 db db' :
  n < two64 - 1 -> wf_db n db -> db_step db db' -> still req db0 db -> still req db0 db'.
Proof.
  intros Hn Hwf Hs [Hlt|(Hv & Hd & Hb & Hc & Hp)]; unfold still.
  { left. pose proof (step_version _ _ _ Hn Hwf Hs). lia. }
  pose proof (wf_version _ _ Hwf) as Hver.
  assert (u64 (Version (state db) + 1) = Version (state db) + 1) as Hu by (apply u64_small; zlia).
  inv Hs; try congruence; try (right; by split_and!); left.
  - change (Version (state (apply_commit req0 db))) with (u64 (Version (state db) + 1)). rewrite Hu. lia.
  - change (Version (state (remove db))) with (u64 (Version (state db) + 1)). rewrite Hu. lia.
Qed.

(** What a commit made is what the database has while the version of the commit is current. *)
Lemma committed_still n req s s' v db0 ops s2 db2 :
  wf_store n s -> 0 <= n -> n + 1 + zlen ops < two64 -> wf_commit req ->
  dbs s !! cr_Key req = Some db0 -> Version (state db0) = cr_BaseVersion req -> Commit req s = (s', Ok v) ->
  steps_while (has (cr_Key req)) ops s' s2 -> dbs s2 !! cr_Key req = Some db2 -> Version (state db2) = v ->
  wf_store (n + 1 + zlen ops) s2 /\ deleted db2 = false /\ PageCount (state db2) = cr_PageCount req /\
  forall i, i < cr_PageCount req -> read_block db2 i = overlay req db0 i.
Proof.
  intros Hwf Hn Hb Hwr Hk0 Hv0 HC Hmean Hk2 Hv2. pose proof (zlen_nonneg ops).
  destruct (Commit_applied n req _ _ _ db0 Hwf ltac:(lia) Hwr Hk0 Hv0 HC) as (Hv & Hst & Hok & Hlive).
  pose proof (wf_lookup _ _ _ _ Hwf Hk0) as Hdb0. pose proof (wf_version _ _ Hdb0) as Hver0.
  assert (Version (state (apply_commit req db0)) = v) as Hvn.
  { change (u64 (Version (state db0) + 1) = v). rewrite u64_small by zlia. lia. }
  assert (wf_store (n + 1) s') as Hwf1 by (apply (wf_Commit _ req s s' (Ok v)); [lia|done..]).
  destruct (while_steps _ _ _ _ Hmean) as [answers Hsteps].
  assert (wf_store (n + 1 + zlen ops) s2) as Hwf2 by (eapply wf_steps; [exact Hsteps|lia..|done]).
  destruct (life_ind (still req db0) (cr_Key req) (fun _ => True))
    with (ops := ops) (s := s') (s' := s2) (n := n + 1) (db := apply_commit req db0)
    as (db & Hk & [Hlt|(_ & Hdel & Hbb & Hpc & Hps)] & _); try done; try lia.
  - intros m d d' Hm Hd _ _ _. by apply (step_still m).
  - eapply while_mono; [|done]. intros t [d Hd]. by exists d.
  - by rewrite Hst, lookup_put, decide_True.
  - right. by split_and!.
  - simplify_eq. lia.
  - simplify_eq. split_and!; try done. intros i Hi. rewrite <- (read_block_commit n) by done.
    unfold read_block. by rewrite Hbb, Hps.
Qed.

(** ** End to end *)

(** The blocks of ranges after the commit [cr] to the database [db]. *)
Definition overlaid_ranges (cr : CommitRequest) (db : database) (ranges : list pb.Range) : list (Z * bytes) :=
  mjoin ((fun r => (fun i => (i, overlay cr db i)) <$> seqZ (pb.Range_FirstBlock r) (pb.Range_Count r)) <$> ranges).

(** C16: What was acknowledged is what everyone gets.  A client sends a commit in any number of parts on
    one connection, based on the current version, and gets a [CommitAck].  Then anything happens to the
    store, as long as the database keeps its record.  Whoever fetches ranges of the file (which [make] can
    allocate) at the
    acknowledged version while that is the current one gets, in frames of which the last is marked,
    exactly the blocks of all parts of the commit, the earlier blocks where it wrote none, and zeros
    where the file has grown, each with its index. *)
Theorem acknowledged_commit_is_fetched (n : Z) (opts opts' : Options) (c : session) (dbID : string)
    (frames : list (env * pb.ClientFrame)) (parts : list pb.Commit) (cr : CommitRequest) (id id' : Z)
    (ack : pb.CommitAck) (freq : pb.Fetch) (ops : list op) (w w' : world MemStore) (o o' : openDB)
    (db0 db' : database) :
  let w1 := handle_all opts c frames w in
  wf_store n (w_store w) -> 0 <= n -> n + 1 + zlen ops < two64 -> MaxCommitBytes opts < two63 ->
  (* the commit *)
  w_dbs w !! dbID = Some o -> cr_Key cr = o_key o -> slice_len (cr_CommitID cr) = commitIDBytes ->
  wf_commit cr -> whole_commit opts parts cr -> zlen parts <= two32 -> Forall2 carries frames parts ->
  Forall (fun r => pb.Commit_DbId r = dbID) parts ->
  dbs (w_store w) !! cr_Key cr = Some db0 -> Version (state db0) = cr_BaseVersion cr ->
  w_sent w1 = w_sent w ++ [pb.mkServerFrame id (pb.ServerFrame_CommitAck ack)] ->
  (* meanwhile *)
  steps_while (has (cr_Key cr)) ops (w_store w1) (w_store w') ->
  (* the fetch *)
  w_dbs w' !! pb.Fetch_DbId freq = Some o' -> o_key o' = cr_Key cr -> dbs (w_store w') !! cr_Key cr = Some db' ->
  pb.Fetch_Version freq = pb.CommitAck_Version ack -> Version (state db') = pb.CommitAck_Version ack ->
  zlen (ranges_of freq) <= maxFetchRanges -> ranges_sorted None (ranges_of freq) = true ->
  Forall (fun r => in_u64 (pb.Range_FirstBlock r) /\ in_u64 (pb.Range_Count r) /\
                   pb.Range_FirstBlock r + pb.Range_Count r <= cr_PageCount cr /\
                   makeable (pb.Range_Count r) = true) (ranges_of freq) ->
  exists answer,
    w_sent (fetch opts' id' freq w') =
      w_sent w' ++ ((fun p => pb.mkServerFrame id' (pb.ServerFrame_Pages p)) <$> answer) /\
    mjoin (frame_blocks <$> answer) = overlaid_ranges cr db0 (ranges_of freq) /\ marked_last answer.
Proof.
  intros w1 Hwf Hn Hb Hlim Ho Hkey Hcid Hwc Hwhole Hlen Hf Hid Hk0 Hv0 Hsent Hmean Ho' Hkey' Hk' Hver Hv' Hmax Hsort Hr.
  pose proof (zlen_nonneg ops).
  destruct (whole_commit_called opts c Hlim dbID o cr parts frames w id ack) as
    (req & s' & HC & Hs' & Ek & Ebl & Eep & Eba & Epc); try done.
  fold w1 in Hs'. rewrite <- Ek in *.
  assert (wf_commit req) as Hwr by (unfold wf_commit; by rewrite Eep, Eba, Epc, Ebl).
  rewrite <- Eba in Hv0. rewrite Hs' in Hmean.
  destruct (committed_still n req _ s' _ db0 ops (w_store w') db' Hwf Hn Hb Hwr Hk0 Hv0 HC Hmean Hk' Hv')
    as (Hwf' & Hlive & Hpc & Hread).
  assert (Forall (range_within db') (ranges_of freq)) as Hr'
    by (unfold range_within; by rewrite Hpc, Epc).
  destruct (fetch_sends opts' id' freq w' o' (runs_of db' (ranges_of freq)) Ho' Hmax Hsort)
    as (answer & Hans & Hj & _ & _ & Hm).
  { rewrite Hkey'. apply (runs_fetched _ _ _ _ _ _ Hwf' Hk' Hlive); [congruence|done]. }
  exists answer. split_and!; [done| |done]. rewrite Hj, (indexed_runs _ _ _ (wf_lookup _ _ _ _ Hwf' Hk') Hr').
  unfold blocks_of_ranges, overlaid_ranges. f_equal. apply list_fmap_ext. intros j r Hj'.
  pose proof (Forall_lookup_1 _ _ _ _ Hr Hj') as (_ & _ & Hle). apply list_fmap_ext. intros i x Hx.
  apply lookup_seqZ in Hx as [-> Hlt]. f_equal. rewrite Hread by lia. unfold overlay. by rewrite Ebl.
Qed.

(** Alice commits two parts on the connection of her first instance; her second instance takes the
    database over on another connection and fetches it. *)
Definition alice2 : session := mkSession 8 "alice" (Some [x03]) "p" 0.

Definition before1 : world MemStore := handle opts0 alice (at_ t0) (frame 1 open_main) (world_of s1).

Definition two_parts : list (env * pb.ClientFrame) := take 2 (drop 1 session1).

Definition after1 : world MemStore := handle_all opts0 alice two_parts before1.

Definition taken_over : world MemStore :=
  handle opts0 alice2 (at_ (t0 + 5 * Second)) (frame 1 open_main) (world_of (w_store after1)).

Definition open_again : list op := w_calls taken_over.

Definition two_commits : list pb.Commit :=
  omap (fun ef => match pb.ClientFrame_Body ef.2 with pb.ClientFrame_Commit r => Some r | _ => None end) two_parts.

Definition fetch_new : pb.Fetch := pb.mkFetch "main" 2 0 0 [pb.mkRange 0 2; pb.mkRange 3 1].

Definition open_of (w : world MemStore) : openDB := default (mkOpenDB kA 0 0 None 0) (w_dbs w !! "main"%string).

Definition db_of (w : world MemStore) : database := default (new_database 512) (dbs (w_store w) !! kA).

Lemma acknowledged_commit_is_fetched_witness :
  exists answer,
    w_sent (fetch opts0 2 fetch_new taken_over) =
      w_sent taken_over ++ ((fun p => pb.mkServerFrame 2 (pb.ServerFrame_Pages p)) <$> answer) /\
    mjoin (frame_blocks <$> answer) = [(0, page x11); (1, read_block db1 1); (3, page x12)].
Proof.
  assert (wf_store 3 (w_store before1)) as Hwf.
  { apply (wf_Open 2 [x0f] (open_request opts0 alice (pb.mkOpen "main" 512 true true None) t0) s1 _
      (Open [x0f] (open_request opts0 alice (pb.mkOpen "main" 512 true true None) t0) s1).2); [zlia|exact s1_wf|].
    vm_compute. reflexivity. }
  destruct (acknowledged_commit_is_fetched 3 opts0 opts0 alice "main" two_parts two_commits whole1 3 2
    (pb.mkCommitAck (id16 x71) 2) fetch_new open_again before1 taken_over (open_of before1) (open_of taken_over)
    (db_of before1) (db_of taken_over)) as (answer & Hs & Hj & _).
  - exact Hwf.
  - lia.
  - vm_compute. reflexivity.
  - vm_compute. reflexivity.
  - vm_compute. reflexivity.
  - vm_compute. reflexivity.
  - vm_compute. reflexivity.
  - repeat constructor; vm_compute; congruence.
  - eexists [_], _. split; [reflexivity|]. split_and!;
      try solve [repeat constructor | reflexivity | vm_compute; congruence].
    intros [|[|[|i]]] r Hr; simplify_eq/=; reflexivity.
  - vm_compute. congruence.
  - repeat constructor; vm_compute; congruence.
  - repeat constructor.
  - vm_compute. reflexivity.
  - vm_compute. reflexivity.
  - vm_compute. reflexivity.
  - replace (w_store taken_over) with (run open_again (w_store after1)).1 by (vm_compute; reflexivity).
    refine (while_check (has kA) open_again (w_store after1) _). vm_compute. reflexivity.
  - vm_compute. reflexivity.
  - vm_compute. reflexivity.
  - vm_compute. reflexivity.
  - reflexivity.
  - vm_compute. reflexivity.
  - vm_compute. congruence.
  - reflexivity.
  - repeat constructor; vm_compute; congruence.
  - exists answer. split; [exact Hs|]. rewrite Hj. vm_compute. reflexivity.
Defined.
