(* ===== verification/ConnLease.v ===== *)
(** * Keeping a lease alive

    A ping extends a lease in the store only when half of its time has passed.  The server may do so
    because it knows when it last extended the lease: what the store holds is never earlier. *)

From S2P Require Import Prelude Store StoreFacts Memory Trace MemoryInv MemoryStep Samples MemoryLease MemorySlots Messages Connection ConnFacts ConnSamples ConnSubject.

Local Open Scope Z_scope.

Section lease.
Variable opts : Options.
Variable c : session.

(** The leases that are still the connection's expire no earlier than the connection thinks. *)
Definition renewal_ok (w : world MemStore) : Prop :=
  forall dbID o db, w_dbs w !! dbID = Some o -> dbs (w_store w) !! o_key o = Some db ->
    fenced (o_epoch o) db = false -> o_renewed o + LeaseTTL opts <= expiresAt db.

(** As seen from one open database. *)
Definition kept (s : MemStore) (o : openDB) : Prop :=
  forall db, dbs s !! o_key o = Some db -> fenced (o_epoch o) db = false ->
    o_renewed o + LeaseTTL opts <= expiresAt db.

Lemma renewal_kept w : renewal_ok w <-> forall dbID o, w_dbs w !! dbID = Some o -> kept (w_store w) o.
Proof. unfold renewal_ok, kept. naive_solver. Qed.

Lemma kept_other (s s' : MemStore) o : dbs s' !! o_key o = dbs s !! o_key o -> kept s o -> kept s' o.
Proof. unfold kept. by intros ->. Qed.

Lemma kept_gone (s : MemStore) o : dbs s !! o_key o = None -> kept s o.
Proof. intros Hn db Hdb. by rewrite Hn in Hdb. Qed.

(** One database of the connection is replaced; the others have other keys. *)
Lemma renewal_set w v dbID o :
  own_dbs c w -> renewal_ok w -> o_key o = key_of c dbID ->
  w_dbs v = <[dbID := o]> (w_dbs w) ->
  (forall k, k <> key_of c dbID -> dbs (w_store v) !! k = dbs (w_store w) !! k) ->
  kept (w_store v) o -> renewal_ok v.
Proof.
  rewrite !renewal_kept. intros Hown Hok Hk Hv Hother Ho i o' Hi. rewrite Hv in Hi.
  destruct (decide (i = dbID)) as [->|Hne].
  - rewrite lookup_insert_eq in Hi. by injection Hi as <-.
  - rewrite lookup_insert_ne in Hi by done. apply (kept_other (w_store w)); [|by eapply Hok].
    apply Hother. rewrite (Hown _ _ Hi). unfold key_of. congruence.
Qed.

(** The databases and the store as far as the connection's keys go are unchanged. *)
Lemma renewal_same w v :
  renewal_ok w -> w_dbs v ⊆ w_dbs w ->
  (forall dbID o, w_dbs v !! dbID = Some o ->
     dbs (w_store v) !! o_key o = dbs (w_store w) !! o_key o \/ dbs (w_store v) !! o_key o = None) ->
  renewal_ok v.
Proof.
  rewrite !renewal_kept. intros Hok Hsub Hst i o Hi. destruct (Hst _ _ Hi) as [He|Hn].
  - apply (kept_other (w_store w)); [done|]. eapply Hok, lookup_weaken; done.
  - by apply kept_gone.
Qed.

Lemma renewal_quiet w v : renewal_ok w -> w_dbs v = w_dbs w -> w_store v = w_store w -> renewal_ok v.
Proof. intros Hok Hd Hs. apply (renewal_same w); [done|by rewrite Hd|]. intros. left. by rewrite Hs. Qed.

(** ** Renewals *)

Lemma ping_one_renews now w dbID :
  own_dbs c w -> renewal_ok w ->
  renewal_ok (ping_one opts now w dbID) /\
  (forall k, k <> key_of c dbID -> dbs (w_store (ping_one opts now w dbID)) !! k = dbs (w_store w) !! k) /\
  forall i o, w_dbs (ping_one opts now w dbID) !! i = Some o ->
    exists o', w_dbs w !! i = Some o' /\ o_key o' = o_key o /\ o_epoch o' = o_epoch o /\
      (i <> dbID -> o' = o).
Proof.
  intros Hown Hok. unfold ping_one. destruct (w_dbs w !! dbID) as [o|] eqn:Ho; [|naive_solver].
  destruct (negb _); [naive_solver|]. unfold call_Renew, called. cbn [st_Renew MemStore_api].
  pose proof (Hown _ _ Ho) as Hk. simpl in Hk. unfold Renew.
  destruct (dbs (w_store w) !! o_key o) as [db|] eqn:Hdb; cbn [fst snd].
  2:{ split_and!; [by apply (renewal_quiet w)|done|naive_solver]. }
  destruct (fenced _ db) eqn:Hf; cbn [fst snd].
  { split_and!; [by apply (renewal_quiet w)|done|naive_solver]. }
  split_and!.
  - eapply (renewal_set w _ dbID (set_renewed now o)); try done; simpl.
    + intros k Hne. apply lookup_insert_ne. congruence.
    + intros db' Hdb' _. simpl in *. rewrite lookup_insert_eq in Hdb'. injection Hdb' as <-.
      simpl. unfold time_Add. lia.
  - intros k Hne. simpl. apply lookup_insert_ne. congruence.
  - intros i o' Hi. simpl in Hi. destruct (decide (i = dbID)) as [->|Hne].
    + rewrite lookup_insert_eq in Hi. injection Hi as <-. by exists o.
    + rewrite lookup_insert_ne in Hi by done. by exists o'.
Qed.

(** The lease of [o] is the connection's and lasts at least half a lease time beyond [now]. *)
Definition fresh (now : Time) (s : MemStore) (o : openDB) : Prop :=
  exists db, dbs s !! o_key o = Some db /\ fenced (o_epoch o) db = false /\
    now + LeaseTTL opts - LeaseTTL opts ÷ 2 <= expiresAt db.

Lemma ping_one_fresh now w dbID o db :
  0 <= LeaseTTL opts < two63 -> renewal_ok w -> w_dbs w !! dbID = Some o ->
  dbs (w_store w) !! o_key o = Some db -> fenced (o_epoch o) db = false ->
  fresh now (w_store (ping_one opts now w dbID)) o.
Proof.
  intros Httl Hok Ho Hdb Hf. pose proof (Hok _ _ _ Ho Hdb Hf) as Hr.
  unfold ping_one. rewrite Ho. assert (0 <= LeaseTTL opts ÷ 2 <= LeaseTTL opts) as Hhalf.
  { rewrite Z.quot_div_nonneg by lia. zlia. }
  destruct (renewDue opts o now) eqn:Hd; simpl.
  - unfold Renew. rewrite Hdb, Hf. simpl.
    exists (set_expires (time_Add now (LeaseTTL opts)) db). simpl. rewrite lookup_insert_eq.
    split_and!; [done|done|]. unfold time_Add. lia.
  - exists db. split_and!; try done. unfold renewDue, time_Sub in Hd. bool_hyps.
    unfold two63 in *. lia.
Qed.

Lemma ping_all_other now dbID order : forall w o,
  own_dbs c w -> renewal_ok w -> w_dbs w !! dbID = Some o -> dbID ∉ order ->
  let v := foldl (ping_one opts now) w order in
  renewal_ok v /\ w_dbs v !! dbID = Some o /\ dbs (w_store v) !! o_key o = dbs (w_store w) !! o_key o.
Proof.
  induction order as [|i order IH]; intros w o Hown Hok Ho Hni v; [done|]. subst v. simpl.
  apply not_elem_of_cons in Hni as [Hne Hni].
  destruct (ping_one_renews now w i Hown Hok) as (Hok' & Hst & Hdbs).
  assert (own_dbs c (ping_one opts now w i)) as Hown'.
  { destruct (ping_calls opts c now [i] w Hown) as (_ & _ & _ & _ & _ & Hd & _). done. }
  assert (w_dbs (ping_one opts now w i) !! dbID = Some o) as Ho'.
  { unfold ping_one. destruct (w_dbs w !! i); [|done]. destruct (negb _); [done|].
    unfold call_Renew, called. destruct (st_Renew _ _ _ _ _) as [s' [u|e]]; cbn [fst snd]; [|done].
    simpl. by rewrite lookup_insert_ne. }
  destruct (IH _ o Hown' Hok' Ho' Hni) as (H1 & H2 & H3). split_and!; try done.
  rewrite H3. apply Hst. rewrite (Hown _ _ Ho). unfold key_of. congruence.
Qed.

Lemma ping_all_renews now order : forall w, own_dbs c w -> renewal_ok w ->
  renewal_ok (foldl (ping_one opts now) w order).
Proof.
  induction order as [|i order IH]; intros w Hown Hok; [done|]. simpl.
  destruct (ping_one_renews now w i Hown Hok) as (Hok' & _). apply IH; [|done].
  destruct (ping_calls opts c now [i] w Hown) as (_ & _ & _ & _ & _ & Hd & _). done.
Qed.

Lemma ping_all_fresh now dbID order w o db :
  0 <= LeaseTTL opts < two63 -> own_dbs c w -> renewal_ok w -> NoDup order -> dbID ∈ order ->
  w_dbs w !! dbID = Some o -> dbs (w_store w) !! o_key o = Some db -> fenced (o_epoch o) db = false ->
  fresh now (w_store (foldl (ping_one opts now) w order)) o.
Proof.
  intros Httl Hown Hok Hnd Hin Ho Hdb Hf.
  apply list_elem_of_split in Hin as (l1 & l2 & ->).
  apply NoDup_app in Hnd as (_ & Hd1 & Hnd2). apply NoDup_cons in Hnd2 as [Hd2 _].
  assert (dbID ∉ l1) as Hn1 by (intros Hx; apply (Hd1 _ Hx); by left).
  rewrite foldl_app. simpl. set (w1 := foldl (ping_one opts now) w l1).
  destruct (ping_all_other now dbID l1 w o Hown Hok Ho Hn1) as (Hok1 & Ho1 & Hst1).
  assert (own_dbs c w1) as Hown1.
  { destruct (ping_calls opts c now l1 w Hown) as (_ & _ & _ & _ & _ & Hd & _). done. }
  assert (fresh now (w_store (ping_one opts now w1 dbID)) o) as (db' & Hdb' & Hf' & He').
  { apply (ping_one_fresh now w1 dbID o db); try done. unfold w1. by rewrite Hst1. }
  assert (own_dbs c (ping_one opts now w1 dbID)) as Hown2.
  { destruct (ping_calls opts c now [dbID] w1 Hown1) as (_ & _ & _ & _ & _ & Hd & _). done. }
  destruct (ping_one_renews now w1 dbID Hown1 Hok1) as (Hok2 & _ & _).
  assert (exists o2, w_dbs (ping_one opts now w1 dbID) !! dbID = Some o2 /\ o_key o2 = o_key o) as (o2 & Ho2 & Hk2).
  { unfold ping_one, w1. rewrite Ho1. destruct (negb _); [by exists o|].
    unfold call_Renew, called. destruct (st_Renew _ _ _ _ _) as [s' [u|e]]; cbn [fst snd]; [|by exists o].
    simpl. rewrite lookup_insert_eq. by eexists. }
  destruct (ping_all_other now dbID l2 _ o2 Hown2 Hok2 Ho2 Hd2) as (_ & _ & Hst2).
  exists db'. rewrite <- Hk2, Hst2, Hk2. done.
Qed.

(** ** Every frame *)

Lemma renewal_open n newID now id req w :
  wf_store n (w_store w) -> own_dbs c w -> renewal_ok w ->
  renewal_ok (open opts c newID now id req w).
Proof.
  intros Hwf Hown Hok. unfold open. destruct (checkDBID _); [by apply (renewal_quiet w)|].
  destruct (w_dbs w !! _) eqn:Hn; [by apply (renewal_quiet w)|]. unfold call_Open, called.
  destruct (st_Open _ _ _) as [s' [res|e]] eqn:HO; cbn [fst snd]; simpl in HO.
  2:{ apply (renewal_quiet w); try done. by rewrite <- (Open_error _ _ _ _ _ _ Hwf HO). }
  destruct (Open_ok _ _ _ _ _ _ Hwf HO) as (db & db' & _ & _ & -> & _ & _ & _ & _ & _ & _ & Hexp & _).
  set (o := mkOpenDB _ _ _ _ _).
  match goal with |- context [with_holders ?f ?w1] =>
    destruct (with_holders_quiet f w1) as ([Hs _] & Hd & _) end.
  apply (renewal_set w _ (pb.Open_DbId req) o); unfold answer_frame, send; cbn [w_store w_dbs]; try done.
  - rewrite Hs. intros k Hk. simpl. rewrite lookup_insert_ne; [done|]. congruence.
  - rewrite Hs. intros d Hdb _. simpl in Hdb. unfold key_of in Hdb. rewrite lookup_insert_eq in Hdb.
    injection Hdb as <-. simpl in *. lia.
Qed.

(** A successful commit extends the lease; a failed one changes nothing. *)
Lemma Commit_expires req s :
  (Commit req s).1 = s /\ (forall v, (Commit req s).2 <> Ok v) \/
  exists db', (Commit req s).1 = put (cr_Key req) db' s /\ expiresAt db' = cr_Now req + cr_TTL req /\
    exists v, (Commit req s).2 = Ok v.
Proof.
  unfold Commit. destruct (dbs s !! cr_Key req) as [db|]; [|by left].
  destruct (fenced _ _); [by left|]. destruct (repeated _ _); [right; by repeat eexists|].
  destruct (negb _); [by left|]. destruct (ValidateCommit _ _); [right; by repeat eexists|by left].
Qed.

Lemma renewal_commit now id req w :
  own_dbs c w -> renewal_ok w -> renewal_ok (commit opts now id req w).
Proof.
  intros Hown Hok. unfold commit. destruct (w_dbs w !! _) as [o|] eqn:Ho; [|by apply (renewal_quiet w)].
  pose proof (Hown _ _ Ho) as Hk. simpl in Hk.
  assert (kept (w_store w) o) as Hkept by (by apply (proj1 (renewal_kept w) Hok _ _ Ho)).
  assert (forall p v, w_dbs v = <[pb.Commit_DbId req := set_pending p o]> (w_dbs w) ->
    w_store v = w_store w -> renewal_ok v) as Hset.
  { intros p v Hd Hs. apply (renewal_set w v (pb.Commit_DbId req) (set_pending p o)); try done; by rewrite Hs. }
  destruct (negb _); [by eapply Hset|]. destruct (pending_for _ _) as [p|]; [|by eapply Hset].
  cbv zeta. destruct (_ <? _); [by eapply Hset|]. destruct (pb.Commit_More req); [by eapply Hset|].
  unfold call_Commit, called. cbn [st_Commit MemStore_api].
  destruct (Commit_expires (commit_request opts o (add_part req p) now) (w_store w))
    as [[Hs Herr]|(db' & Hs & Hexp & v & Hv)].
  - simpl. destruct (Commit _ _) as [s' [v|e]]; simpl in *; [by destruct (Herr v)|]. subst. by eapply Hset.
  - simpl. destruct (Commit _ _) as [s' r]. simpl in *. subst. simpl.
    eapply (renewal_set w _ (pb.Commit_DbId req) (set_renewed now (set_pending None o))); simpl; try done.
    + by rewrite insert_insert_eq.
    + intros k Hne. rewrite lookup_insert_ne; [done|]. congruence.
    + intros d Hd _. simpl in Hd. rewrite lookup_insert_eq in Hd. injection Hd as <-. simpl. lia.
Qed.

(** A call that leaves every database of the connection alone or drops it. *)
Lemma renewal_called w v :
  renewal_ok w -> w_dbs v = w_dbs w ->
  (forall dbID o, w_dbs w !! dbID = Some o ->
     dbs (w_store v) !! o_key o = dbs (w_store w) !! o_key o \/ dbs (w_store v) !! o_key o = None) ->
  renewal_ok v.
Proof. intros Hok Hd Hst. apply (renewal_same w); [done|by rewrite Hd|]. intros i o. rewrite Hd. apply Hst. Qed.

Lemma purge_drops sub s k : dbs (purge sub s).1 !! k = dbs s !! k \/ dbs (purge sub s).1 !! k = None.
Proof. rewrite purge_dbs. case_decide; auto. Qed.

#[local] Opaque purge.

Lemma ClaimSlot_drops req s k :
  dbs (ClaimSlot req s).1 !! k = dbs s !! k \/ dbs (ClaimSlot req s).1 !! k = None.
Proof.
  unfold ClaimSlot. destruct (slots s !! _) as [old|]; [|by left]. case_bool_decide; [by left|].
  pose proof (purge_drops (slot_Subject old) s k). by destruct (purge _ s).
Qed.

Lemma DeleteSlot_drops o sub s k :
  dbs (DeleteSlot o sub s).1 !! k = dbs s !! k \/ dbs (DeleteSlot o sub s).1 !! k = None.
Proof.
  unfold DeleteSlot. destruct (slots s !! o) as [old|].
  - destruct (negb _); [by left|]. pose proof (purge_drops sub (mkStore (dbs s) (delete o (slots s))) k).
    by destruct (purge _ _).
  - pose proof (purge_drops sub s k). by destruct (purge _ _).
Qed.

Lemma renewal_fetch id req w : renewal_ok w -> renewal_ok (fetch opts id req w).
Proof.
  intros Hok.
  unfold fetch. destruct (w_dbs w !! _) as [db|]; [|by apply (renewal_quiet w)].
  destruct (_ <? _); [by apply (renewal_quiet w)|]. destruct (negb _); [by apply (renewal_quiet w)|].
  destruct (fetch_runs_calls (mkSession 0 (Subject (o_key db)) None EmptyString 0) (o_key db)
    (pb.Fetch_Version req) (ranges_of req) w eq_refl) as (_ & _ & Hs & _ & _ & _ & Hd & _).
  destruct (fetch_runs _ _ _ _) as [[runs|er] w1]; simpl in Hd, Hs; [|destruct (is_panic er); by apply (renewal_quiet w)].
  destruct (pages_of_runs _ _) as [l|]; [|by apply (renewal_quiet w)].
  destruct (send_pages_quiet (id) l w1) as ([Hs1 _] & Hd1 & _).
  apply (renewal_quiet w); [done|by rewrite Hd1|by rewrite Hs1].
Qed.

Lemma renewal_closeDB id req w : own_dbs c w -> renewal_ok w -> renewal_ok (closeDB c id req w).
Proof.
  intros Hown Hok.
  unfold closeDB. destruct (w_dbs w !! _) as [o|] eqn:Ho; [|by apply (renewal_quiet w)].
  unfold call_Release, called. cbn [st_Release MemStore_api]. unfold Release.
  destruct (dbs (w_store w) !! o_key o) as [db|] eqn:Hdb; cbn [fst snd]; [|by apply (renewal_quiet w)].
  destruct (fenced _ db); cbn [fst snd]; [by apply (renewal_quiet w)|].
  apply (renewal_same w); [done|simpl; apply delete_subseteq|].
  intros i o' Hi. left. simpl in *. apply lookup_delete_Some in Hi as [Hne Hi].
  apply lookup_insert_ne. rewrite (Hown _ _ Ho), (Hown _ _ Hi). unfold key_of. congruence.
Qed.

Lemma renewal_deleteDB now id req w : own_dbs c w -> renewal_ok w -> renewal_ok (deleteDB c now id req w).
Proof.
  intros Hown Hok.
  unfold deleteDB. destruct (checkDBID _); [by apply (renewal_quiet w)|].
  destruct (w_dbs w !! _) eqn:Hn; [by apply (renewal_quiet w)|].
  unfold call_Delete, called. cbn [st_Delete MemStore_api].
  assert (forall k, k <> key_of c (pb.Delete_DbId req) ->
    dbs (Delete (mkDeleteRequest (key_of c (pb.Delete_DbId req)) (pb.Delete_Takeover req) now) (w_store w)).1 !! k =
    dbs (w_store w) !! k) as Hother.
  { intros k Hk. unfold Delete. repeat case_match; simpl; try done. by apply lookup_insert_ne. }
  destruct (Delete _ _) as [s' [res|er]]; cbn [fst snd] in *.
  - match goal with |- context [if ?b then with_holders ?f ?w1 else ?w2] =>
      set (w' := if b then with_holders f w1 else w2);
      destruct (with_holders_quiet f w1) as ([Hs _] & Hd & _) end.
    assert (w_store w' = s' /\ w_dbs w' = w_dbs w) as [Hs' Hd'] by (unfold w'; by case_match).
    apply (renewal_called w); [done|done|]. intros i o Hi. left. simpl. rewrite Hs'. apply Hother.
    rewrite (Hown _ _ Hi). unfold key_of. intros [= ->]. by rewrite Hi in Hn.
  - apply (renewal_called w); [done|done|]. intros i o Hi. left. apply Hother.
    rewrite (Hown _ _ Hi). unfold key_of. intros [= ->]. by rewrite Hi in Hn.
Qed.

Lemma renewal_claimSlot now id w : renewal_ok w -> renewal_ok (claimSlot c now id w).
Proof.
  intros Hok.
  unfold claimSlot. case_bool_decide; [by apply (renewal_quiet w)|]. unfold call_ClaimSlot, called.
  cbn [st_ClaimSlot MemStore_api].
  pose proof (ClaimSlot_drops (mkClaimRequest (owner c) (subject c) now) (w_store w)) as Hdr.
  destruct (ClaimSlot _ _) as [s' [res|er]]; cbn [fst snd] in *; [|by apply (renewal_called w)].
  set (w1 := mkWorld s' _ _ _ _ _). destruct (purge_all_quiet (cres_Deleted res) w1) as ([Hs _] & Hd & _).
  apply (renewal_called w); [done|simpl; by rewrite Hd|]. intros i o _. simpl. rewrite Hs. apply Hdr.
Qed.

Lemma renewal_deleteSlot id w : renewal_ok w -> renewal_ok (deleteSlot c id w).
Proof.
  intros Hok.
  unfold deleteSlot. case_bool_decide; [by apply (renewal_quiet w)|].
  destruct (negb _); [by apply (renewal_quiet w)|]. unfold call_DeleteSlot, called.
  cbn [st_DeleteSlot MemStore_api].
  pose proof (DeleteSlot_drops (owner c) (subject c) (w_store w)) as Hdr.
  destruct (DeleteSlot _ _ _) as [s' [res|er]]; cbn [fst snd] in *; [|by apply (renewal_called w)].
  set (w1 := mkWorld s' _ _ _ _ _). destruct (purge_all_quiet res w1) as ([Hs _] & Hd & _).
  apply (renewal_called w); [done|simpl; by rewrite Hd|]. intros i o _. simpl. rewrite Hs. apply Hdr.
Qed.

Lemma renewal_setSlotLabel id req w : renewal_ok w -> renewal_ok (setSlotLabel c id req w).
Proof.
  intros Hok.
  unfold setSlotLabel. case_bool_decide; [by apply (renewal_quiet w)|].
  destruct (_ <? _); [by apply (renewal_quiet w)|]. unfold call_SetSlotLabel, called.
  cbn [st_SetSlotLabel MemStore_api]. unfold SetSlotLabel.
  repeat case_match; simplify_eq; apply (renewal_called w); try done; by left.
Qed.

Lemma renewal_handle n e frame w :
  wf_store n (w_store w) -> own_dbs c w -> renewal_ok w -> renewal_ok (handle opts c e frame w).
Proof.
  intros Hwf Hown Hok. unfold handle. destruct (_ =? 0); [by apply (renewal_quiet w)|].
  destruct (pb.ClientFrame_Body frame) as [m|m|m|m|m|m|m|m|m| | |m|]; try (by apply (renewal_quiet w)).
  - by eapply renewal_open.
  - by apply renewal_fetch.
  - by apply renewal_commit.
  - unfold ping. eapply renewal_quiet; [by apply (ping_all_renews (now e) (map_order e) w)|done|done].
  - by apply renewal_closeDB.
  - by apply renewal_deleteDB.
  - unfold changed. destruct (w_dbs w !! _); [|by apply (renewal_quiet w)]. unfold call_Changes, called.
    cbn [fst snd]. destruct (st_Changes _ _ _); by apply (renewal_quiet w).
  - by apply renewal_claimSlot.
  - by apply renewal_deleteSlot.
  - by apply renewal_setSlotLabel.
Qed.

(** C28: A client that pings keeps its leases.  The server's record of when it last extended a lease
    is never later than what the store says, whatever frame it handles.  So although a ping extends a
    lease only if half of the lease time has passed, after every ping each lease that was still the
    connection's is still its own, and active for at least half of the lease time to come. *)
Theorem ping_keeps_leases (n : Z) (e : env) (frame : pb.ClientFrame) (w : world MemStore) :
  0 <= LeaseTTL opts < two63 -> wf_store n (w_store w) -> own_dbs c w -> renewal_ok w ->
  NoDup (map_order e) -> list_to_set (map_order e) = dom (w_dbs w) ->
  renewal_ok (handle opts c e frame w) /\
  (is_ping frame = true -> pb.ClientFrame_RequestId frame <> 0 ->
   forall dbID o db, w_dbs w !! dbID = Some o -> dbs (w_store w) !! o_key o = Some db ->
     fenced (o_epoch o) db = false ->
     exists db', dbs (w_store (handle opts c e frame w)) !! o_key o = Some db' /\
       fenced (o_epoch o) db' = false /\
       forall t, t < now e + LeaseTTL opts ÷ 2 -> active t db' = true).
Proof.
  intros Httl Hwf Hown Hok Hnd Hdom. split; [by apply (renewal_handle n)|].
  intros Hping Hid dbID o db Ho Hdb Hf. destruct frame as [id body]. unfold is_ping in Hping. simpl in *.
  destruct body as [| | | |m| | | | | | | |]; try done. unfold handle. simpl.
  rewrite (proj2 (Z.eqb_neq _ _)) by done.
  assert (dbID ∈ map_order e) as Hin.
  { apply (elem_of_list_to_set (C := gset string)). rewrite Hdom. apply elem_of_dom. by exists o. }
  destruct (ping_all_fresh (now e) dbID (map_order e) w o db) as (db' & Hdb' & Hf' & He'); try done.
  exists db'. split_and!; [done|done|]. intros t Ht. apply active_true.
  apply not_fenced in Hf' as [Hh _]. split; [done|].
  rewrite Z.quot_div_nonneg in Ht, He' by lia. clear - Ht He' Httl. zlia.
Qed.
End lease.

(** Alice's open database with a lease of 100 microseconds, extended at 1001; a ping at 1060. *)
Definition short : Options :=
  mkOptions 1048576 (10 * Second) (100 * Microsecond) 268435456 "wss://vfs.example/v1/ws" 0 [].

Definition holding : world MemStore :=
  mkWorld s1 [] ∅ {[ "main"%string := mkOpenDB kA 1 512 None (1001 * Microsecond) ]} [] [].

Lemma holding_own : own_dbs alice holding.
Proof. apply map_Forall_singleton. reflexivity. Qed.

Lemma holding_ok : renewal_ok short holding.
Proof.
  intros i o db Hi Hdb _. unfold holding in Hi. simpl in Hi.
  apply lookup_singleton_Some in Hi as [_ <-]. vm_compute in Hdb.
  injection Hdb as <-. vm_compute. congruence.
Qed.

Lemma ping_keeps_leases_witness :
  exists db', dbs (w_store (handle short alice (at_ (1060 * Microsecond))
                      (frame 5 (pb.ClientFrame_Ping (pb.mkPing 0))) holding)) !! kA = Some db' /\
    active (1109 * Microsecond) db' = true.
Proof.
  destruct (ping_keeps_leases short alice 2 (at_ (1060 * Microsecond))
      (frame 5 (pb.ClientFrame_Ping (pb.mkPing 0))) holding) as [_ Hp].
  - split; [vm_compute; congruence|reflexivity].
  - exact s1_wf.
  - exact holding_own.
  - exact holding_ok.
  - apply NoDup_singleton.
  - vm_compute. reflexivity.
  - destruct (Hp eq_refl ltac:(done) "main"%string (mkOpenDB kA 1 512 None (1001 * Microsecond)) db1)
      as (db' & Hdb' & _ & Ha); [vm_compute; reflexivity..|].
    exists db'. split; [exact Hdb'|]. apply Ha. reflexivity.
Defined.
