(* ===== verification/ConnText.v ===== *)
(** * Strings of a session

    Protobuf strings are UTF-8: a frame with another string cannot be encoded.  The strings that the
    server sends come from its clients, some by way of the store or of the table of lease holders.
    [clean] says that they are UTF-8 wherever they are kept, and handling a frame whose strings are
    keeps it.  (The code checks the IDs of databases; a label is UTF-8 only because it arrived in a
    frame.) *)

From S2P Require Import Prelude Store StoreFacts Memory Trace MemoryInv MemoryStep Messages Connection ConnFacts ConnFetch.

Local Open Scope Z_scope.

(** ** The store *)

Definition clean_labels (s : MemStore) : Prop := map_Forall (fun _ slot => utf8_ValidString (slot_Label slot) = true) (slots s).

(** A call that does not bring in another string. *)
Definition clean_op (o : op) : Prop :=
  match o with OpSetSlotLabel _ _ label => utf8_ValidString label = true | _ => True end.

Lemma clean_same s s' : slots s' = slots s -> clean_labels s -> clean_labels s'.
Proof. intros E. unfold clean_labels. by rewrite E. Qed.

Lemma clean_put_slot owner slot s :
  utf8_ValidString (slot_Label slot) = true -> clean_labels s -> clean_labels (put_slot owner slot s).
Proof. intros Hl Hs. by apply map_Forall_insert_2. Qed.

Lemma clean_ClaimSlot req s s' r : clean_labels s -> ClaimSlot req s = (s', r) ->
  clean_labels s' /\
  match r with
  | Ok res => utf8_ValidString (slot_Label (cres_Slot res)) = true /\
      match cres_Replaced res with Some old => utf8_ValidString (slot_Label old) = true | None => True end
  | Err _ => True
  end.
Proof.
  intros Hs. unfold ClaimSlot. destruct (slots s !! cl_Owner req) as [slot|] eqn:E.
  - destruct (bool_decide _); intros [= <- <-]; simpl; [|split; [by apply clean_put_slot|]];
      split_and!; try done; exact (Hs _ _ E).
  - intros [= <- <-]. split; [by apply clean_put_slot|done].
Qed.

Lemma clean_SetSlotLabel owner subject label s s' r :
  utf8_ValidString label = true -> clean_labels s -> SetSlotLabel owner subject label s = (s', r) ->
  clean_labels s' /\ match r with Ok slot => utf8_ValidString (slot_Label slot) = true | Err _ => True end.
Proof.
  intros Hl Hs. unfold SetSlotLabel. destruct (slots s !! owner) as [slot|]; [|by intros [= <- <-]].
  destruct (negb _); intros [= <- <-]; [done|]. split; [by apply clean_put_slot|done].
Qed.

(** Calls on a database leave the slots alone. *)
Lemma database_call_slots o s :
  match o with
  | OpOpen _ _ | OpFetch _ _ _ _ | OpCommit _ | OpChanges _ _ | OpRenew _ _ _ _ | OpRelease _ _ | OpDelete _ => True
  | _ => False
  end -> slots (step o s).1 = slots s.
Proof.
  destruct o; intros Ho; try done; cbn.
  - unfold Open, open_lease. repeat case_match; by simplify_eq/=.
  - unfold Commit. repeat case_match; by simplify_eq/=.
  - unfold Renew. repeat case_match; by simplify_eq/=.
  - unfold Release. repeat case_match; by simplify_eq/=.
  - unfold Delete. repeat case_match; by simplify_eq/=.
Qed.

Lemma clean_DeleteSlot owner subject s : clean_labels s -> clean_labels (DeleteSlot owner subject s).1.
Proof.
  intros Hs. unfold DeleteSlot. destruct (slots s !! owner); [destruct (negb _)|]; simpl; try done.
  by apply map_Forall_delete.
Qed.

(** ** A connection *)

(** What a frame of a session must satisfy beside the ranges of its numbers in [ConnTyped.v]. *)
Definition clean_server (f : pb.ServerFrame) : Prop :=
  in_u64 (pb.ServerFrame_RequestId f) /\
  match pb.ServerFrame_Body f with
  | pb.ServerFrame_Slot m =>
      utf8_ValidString (pb.Slot_Label m) = true /\ utf8_ValidString (pb.Slot_ReplacedLabel m) = true
  | pb.ServerFrame_Pages m => in_u64 (pb.Pages_FirstBlock m)
  | pb.ServerFrame_HelloOk _ | pb.ServerFrame_Challenge _ | pb.ServerFrame_LeaseRevoked _ => False
  | _ => True
  end.

Definition clean_push (p : push) : Prop := utf8_ValidString (pb.LeaseRevoked_DbId (p_frame p)) = true.

Definition clean_holders (m : gmap Key holder) : Prop := map_Forall (fun k _ => utf8_ValidString (DBID k) = true) m.

(** The strings of a frame from the client that the code does not check itself. *)
Definition clean_client (f : pb.ClientFrame) : Prop :=
  in_u64 (pb.ClientFrame_RequestId f) /\
  match pb.ClientFrame_Body f with
  | pb.ClientFrame_SetSlotLabel m => utf8_ValidString (pb.SetSlotLabel_Label m) = true
  | _ => True
  end.

Section clean.
(** The frames of the login come first. *)
Variable login : list pb.ServerFrame.

Record clean (w : world MemStore) : Prop := {
  clean_w_labels : clean_labels (w_store w);
  clean_w_holders : clean_holders (w_holders w);
  clean_w_sent : exists rest, w_sent w = login ++ rest /\ Forall clean_server rest;
  clean_w_pushes : Forall clean_push (w_pushes w) }.

Lemma clean_send f w : clean_server f -> clean w -> clean (send f w).
Proof.
  intros Hf []. constructor; simpl; try done. destruct clean_w_sent0 as (rest & -> & Hr).
  exists (rest ++ [f]). split; [by rewrite app_assoc|]. apply Forall_app. split; [done|by apply Forall_singleton].
Qed.

Lemma clean_error id e : in_u64 id -> clean_server (errorFrame id e).
Proof. intros Hid. destruct e as [[]| | | | |]; by split. Qed.

Lemma clean_fail id e w : in_u64 id -> clean w -> clean (fail id e w).
Proof. intros Hid. by apply clean_send, clean_error. Qed.

Lemma clean_set_dbs m w : clean w -> clean (set_dbs m w).
Proof. by intros []. Qed.

Lemma clean_set_db i db w : clean w -> clean (set_db i db w).
Proof. apply clean_set_dbs. Qed.

Lemma clean_called {A} o (r : MemStore * A) w : clean_labels r.1 -> clean w -> clean (called o r w).2.
Proof. intros Hr []. by constructor. Qed.

(** A call on a database. *)
Lemma clean_database_call {A} o (r : MemStore * A) mk w :
  match o with
  | OpOpen _ _ | OpFetch _ _ _ _ | OpCommit _ | OpChanges _ _ | OpRenew _ _ _ _ | OpRelease _ _ | OpDelete _ => True
  | _ => False
  end -> step o (w_store w) = (r.1, mk r.2) -> clean w -> clean (called o r w).2.
Proof.
  intros Ho Hst Hw. apply clean_called; [|done]. apply (clean_same (w_store w)); [|apply Hw].
  by rewrite <- (database_call_slots o (w_store w) Ho), Hst.
Qed.

(** The functions on the table of holders. *)
Definition clean_update (f : gmap Key holder -> gmap Key holder * list push) : Prop :=
  forall m, clean_holders m -> clean_holders (f m).1 /\ Forall clean_push (f m).2.

Lemma clean_with_holders f w : clean_update f -> clean w -> clean (with_holders f w).
Proof.
  intros Hf []. unfold with_holders. destruct (Hf _ clean_w_holders0) as [Hm Hp].
  destruct (f (w_holders w)) as [m ps]. constructor; simpl in *; try done. by apply Forall_app.
Qed.

Lemma clean_set k e own : utf8_ValidString (DBID k) = true -> clean_update (holders_set k e own).
Proof.
  intros Hk m Hm. unfold holders_set. simpl. split; [by apply map_Forall_insert_2|].
  repeat case_match; try done. by apply Forall_singleton.
Qed.

Lemma clean_remove k own : clean_update (fun m => (holders_remove k own m, [])).
Proof.
  intros m Hm. split; [|done]. simpl. unfold holders_remove. repeat case_match; try done. by apply map_Forall_delete.
Qed.

Lemma clean_purge k : clean_update (holders_purge k).
Proof.
  intros m Hm. unfold holders_purge. destruct (m !! k) eqn:E; [|by split]. split; [by apply map_Forall_delete|].
  apply Forall_singleton. exact (Hm _ _ E).
Qed.

Lemma clean_revoke k e : clean_update (holders_revoke k e).
Proof.
  intros m Hm. unfold holders_revoke. destruct (m !! k) eqn:E; [|by split]. split; [by apply map_Forall_delete|].
  simpl. destruct (_ <? _); [|done]. apply Forall_singleton. exact (Hm _ _ E).
Qed.

Lemma clean_purge_all keys : forall w, clean w -> clean (purge_all keys w).
Proof.
  unfold purge_all. induction keys as [|k keys IH]; intros w Hw; simpl; [done|].
  apply IH, clean_with_holders; [apply clean_purge|done].
Qed.
Hint Resolve clean_fail clean_set_dbs clean_set_db clean_with_holders clean_set clean_remove clean_purge clean_revoke
  clean_purge_all : go.

Lemma checkDBID_clean i : checkDBID i = None -> utf8_ValidString i = true.
Proof. unfold checkDBID. destruct (_ || _) eqn:E; [done|]. by bool_hyps. Qed.

(** ** Every frame *)

Variable opts : Options.
Variable c : session.

(** The result of a database call and the clean world after it. *)
Ltac db_call mk :=
  match goal with |- context [called ?o ?r ?w] =>
    let res := fresh "res" in let w' := fresh "w'" in let E := fresh "E" in let Hw' := fresh "Hw'" in
    assert (clean (called o r w).2) as Hw' by
      (apply (clean_database_call o r mk); [done|cbn; by repeat case_match|eauto with go]);
    destruct (called o r w) as [res w'] eqn:E; cbn [snd] in Hw'; destruct res
  end.

Lemma clean_open newID now id req w : in_u64 id -> clean w -> clean (open opts c newID now id req w).
Proof.
  intros Hid Hw. unfold open. destruct (checkDBID _) eqn:Hc; [eauto with go|]. apply checkDBID_clean in Hc.
  destruct (w_dbs w !! _); [eauto with go|]. unfold call_Open. db_call AOpen; [|eauto with go].
  apply clean_send; [by split|]. eauto with go.
Qed.

Lemma clean_changed id req w : in_u64 id -> clean w -> clean (changed opts id req w).
Proof.
  intros Hid Hw. unfold changed. destruct (w_dbs w !! _); [|eauto with go]. unfold call_Changes.
  db_call AChanges; [|eauto with go]. by apply clean_send; [split|].
Qed.

Lemma clean_closeDB id req w : in_u64 id -> clean w -> clean (closeDB c id req w).
Proof.
  intros Hid Hw. unfold closeDB. destruct (w_dbs w !! _); [|eauto with go]. unfold call_Release.
  db_call ARelease; [|eauto with go]. apply clean_send; [by split|]. eauto with go.
Qed.

Lemma clean_deleteDB now id req w : in_u64 id -> clean w -> clean (deleteDB c now id req w).
Proof.
  intros Hid Hw. unfold deleteDB. destruct (checkDBID _); [eauto with go|].
  destruct (w_dbs w !! _); [eauto with go|]. unfold call_Delete. db_call ADelete; [|eauto with go].
  apply clean_send; [by split|]. destruct (_ <? _); eauto with go.
Qed.

Lemma clean_commit now id req w : in_u64 id -> clean w -> clean (commit opts now id req w).
Proof.
  intros Hid Hw. unfold commit. destruct (w_dbs w !! _) as [db|]; [|eauto with go].
  destruct (negb _); [eauto with go|]. destruct (pending_for _ _); [|eauto with go].
  destruct (_ <? _); [eauto with go|]. destruct (pb.Commit_More req); [eauto with go|]. unfold call_Commit.
  db_call ACommit; [|eauto with go]. apply clean_send; [by split|]. eauto with go.
Qed.

Lemma clean_ping order now id req w : in_u64 id -> clean w -> clean (ping opts order now id req w).
Proof.
  intros Hid Hw. unfold ping. apply clean_send; [by split|]. revert w Hw.
  induction order as [|i order IH]; intros w Hw; simpl; [done|]. apply IH. unfold ping_one.
  destruct (w_dbs w !! i); [|done]. destruct (negb _); [done|]. unfold call_Renew. db_call ARenew; eauto with go.
Qed.

Lemma clean_claimSlot now id w : in_u64 id -> clean w -> clean (claimSlot c now id w).
Proof.
  intros Hid Hw. unfold claimSlot. destruct (bool_decide _); [eauto with go|]. unfold call_ClaimSlot, called. cbn.
  destruct (ClaimSlot _ (w_store w)) as [s' r] eqn:E.
  destruct (clean_ClaimSlot _ _ _ _ (clean_w_labels _ Hw) E) as [Hs Hr]. cbn.
  assert (clean (called (OpClaimSlot (mkClaimRequest (owner c) (subject c) now)) (s', r) w).2) as Hw'
    by (by apply clean_called). destruct r as [res|e]; [|by apply clean_fail].
  destruct Hr as [H1 H2]. apply clean_send; [|by apply clean_purge_all]. split; [done|]. simpl.
  split; [done|]. by destruct (cres_Replaced res).
Qed.

Lemma clean_setSlotLabel id req w :
  utf8_ValidString (pb.SetSlotLabel_Label req) = true -> in_u64 id -> clean w -> clean (setSlotLabel c id req w).
Proof.
  intros Hl Hid Hw. unfold setSlotLabel. destruct (bool_decide _); [eauto with go|].
  destruct (_ <? _); [eauto with go|]. unfold call_SetSlotLabel, called. cbn.
  destruct (SetSlotLabel _ _ _ (w_store w)) as [s' r] eqn:E.
  destruct (clean_SetSlotLabel _ _ _ _ _ _ Hl (clean_w_labels _ Hw) E) as [Hs Hr]. cbn.
  assert (clean (called (OpSetSlotLabel (owner c) (subject c) (pb.SetSlotLabel_Label req)) (s', r) w).2) as Hw'
    by (by apply clean_called). destruct r as [slot|e]; [|by apply clean_fail]. by apply clean_send; [split|].
Qed.

Lemma clean_deleteSlot id w : in_u64 id -> clean w -> clean (deleteSlot c id w).
Proof.
  intros Hid Hw. unfold deleteSlot. destruct (bool_decide _); [eauto with go|].
  destruct (negb _); [eauto with go|]. unfold call_DeleteSlot, called. cbn.
  pose proof (clean_DeleteSlot (owner c) (subject c) _ (clean_w_labels _ Hw)) as Hs.
  destruct (DeleteSlot _ _ _) as [s' r]. cbn in *.
  assert (clean (called (OpDeleteSlot (owner c) (subject c)) (s', r) w).2) as Hw' by (by apply clean_called).
  destruct r as [keys|e]; [|by apply clean_fail]. apply clean_send; [by split|]. by apply clean_purge_all.
Qed.

(** The frames of a fetch start at 64-bit indexes. *)
Lemma pages_of_run_first per r lastRun blocks fuel : forall start frames,
  pages_of_run fuel per r lastRun start blocks = Some frames ->
  Forall (fun p => in_u64 (pb.Pages_FirstBlock p)) frames.
Proof.
  induction fuel as [|fuel IH]; intros start frames H; [done|]. cbn in H.
  destruct (_ =? _); [injection H as <-; apply Forall_singleton, u64_range|].
  destruct (pages_of_run fuel _ _ _ _ _) eqn:E; simplify_eq/=. constructor; [apply u64_range|by eapply IH].
Qed.

Lemma pages_of_runs_first per runs : forall frames,
  pages_of_runs per runs = Some frames -> Forall (fun p => in_u64 (pb.Pages_FirstBlock p)) frames.
Proof.
  induction runs as [|[r blocks] runs IH]; intros frames H; [by simplify_eq/=|]. cbn [pages_of_runs] in H.
  destruct (pages_of_run _ _ _ _ _ _) as [f1|] eqn:E; [|done]. apply pages_of_run_first in E. simpl in H.
  destruct (pages_of_runs per runs) as [f2|]; simplify_eq/=. apply Forall_app. split; [done|by apply IH].
Qed.

Lemma clean_send_pages id frames : forall w,
  in_u64 id -> Forall (fun p => in_u64 (pb.Pages_FirstBlock p)) frames -> clean w -> clean (send_pages id frames w).
Proof.
  unfold send_pages. induction frames as [|f frames IH]; intros w Hid Hf Hw; simpl; [done|].
  apply Forall_cons in Hf as [? ?]. apply IH; [done..|]. by apply clean_send; [split|].
Qed.

Lemma clean_fetch_runs k ver ranges : forall w, clean w -> clean (fetch_runs k ver ranges w).2.
Proof.
  induction ranges as [|r ranges IH]; intros w Hw; cbn [fetch_runs]; [done|]. unfold call_Fetch.
  db_call AFetch; [|done]. specialize (IH _ Hw'). by destruct (fetch_runs _ _ ranges _).
Qed.

Lemma clean_fetch id req w : in_u64 id -> clean w -> clean (fetch opts id req w).
Proof.
  intros Hid Hw. unfold fetch. destruct (w_dbs w !! _) as [db|]; [|eauto with go].
  destruct (_ <? _); [eauto with go|]. destruct (negb _); [eauto with go|].
  pose proof (clean_fetch_runs (o_key db) (pb.Fetch_Version req) (ranges_of req) w Hw) as Hf.
  destruct (fetch_runs _ _ _ w) as [[runs|e] w']; [|destruct (is_panic e); [done|by apply clean_fail]].
  destruct (pages_of_runs _ _) as [frames|] eqn:E; [|done]. apply clean_send_pages; [done| |done].
  by eapply pages_of_runs_first.
Qed.

Lemma clean_handle e frame w : clean_client frame -> clean w -> clean (handle opts c e frame w).
Proof.
  intros [Hid Hl] Hw. unfold handle. destruct (_ =? 0); [by apply clean_fail|].
  destruct (pb.ClientFrame_Body frame);
    first [ by apply clean_fail | by apply clean_open | by apply clean_fetch | by apply clean_commit
          | by apply clean_ping | by apply clean_closeDB | by apply clean_deleteDB | by apply clean_changed
          | by apply clean_claimSlot | by apply clean_deleteSlot | by apply clean_setSlotLabel ].
Qed.
End clean.
