(* ===== verification/ConnTyped.v ===== *)
(** * Well-typed frames, and one connection on two stores

    [typed_body] says what the protobuf decoder guarantees of a frame: every number fits its field.
    [sim] relates the connection on some store to the same connection on the memory store: the
    stores are related, everything else is equal, and all numbers the server keeps and sends are
    in range (those after the first [skip] frames, which the login sent).  Handling a well-typed
    frame keeps it.  The proof is generic in the relation of the
    stores; the instances are at the end of the file and in [ConnPostgres.v]. *)

From S2P Require Import Prelude Store StoreFacts Memory Trace MemoryInv MemoryStep MemoryCommit Typed PgLease PgRefine Samples MemoryLease MemorySlots Messages Connection ConnFacts ConnFetch ConnSamples.

Local Open Scope Z_scope.

(** ** Frames of the client *)

Definition typed_range (r : pb.Range) : Prop := in_u64 (pb.Range_FirstBlock r) /\ in_u64 (pb.Range_Count r).

Definition typed_body (b : pb.ClientBody) : Prop :=
  match b with
  | pb.ClientFrame_Open m =>
      in_u32 (pb.Open_PageSize m) /\
      match pb.Open_Resume m with Some r => in_u64 (pb.Resume_LeaseEpoch r) | None => True end
  | pb.ClientFrame_Fetch m =>
      in_u64 (pb.Fetch_Version m) /\ in_u64 (pb.Fetch_FirstBlock m) /\ in_u64 (pb.Fetch_Count m) /\
      Forall typed_range (pb.Fetch_Ranges m)
  | pb.ClientFrame_Commit m =>
      in_u64 (pb.Commit_LeaseEpoch m) /\ in_u64 (pb.Commit_BaseVersion m) /\ in_u64 (pb.Commit_PageCount m) /\
      Forall (fun b => in_u64 (pb.Block_Index b)) (pb.Commit_Blocks m)
  | pb.ClientFrame_Changed m => in_u64 (pb.Changed_FromVersion m)
  | pb.ClientFrame_CloseDb m => in_u64 (pb.CloseDb_LeaseEpoch m)
  | pb.ClientFrame_Ping m => in_u64 (pb.Ping_ClientTimeMs m)
  | _ => True
  end.

(** ** Frames of the server *)

Definition typed_server (f : pb.ServerFrame) : Prop :=
  match pb.ServerFrame_Body f with
  | pb.ServerFrame_Opened m =>
      in_u64 (pb.Opened_LeaseEpoch m) /\ in_u64 (pb.Opened_Version m) /\ in_u64 (pb.Opened_PageCount m) /\
      ValidPageSize (pb.Opened_PageSize m) = true
  | pb.ServerFrame_Pages m =>
      exists size, ValidPageSize size = true /\ Forall (fun b => zlen b = size) (pb.Pages_Blocks m)
  | pb.ServerFrame_CommitAck m => in_u64 (pb.CommitAck_Version m)
  | pb.ServerFrame_Pong m => in_u64 (pb.Pong_ClientTimeMs m)
  | pb.ServerFrame_Changes m =>
      in_u64 (pb.Changes_FromVersion m) /\ in_u64 (pb.Changes_ToVersion m) /\
      pb.Changes_FromVersion m <= pb.Changes_ToVersion m /\
      Forall in_u64 (pb.Changes_Blocks m) /\ StronglySorted Z.lt (pb.Changes_Blocks m)
  | pb.ServerFrame_Slot m => in_u64 (pb.Slot_ClaimedAtMs m)
  | pb.ServerFrame_Error m => in_u64 (pb.Error_CurrentVersion m) /\ in_u64 (pb.Error_LeaseHolderSinceMs m)
  | _ => True
  end.

Definition typed_push (p : push) : Prop := in_u64 (pb.LeaseRevoked_NewLeaseEpoch (p_frame p)).

(** The number of store calls a frame can lead to. *)
Definition frame_calls (e : env) (b : pb.ClientBody) : Z :=
  match b with
  | pb.ClientFrame_Fetch m => zlen (ranges_of m)
  | pb.ClientFrame_Ping _ => zlen (map_order e)
  | _ => 1
  end.

Lemma frame_calls_nonneg e b : 0 <= frame_calls e b.
Proof. unfold frame_calls. destruct b; try lia; apply zlen_nonneg. Qed.

Lemma typed_error_frame id e :
  match e with StoreError e => typed_error e | _ => True end -> typed_server (errorFrame id e).
Proof.
  destruct e as [[]| | | | |]; simpl; intros He; split; try done; try zlia; apply u64_range.
Qed.

Lemma typed_gone id e : typed_error e -> typed_server (errorFrame id (gone e)).
Proof. intros He. apply typed_error_frame. by destruct e. Qed.
#[export] Hint Resolve typed_error_frame typed_gone : go.

(** Answers of one kind are equal if what they carry is. *)
#[export] Instance AOpen_inj : Inj (=) (=) AOpen. Proof. by intros ?? [= ->]. Qed.
#[export] Instance AFetch_inj : Inj (=) (=) AFetch. Proof. by intros ?? [= ->]. Qed.
#[export] Instance ACommit_inj : Inj (=) (=) ACommit. Proof. by intros ?? [= ->]. Qed.
#[export] Instance AChanges_inj : Inj (=) (=) AChanges. Proof. by intros ?? [= ->]. Qed.
#[export] Instance ARenew_inj : Inj (=) (=) ARenew. Proof. by intros ?? [= ->]. Qed.
#[export] Instance ARelease_inj : Inj (=) (=) ARelease. Proof. by intros ?? [= ->]. Qed.
#[export] Instance ADelete_inj : Inj (=) (=) ADelete. Proof. by intros ?? [= ->]. Qed.
#[export] Instance AClaimSlot_inj : Inj (=) (=) AClaimSlot. Proof. by intros ?? [= ->]. Qed.
#[export] Instance ASetSlotLabel_inj : Inj (=) (=) ASetSlotLabel. Proof. by intros ?? [= ->]. Qed.
#[export] Instance ADeleteSlot_inj : Inj (=) (=) ADeleteSlot. Proof. by intros ?? [= ->]. Qed.

Lemma elem_of_snd_zip {A B} (l : list A) (k : list B) x : x ∈ (zip l k).*2 -> x ∈ k.
Proof.
  revert k. induction l as [|a l IH]; intros [|b k]; simpl; try set_solver.
Qed.

Section sim.
Context {S' : Type} `{StoreAPI S'}.
Variables (R : S' -> MemStore -> Prop) (strict : Prop) (bound : Z).
Hypothesis bound_ok : bound <= two64 - 1.
Hypothesis step_R : forall n o t s,
  0 <= n < bound -> wf_store n s -> R t s -> legal o s -> (strict -> in_range o) ->
  (step o t).2 = (step o s).2 /\ R (step o t).1 (step o s).1.
Variable s0 : MemStore.
Variable skip : nat.
Variable opts : Options.
Variable c : session.
Hypothesis ttl_ok : strict -> aligned (LeaseTTL opts).
Hypothesis session_ok : strict -> texts [owner c; subject c].

(** ** The state of a connection *)

Definition typed_pending (p : pendingCommit) : Prop :=
  in_u64 (h_LeaseEpoch (header p)) /\ in_u64 (h_BaseVersion (header p)) /\ in_u64 (h_PageCount (header p)) /\
  (strict -> h_PageCount (header p) < two63) /\ Forall wf_block (p_blocks p).

Definition typed_db (db : openDB) : Prop :=
  in_u64 (o_epoch db) /\ match o_pending db with Some p => typed_pending p | None => True end /\
  (strict -> texts [Subject (o_key db); DBID (o_key db)]).

Record sim (n : Z) (w : world S') (v : world MemStore) : Prop := {
  sim_store : R (w_store w) (w_store v);
  sim_wf : wf_store n (w_store v);
  sim_steps : exists answers, steps (w_calls v) s0 answers (w_store v);
  sim_calls : w_calls w = w_calls v;
  sim_holders : w_holders w = w_holders v;
  sim_dbs : w_dbs w = w_dbs v;
  sim_sent : w_sent w = w_sent v;
  sim_pushes : w_pushes w = w_pushes v;
  sim_typed_dbs : map_Forall (fun _ => typed_db) (w_dbs v);
  sim_typed_holders : map_Forall (fun _ h => in_u64 (h_epoch h)) (w_holders v);
  sim_typed_sent : Forall typed_server (drop skip (w_sent v));
  sim_typed_pushes : Forall typed_push (w_pushes v) }.

Lemma sim_mono n m w v : n <= m -> sim n w v -> sim m w v.
Proof. intros Hle []. constructor; try done. by eapply wf_store_mono. Qed.

(** ** Effects *)

Lemma sim_send n f w v : typed_server f -> sim n w v -> sim n (send f w) (send f v).
Proof.
  intros Hf []. constructor; simpl; try done; [by f_equal|].
  rewrite drop_app. apply Forall_app. split; [done|]. apply Forall_drop. by repeat constructor.
Qed.

Lemma sim_bad n id text w v : sim n w v -> sim n (fail id (bad text) w) (fail id (bad text) v).
Proof. apply sim_send. by apply typed_error_frame. Qed.

Lemma sim_gone n id e w v : typed_error e -> sim n w v -> sim n (fail id (gone e) w) (fail id (gone e) v).
Proof. intros. apply sim_send; eauto with go. Qed.

Lemma sim_fail n id e w v :
  typed_error e -> sim n w v -> sim n (fail id (StoreError e) w) (fail id (StoreError e) v).
Proof. intros. apply sim_send; eauto with go. Qed.

Lemma sim_set_dbs n m w v :
  map_Forall (fun _ => typed_db) m -> sim n w v -> sim n (set_dbs m w) (set_dbs m v).
Proof. by intros Hm []. Qed.

Lemma sim_set_db n i db w v : typed_db db -> sim n w v -> sim n (set_db i db w) (set_db i db v).
Proof.
  intros Hdb Hs. unfold set_db. rewrite (sim_dbs _ _ _ Hs). apply sim_set_dbs; [|done].
  apply map_Forall_insert_2; [done|apply Hs].
Qed.

(** A function on the table of holders that keeps its numbers in range. *)
Definition typed_update (f : gmap Key holder -> gmap Key holder * list push) : Prop :=
  forall m, map_Forall (fun _ h => in_u64 (h_epoch h)) m ->
    map_Forall (fun _ h => in_u64 (h_epoch h)) (f m).1 /\ Forall typed_push (f m).2.

Lemma sim_holders_update n f w v :
  typed_update f -> sim n w v -> sim n (with_holders f w) (with_holders f v).
Proof.
  intros Hf []. unfold with_holders. rewrite sim_holders0.
  destruct (Hf _ sim_typed_holders0) as [Hm Hp]. destruct (f (w_holders v)) as [m ps].
  constructor; simpl in *; try done; [by f_equal|by apply Forall_app].
Qed.

Lemma typed_set k e own : in_u64 e -> typed_update (holders_set k e own).
Proof.
  intros He m Hm. unfold holders_set. simpl. split; [by apply map_Forall_insert_2|].
  repeat case_match; constructor; done.
Qed.

Lemma typed_remove k own : typed_update (fun m => (holders_remove k own m, [])).
Proof.
  intros m Hm. split; [|constructor]. simpl. unfold holders_remove.
  repeat case_match; try done. by apply map_Forall_delete.
Qed.

Lemma typed_purge k : typed_update (holders_purge k).
Proof.
  intros m Hm. unfold holders_purge. destruct (m !! k); [|split; [done|constructor]]. split.
  - by apply map_Forall_delete.
  - constructor; [apply u64_range|constructor].
Qed.

Lemma typed_revoke k e : in_u64 e -> typed_update (holders_revoke k e).
Proof.
  intros He m Hm. unfold holders_revoke. destruct (m !! k); [|split; [done|constructor]]. split.
  - by apply map_Forall_delete.
  - simpl. destruct (_ <? _); constructor; done || constructor.
Qed.
Hint Resolve typed_set typed_remove typed_purge typed_revoke sim_send sim_bad sim_fail sim_gone sim_set_db
  sim_holders_update : go.

Lemma sim_purge_all n keys : forall w v, sim n w v -> sim n (purge_all keys w) (purge_all keys v).
Proof.
  unfold purge_all. induction keys as [|k keys IH]; intros w v Hs; simpl; [done|]. apply IH. eauto with go.
Qed.

Lemma sim_send_pages n id frames : forall w v,
  Forall (fun p => typed_server (pb.mkServerFrame id (pb.ServerFrame_Pages p))) frames ->
  sim n w v -> sim n (send_pages id frames w) (send_pages id frames v).
Proof.
  unfold send_pages. induction frames as [|f frames IH]; intros w v Hf Hs; simpl; [done|].
  apply Forall_cons in Hf as [? ?]. apply IH; [done|]. by apply sim_send.
Qed.

(** A call to both stores: the same answer, of the type of the call. *)
Lemma sim_called {A} (mk : A -> answer) `{!Inj (=) (=) mk} n o (rt : S' * A) (rs : MemStore * A) w v :
  step o (w_store w) = (rt.1, mk rt.2) -> step o (w_store v) = (rs.1, mk rs.2) ->
  sim n w v -> 0 <= n < bound -> legal o (w_store v) -> (strict -> in_range o) ->
  exists a, called o rt w = (a, (called o rt w).2) /\ called o rs v = (a, (called o rs v).2) /\
    typed_answer o (mk a) /\ sim (n + 1) (called o rt w).2 (called o rs v).2.
Proof.
  intros Et Es [] Hn Hl Hi. destruct (step_R n o (w_store w) (w_store v)) as [Ha Hr]; [done..|].
  pose proof (step_typed n (w_store v) ltac:(lia) sim_wf0 o Hl) as Ht.
  assert (wf_store (n + 1) rs.1) as Hwf by (apply (wf_step n o (w_store v) _ (mk rs.2)); [lia|done..]).
  rewrite Et, Es in Ha, Hr. rewrite Es in Ht. simpl in *. apply (inj mk) in Ha.
  exists rs.2. split_and!; [by rewrite <- Ha|done|done|].
  constructor; simpl; try done; [|by f_equal].
  destruct sim_steps0 as [answers Hst]. exists (answers ++ [mk rs.2])%list. eapply steps_app; [done|].
  econstructor; [done..|constructor].
Qed.

(** ** Every frame *)

(** [step] of a call, as the call. *)
Ltac one_step :=
  cbn [step];
  lazymatch goal with
  | |- (let '(_, _) := ?x in _) = _ => destruct x
  | _ => idtac
  end.

(** Both connections make the same call. *)
Ltac sim_call mk Hs :=
  match type of Hs with sim ?n ?w ?v =>
    match goal with |- context [called ?o ?rt w] =>
      match goal with |- context [called o ?rs v] =>
        let a := fresh "a" in let E1 := fresh in let E2 := fresh in
        let Ht := fresh "Ht" in let Hn := fresh "Hn" in
        destruct (sim_called mk n o rt rs w v) as (a & E1 & E2 & Ht & Hn);
        [ by one_step | by one_step | exact Hs | done | ..
        | rewrite E1, E2; clear E1 E2; destruct a as [a|a] ]
      end
    end
  end.

Lemma sim_checkDBID n id dbID e w v :
  checkDBID dbID = Some e -> sim n w v -> sim n (fail id e w) (fail id e v).
Proof. unfold checkDBID. intros He. destruct (_ || _); simplify_eq/=. apply sim_bad. Qed.

(** The texts of a database of the session. *)
Lemma key_texts dbID : strict -> text_ok dbID = true -> texts [subject c; dbID].
Proof.
  intros Hst Hi. destruct (texts_cons _ _ (session_ok Hst)) as [_ Hs]. apply (texts_app [_] [_]); [done|].
  unfold texts. simpl. by rewrite Hi.
Qed.

Lemma sim_open n newID now id req w v :
  sim n w v -> 0 <= n < bound -> typed_body (pb.ClientFrame_Open req) ->
  (strict -> aligned now /\ text_ok (pb.Open_DbId req) = true) ->
  sim (n + 1) (open opts c newID now id req w) (open opts c newID now id req v).
Proof.
  intros Hs Hn Hb Hnow. assert (sim (n + 1) w v) as Hs' by (apply (sim_mono n); [lia|done]). unfold open.
  destruct (checkDBID _) as [e|] eqn:Hc; [by eapply sim_checkDBID|].
  rewrite (sim_dbs _ _ _ Hs). destruct (w_dbs v !! _); [by apply sim_bad|].
  unfold call_Open. sim_call AOpen Hs.
  - destruct Hb as [? Hr]. split; [done|]. simpl. by destruct (pb.Open_Resume req).
  - intros Hst. destruct (Hnow Hst) as [Ha Hi]. destruct (texts_cons _ _ (session_ok Hst)) as [Ho _].
    split; [|split; [done|by apply ttl_ok]]. exact (texts_app [_] _ Ho (key_texts _ Hst Hi)).
  - destruct Ht as (? & ? & ? & ?). apply sim_send; [done|]. apply sim_holders_update; [by apply typed_set|].
    apply sim_set_db; [|done]. split_and!; [done|done|]. intros Hst. apply key_texts; [done|]. by apply Hnow.
  - by apply sim_fail.
Qed.

(** The open database of a request, on both. *)
Ltac sim_db Hs Hs' :=
  rewrite (sim_dbs _ _ _ Hs);
  match goal with |- context [w_dbs ?v !! ?i] =>
    let db := fresh "db" in let Hdb := fresh "Hdb" in
    destruct (w_dbs v !! i) as [db|] eqn:Hdb; [|by apply sim_bad];
    pose proof (sim_typed_dbs _ _ _ Hs _ _ Hdb) as Htdb
  end.

Lemma sim_changed n id req w v :
  sim n w v -> 0 <= n < bound -> typed_body (pb.ClientFrame_Changed req) ->
  sim (n + 1) (changed opts id req w) (changed opts id req v).
Proof.
  intros Hs Hn Hb. assert (sim (n + 1) w v) as Hs' by (apply (sim_mono n); [lia|done]).
  unfold changed. sim_db Hs Hs'. unfold call_Changes. sim_call AChanges Hs; [done|intros ?; by split; [apply Htdb|]| |by apply sim_gone].
  destruct Ht as (Hf & Hle & Hto & Hall & Hsort). apply sim_send; [|done].
  destruct (changesPerFrame opts <? zlen (cs_Blocks a)); unfold typed_server; simpl; rewrite ?Hf;
    split_and!; try done; constructor.
Qed.

Lemma sim_closeDB n id req w v :
  sim n w v -> 0 <= n < bound -> typed_body (pb.ClientFrame_CloseDb req) ->
  sim (n + 1) (closeDB c id req w) (closeDB c id req v).
Proof.
  intros Hs Hn Hb. assert (sim (n + 1) w v) as Hs' by (apply (sim_mono n); [lia|done]).
  unfold closeDB. sim_db Hs Hs'. unfold call_Release. sim_call ARelease Hs; [done|intros ?; by split; [apply Htdb|]| |by apply sim_fail].
  apply sim_send; [done|]. apply sim_holders_update; [apply typed_remove|].
  rewrite (sim_dbs _ _ _ Hn0). apply sim_set_dbs; [|done]. apply map_Forall_delete, Hs.
Qed.

Lemma sim_deleteDB n now id req w v :
  sim n w v -> 0 <= n < bound -> (strict -> text_ok (pb.Delete_DbId req) = true) ->
  sim (n + 1) (deleteDB c now id req w) (deleteDB c now id req v).
Proof.
  intros Hs Hn Htx. assert (sim (n + 1) w v) as Hs' by (apply (sim_mono n); [lia|done]). unfold deleteDB.
  destruct (checkDBID _) as [e|] eqn:Hc; [by eapply sim_checkDBID|].
  rewrite (sim_dbs _ _ _ Hs). destruct (w_dbs v !! _); [by apply sim_bad|].
  unfold call_Delete. sim_call ADelete Hs; [done|intros ?; split; [apply key_texts; auto|done]| |by apply sim_fail].
  apply sim_send; [done|]. destruct (0 <? _); [|done]. apply sim_holders_update; [by apply typed_revoke|done].
Qed.

Lemma sim_claimSlot n now id w v :
  sim n w v -> 0 <= n < bound -> (strict -> aligned now) ->
  sim (n + 1) (claimSlot c now id w) (claimSlot c now id v).
Proof.
  intros Hs Hn Hnow. assert (sim (n + 1) w v) as Hs' by (apply (sim_mono n); [lia|done]). unfold claimSlot.
  case_bool_decide; [by apply sim_bad|]. unfold call_ClaimSlot. sim_call AClaimSlot Hs; [done|intros ?; split; [by apply session_ok|by apply Hnow]| |by apply sim_fail].
  apply sim_send; [apply u64_range|by apply sim_purge_all].
Qed.

Lemma sim_deleteSlot n id w v :
  sim n w v -> 0 <= n < bound -> sim (n + 1) (deleteSlot c id w) (deleteSlot c id v).
Proof.
  intros Hs Hn. assert (sim (n + 1) w v) as Hs' by (apply (sim_mono n); [lia|done]). unfold deleteSlot.
  case_bool_decide; [by apply sim_bad|]. rewrite (sim_dbs _ _ _ Hs). destruct (negb _); [by apply sim_bad|].
  unfold call_DeleteSlot. sim_call ADeleteSlot Hs; [done|intros ?; split; [by apply session_ok|done]| |by apply sim_fail].
  apply sim_send; [done|by apply sim_purge_all].
Qed.

Lemma sim_setSlotLabel n id req w v :
  sim n w v -> 0 <= n < bound -> (strict -> text_ok (pb.SetSlotLabel_Label req) = true) ->
  sim (n + 1) (setSlotLabel c id req w) (setSlotLabel c id req v).
Proof.
  intros Hs Hn Htx. assert (sim (n + 1) w v) as Hs' by (apply (sim_mono n); [lia|done]). unfold setSlotLabel.
  case_bool_decide; [by apply sim_bad|]. destruct (_ <? _); [by apply sim_bad|].
  unfold call_SetSlotLabel. sim_call ASetSlotLabel Hs; [done| | |by apply sim_fail].
  { intros Hst. split; [|done]. destruct (texts_cons _ _ (session_ok Hst)) as [Ho Hsu].
    apply (texts_app [_] [_; _] Ho), (texts_app [_] [_] Hsu). unfold texts. simpl. by rewrite (Htx Hst). }
  apply sim_send; [apply u64_range|done].
Qed.

Lemma sim_ping_one n now w v dbID :
  sim n w v -> 0 <= n < bound -> (strict -> aligned now) ->
  sim (n + 1) (ping_one opts now w dbID) (ping_one opts now v dbID).
Proof.
  intros Hs Hn Hnow. assert (sim (n + 1) w v) as Hs' by (apply (sim_mono n); [lia|done]). unfold ping_one.
  rewrite (sim_dbs _ _ _ Hs). destruct (w_dbs v !! dbID) as [db|] eqn:Hdb; [|done].
  pose proof (sim_typed_dbs _ _ _ Hs _ _ Hdb) as Htdb. destruct (negb _); [done|].
  unfold call_Renew. sim_call ARenew Hs; [apply Htdb|intros ?; split; [by apply Htdb|split; auto]| |done]. by apply sim_set_db.
Qed.

Lemma sim_ping n order now id req w v :
  sim n w v -> 0 <= n -> n + zlen order <= bound -> (strict -> aligned now) ->
  typed_body (pb.ClientFrame_Ping req) ->
  sim (n + zlen order) (ping opts order now id req w) (ping opts order now id req v).
Proof.
  intros Hs Hn Hb Hnow Hreq. unfold ping. apply sim_send; [done|]. clear Hreq.
  revert n w v Hs Hn Hb. unfold zlen. induction order as [|dbID order IH]; intros n w v Hs Hn Hb; simpl in *.
  - by rewrite Z.add_0_r.
  - replace (n + Z.of_nat (Datatypes.S (length order))) with ((n + 1) + Z.of_nat (length order)) by lia.
    apply IH; [|lia|lia]. apply sim_ping_one; [done|lia|done].
Qed.

(** ** Fetch *)

Lemma sim_fetch_runs k ver ranges : in_u64 ver -> (strict -> texts [Subject k; DBID k]) -> forall n w v,
  sim n w v -> 0 <= n -> n + zlen ranges <= bound -> Forall typed_range ranges ->
  exists res, fetch_runs k ver ranges w = (res, (fetch_runs k ver ranges w).2) /\
    fetch_runs k ver ranges v = (res, (fetch_runs k ver ranges v).2) /\
    sim (n + zlen ranges) (fetch_runs k ver ranges w).2 (fetch_runs k ver ranges v).2 /\
    typed_result (Forall (fun bs => exists size, ValidPageSize size = true /\ Forall (fun b => zlen b = size) bs)) res.
Proof.
  intros Hver Hk. unfold zlen. induction ranges as [|r ranges IH]; intros n w v Hs Hn Hb Hr.
  { exists (Ok []). rewrite Z.add_0_r. split_and!; done || constructor. }
  apply Forall_cons in Hr as [[Hr1 Hr2] Hr]. simpl length in *. cbn [fetch_runs]. unfold call_Fetch.
  replace (n + Z.of_nat (Datatypes.S (length ranges))) with ((n + 1) + Z.of_nat (length ranges)) by lia.
  assert (0 <= n < bound) as Hnb by lia.
  sim_call AFetch Hs; [done|intros ?; by split; [apply Hk|]| |].
  - destruct (IH (n + 1) _ _ Hn0 ltac:(lia) ltac:(lia) Hr) as (res & E1 & E2 & Hsim & Hty).
    rewrite E1, E2. exists (runs ← res; Ok (a :: runs)). split_and!; [done|done|done|].
    destruct res as [runs|e]; [|done]. constructor; [apply Ht|done].
  - exists (Err a). split_and!; [done|done| |done]. simpl. apply (sim_mono (n + 1)); [lia|done].
Qed.

Lemma typed_ranges req : typed_body (pb.ClientFrame_Fetch req) -> Forall typed_range (ranges_of req).
Proof.
  intros (_ & Hf & Hc & Hr). unfold ranges_of. destruct (pb.Fetch_Ranges req); [|done].
  constructor; [done|constructor].
Qed.

Lemma sim_fetch n id req w v :
  sim n w v -> 0 <= n -> n + zlen (ranges_of req) <= bound -> typed_body (pb.ClientFrame_Fetch req) ->
  sim (n + zlen (ranges_of req)) (fetch opts id req w) (fetch opts id req v).
Proof.
  intros Hs Hn Hb Hreq.
  assert (sim (n + zlen (ranges_of req)) w v) as Hs' by (apply (sim_mono n); [unfold zlen; lia|done]).
  unfold fetch. sim_db Hs Hs'. destruct (_ <? _); [by apply sim_bad|]. destruct (negb _); [by apply sim_bad|].
  destruct (sim_fetch_runs (o_key db) (pb.Fetch_Version req) (ranges_of req) (proj1 Hreq) (proj2 (proj2 Htdb)) n w v Hs Hn Hb
              (typed_ranges _ Hreq)) as (res & E1 & E2 & Hsim & Hty).
  rewrite E1, E2. destruct res as [runs|e]; [|destruct (is_panic e); [done|by apply sim_gone]].
  destruct (pages_of_runs_spec (perFrame opts (o_pageSize db)) (zip (ranges_of req) runs) (perFrame_pos _ _))
    as (frames & -> & _ & _ & Hin & _).
  apply sim_send_pages; [|done]. apply (Forall_impl _ _ _ Hin). intros p (bs & Hbs & Hsub).
  simpl in Hty. rewrite Forall_forall in Hty. destruct (Hty bs) as (size & Hv & Hall).
  { by apply (elem_of_snd_zip (ranges_of req)). }
  exists size. split; [done|]. simpl. apply Forall_forall. intros b Hbp. rewrite Forall_forall in Hall. auto.
Qed.

(** ** Commit *)

Lemma typed_pending_for req pending p :
  typed_body (pb.ClientFrame_Commit req) -> (strict -> pb.Commit_PageCount req < two63) ->
  match pending with Some p => typed_pending p | None => True end ->
  pending_for req pending = Some p -> typed_pending p.
Proof.
  intros (He & Hb & Hc & _) Hst Hp. unfold pending_for. destruct (_ =? 0).
  - intros [= <-]. split_and!; [done..|constructor].
  - destruct pending as [q|]; [|done]. destruct (_ || _); [done|]. by intros [= <-].
Qed.

Lemma typed_add_part req p :
  typed_body (pb.ClientFrame_Commit req) -> typed_pending p -> typed_pending (add_part req p).
Proof.
  intros (_ & _ & _ & Hbl) Hp. unfold add_part.
  assert (typed_pending (mkPending (header p) (u32 (nextPart p + 1)) (p_blocks p) (size_ p))) as Hq by done.
  revert Hq. generalize (mkPending (header p) (u32 (nextPart p + 1)) (p_blocks p) (size_ p)). clear p Hp.
  induction Hbl as [|b bl Hb Hbl IH]; intros q Hq; simpl; [done|]. apply IH.
  destruct Hq as (? & ? & ? & ? & Hall). split_and!; try done. simpl. apply Forall_app. split; [done|].
  constructor; [done|constructor].
Qed.

Lemma sim_commit n now id req w v :
  sim n w v -> 0 <= n < bound -> typed_body (pb.ClientFrame_Commit req) ->
  (strict -> aligned now /\ pb.Commit_PageCount req < two63) ->
  sim (n + 1) (commit opts now id req w) (commit opts now id req v).
Proof.
  intros Hs Hn Hb Hst. assert (sim (n + 1) w v) as Hs' by (apply (sim_mono n); [lia|done]).
  unfold commit. sim_db Hs Hs'. destruct Htdb as (Hep & Hpend & Htx).
  assert (forall m, sim m w v -> sim m (set_db (pb.Commit_DbId req) (set_pending None db) w)
            (set_db (pb.Commit_DbId req) (set_pending None db) v)) as Hdis by (intros; by apply sim_set_db).
  destruct (negb _); [by apply sim_bad, Hdis|].
  destruct (pending_for _ _) as [p|] eqn:Hp; [|by apply sim_bad, Hdis].
  apply typed_pending_for in Hp; [|done|naive_solver|done].
  apply (typed_add_part req) in Hp; [|done]. revert Hp. generalize (add_part req p). clear p. intros p Hp.
  destruct (_ <? _); [apply sim_send; [by apply typed_error_frame|by apply Hdis]|].
  destruct (pb.Commit_More req); [by apply sim_set_db|].
  apply Hdis in Hs. clear Hdis. destruct Hp as (He & Hv & Hc & Hsmall & Hbl).
  unfold call_Commit. sim_call ACommit Hs.
  - split_and!; done.
  - intros Hstr. split; [by apply Htx|]. split_and!; [by apply Hsmall|by apply Hst|by apply ttl_ok].
  - apply sim_send; [done|]. by apply sim_set_db.
  - by apply sim_gone.
Qed.

(** ** All frames *)

(** What is asked of the environment and of a frame where the ranges of columns matter.  (The strings of a
    frame are UTF-8, so text without the byte 0 is text for PostgreSQL.) *)
Definition frame_in_range (e : env) (b : pb.ClientBody) : Prop :=
  aligned (now e) /\
  match b with
  | pb.ClientFrame_Commit m => pb.Commit_PageCount m < two63
  | pb.ClientFrame_Open m => text_ok (pb.Open_DbId m) = true
  | pb.ClientFrame_Delete m => text_ok (pb.Delete_DbId m) = true
  | pb.ClientFrame_SetSlotLabel m => text_ok (pb.SetSlotLabel_Label m) = true
  | _ => True
  end.

#[export] Instance frame_in_range_decision e b : Decision (frame_in_range e b).
Proof. unfold frame_in_range, aligned. destruct b; apply _. Defined.

Lemma sim_handle n e frame w v :
  let b := pb.ClientFrame_Body frame in
  sim n w v -> 0 <= n -> n + frame_calls e b <= bound -> typed_body b -> (strict -> frame_in_range e b) ->
  sim (n + frame_calls e b) (handle opts c e frame w) (handle opts c e frame v).
Proof.
  intros b Hs Hn Hb Hty Hst. pose proof (frame_calls_nonneg e b) as Hnn.
  assert (sim (n + frame_calls e b) w v) as Hs' by (apply (sim_mono n); [lia|done]).
  unfold handle. destruct (_ =? 0); [by apply sim_bad|]. fold b. unfold frame_in_range in Hst.
  destruct b; simpl in *; try (by apply sim_bad);
    first [ apply sim_open | apply sim_fetch | apply sim_commit | apply sim_ping | apply sim_closeDB
          | apply sim_deleteDB | apply sim_changed | apply sim_claimSlot | apply sim_deleteSlot
          | apply sim_setSlotLabel ]; try done; try lia; naive_solver.
Qed.

(** Both connections panic at the same frame. *)
Lemma sim_panics n e frame w v :
  let b := pb.ClientFrame_Body frame in
  sim n w v -> 0 <= n -> n + frame_calls e b <= bound -> typed_body b -> panics frame w = panics frame v.
Proof.
  intros b Hs Hn Hb Hty. unfold panics. fold b. destruct b as [|?|req|?|?|?|?|?|?| | |?|]; try done.
  rewrite (sim_dbs _ _ _ Hs). destruct (w_dbs v !! _) as [db|] eqn:Hdb; [|done].
  pose proof (sim_typed_dbs _ _ _ Hs _ _ Hdb) as Htdb.
  destruct (sim_fetch_runs (o_key db) (pb.Fetch_Version req) (ranges_of req) (proj1 Hty) (proj2 (proj2 Htdb)) n w v Hs Hn Hb
              (typed_ranges _ Hty)) as (res & -> & -> & _). done.
Qed.

(** All frames of a session. *)
Definition frames_calls (frames : list (env * pb.ClientFrame)) : Z :=
  foldr (fun ef acc => frame_calls ef.1 (pb.ClientFrame_Body ef.2) + acc) 0 frames.

Lemma frames_calls_nonneg frames : 0 <= frames_calls frames.
Proof.
  induction frames as [|[e f] frames IH]; simpl; [lia|].
  pose proof (frame_calls_nonneg e (pb.ClientFrame_Body f)). lia.
Qed.

Lemma sim_frames leeway frames n w v :
  sim n w v -> 0 <= n -> n + frames_calls frames <= bound ->
  Forall (fun ef => typed_body (pb.ClientFrame_Body ef.2)) frames ->
  (strict -> Forall (fun ef => frame_in_range ef.1 (pb.ClientFrame_Body ef.2)) frames) ->
  (run_frames opts c leeway frames w).1 = (run_frames opts c leeway frames v).1 /\
  sim (n + frames_calls frames) (run_frames opts c leeway frames w).2 (run_frames opts c leeway frames v).2.
Proof.
  revert n w v. induction frames as [|[e f] frames IH]; intros n w v Hs Hn Hb Hty Hst; simpl in *.
  { by rewrite Z.add_0_r. }
  pose proof (frame_calls_nonneg e (pb.ClientFrame_Body f)). pose proof (frames_calls_nonneg frames).
  apply Forall_cons in Hty as [Hf Hty]. destruct (_ && _).
  { split; [done|]. apply (sim_mono n); [lia|done]. }
  rewrite (sim_panics n e f w v) by (done || lia).
  assert (sim (n + frame_calls e (pb.ClientFrame_Body f)) (handle opts c e f w) (handle opts c e f v)) as Hs'.
  { apply sim_handle; [done|lia|lia|done|]. intros Hstr. by apply Hst, Forall_cons in Hstr as [? _]. }
  rewrite Z.add_assoc. destruct (panics f v).
  { split; [done|]. simpl. apply (sim_mono (n + frame_calls e (pb.ClientFrame_Body f))); [lia|done]. }
  apply IH; [done|lia|lia|done|].
  - intros Hstr. by apply Hst, Forall_cons in Hstr as [_ ?].
Qed.
End sim.

(** ** The types of the protocol *)

Lemma memory_step n o t s :
  0 <= n < two64 - 1 -> wf_store n s -> t = s -> legal o s -> (False -> in_range o) ->
  (step o t).2 = (step o s).2 /\ (step o t).1 = (step o s).1.
Proof. by intros _ _ -> _ _. Qed.

(** A new connection to a server whose table of holders is [holders]. *)
Definition new_world {S} (s : S) (holders : gmap Key holder) : world S := mkWorld s [] holders ∅ [] [].

Definition typed_holders (m : gmap Key holder) : Prop := map_Forall (fun _ h => in_u64 (h_epoch h)) m.

(** Well-typed frames lead to well-typed calls and answers.  If the numbers in the frames of a client
    fit their protobuf fields, then over the whole session every call to the memory store is a legal
    one, so the store goes through an execution of its contract, and every number in the frames
    that the server sends and pushes fits its field: epochs, versions and page counts 64 bits,
    page sizes valid, all blocks of a frame of one valid size, change sets strictly ascending. *)
Theorem sessions_are_typed (opts : Options) (c : session) (leeway : Duration) (n : Z)
    (frames : list (env * pb.ClientFrame)) (s : MemStore) (holders : gmap Key holder) :
  wf_store n s -> 0 <= n -> n + frames_calls frames <= two64 - 1 -> typed_holders holders ->
  Forall (fun ef => typed_body (pb.ClientFrame_Body ef.2)) frames ->
  let w := (run_frames opts c leeway frames (new_world s holders)).2 in
  (exists answers, steps (w_calls w) s answers (w_store w)) /\
  Forall typed_server (w_sent w) /\ Forall typed_push (w_pushes w) /\ typed_holders (w_holders w).
Proof.
  intros Hwf Hn Hb Hh Hty w.
  destruct (sim_frames eq False (two64 - 1) (Z.le_refl _) memory_step s 0 opts c (False_ind _) (False_ind _) leeway frames n
              (new_world s holders) (new_world s holders)) as [_ Hs]; [|done|done|done|done|].
  - constructor; try done. exists []. constructor.
  - split_and!; apply Hs.
Qed.

Lemma sessions_are_typed_witness :
  Forall typed_server (w_sent (run_frames opts0 alice 0 session1 (new_world s1 ∅)).2).
Proof.
  apply (sessions_are_typed opts0 alice 0 2 session1 s1 ∅ s1_wf).
  - lia.
  - vm_compute. discriminate.
  - apply map_Forall_empty.
  - repeat constructor; vm_compute; try done; repeat constructor.
Defined.
