(* ===== verification/Login.v ===== *)
(** * Login: [src/internal/protocol/login.go] and the login part of [connection.go]

    A client proves that it holds a private key by signing a transcript with a fresh nonce; its
    subject is a hash of the public key.  The signature check and the hash are parameters, as is
    the check of an access token, which [Token.v] models. *)

From S2P Require Import Prelude Store Trace Messages Connection.

Local Open Scope Z_scope.

Definition protocol_Version : Z := 1.
Definition nonceBytes : Z := 32.
Definition defaultChallengeTTL : Duration := 30 * Second.
Definition transcriptLabel : string := "sqlite-remote-auth-v1".
Definition subjectLabel : string := "sqlite-remote-subject-v1".
Definition ed25519_PublicKeySize : Z := 32.

(** ** The transcript *)

(** Each part with its length in front. *)
Definition framed (parts : list bytes) : bytes :=
  mjoin ((fun part => be32 (u32 (zlen part)) ++ part) <$> parts).

Definition transcript (serverID : string) (nonce instanceID : slice) (alg : pb.SigAlg) (publicKey : slice) : bytes :=
  framed [str_bytes transcriptLabel; str_bytes serverID; content nonce; content instanceID;
          be32 (u32 (sig_alg_number alg)); content publicKey].

(** ** Unpadded base64url *)

Definition b64_alphabet : bytes :=
  str_bytes "ABCDEFGHIJKLMNOPQRSTUVWXYZabcdefghijklmnopqrstuvwxyz0123456789-_".

Definition b64_digit (n : Z) : Byte.byte := default x00 (b64_alphabet !! Z.to_nat n).

(** [base64.RawURLEncoding.EncodeToString] *)
Fixpoint b64_encode (l : bytes) : bytes :=
  match l with
  | [] => []
  | [a] => let x := byte_Z a in [b64_digit (x / 4); b64_digit (x mod 4 * 16)]
  | [a; b] =>
      let x := byte_Z a in let y := byte_Z b in
      [b64_digit (x / 4); b64_digit (x mod 4 * 16 + y / 16); b64_digit (y mod 16 * 4)]
  | a :: b :: c :: l =>
      let x := byte_Z a in let y := byte_Z b in let z := byte_Z c in
      b64_digit (x / 4) :: b64_digit (x mod 4 * 16 + y / 16) ::
      b64_digit (y mod 16 * 4 + z / 64) :: b64_digit (z mod 64) :: b64_encode l
  end.

Section login.
Variable sha256_Sum256 : bytes -> bytes.
Variable ed25519_Verify : bytes -> bytes -> bytes -> bool.

Definition subjectOf (alg : pb.SigAlg) (publicKey : slice) : string :=
  String.string_of_list_byte
    (b64_encode (sha256_Sum256 (transcript subjectLabel None None alg publicKey))).

Definition unauthenticated (text : string) : perr := Unauthenticated text.

Definition checkProof (alg : pb.SigAlg) (publicKey : slice) (signed : bytes) (signature : slice) : option perr :=
  match alg with
  | pb.SIG_ALG_ED25519 =>
      if negb (slice_len publicKey =? ed25519_PublicKeySize) then
        Some (unauthenticated "ed25519 public key must have 32 bytes")
      else if negb (ed25519_Verify (content publicKey) signed (content signature)) then
        Some (unauthenticated "signature does not match the challenge")
      else None
  | _ => Some (bad "signature algorithm is not supported")
  end.

(** ** The handshake *)

Variable opts : Options.

Definition challengeTTL : Duration := if 0 <? ChallengeTTL opts then ChallengeTTL opts else defaultChallengeTTL.

(** What the outside provides during a login: the nonce or why there is none, the times at which the
    challenge is made, the proof is checked and the answer is sent, and the frame read, if one arrives. *)
Record login_env := mkLoginEnv {
  l_nonce : result string bytes;
  l_issued : Time;
  l_answer : option pb.ClientFrame;
  l_checked : Time;
  l_welcomed : Time }.

Definition proof_of (f : pb.ClientFrame) : option pb.Proof :=
  match pb.ClientFrame_Body f with pb.ClientFrame_Proof p => Some p | _ => None end.

Definition challenge_frame (id : Z) (nonce : bytes) (deadline : Time) : pb.ServerFrame :=
  pb.mkServerFrame id (pb.ServerFrame_Challenge (pb.mkChallenge nonce (ServerID opts) (u64 (time_UnixMilli deadline)))).

(** [identify]: the subject or the error, the request ID to answer, and the frames sent. *)
Definition identify (e : login_env) (id : Z) (hello : pb.Hello) :
    result perr string * Z * list pb.ServerFrame :=
  if bool_decide (ServerID opts = EmptyString) then
    (Err (OtherError "no server ID configured, all logins are rejected"), id, [])
  else if slice_len (pb.Hello_PublicKey hello) =? 0 then (Err (unauthenticated "no public key"), id, [])
  else match l_nonce e with
  | Err err => (Err (OtherError err), id, [])
  | Ok nonce =>
      let deadline := time_Add (l_issued e) challengeTTL in
      let sent := [challenge_frame id nonce deadline] in
      match l_answer e with
      | None => (Err (unauthenticated "no proof"), id, sent)
      | Some answer =>
          let answering := pb.ClientFrame_RequestId answer in
          match proof_of answer with
          | None => (Err (unauthenticated "expected a Proof"), answering, sent)
          | Some proof =>
              if time_After (l_checked e) deadline then
                (Err (unauthenticated "the challenge expired"), answering, sent)
              else
                let signed := transcript (ServerID opts) (Some nonce) (pb.Hello_InstanceId hello)
                                (pb.Hello_SigAlg hello) (pb.Hello_PublicKey hello) in
                match checkProof (pb.Hello_SigAlg hello) (pb.Hello_PublicKey hello) signed (pb.Proof_Signature proof) with
                | Some err => (Err err, answering, sent)
                | None => (Ok (subjectOf (pb.Hello_SigAlg hello) (pb.Hello_PublicKey hello)), answering, sent)
                end
          end
      end
  end.

(** ** Access tokens *)

Record Grant := mkGrant { Expires : Time; Owner : string }.

(** The check of an access token for a key, if the server requires tokens. *)
Variable Tokens : option (string -> slice -> result perr Grant).

Definition admit_hello (verify : string -> slice -> result perr Grant) (hello : pb.Hello) : result perr Grant :=
  match pb.Hello_SigAlg hello with
  | pb.SIG_ALG_ED25519 => verify (pb.Hello_AccessToken hello) (pb.Hello_PublicKey hello)
  | _ => Err (Denied "access tokens are bound to Ed25519 keys only")
  end.

(** [tokenTTL], for the expiry [exp] of the token. *)
Definition tokenTTL (exp now : Time) : Z :=
  if time_IsZero exp then 0 else u64 (Z.max (time_Sub exp now ÷ Millisecond) 1).

Definition hello_of (f : pb.ClientFrame) : option pb.Hello :=
  match pb.ClientFrame_Body f with pb.ClientFrame_Hello h => Some h | _ => None end.

(** The checks of [hello] before the challenge. *)
Definition check_hello (frame : pb.ClientFrame) : result perr (pb.Hello * Grant) :=
  match hello_of frame with
  | None => Err (unauthenticated "the first frame must be a Hello")
  | Some hello =>
      if negb (pb.Hello_ProtocolVersion hello =? protocol_Version) then
        Err (bad "protocol version, this server speaks 1")
      else if (slice_len (pb.Hello_InstanceId hello) =? 0) ||
              (maxInstanceIDBytes <? slice_len (pb.Hello_InstanceId hello)) then
        Err (bad "instance id must have 1 to 64 bytes")
      else match Tokens with
      | None => Ok (hello, mkGrant 0 EmptyString)
      | Some verify => grant ← admit_hello verify hello; Ok (hello, grant)
      end
  end.

Definition hello_ok (id : Z) (exp now : Time) : pb.ServerFrame :=
  pb.mkServerFrame id (pb.ServerFrame_HelloOk
    (pb.mkHelloOk protocol_Version (MaxFrameBytes opts) (u32 (PingInterval opts ÷ Millisecond))
       (u32 (LeaseTTL opts ÷ Millisecond)) (tokenTTL exp now))).

(** [hello]: the session of the connection [conn], or the error the login failed with; and the frames
    sent. *)
Definition hello (conn : nat) (e : login_env) (frame : pb.ClientFrame) :
    result perr session * list pb.ServerFrame :=
  match check_hello frame with
  | Err err => (Err err, [errorFrame (pb.ClientFrame_RequestId frame) err])
  | Ok (hello, grant) =>
      let '(res, answering, sent) := identify e (pb.ClientFrame_RequestId frame) hello in
      match res with
      | Err err => (Err err, sent ++ [errorFrame answering err])
      | Ok subject =>
          (Ok (mkSession conn subject (bytes_Clone (pb.Hello_InstanceId hello)) (Owner grant) (Expires grant)),
           sent ++ [hello_ok answering (Expires grant) (l_welcomed e)])
      end
  end.
End login.
