(* ===== verification/LoginFacts.v ===== *)
(** * What a login proves

    The transcript is an injective encoding of the login, so a signature counts for one login only;
    a login succeeds exactly with a proof for its own challenge (and a token for its key where tokens
    are required); and different keys have different subjects as long as the hash does not collide. *)

From S2P Require Import Prelude Store Trace Messages Connection Login.

Local Open Scope Z_scope.

(** ** The transcript is injective *)

Definition short_part (part : bytes) : Prop := zlen part < two32.

Lemma framed_inj ps : forall qs,
  length ps = length qs -> Forall short_part ps -> Forall short_part qs -> framed ps = framed qs -> ps = qs.
Proof.
  induction ps as [|p ps IH]; intros [|q qs] Hlen Hp Hq Heq; try done.
  apply Forall_cons in Hp as [Hp Hps]. apply Forall_cons in Hq as [Hq Hqs].
  change ((be32 (u32 (zlen p)) ++ p) ++ framed ps = (be32 (u32 (zlen q)) ++ q) ++ framed qs) in Heq.
  rewrite <- !app_assoc in Heq. apply app_inj_1 in Heq as [Hl Heq]; [|done].
  pose proof (zlen_nonneg p). pose proof (zlen_nonneg q). unfold short_part in *.
  apply be32_inj in Hl; try (unfold u32; apply Z.mod_pos_bound; done).
  rewrite !u32_small in Hl by (unfold in_u32; lia).
  apply app_inj_1 in Heq as [-> Heq]; [|unfold zlen in Hl; lia].
  f_equal. apply IH; try done. simpl in Hlen. lia.
Qed.

(** Protobuf enums are 32 bits. *)
Definition enum_range (a : pb.SigAlg) : Prop := - two31 <= sig_alg_number a < two31.

(** What the two logins have in common if they sign the same bytes. *)
Definition small_login (serverID : string) (nonce instance key : slice) : Prop :=
  Z.of_nat (String.length serverID) < two32 /\ slice_len nonce < two32 /\ slice_len instance < two32 /\
  slice_len key < two32.

Lemma str_bytes_length s : zlen (str_bytes s) = Z.of_nat (String.length s).
Proof. unfold zlen, str_bytes. f_equal. induction s as [|a s IH]; simpl; [done|]. by rewrite <- IH. Qed.

Lemma str_bytes_inj s t : str_bytes s = str_bytes t -> s = t.
Proof.
  intros H. rewrite <- (String.string_of_list_byte_of_string s), <- (String.string_of_list_byte_of_string t).
  by f_equal.
Qed.

Lemma transcript_parts server nonce inst alg key server' nonce' inst' alg' key' :
  small_login server nonce inst key -> small_login server' nonce' inst' key' ->
  enum_range alg -> enum_range alg' ->
  transcript server nonce inst alg key = transcript server' nonce' inst' alg' key' ->
  server = server' /\ content nonce = content nonce' /\ content inst = content inst' /\
  sig_alg_number alg = sig_alg_number alg' /\ content key = content key'.
Proof.
  unfold small_login, slice_len. intros (H1 & H2 & H3 & H4) (K1 & K2 & K3 & K4) Ha Ka Heq.
  apply framed_inj in Heq; [|done| |]; last first.
  { repeat constructor; unfold short_part; rewrite ?str_bytes_length; done. }
  { repeat constructor; unfold short_part; rewrite ?str_bytes_length; done. }
  injection Heq as Hs Hn Hi A1 A2 A3 A4 Hk. split_and!; try done; [by apply str_bytes_inj|].
  assert (u32 (sig_alg_number alg) = u32 (sig_alg_number alg')) as Hu.
  { apply be32_inj; [unfold in_u32, u32; apply Z.mod_pos_bound; done..|]. unfold be32. by rewrite A1, A2, A3, A4. }
  unfold enum_range in *. zlia.
Qed.

(** ** base64url is injective *)

Lemma b64_digit_inj a b : 0 <= a < 64 -> 0 <= b < 64 -> b64_digit a = b64_digit b -> a = b.
Proof.
  intros Ha Hb Heq.
  assert (forall n, 0 <= n < 64 -> list_find (fun x => x = b64_digit n) b64_alphabet = Some (Z.to_nat n, b64_digit n)) as Hf.
  { intros n Hn. assert (n ∈ seqZ 0 64) as Hin by (apply elem_of_seqZ; lia). clear Hn. revert n Hin.
    apply Forall_forall, (bool_decide_unpack _). vm_compute. exact I. }
  pose proof (Hf a Ha) as Fa. rewrite Heq, (Hf b Hb) in Fa. injection Fa as Fa. lia.
Qed.

(** A digit is a letter of the alphabet. *)
Lemma b64_digit_ascii n : 0 <= n < 64 -> 1 <= byte_Z (b64_digit n) <= 127.
Proof.
  intros Hn. assert (n ∈ seqZ 0 64) as Hin by (apply elem_of_seqZ; lia). clear Hn. revert n Hin.
  apply Forall_forall, (bool_decide_unpack _). vm_compute. exact I.
Qed.

Lemma b64_encode_ascii n : forall l, (length l <= n)%nat -> Forall (fun b => 1 <= byte_Z b <= 127) (b64_encode l).
Proof.
  induction n as [|n IH]; intros l Hn; [destruct l; [constructor|simpl in *; lia]|].
  destruct l as [|a [|b [|c l]]]; cbn [b64_encode]; [constructor|..];
    pose proof (byte_Z_range a); try pose proof (byte_Z_range b); try pose proof (byte_Z_range c);
    repeat (constructor; [apply b64_digit_ascii; Z.div_mod_to_equations; lia|]); [constructor..|].
  apply IH. simpl in *. lia.
Qed.

(** The digits of one, two and three bytes. *)
Definition byte_range (x : Z) : Prop := 0 <= x < 256.

Lemma div_range x m : byte_range x -> 0 < m -> 256 <= m * 64 -> 0 <= x / m < 64.
Proof.
  unfold byte_range. intros. split; [apply Z.div_pos; lia|]. apply Z.div_lt_upper_bound; lia.
Qed.

Lemma first_digit x x' : byte_range x -> byte_range x' -> b64_digit (x / 4) = b64_digit (x' / 4) -> x / 4 = x' / 4.
Proof. intros. apply b64_digit_inj; [apply div_range; lia || done..|done]. Qed.

Lemma mod_small a m k : 0 < m -> m * k <= 64 -> 0 < k -> 0 <= a mod m * k < 64.
Proof. intros. pose proof (Z.mod_pos_bound a m). nia. Qed.

(** A digit made of the low bits of one byte and the high bits of the next. *)
Lemma middle_digit x x' y y' m d :
  0 < m -> 0 < d -> byte_range y -> byte_range y' -> 256 <= d * (64 / m) -> m * (64 / m) = 64 ->
  b64_digit (x mod m * (64 / m) + y / d) = b64_digit (x' mod m * (64 / m) + y' / d) ->
  x mod m = x' mod m /\ y / d = y' / d.
Proof.
  unfold byte_range. intros Hm Hd Hy Hy' Hk Hmk Heq. set (k := 64 / m) in *.
  assert (0 < k) by nia.
  assert (0 <= y / d < k) by (split; [apply Z.div_pos; lia|apply Z.div_lt_upper_bound; nia]).
  assert (0 <= y' / d < k) by (split; [apply Z.div_pos; lia|apply Z.div_lt_upper_bound; nia]).
  pose proof (Z.mod_pos_bound x m Hm). pose proof (Z.mod_pos_bound x' m Hm).
  apply b64_digit_inj in Heq; nia.
Qed.

Lemma byte_parts x x' m : 0 < m -> x / m = x' / m -> x mod m = x' mod m -> x = x'.
Proof. intros Hm H1 H2. rewrite (Z.div_mod x m), (Z.div_mod x' m) by lia. congruence. Qed.

Lemma low_digit x x' m :
  0 < m -> m * (64 / m) = 64 -> b64_digit (x mod m * (64 / m)) = b64_digit (x' mod m * (64 / m)) -> x mod m = x' mod m.
Proof.
  intros Hm Hmk Heq. pose proof (Z.mod_pos_bound x m Hm). pose proof (Z.mod_pos_bound x' m Hm).
  set (k := 64 / m) in *. assert (0 < k) by nia. apply b64_digit_inj in Heq; nia.
Qed.

Lemma b64_encode_inj n : forall l k,
  (length l <= n)%nat -> length l = length k -> b64_encode l = b64_encode k -> l = k.
Proof.
  induction n as [|n IH]; intros l k Hn Hlen Heq; [destruct l, k; simpl in *; try done; lia|].
  destruct l as [|a [|b [|c l]]], k as [|a' [|b' [|c' k]]]; try done; cbn [b64_encode] in Heq.
  - injection Heq as H1 H2. pose proof (byte_Z_range a). pose proof (byte_Z_range a').
    apply first_digit in H1; [|done..]. apply (low_digit _ _ 4) in H2; [|done..].
    f_equal. by apply byte_Z_inj, (byte_parts _ _ 4).
  - injection Heq as H1 H2 H3. pose proof (byte_Z_range a). pose proof (byte_Z_range a').
    apply first_digit in H1; [|done..].
    apply (middle_digit _ _ _ _ 4 16) in H2 as [H2 H4]; [|done || apply byte_Z_range..].
    apply (low_digit _ _ 16) in H3; [|done..].
    rewrite (byte_Z_inj a a') by (by apply (byte_parts _ _ 4)).
    by rewrite (byte_Z_inj b b') by (by apply (byte_parts _ _ 16)).
  - injection Heq as H1 H2 H3 H4 Hr. pose proof (byte_Z_range a). pose proof (byte_Z_range a').
    apply first_digit in H1; [|done..].
    apply (middle_digit _ _ _ _ 4 16) in H2 as [H2 H5]; [|done || apply byte_Z_range..].
    apply (middle_digit _ _ _ _ 16 64) in H3 as [H3 H6]; [|done || apply byte_Z_range..].
    apply b64_digit_inj in H4; [|apply Z.mod_pos_bound; done..].
    rewrite (byte_Z_inj a a') by (by apply (byte_parts _ _ 4)).
    rewrite (byte_Z_inj b b') by (by apply (byte_parts _ _ 16)).
    rewrite (byte_Z_inj c c') by (by apply (byte_parts _ _ 64)).
    do 3 f_equal. simpl in *. apply IH; [lia|lia|done].
Qed.

(** ** Theorems *)

(** C29: A signature counts for one login only.  The bytes a client signs determine the server, the
    nonce, the instance, the algorithm and the public key of its login, so two different logins never
    sign the same bytes; and they are never the bytes that a subject is the hash of. *)
Theorem transcript_identifies_login (server server' : string) (nonce nonce' inst inst' key key' : slice)
    (alg alg' : pb.SigAlg) :
  small_login server nonce inst key -> small_login server' nonce' inst' key' ->
  enum_range alg -> enum_range alg' -> slice_len nonce = nonceBytes ->
  (transcript server nonce inst alg key = transcript server' nonce' inst' alg' key' ->
   server = server' /\ content nonce = content nonce' /\ content inst = content inst' /\
   sig_alg_number alg = sig_alg_number alg' /\ content key = content key') /\
  transcript server nonce inst alg key <> transcript subjectLabel None None alg' key'.
Proof.
  intros Hs Hs' Ha Ha' Hn. split; [by apply transcript_parts|].
  intros Heq. apply transcript_parts in Heq as (_ & Hc & _); try done.
  - unfold slice_len in Hn. rewrite Hc in Hn. done.
  - split_and!; try done. apply Hs'.
Qed.

Lemma transcript_identifies_login_witness :
  transcript "wss://a" (Some (replicate 32 x01)) (Some [x09]) pb.SIG_ALG_ED25519 (Some (replicate 32 x05)) <>
  transcript subjectLabel None None pb.SIG_ALG_ED25519 (Some (replicate 32 x05)).
Proof.
  apply (transcript_identifies_login "wss://a" "wss://b" (Some (replicate 32 x01)) (Some (replicate 32 x02))
           (Some [x09]) (Some [x09]) (Some (replicate 32 x05)) (Some (replicate 32 x05))
           pb.SIG_ALG_ED25519 pb.SIG_ALG_ED25519).
  - by vm_compute.
  - by vm_compute.
  - by vm_compute.
  - by vm_compute.
  - reflexivity.
Defined.

Section facts.
Variable sha256_Sum256 : bytes -> bytes.
Variable ed25519_Verify : bytes -> bytes -> bytes -> bool.
Hypothesis sha256_length : forall data, zlen (sha256_Sum256 data) = 32.
Variable opts : Options.
Variable Tokens : option (string -> slice -> result perr Grant).

Lemma string_of_bytes_inj l k : String.string_of_list_byte l = String.string_of_list_byte k -> l = k.
Proof.
  intros H. apply (f_equal String.list_byte_of_string) in H.
  by rewrite !String.list_byte_of_string_of_list_byte in H.
Qed.

(** Subjects identify keys.  Unless SHA-256 collides on the two encodings, two logins have the same
    subject only if they have the same algorithm and the same public key: no client can reach the
    databases of another key. *)
Theorem subjects_identify_keys (alg alg' : pb.SigAlg) (key key' : slice) :
  enum_range alg -> enum_range alg' -> slice_len key < two32 -> slice_len key' < two32 ->
  (sha256_Sum256 (transcript subjectLabel None None alg key) =
     sha256_Sum256 (transcript subjectLabel None None alg' key') ->
   transcript subjectLabel None None alg key = transcript subjectLabel None None alg' key') ->
  subjectOf sha256_Sum256 alg key = subjectOf sha256_Sum256 alg' key' ->
  sig_alg_number alg = sig_alg_number alg' /\ content key = content key'.
Proof.
  intros Ha Ha' Hk Hk' Hcoll Heq. apply string_of_bytes_inj in Heq.
  apply (b64_encode_inj 32) in Heq.
  - apply Hcoll in Heq. apply transcript_parts in Heq as (_ & _ & _ & ? & ?); done.
  - pose proof (sha256_length (transcript subjectLabel None None alg key)). unfold zlen in *. lia.
  - pose proof (sha256_length (transcript subjectLabel None None alg key)).
    pose proof (sha256_length (transcript subjectLabel None None alg' key')). unfold zlen in *. lia.
Qed.

(** ** The login *)

Definition token_grants (h : pb.Hello) (grant : Grant) : Prop :=
  match Tokens with
  | None => grant = mkGrant 0 EmptyString
  | Some verify => verify (pb.Hello_AccessToken h) (pb.Hello_PublicKey h) = Ok grant
  end.

(** A [Hello] that the server challenges. *)
Definition hello_accepted (frame : pb.ClientFrame) (h : pb.Hello) (grant : Grant) : Prop :=
  hello_of frame = Some h /\ pb.Hello_ProtocolVersion h = protocol_Version /\
  1 <= slice_len (pb.Hello_InstanceId h) <= maxInstanceIDBytes /\ token_grants h grant /\
  (is_Some Tokens -> pb.Hello_SigAlg h = pb.SIG_ALG_ED25519).

Lemma check_hello_ok frame h grant :
  check_hello Tokens frame = Ok (h, grant) <-> hello_accepted frame h grant.
Proof.
  unfold check_hello, hello_accepted, token_grants. destruct (hello_of frame) as [h'|]; [|naive_solver].
  pose proof (zlen_nonneg (content (pb.Hello_InstanceId h'))). fold (slice_len (pb.Hello_InstanceId h')) in *.
  destruct (pb.Hello_ProtocolVersion h' =? protocol_Version) eqn:Ev; bool_hyps; simpl; [|naive_solver].
  destruct (_ || _) eqn:El; simpl.
  { split; [done|]. intros (Hh & _ & Hl & _). injection Hh as <-. apply orb_true_iff in El as [El|El]; bool_hyps; lia. }
  bool_hyps. destruct Tokens as [verify|].
  - unfold admit_hello. destruct (pb.Hello_SigAlg h') eqn:Ea; simpl.
    + split; [done|]. intros (Hh & _ & _ & _ & Hs). injection Hh as <-. rewrite Ea in Hs. discriminate (Hs (mk_is_Some _ _ eq_refl)).
    + destruct (verify _ _) as [g|e] eqn:Hv; simpl.
      * split; [intros Hh; injection Hh as <- <-; split_and!; try done; lia|].
        intros (Hh & _ & _ & Hg & _). injection Hh as <-. rewrite Hv in Hg. by injection Hg as <-.
      * split; [done|]. intros (Hh & _ & _ & Hg & _). injection Hh as <-. by rewrite Hv in Hg.
    + split; [done|]. intros (Hh & _ & _ & _ & Hs). injection Hh as <-. rewrite Ea in Hs. discriminate (Hs (mk_is_Some _ _ eq_refl)).
  - split; [intros Hh; injection Hh as <- <-; split_and!; try done; try lia; by intros []|].
    by intros (Hh & _ & _ & -> & _); injection Hh as <-.
Qed.

(** The signature of a proof over this login, and over nothing else. *)
Definition proves (nonce : bytes) (h : pb.Hello) (proof : pb.Proof) : Prop :=
  pb.Hello_SigAlg h = pb.SIG_ALG_ED25519 /\ slice_len (pb.Hello_PublicKey h) = ed25519_PublicKeySize /\
  ed25519_Verify (content (pb.Hello_PublicKey h))
    (transcript (ServerID opts) (Some nonce) (pb.Hello_InstanceId h) pb.SIG_ALG_ED25519 (pb.Hello_PublicKey h))
    (content (pb.Proof_Signature proof)) = true.

Lemma checkProof_ok nonce h proof :
  checkProof ed25519_Verify (pb.Hello_SigAlg h) (pb.Hello_PublicKey h)
    (transcript (ServerID opts) (Some nonce) (pb.Hello_InstanceId h) (pb.Hello_SigAlg h) (pb.Hello_PublicKey h))
    (pb.Proof_Signature proof) = None <-> proves nonce h proof.
Proof.
  unfold checkProof, proves. destruct (pb.Hello_SigAlg h); [naive_solver| |naive_solver].
  destruct (slice_len (pb.Hello_PublicKey h) =? ed25519_PublicKeySize) eqn:E; bool_hyps; simpl; [|naive_solver].
  destruct (ed25519_Verify _ _ _); naive_solver.
Qed.

(** The server challenged the client and the proof came in time. *)
Definition proved_in_time (e : login_env) (h : pb.Hello) : Prop :=
  exists nonce answer proof, l_nonce e = Ok nonce /\ l_answer e = Some answer /\ proof_of answer = Some proof /\
    l_checked e <= l_issued e + challengeTTL opts /\ proves nonce h proof.

Lemma identify_ok e id h subj :
  (identify sha256_Sum256 ed25519_Verify opts e id h).1.1 = Ok subj <->
  ServerID opts <> EmptyString /\ proved_in_time e h /\
  subj = subjectOf sha256_Sum256 pb.SIG_ALG_ED25519 (pb.Hello_PublicKey h).
Proof.
  unfold identify, proved_in_time. case_bool_decide as Hs; [simpl; naive_solver|].
  destruct (slice_len (pb.Hello_PublicKey h) =? 0) eqn:E0; bool_hyps; simpl.
  { split; [done|]. intros (_ & (? & ? & ? & _ & _ & _ & _ & _ & Hl & _) & _). rewrite E0 in Hl. discriminate Hl. }
  destruct (l_nonce e) as [nonce|err]; simpl; [|naive_solver].
  destruct (l_answer e) as [answer|]; simpl; [|naive_solver].
  destruct (proof_of answer) as [proof|] eqn:Hp; simpl; [|naive_solver].
  unfold time_After, time_Add. destruct (_ <? l_checked e) eqn:Et; bool_hyps; simpl.
  { split; [done|]. intros (_ & (? & ? & ? & _ & _ & _ & Ht & _) & _). lia. }
  pose proof (checkProof_ok nonce h proof) as Hc. destruct (checkProof _ _ _ _ _); simpl.
  - split; [done|]. intros (_ & (n & a & q & Hn & Ha & Hp' & _ & Hpr) & _). simplify_eq.
    by apply Hc in Hpr.
  - pose proof (proj1 Hc eq_refl) as Hpr. rewrite (proj1 Hpr). split.
    + intros [= <-]. split_and!; [done| |done]. by exists nonce, answer, proof.
    + by intros (_ & _ & ->).
Qed.

(** The strings of a session can be stored: the subject is base64url, the owner that of the grant. *)
Lemma hello_texts conn e frame s :
  (forall verify token key g, Tokens = Some verify -> verify token key = Ok g -> text_ok (Owner g) = true) ->
  (hello sha256_Sum256 ed25519_Verify opts Tokens conn e frame).1 = Ok s -> texts [owner s; subject s].
Proof.
  intros Htok. unfold hello. destruct (check_hello Tokens frame) as [[h g]|err] eqn:Hc; [|done].
  pose proof (identify_ok e (pb.ClientFrame_RequestId frame) h) as Hi.
  destruct (identify _ _ _ _ _ _) as [[[subj|err] answering] sent]; [|done]. simpl in *. intros [= <-].
  destruct (proj1 (Hi subj) eq_refl) as (_ & _ & ->). unfold texts. simpl. rewrite andb_true_r. apply andb_true_iff. split.
  - revert Hc. unfold check_hello. destruct (hello_of frame) as [h'|]; [|done]. repeat (case_match; [done|]).
    destruct Tokens as [verify|]; [|by intros [= _ <-]]. unfold admit_hello.
    destruct (pb.Hello_SigAlg h'); simpl; try done. destruct (verify _ _) as [g'|] eqn:Hv; simpl; [|done].
    intros [= _ <-]. by eapply Htok.
  - apply ascii_text. by eapply b64_encode_ascii.
Qed.

Definition is_hello_ok (f : pb.ServerFrame) : bool :=
  match pb.ServerFrame_Body f with pb.ServerFrame_HelloOk _ => true | _ => false end.

Lemma error_not_ok id er : is_hello_ok (errorFrame id er) = false.
Proof. by destruct er as [[]| | | | |]. Qed.

Lemma identify_no_ok e id h :
  Forall (fun f => is_hello_ok f = false) (identify sha256_Sum256 ed25519_Verify opts e id h).2.
Proof. unfold identify. repeat case_match; simpl; repeat constructor. Qed.

(** C25: A login succeeds exactly when it should.  The connection gets a session, and the client a
    [HelloOk], exactly if the client sent a well-formed [Hello], a valid access token for its key where
    tokens are required, and, before the challenge expired, an Ed25519 signature that verifies under
    its public key over the transcript with this server's ID and the nonce of this very challenge.
    The session's subject is then the hash of that key, and its owner and expiry are those of the
    token.  Without a configured server ID every login fails. *)
Theorem login_ok_iff (conn : nat) (e : login_env) (frame : pb.ClientFrame) (s : session) :
  ((hello sha256_Sum256 ed25519_Verify opts Tokens conn e frame).1 = Ok s <->
   exists h grant, hello_accepted frame h grant /\ ServerID opts <> EmptyString /\ proved_in_time e h /\
     s = mkSession conn (subjectOf sha256_Sum256 pb.SIG_ALG_ED25519 (pb.Hello_PublicKey h))
           (pb.Hello_InstanceId h) (Owner grant) (Expires grant)) /\
  ((exists f, f ∈ (hello sha256_Sum256 ed25519_Verify opts Tokens conn e frame).2 /\ is_hello_ok f = true) <->
   is_Ok (hello sha256_Sum256 ed25519_Verify opts Tokens conn e frame).1).
Proof.
  unfold hello. destruct (check_hello Tokens frame) as [[h grant]|err] eqn:Hc.
  - apply check_hello_ok in Hc. pose proof (identify_ok e (pb.ClientFrame_RequestId frame) h) as Hi.
    pose proof (identify_no_ok e (pb.ClientFrame_RequestId frame) h) as Hno.
    assert (forall h' g', hello_accepted frame h' g' -> h' = h /\ g' = grant) as Huniq.
    { intros h' g' (Hh & _ & _ & Hg & _). destruct Hc as (Hh0 & _ & _ & Hg0 & _).
      assert (h' = h) as -> by congruence. unfold token_grants in *. destruct Tokens; split; congruence. }
    destruct (identify _ _ _ _ _ _) as [[[subj|er] answering] sent]; simpl in *; split.
    + split.
      * intros [= <-]. destruct (proj1 (Hi subj) eq_refl) as (H1 & H2 & ->). by exists h, grant.
      * intros (h' & g' & Ha & Hsv & Hp & ->). destruct (Huniq _ _ Ha) as [-> ->].
        assert (Ok subj = Ok (E := perr) (subjectOf sha256_Sum256 pb.SIG_ALG_ED25519 (pb.Hello_PublicKey h)))
          as [= ->] by (by apply Hi). done.
    + split; [by eexists|]. intros _. eexists. split; [apply elem_of_app; right; by left|done].
    + split; [done|]. intros (h' & g' & Ha & Hsv & Hp & _). destruct (Huniq _ _ Ha) as [-> ->].
      assert (Err er = Ok (subjectOf sha256_Sum256 pb.SIG_ALG_ED25519 (pb.Hello_PublicKey h))) by (by apply Hi). done.
    + split; [|by intros []]. intros (f & [Hf|Hf%list_elem_of_singleton]%elem_of_app & Hok).
      * rewrite Forall_forall in Hno. by rewrite (Hno _ Hf) in Hok.
      * subst. by rewrite error_not_ok in Hok.
  - split; simpl.
    + split; [done|]. intros (h & g & Ha%check_hello_ok & _). congruence.
    + split; [|by intros []]. intros (f & Hf%list_elem_of_singleton & Hok). subst. by rewrite error_not_ok in Hok.
Qed.
End facts.

(** ** Witnesses *)

(** A stand-in for the hash: the last 32 bytes, which are the key. *)
Definition last32 (data : bytes) : bytes := take 32 (reverse data ++ zeros 32).

Definition key_a : slice := Some (replicate 32 x05).
Definition key_b : slice := Some (replicate 32 x06).

Lemma last32_length data : zlen (last32 data) = 32.
Proof.
  unfold last32, zlen. rewrite length_take, length_app. unfold zeros. rewrite length_replicate. lia.
Qed.

Lemma subjects_identify_keys_witness :
  subjectOf last32 pb.SIG_ALG_ED25519 key_a <> subjectOf last32 pb.SIG_ALG_ED25519 key_b.
Proof.
  assert (enum_range pb.SIG_ALG_ED25519) as He by (by vm_compute).
  assert (slice_len key_a < two32 /\ slice_len key_b < two32) as [Ha Hb] by (by vm_compute).
  assert (last32 (transcript subjectLabel None None pb.SIG_ALG_ED25519 key_a) =
            last32 (transcript subjectLabel None None pb.SIG_ALG_ED25519 key_b) ->
          transcript subjectLabel None None pb.SIG_ALG_ED25519 key_a =
            transcript subjectLabel None None pb.SIG_ALG_ED25519 key_b) as Hc.
  { intros H. vm_compute in H. discriminate H. }
  intros Heq.
  destruct (subjects_identify_keys last32 last32_length pb.SIG_ALG_ED25519 pb.SIG_ALG_ED25519 key_a key_b
              He He Ha Hb Hc Heq) as [_ Hk].
  discriminate Hk.
Defined.
