(* ===== verification/GoStrings.v ===== *)
(** * What the server uses of Go's strings, strconv and time packages

    Strings are taken apart as lists of byte values.  [codes] turns a string into such a list. *)

From S2P Require Import Prelude.
From Stdlib Require Import Floats.SpecFloat.

Local Open Scope Z_scope.

(** ** Package strings *)

Definition is_ascii_space (b : Z) : bool := within 9 13 b || (b =? 32).

(** The white space that [unicode.IsSpace] knows at the start of a string: its length in bytes. *)
Definition space_prefix (l : list Z) : nat :=
  match l with
  | a :: l =>
      if is_ascii_space a then 1%nat
      else match l with
      | b :: l =>
          if (a =? 194) && ((b =? 133) || (b =? 160)) then 2%nat
          else match l with
          | c :: _ =>
              if ((a =? 225) && (b =? 154) && (c =? 128)) ||
                 ((a =? 226) && (b =? 128) && (within 128 138 c || (c =? 168) || (c =? 169) || (c =? 175))) ||
                 ((a =? 226) && (b =? 129) && (c =? 159)) || ((a =? 227) && (b =? 128) && (c =? 128))
              then 3%nat else 0%nat
          | [] => 0%nat
          end
      | [] => 0%nat
      end
  | [] => 0%nat
  end.

(** The same at the end of a string, given backwards. *)
Definition space_suffix (l : list Z) : nat :=
  match l with
  | a :: b :: c :: _ =>
      if is_ascii_space a then 1%nat
      else if Nat.eqb (space_prefix [b; a]) 2%nat then 2%nat
      else if Nat.eqb (space_prefix [c; b; a]) 3%nat then 3%nat else 0%nat
  | [a; b] => if is_ascii_space a then 1%nat else if Nat.eqb (space_prefix [b; a]) 2%nat then 2%nat else 0%nat
  | [a] => if is_ascii_space a then 1%nat else 0%nat
  | [] => 0%nat
  end.

Fixpoint trim_with (f : list Z -> nat) (fuel : nat) (l : list Z) : list Z :=
  match fuel with
  | O => l
  | S fuel => match f l with O => l | n => trim_with f fuel (drop n l) end
  end.

(** [strings.TrimSpace]; every step drops at least one byte. *)
Definition TrimSpace (l : list Z) : list Z :=
  let l := trim_with space_prefix (length l) l in
  reverse (trim_with space_suffix (length l) (reverse l)).

(** [strings.Trim(s, set)] for a set of one ASCII character. *)
Fixpoint trim_left (c : Z) (l : list Z) : list Z :=
  match l with x :: l' => if x =? c then trim_left c l' else l | [] => [] end.

Definition Trim (c : Z) (l : list Z) : list Z := reverse (trim_left c (reverse (trim_left c l))).

(** [strings.SplitSeq] at one character: never empty. *)
Fixpoint split_at (c : Z) (l : list Z) : list (list Z) :=
  match l with
  | [] => [[]]
  | x :: l =>
      if x =? c then [] :: split_at c l
      else match split_at c l with s :: rest => (x :: s) :: rest | [] => [[x]] end
  end.

Lemma split_at_none c x : c ∉ x -> split_at c x = [x].
Proof.
  induction x as [|a x IH]; intros Hx; [done|]. apply not_elem_of_cons in Hx as [Ha Hx]. cbn [split_at].
  rewrite (proj2 (Z.eqb_neq a c)) by (intros ->; done). by rewrite IH.
Qed.

Lemma split_at_sep c x rest : c ∉ x -> split_at c (x ++ c :: rest) = x :: split_at c rest.
Proof.
  induction x as [|a x IH]; intros Hx; [simpl; by rewrite Z.eqb_refl|]. apply not_elem_of_cons in Hx as [Ha Hx].
  rewrite <- app_comm_cons. cbn [split_at]. rewrite (proj2 (Z.eqb_neq a c)) by (intros ->; done). by rewrite IH.
Qed.

Lemma split_at_parts c l : Forall (fun x => c ∉ x) (split_at c l).
Proof.
  induction l as [|a l IH]; simpl; [repeat constructor; apply not_elem_of_nil|]. destruct (a =? c) eqn:Ha.
  - constructor; [apply not_elem_of_nil|done].
  - apply Z.eqb_neq in Ha. destruct (split_at c l) as [|s rest]; [by repeat constructor; set_solver|].
    apply Forall_cons in IH as [Hs IH]. constructor; [set_solver|done].
Qed.

(** [strings.Cut] at one character. *)
Fixpoint cut (c : Z) (l : list Z) : option (list Z * list Z) :=
  match l with
  | [] => None
  | x :: l =>
      if x =? c then Some ([], l)
      else match cut c l with Some (a, b) => Some (x :: a, b) | None => None end
  end.

Definition lower (b : Z) : Z := if within 65 90 b then b + 32 else b.

(** [strings.EqualFold] with a string without [k] and [s], whose letters have no folding outside ASCII. *)
Definition equal_fold (a b : list Z) : bool := bool_decide (lower <$> a = lower <$> b).

(** ** Package strconv *)

Fixpoint digits (acc : Z) (l : list Z) : option Z :=
  match l with
  | [] => Some acc
  | x :: l => if within 48 57 x then digits (acc * 10 + (x - 48)) l else None
  end.

(** [strconv.ParseInt(s, 10, bits)], with [bound = 2^(bits-1)]: a sign, then digits, in range.
    [strconv.Atoi] is the same for 64 bits. *)
Definition parse_signed (bound : Z) (l : list Z) : option Z :=
  let '(neg, ds) := match l with
                    | 43 :: l => (false, l)
                    | 45 :: l => (true, l)
                    | _ => (false, l)
                    end in
  match ds with
  | [] => None
  | _ =>
      n ← digits 0 ds;
      let n := if neg then - n else n in
      if (- bound <=? n) && (n <? bound) then Some n else None
  end.

Definition ParseInt (l : list Z) : option Z := parse_signed two63 l.

(** [strconv.ParseUint(s, 10, bits)], with [bound = 2^bits]: digits, in range, no sign. *)
Definition ParseUint (bound : Z) (l : list Z) : option Z :=
  match l with
  | [] => None
  | _ => n ← digits 0 l; if n <? bound then Some n else None
  end.

Definition codes (s : string) : list Z := byte_Z <$> str_bytes s.

(** The string of a list of byte values. *)
Definition string_of (l : list Z) : string := String.string_of_list_byte (byte_of <$> l).

(** [strconv.ParseBool] *)
Definition ParseBool (s : string) : option bool :=
  if bool_decide (s ∈ ["1"; "t"; "T"; "true"; "TRUE"; "True"]%string) then Some true
  else if bool_decide (s ∈ ["0"; "f"; "F"; "false"; "FALSE"; "False"]%string) then Some false
  else None.

(** The decimal digits of a number, as [%d] and [strconv.Itoa] write them.  A number has fewer digits
    than bits. *)
Fixpoint decimal_digits (fuel : nat) (n : Z) (acc : list Z) : list Z :=
  match fuel with
  | O => acc
  | S fuel =>
      let acc := (48 + n mod 10) :: acc in
      if n <? 10 then acc else decimal_digits fuel (n / 10) acc
  end.

Definition Itoa (n : Z) : list Z :=
  if n <? 0 then 45 :: decimal_digits (S (Z.to_nat (Z.log2 (- n)))) (- n) []
  else decimal_digits (S (Z.to_nat (Z.log2 n))) n [].

(** ** Durations: [time.ParseDuration] *)

Definition is_digit (c : Z) : bool := within 48 57 c.

(** [leadingInt]: [None] on overflow. *)
Fixpoint leadingInt (x : Z) (l : list Z) : option (Z * list Z) :=
  match l with
  | c :: l' =>
      if negb (is_digit c) then Some (x, l)
      else if two63 / 10 <? x then None
      else let x := x * 10 + (c - 48) in
           if two63 <? x then None else leadingInt x l'
  | [] => Some (x, [])
  end.

(** Numbers in binary64. *)
Definition float64_of (n : Z) : spec_float := binary_normalize 53 1024 n 0 false.
Definition float64_mul : spec_float -> spec_float -> spec_float := SFmul 53 1024.
Definition float64_div : spec_float -> spec_float -> spec_float := SFdiv 53 1024.

(** The conversion [uint64(f)] of a float that is not negative and below 2^64: towards zero. *)
Definition uint64_of (f : spec_float) : Z :=
  match f with
  | S754_finite false m e => if 0 <=? e then Z.pos m * 2 ^ e else Z.pos m / 2 ^ (- e)
  | _ => 0
  end.

(** [leadingFraction]: the digits as a number, their scale, and the rest; digits that would overflow are
    skipped. *)
Fixpoint leadingFraction (x : Z) (scale : spec_float) (overflow : bool) (l : list Z) :
    Z * spec_float * list Z :=
  match l with
  | c :: l' =>
      if negb (is_digit c) then (x, scale, l)
      else if overflow then leadingFraction x scale true l'
      else if (two63 - 1) / 10 <? x then leadingFraction x scale true l'
      else let y := x * 10 + (c - 48) in
           if two63 <? y then leadingFraction x scale true l'
           else leadingFraction y (float64_mul scale (float64_of 10)) false l'
  | [] => (x, scale, [])
  end.

(** The unit: everything up to a dot or a digit. *)
Fixpoint leading_unit (l : list Z) : list Z * list Z :=
  match l with
  | c :: l' =>
      if (c =? 46) || is_digit c then ([], l)
      else let '(u, rest) := leading_unit l' in (c :: u, rest)
  | [] => ([], [])
  end.

(** [unitMap]: the micro sign and the Greek letter mu both stand for micro. *)
Definition unit_of (u : list Z) : option Z :=
  if bool_decide (u = codes "ns") then Some Nanosecond
  else if bool_decide (u = codes "us") || bool_decide (u = [194; 181; 115]) || bool_decide (u = [206; 188; 115])
  then Some Microsecond
  else if bool_decide (u = codes "ms") then Some Millisecond
  else if bool_decide (u = codes "s") then Some Second
  else if bool_decide (u = codes "m") then Some Minute
  else if bool_decide (u = codes "h") then Some Hour
  else None.

(** One round of the loop: a number, an optional fraction and a unit, in nanoseconds. *)
Definition duration_part (l : list Z) : option (Z * list Z) :=
  match l with
  | c :: _ =>
      if negb ((c =? 46) || is_digit c) then None
      else
        '(v, rest) ← leadingInt 0 l;
        let pre := negb (zlen rest =? zlen l) in
        let '(f, scale, rest', post) :=
          match rest with
          | 46 :: r => let '(f, scale, r') := leadingFraction 0 (float64_of 1) false r in
                       (f, scale, r', negb (zlen r' =? zlen r))
          | _ => (0, float64_of 1, rest, false)
          end in
        if negb pre && negb post then None
        else
          let '(u, rest) := leading_unit rest' in
          if bool_decide (u = []) then None
          else
            unit ← unit_of u;
            if two63 / unit <? v then None
            else
              let v := v * unit in
              if 0 <? f then
                let v := v + uint64_of (float64_mul (float64_of f) (float64_div (float64_of unit) scale)) in
                if two63 <? v then None else Some (v, rest)
              else Some (v, rest)
  | [] => None
  end.

(** The loop; every round consumes at least one byte, so the length of the string is enough fuel. *)
Fixpoint duration_parts (fuel : nat) (d : Z) (l : list Z) : option Z :=
  match l with
  | [] => Some d
  | _ =>
      match fuel with
      | O => None
      | S fuel =>
          '(v, rest) ← duration_part l;
          if two63 <? d + v then None else duration_parts fuel (d + v) rest
      end
  end.

Definition ParseDuration (l : list Z) : option Duration :=
  let '(neg, l) := match l with
                   | 45 :: l => (true, l)
                   | 43 :: l => (false, l)
                   | _ => (false, l)
                   end in
  if bool_decide (l = [48]) then Some 0
  else match l with
  | [] => None
  | _ =>
      d ← duration_parts (length l) 0 l;
      if neg then Some (s64 (- d))
      else if two63 - 1 <? d then None else Some d
  end.
