(* ===== verification/Token.v ===== *)
(** * Access tokens: [src/internal/token/token.go] and [keys.go]

    A token is accepted if the JWT library accepts it under a key of the token service's key set,
    and is bound to the key the client logs in with.  The key set is cached: the state of [keySet],
    with the outcome of every fetch as an argument.  The JWT library and [json.Unmarshal] are
    parameters of the functions that call them. *)

From S2P Require Import Prelude Store GoStrings Messages Connection Login.

Local Open Scope Z_scope.

(** ** The age of a key set *)

Definition maxCacheAge : Duration := 5 * Minute.
Definition minCacheAge : Duration := 10 * Second.
Definition refetchInterval : Duration := Minute.
Definition maxStale : Duration := Hour.
Definition maxJWKSBytes : Z := 1048576.

(** [time.Duration(seconds)*time.Second], in 64 bits. *)
Definition seconds_duration (seconds : Z) : Duration := s64 (seconds * Second).

(** The loop of [cacheAge] over the directives. *)
Fixpoint age_of (directives : list (list Z)) : Duration :=
  match directives with
  | [] => maxCacheAge
  | d :: rest =>
      match cut 61 (TrimSpace d) with
      | Some (name, value) =>
          if negb (equal_fold name (codes "max-age")) then age_of rest
          else match ParseInt (Trim 34 value) with
          | Some seconds =>
              if seconds <? 0 then maxCacheAge
              else Z.min (Z.max (seconds_duration seconds) minCacheAge) maxCacheAge
          | None => maxCacheAge
          end
      | None => age_of rest
      end
  end.

Definition cacheAge (header : string) : Duration := age_of (split_at 44 (codes header)).

(** ** Keys *)

(** [base64.RawURLEncoding.DecodeString]: line breaks are skipped, the unused bits are ignored. *)
Definition b64_value (b : Byte.byte) : option Z :=
  match list_find (fun x => x = b) b64_alphabet with Some (i, _) => Some (Z.of_nat i) | None => None end.

Fixpoint b64_groups (l : list Z) : option bytes :=
  match l with
  | [] => Some []
  | [_] => None
  | [a; b] => Some [byte_of (a * 4 + b / 16)]
  | [a; b; c] => Some [byte_of (a * 4 + b / 16); byte_of (b mod 16 * 16 + c / 4)]
  | a :: b :: c :: d :: l =>
      rest ← b64_groups l;
      Some (byte_of (a * 4 + b / 16) :: byte_of (b mod 16 * 16 + c / 4) :: byte_of (c mod 4 * 64 + d) :: rest)
  end.

Definition b64_decode (l : bytes) : option bytes :=
  vs ← mapM b64_value (filter (fun b => b <> x0a /\ b <> x0d) l); b64_groups vs.

Inductive anyKey := Ed25519Key (x : bytes) | P256Key (x y : Z).

Record publicKey := mkPublicKey { pk_key : anyKey; pk_alg : string }.

Record jwk := mkJwk {
  Kty : string; Crv : string; X : string; Y : string; Kid : string; Alg : string; Use : string }.

(** The curve P-256. *)
Definition p256_p : Z := 115792089210356248762697446949407573530086143415290314195533631308867097853951.
Definition p256_b : Z := 41058363725152142129326129780047268409114441015993725554835256314039467401291.

Definition big_endian (l : bytes) : Z := foldl (fun n b => n * 256 + byte_Z b) 0 l.

(** [ecdsa.ParseUncompressedPublicKey]: both coordinates are in range and the point is on the curve. *)
Definition on_p256 (x y : Z) : bool :=
  (x <? p256_p) && (y <? p256_p) && (y * y mod p256_p =? (x * x * x - 3 * x + p256_b) mod p256_p).

Definition eqs (a b : string) : bool := bool_decide (a = b).

(** [parseKey]: [Ok None] for a key of another type. *)
Definition parseKey (k : jwk) : result string (option publicKey) :=
  if eqs (Kty k) "OKP" && eqs (Crv k) "Ed25519" then
    if negb (eqs (Alg k) EmptyString) && negb (eqs (Alg k) "EdDSA") then Err "an Ed25519 key cannot be for this algorithm"
    else match b64_decode (str_bytes (X k)) with
    | Some x => if zlen x =? ed25519_PublicKeySize then Ok (Some (mkPublicKey (Ed25519Key x) (Alg k)))
                else Err "x is not a base64url Ed25519 key"
    | None => Err "x is not a base64url Ed25519 key"
    end
  else if eqs (Kty k) "EC" && eqs (Crv k) "P-256" then
    if negb (eqs (Alg k) EmptyString) && negb (eqs (Alg k) "ES256") then Err "a P-256 key cannot be for this algorithm"
    else match b64_decode (str_bytes (X k)), b64_decode (str_bytes (Y k)) with
    | Some x, Some y =>
        if negb (zlen x =? 32) || negb (zlen y =? 32) then Err "x and y must be base64url coordinates of 32 bytes"
        else if on_p256 (big_endian x) (big_endian y) then
          Ok (Some (mkPublicKey (P256Key (big_endian x) (big_endian y)) (Alg k)))
        else Err "not a point on P-256"
    | _, _ => Err "x and y must be base64url coordinates of 32 bytes"
    end
  else Ok None.

(** The loop of [parseJWKS]. *)
Fixpoint collect_keys (l : list jwk) (keys : gmap string publicKey) : result string (gmap string publicKey) :=
  match l with
  | [] => Ok keys
  | k :: l =>
      if eqs (Kid k) EmptyString || (negb (eqs (Use k) EmptyString) && negb (eqs (Use k) "sig")) then collect_keys l keys
      else
        key ← parseKey k;
        collect_keys l (match key with Some key => <[Kid k := key]> keys | None => keys end)
  end.

(** [parseJWKS], with what [json.Unmarshal] made of the data. *)
Definition parseJWKS (set : option (list jwk)) : result string (gmap string publicKey) :=
  match set with
  | None => Err "invalid JWKS"
  | Some l =>
      keys ← collect_keys l ∅;
      if bool_decide (keys = ∅) then Err "the JWKS has no Ed25519 or P-256 signature key with a key ID"
      else Ok keys
  end.

(** ** The cached key set *)

Record keySet := mkKeySet {
  ks_url : string;
  ks_keys : gmap string publicKey;
  fresh : Time;
  fetched : Time }.

(** What a fetch yields: the status, the body cut at the limit, what it parses to, and the header; or
    a failure of the transport. *)
Record response := mkResponse {
  r_status : Z;
  r_data : bytes;
  r_jwks : option (list jwk);
  r_cache_control : string }.

Definition fetch_keys (r : result string response) : result string (gmap string publicKey * Duration) :=
  r ← r;
  if negb (r_status r =? 200) then Err "status"
  else if maxJWKSBytes <? zlen (r_data r) then Err "the JWKS exceeds the limit"
  else
    keys ← parseJWKS (r_jwks r);
    Ok (keys, cacheAge (r_cache_control r)).

Definition refresh (r : result string response) (now : Time) (s : keySet) : keySet :=
  match fetch_keys r with
  | Err _ => mkKeySet (ks_url s) (ks_keys s) (fresh s) now
  | Ok (keys, age) => mkKeySet (ks_url s) keys (time_Add now age) now
  end.

Definition unknown_key (kid : string) : perr := Denied "unknown key ID".

(** [find]: [r1] is what the first fetch of this call would yield, [r2] what the second would.  The
    number of fetches it made is part of the result. *)
Definition find (r1 r2 : result string response) (now : Time) (kid : string) (s : keySet) :
    result perr publicKey * keySet * nat :=
  if eqs (ks_url s) EmptyString then
    (match ks_keys s !! kid with Some key => Ok key | None => Err (unknown_key kid) end, s, 0%nat)
  else
    let due := negb (time_Before now (fresh s)) && (minCacheAge <=? time_Sub now (fetched s)) in
    let s := if due then refresh r1 now s else s in
    let n := if due then 1%nat else 0%nat in
    if negb (time_Before now (time_Add (fresh s) maxStale)) then
      (Err (Denied "the token service's keys are not available"), s, n)
    else match ks_keys s !! kid with
    | Some key => (Ok key, s, n)
    | None =>
        if refetchInterval <=? time_Sub now (fetched s) then
          let s := refresh r2 now s in
          (match ks_keys s !! kid with Some key => Ok key | None => Err (unknown_key kid) end, s, S n)
        else (Err (unknown_key kid), s, n)
    end.

(** ** Tokens *)

(** The claims the code reads; [ExpiresAt] is present, since the parser requires it. *)
Record cnf_jwk := mkCnfJwk { cj_Kty : string; cj_Crv : string; cj_X : string }.

Record claims := mkClaims {
  ExpiresAt : Time;
  claims_Subject : string;
  Cnf : option (option cnf_jwk) }.

(** The part of the key function after [find]: the key fits the algorithm of the token. *)
Definition key_for (key : publicKey) (alg : string) : result perr anyKey :=
  if negb (eqs (pk_alg key) EmptyString) && negb (eqs (pk_alg key) alg) then
    Err (OtherError "the key is for another algorithm")
  else match pk_key key with
  | Ed25519Key _ => if eqs alg "EdDSA" then Ok (pk_key key) else Err (OtherError "the key is an Ed25519 key")
  | P256Key _ _ => if eqs alg "ES256" then Ok (pk_key key) else Err (OtherError "the key is a P-256 key")
  end.

(** The key function that [parse] passes to the JWT library: from the header's key ID and algorithm to
    the key, with the state of the key set. *)
Definition key_func (r1 r2 : result string response) (now : Time) (kid alg : string) (s : keySet) :
    result perr anyKey * keySet :=
  if eqs kid EmptyString then (Err (OtherError "no kid in the header"), s)
  else
    let '(res, s, _) := find r1 r2 now kid s in
    match res with
    | Err e => (Err e, s)
    | Ok key => (key_for key alg, s)
    end.

Section verifier.
(** The parser of the JWT library: it may ask the key function for one key and returns the claims or
    an error. *)
Variable ParseWithClaims : (string -> string -> result perr anyKey) -> Time -> string -> result perr claims.
(** The key ID and the algorithm of a token's header, if it has a readable one. *)
Variable header_of_token : string -> option (string * string).

(** The state of the key set after the parser has run: it asked for the key of the token's header. *)
Definition keys_after (r1 r2 : result string response) (now : Time) (token : string) (s : keySet) : keySet :=
  match header_of_token token with
  | Some (kid, alg) => (key_func r1 r2 now kid alg s).2
  | None => s
  end.

Definition parse (r1 r2 : result string response) (now : Time) (token : string) (s : keySet) :
    result perr claims * keySet :=
  if eqs token EmptyString then (Err (Denied "no access token"), s)
  else
    (match ParseWithClaims (fun kid alg => (key_func r1 r2 now kid alg s).1) now token with
     | Ok c => Ok c
     | Err (Denied reason) => Err (Denied reason)
     | Err _ => Err (Denied "the token is not valid")
     end, keys_after r1 r2 now token s).

Definition grant (c : claims) : Grant := mkGrant (ExpiresAt c) (claims_Subject c).

(** The checks of [Verify] that bind the claims to a key. *)
Definition check_binding (c : claims) (key : slice) : result perr Grant :=
  match Cnf c with
  | Some (Some j) =>
      if negb (eqs (cj_Kty j) "OKP") || negb (eqs (cj_Crv j) "Ed25519") then
        Err (Denied "cnf.jwk must be an Ed25519 key")
      else match b64_decode (str_bytes (cj_X j)) with
      | Some bound =>
          if negb (zlen bound =? ed25519_PublicKeySize) then Err (Denied "cnf.jwk.x is not a base64url Ed25519 key")
          else if bytes_Equal (Some bound) key then Ok (grant c)
          else Err (Denied "the token is bound to another key")
      | None => Err (Denied "cnf.jwk.x is not a base64url Ed25519 key")
      end
  | _ => Err (Denied "no cnf.jwk claim that binds the token to a key")
  end.

Definition Verify (r1 r2 : result string response) (now : Time) (token : string) (key : slice) (s : keySet) :
    result perr Grant * keySet :=
  let '(res, s) := parse r1 r2 now token s in
  (match res with Err e => Err e | Ok c => check_binding c key end, s).

Definition VerifyUnbound (r1 r2 : result string response) (now : Time) (token : string) (s : keySet) :
    result perr Grant * keySet :=
  let '(res, s) := parse r1 r2 now token s in
  (match res with Err e => Err e | Ok c => Ok (grant c) end, s).
End verifier.
