(* ===== verification/TokenFacts.v ===== *)
(** * What an accepted token proves

    base64url decoding inverts encoding; a key set has only usable keys; cached keys are never older
    than the limits allow; and an accepted token is signed by the token service and bound to the
    client's own key. *)

From S2P Require Import Prelude Store GoStrings Messages Connection Login LoginFacts Token.

Local Open Scope Z_scope.

(** ** base64url *)

(** The digits of a string, as numbers. *)
Fixpoint b64_digits (l : bytes) : list Z :=
  match l with
  | [] => []
  | [a] => let x := byte_Z a in [x / 4; x mod 4 * 16]
  | [a; b] => let x := byte_Z a in let y := byte_Z b in [x / 4; x mod 4 * 16 + y / 16; y mod 16 * 4]
  | a :: b :: c :: l =>
      let x := byte_Z a in let y := byte_Z b in let z := byte_Z c in
      x / 4 :: x mod 4 * 16 + y / 16 :: y mod 16 * 4 + z / 64 :: z mod 64 :: b64_digits l
  end.

(** Induction on a list by groups of three. *)
Lemma list_ind3 {A} (P : list A -> Prop) :
  P [] -> (forall a, P [a]) -> (forall a b, P [a; b]) -> (forall a b c l, P l -> P (a :: b :: c :: l)) ->
  forall l, P l.
Proof.
  intros H0 H1 H2 H3 l. assert (P l /\ (forall a, P (a :: l)) /\ (forall a b, P (a :: b :: l))) as [? _]; [|done].
  induction l as [|x l (IH & IH1 & IH2)]; split_and!; auto.
Qed.

Lemma b64_encode_digits l : b64_encode l = b64_digit <$> b64_digits l.
Proof. induction l as [| | |a b c l IH] using list_ind3; try done. cbn [b64_encode b64_digits fmap list_fmap]. by rewrite IH. Qed.

Lemma digit_bounds x y : 0 <= x < 256 -> 0 <= y < 256 ->
  0 <= x / 4 < 64 /\ 0 <= x mod 4 * 16 < 64 /\ 0 <= x mod 4 * 16 + y / 16 < 64 /\
  0 <= x mod 16 * 4 < 64 /\ 0 <= x mod 16 * 4 + y / 64 < 64 /\ 0 <= x mod 64 < 64.
Proof. intros. zlia. Qed.

Lemma b64_digits_range l : Forall (fun n => 0 <= n < 64) (b64_digits l).
Proof.
  induction l as [|a|a b|a b c l IH] using list_ind3; cbn [b64_digits]; try done.
  - pose proof (digit_bounds _ _ (byte_Z_range a) (byte_Z_range a)). repeat constructor; tauto.
  - pose proof (digit_bounds _ _ (byte_Z_range a) (byte_Z_range b)).
    pose proof (digit_bounds _ _ (byte_Z_range b) (byte_Z_range b)). repeat constructor; tauto.
  - pose proof (digit_bounds _ _ (byte_Z_range a) (byte_Z_range b)).
    pose proof (digit_bounds _ _ (byte_Z_range b) (byte_Z_range c)).
    pose proof (digit_bounds _ _ (byte_Z_range c) (byte_Z_range c)).
    repeat (constructor; [tauto|]). done.
Qed.

Lemma b64_value_digit n : 0 <= n < 64 -> b64_value (b64_digit n) = Some n /\ b64_digit n <> x0a /\ b64_digit n <> x0d.
Proof.
  intros Hn. assert (n ∈ seqZ 0 64) as Hin by (apply elem_of_seqZ; lia). clear Hn. revert n Hin.
  apply Forall_forall, (bool_decide_unpack _). vm_compute. exact I.
Qed.

Lemma filter_all {A} (P : A -> Prop) `{!forall a, Decision (P a)} l : Forall P l -> filter P l = l.
Proof. induction 1 as [|a l Ha _ IH]; [done|]. rewrite filter_cons_True by done. by rewrite IH. Qed.

Lemma b64_decode_digits ds : Forall (fun n => 0 <= n < 64) ds -> b64_decode (b64_digit <$> ds) = b64_groups ds.
Proof.
  intros Hds. unfold b64_decode. rewrite filter_all.
  - assert (mapM b64_value (b64_digit <$> ds) = Some ds) as ->; [|done].
    apply mapM_Some. apply Forall2_fmap_l, Forall_Forall2_diag. apply (Forall_impl _ _ _ Hds).
    intros n Hn. by apply b64_value_digit.
  - apply Forall_forall. intros b (n & -> & Hn)%list_elem_of_fmap. rewrite Forall_forall in Hds.
    destruct (b64_value_digit n (Hds _ Hn)) as (_ & ? & ?). done.
Qed.

Lemma byte_of_eq a n : n = byte_Z a -> byte_of n = a.
Proof. intros ->. apply byte_Z_inj. apply byte_Z_of, byte_Z_range. Qed.

Lemma group_values x y z : 0 <= x < 256 -> 0 <= y < 256 -> 0 <= z < 256 ->
  x / 4 * 4 + x mod 4 * 16 / 16 = x /\ x / 4 * 4 + (x mod 4 * 16 + y / 16) / 16 = x /\
  (x mod 4 * 16 + y / 16) mod 16 * 16 + y mod 16 * 4 / 4 = y /\
  (x mod 4 * 16 + y / 16) mod 16 * 16 + (y mod 16 * 4 + z / 64) / 4 = y /\
  (y mod 16 * 4 + z / 64) mod 4 * 64 + z mod 64 = z.
Proof. intros. split_and!; zlia. Qed.

(** Decoding inverts encoding. *)
Lemma b64_decode_encode l : b64_decode (b64_encode l) = Some l.
Proof.
  rewrite b64_encode_digits, b64_decode_digits by apply b64_digits_range.
  induction l as [|a|a b|a b c l IH] using list_ind3; cbn [b64_digits b64_groups]; try done.
  - destruct (group_values _ _ _ (byte_Z_range a) (byte_Z_range a) (byte_Z_range a)) as (H1 & _).
    by rewrite (byte_of_eq a).
  - destruct (group_values _ _ _ (byte_Z_range a) (byte_Z_range b) (byte_Z_range b)) as (_ & H1 & H2 & _).
    by rewrite (byte_of_eq a), (byte_of_eq b).
  - destruct (group_values _ _ _ (byte_Z_range a) (byte_Z_range b) (byte_Z_range c)) as (_ & H1 & _ & H2 & H3).
    rewrite IH. simpl. by rewrite (byte_of_eq a), (byte_of_eq b), (byte_of_eq c).
Qed.

(** ** Key sets *)

(** A key that a token's signature can be checked with, and an algorithm that fits it. *)
Definition usable (k : publicKey) : Prop :=
  match pk_key k with
  | Ed25519Key x => zlen x = 32 /\ (pk_alg k = EmptyString \/ pk_alg k = "EdDSA"%string)
  | P256Key x y => on_p256 x y = true /\ (pk_alg k = EmptyString \/ pk_alg k = "ES256"%string)
  end.

Lemma eqs_spec a b : eqs a b = true <-> a = b.
Proof. unfold eqs. by rewrite bool_decide_eq_true. Qed.

Lemma eqs_false a b : eqs a b = false <-> a <> b.
Proof. unfold eqs. by rewrite bool_decide_eq_false. Qed.

Lemma alg_fits a b : negb (eqs a EmptyString) && negb (eqs a b) = false -> a = EmptyString \/ a = b.
Proof. rewrite andb_false_iff, !negb_false_iff, !eqs_spec. done. Qed.

Lemma parseKey_usable k pk : parseKey k = Ok (Some pk) -> usable pk.
Proof.
  unfold parseKey. destruct (_ && _).
  - destruct (_ && _) eqn:Ea; [done|]. apply alg_fits in Ea.
    destruct (b64_decode _) as [x|]; [|done]. destruct (_ =? _) eqn:El; [|done]. bool_hyps.
    intros [= <-]. by split.
  - destruct (eqs (Kty k) _ && _); [|done]. destruct (_ && _) eqn:Ea; [done|]. apply alg_fits in Ea.
    destruct (b64_decode _) as [x|]; [|done]. destruct (b64_decode _) as [y|]; [|done].
    destruct (_ || _); [done|]. destruct (on_p256 _ _) eqn:Ep; [|done]. intros [= <-]. by split.
Qed.

(** Where a key of the set comes from. *)
Definition listed (l : list jwk) (kid : string) (pk : publicKey) : Prop :=
  exists k, k ∈ l /\ Kid k = kid /\ kid <> EmptyString /\ (Use k = EmptyString \/ Use k = "sig"%string) /\
    parseKey k = Ok (Some pk).

Lemma collect_keys_listed l : forall keys0 keys, collect_keys l keys0 = Ok keys ->
  forall kid pk, keys !! kid = Some pk -> keys0 !! kid = Some pk \/ listed l kid pk.
Proof.
  induction l as [|k l IH]; intros keys0 keys; cbn [collect_keys]; [intros [= <-]; by left|].
  destruct (_ || _) eqn:Eu.
  - intros Hc kid pk Hk. destruct (IH _ _ Hc _ _ Hk) as [?|(k' & Hin & Hr)]; [by left|right].
    exists k'. split; [by right|done].
  - apply orb_false_iff in Eu as [Ekid Euse]. apply eqs_false in Ekid. apply alg_fits in Euse.
    destruct (parseKey k) as [key|e] eqn:Ek; simpl; [|done]. intros Hc kid pk Hk.
    destruct (IH _ _ Hc _ _ Hk) as [Hold|(k' & Hin & Hr)].
    + destruct key as [key|]; [|by left]. destruct (decide (kid = Kid k)) as [->|Hne].
      * rewrite lookup_insert_eq in Hold. injection Hold as ->. right. exists k.
        split_and!; try done. by left.
      * rewrite lookup_insert_ne in Hold by done. by left.
    + right. exists k'. split; [by right|done].
Qed.

Lemma parsed_keys l keys kid pk : parseJWKS (Some l) = Ok keys -> keys !! kid = Some pk -> listed l kid pk /\ usable pk.
Proof.
  unfold parseJWKS. destruct (collect_keys l ∅) as [ks|e] eqn:Hc; simpl; [|done].
  case_bool_decide; [done|]. intros [= <-] Hk.
  destruct (collect_keys_listed _ _ _ Hc _ _ Hk) as [Hn|Hl]; [by rewrite lookup_empty in Hn|].
  split; [done|]. destruct Hl as (k & _ & _ & _ & _ & Hp). by eapply parseKey_usable.
Qed.

(** A key set holds usable signature keys only.  Every key that [parseJWKS] accepts is one of the
    listed ones, has an ID, is for signatures, and is an Ed25519 key of 32 bytes or a point on the
    curve P-256, with no algorithm named or the one of its type; and there is at least one. *)
Theorem jwks_sound (l : list jwk) (keys : gmap string publicKey) :
  parseJWKS (Some l) = Ok keys ->
  keys <> ∅ /\ forall kid pk, keys !! kid = Some pk -> listed l kid pk /\ usable pk.
Proof.
  intros Hp. split; [|by intros kid pk; apply parsed_keys]. revert Hp. unfold parseJWKS.
  destruct (collect_keys l ∅); simpl; [|done]. case_bool_decide; [done|]. by intros [= <-].
Qed.

(** ** The age of cached keys *)

Lemma cacheAge_bounds header : minCacheAge <= cacheAge header <= maxCacheAge.
Proof.
  unfold cacheAge. induction (split_at 44 (codes header)) as [|d l IH]; cbn [age_of].
  - unfold minCacheAge, maxCacheAge, Minute, Second. lia.
  - destruct (cut _ _) as [[name value]|]; [|done]. destruct (negb _); [done|].
    unfold minCacheAge, maxCacheAge, Minute, Second in *.
    destruct (ParseInt _) as [n|]; [|lia]. destruct (n <? 0); lia.
Qed.

(** A max-age whose nanoseconds do not fit 64 bits counts as the shortest age, not as the longest. *)
Lemma huge_max_age : cacheAge "max-age=9223372036" = maxCacheAge /\ cacheAge "max-age=9223372037" = minCacheAge.
Proof. split; vm_compute; reflexivity. Qed.

(** One call of [find]: its time, key ID and the responses that fetches would get. *)
Record lookup_call := mkCall {
  c_r1 : result string response;
  c_r2 : result string response;
  c_now : Time;
  c_kid : string }.

Definition do_find (c : lookup_call) (s : keySet) := find (c_r1 c) (c_r2 c) (c_now c) (c_kid c) s.

Definition run_finds (cs : list lookup_call) (s : keySet) : keySet :=
  foldl (fun s c => (do_find c s).1.2) s cs.

(** The fetches that the calls could make. *)
Definition offered (cs : list lookup_call) : list (Time * result string response) :=
  mjoin ((fun c => [(c_now c, c_r1 c); (c_now c, c_r2 c)]) <$> cs).

(** The keys are those of a fetch, and expire with it; before the first fetch they are not fresh. *)
Definition fetched_from (h : list (Time * result string response)) (s : keySet) : Prop :=
  fresh s = 0 \/
  exists t r age, (t, r) ∈ h /\ fetch_keys r = Ok (ks_keys s, age) /\ fresh s = t + age /\
    minCacheAge <= age <= maxCacheAge.

Lemma fetched_mono h h' s : h ⊆ h' -> fetched_from h s -> fetched_from h' s.
Proof. intros Hs [?|(t & r & age & Hin & ?)]; [by left|right]. exists t, r, age. split; [by apply Hs|done]. Qed.

Lemma fetch_keys_age r keys age : fetch_keys r = Ok (keys, age) -> minCacheAge <= age <= maxCacheAge.
Proof.
  unfold fetch_keys. destruct r as [r|]; simpl; [|done]. destruct (negb _); [done|]. destruct (_ <? _); [done|].
  destruct (parseJWKS _); simpl; [|done]. intros [= _ <-]. apply cacheAge_bounds.
Qed.

Lemma refresh_from h r now s : (now, r) ∈ h -> fetched_from h s -> fetched_from h (refresh r now s).
Proof.
  intros Hin Hs. unfold refresh. destruct (fetch_keys r) as [[keys age]|] eqn:Ef; [|done].
  right. exists now, r, age. destruct (fetch_keys_age _ _ _ Ef). by split_and!.
Qed.

(** What one call does to the key set, and how often it fetches. *)
Lemma find_keeps c h s :
  fetched_from h s -> fetched_from (h ++ [(c_now c, c_r1 c); (c_now c, c_r2 c)]) (do_find c s).1.2.
Proof.
  intros Hs. set (h' := h ++ _). assert (fetched_from h' s) as Hs' by (apply (fetched_mono h); [set_solver|done]).
  assert ((c_now c, c_r1 c) ∈ h' /\ (c_now c, c_r2 c) ∈ h') as [H1 H2] by (unfold h'; set_solver).
  unfold do_find, find. destruct (eqs _ _); [done|]. cbv zeta.
  set (n := if negb _ && _ then 1%nat else 0%nat). set (s1 := if negb _ && _ then _ else s).
  assert (fetched_from h' s1) as Hs1 by (unfold s1; case_match; [by apply refresh_from|done]).
  clearbody s1 n. destruct (negb _); [done|]. destruct (ks_keys s1 !! _); [done|]. destruct (_ <=? _); [by apply refresh_from|done].
Qed.

Lemma refresh_url r now s : ks_url (refresh r now s) = ks_url s.
Proof. unfold refresh. by destruct (fetch_keys r) as [[]|]. Qed.

Lemma refresh_fetched r now s : fetched (refresh r now s) = now.
Proof. unfold refresh. by destruct (fetch_keys r) as [[]|]. Qed.

Lemma find_url c s : ks_url (do_find c s).1.2 = ks_url s.
Proof.
  unfold do_find, find. destruct (eqs _ _); [done|]. cbv zeta. set (n := if negb _ && _ then 1%nat else 0%nat). set (s1 := if negb _ && _ then _ else s).
  assert (ks_url s1 = ks_url s) as Hs1 by (unfold s1; case_match; [apply refresh_url|done]).
  clearbody s1 n. destruct (negb _); [done|]. destruct (ks_keys s1 !! _); [done|].
  destruct (_ <=? _); simpl; [by rewrite refresh_url|done].
Qed.

(** The key is in the set that the call leaves, which is not too stale. *)
Lemma find_ok_fresh c s pk :
  ks_url s <> EmptyString -> (do_find c s).1.1 = Ok pk ->
  ks_keys (do_find c s).1.2 !! c_kid c = Some pk /\ c_now c < fresh (do_find c s).1.2 + maxStale.
Proof.
  intros Hu. unfold do_find, find. rewrite (proj2 (eqs_false _ _)) by done. cbv zeta.
  set (n := if negb _ && _ then 1%nat else 0%nat). set (s1 := if negb _ && _ then _ else s). clearbody s1 n. unfold time_Before, time_Add.
  destruct (c_now c <? fresh s1 + maxStale) eqn:Ef; simpl; [|done]. bool_hyps.
  destruct (ks_keys s1 !! c_kid c) as [k|] eqn:Ek; simpl; [intros [= <-]; done|].
  destruct (_ <=? _); simpl; [|done].
  destruct (ks_keys (refresh (c_r2 c) (c_now c) s1) !! c_kid c) eqn:Ek2; [|done]. intros [= <-]. split; [done|].
  unfold refresh in *. destruct (fetch_keys (c_r2 c)) as [[keys age]|] eqn:Er; simpl in *; [|lia].
  apply fetch_keys_age in Er. unfold time_Add, maxStale, minCacheAge, Hour, Minute, Second in *. lia.
Qed.

Lemma find_fetches c s : ks_url s <> EmptyString ->
  ((do_find c s).2 <= 1)%nat /\
  (((do_find c s).2 = 1)%nat -> minCacheAge <= time_Sub (c_now c) (fetched s) /\ fetched (do_find c s).1.2 = c_now c) /\
  (((do_find c s).2 = 0)%nat -> fetched (do_find c s).1.2 = fetched s).
Proof.
  intros Hu. unfold do_find, find. rewrite (proj2 (eqs_false _ _)) by done. cbv zeta.
  assert (time_Sub (c_now c) (c_now c) = 0) as H0 by (unfold time_Sub, two63; lia).
  destruct (negb _ && _) eqn:Ed.
  - bool_hyps. set (s1 := refresh _ _ _). assert (fetched s1 = c_now c) as Hs1 by apply refresh_fetched.
    rewrite Hs1, H0. destruct (negb _); [simpl; by rewrite Hs1|].
    destruct (ks_keys s1 !! _); simpl; by rewrite Hs1.
  - clear Ed. destruct (negb _); [simpl; split_and!; (lia || done)|].
    destruct (ks_keys s !! _); [simpl; split_and!; (lia || done)|].
    destruct (refetchInterval <=? _) eqn:Er; simpl; [|split_and!; (lia || done)]. bool_hyps.
    rewrite refresh_fetched.
    unfold refetchInterval, minCacheAge, Minute, Second in *. split_and!; [lia| |lia]. split; [lia|done].
Qed.

Lemma run_finds_from cs : forall h s, fetched_from h s -> fetched_from (h ++ offered cs) (run_finds cs s).
Proof.
  induction cs as [|c cs IH]; intros h s Hs; [by rewrite app_nil_r|].
  change (offered (c :: cs)) with ([(c_now c, c_r1 c); (c_now c, c_r2 c)] ++ offered cs).
  rewrite app_assoc. apply IH. by apply find_keeps.
Qed.

Lemma run_finds_url cs : forall s, ks_url (run_finds cs s) = ks_url s.
Proof. induction cs as [|c cs IH]; intros s; [done|]. simpl. rewrite IH. apply find_url. Qed.

(** A key that [find] returns was in a key set fetched not long before. *)
Lemma find_recent url keys0 cs c pk :
  url <> EmptyString -> maxStale <= c_now c ->
  (do_find c (run_finds cs (mkKeySet url keys0 0 0))).1.1 = Ok pk ->
  exists t r keys age, (t, r) ∈ offered (cs ++ [c]) /\ fetch_keys r = Ok (keys, age) /\
    keys !! c_kid c = Some pk /\ c_now c < t + maxCacheAge + maxStale.
Proof.
  intros Hurl Hnow Hf. set (s := run_finds _ _) in *.
  assert (fetched_from (offered (cs ++ [c])) (do_find c s).1.2) as Hfrom.
  { unfold offered. rewrite fmap_app, join_app. simpl. apply find_keeps. apply (run_finds_from cs []). by left. }
  destruct (find_ok_fresh c s pk) as [Hk Hfresh]; [by unfold s; rewrite run_finds_url|done|].
  destruct Hfrom as [H0|(t & r & age & Hin & Hr & Hfr & Ha)]; [lia|].
  exists t, r, (ks_keys (do_find c s).1.2), age. split_and!; try done. lia.
Qed.

(** Without a URL the keys are those of the file. *)
Lemma find_file keys0 cs c pk :
  (do_find c (run_finds cs (mkKeySet EmptyString keys0 0 0))).1.1 = Ok pk -> keys0 !! c_kid c = Some pk.
Proof.
  assert (run_finds cs (mkKeySet EmptyString keys0 0 0) = mkKeySet EmptyString keys0 0 0) as -> by (by induction cs).
  unfold do_find, find. simpl. destruct (keys0 !! c_kid c); [by intros [= <-]|done].
Qed.

(** Cached keys are recent, and fetches are rare.  Whatever key IDs tokens name and whatever the
    token service answers, a key that [find] returns was in a key set fetched less than an hour and
    five minutes before; no call fetches twice, and a call that fetches comes at least ten seconds
    after the fetch before it. *)
Theorem cached_keys_are_recent (url : string) (cs : list lookup_call) (c : lookup_call) :
  let s := run_finds cs (mkKeySet url ∅ 0 0) in
  url <> EmptyString -> maxStale <= c_now c ->
  (forall pk, (do_find c s).1.1 = Ok pk ->
     exists t r keys age, (t, r) ∈ offered (cs ++ [c]) /\ fetch_keys r = Ok (keys, age) /\
       keys !! c_kid c = Some pk /\ c_now c < t + maxCacheAge + maxStale) /\
  ((do_find c s).2 <= 1)%nat /\
  (((do_find c s).2 = 1)%nat -> minCacheAge <= time_Sub (c_now c) (fetched s) /\ fetched (do_find c s).1.2 = c_now c) /\
  (((do_find c s).2 = 0)%nat -> fetched (do_find c s).1.2 = fetched s).
Proof.
  intros s Hurl Hnow. split; [intros pk; by apply find_recent|].
  apply find_fetches. unfold s. by rewrite run_finds_url.
Qed.

(** ** Accepted tokens *)

Section verifier.
Variable ParseWithClaims : (string -> string -> result perr anyKey) -> Time -> string -> result perr claims.
Variable header_of_token : string -> option (string * string).

(** [signed token key alg c]: the token carries the claims [c] and a signature over them that verifies
    under [key] with [alg]. *)
Variable signed : string -> anyKey -> string -> claims -> Prop.
Variable leeway : Duration.

(** What the JWT library documents: it returns claims only for a token whose signature verifies under
    the key that the key function returned for its header, and that has not expired. *)
Hypothesis jwt_sound : forall kf now token c,
  ParseWithClaims kf now token = Ok c ->
  exists kid alg key, header_of_token token = Some (kid, alg) /\ kf kid alg = Ok key /\
    signed token key alg c /\ now < ExpiresAt c + leeway.

(** The key and the algorithm belong together. *)
Definition fits (key : anyKey) (alg : string) : Prop :=
  match key with Ed25519Key _ => alg = "EdDSA"%string | P256Key _ _ => alg = "ES256"%string end.

Lemma key_for_ok pk alg key : key_for pk alg = Ok key ->
  key = pk_key pk /\ fits key alg /\ (pk_alg pk = EmptyString \/ pk_alg pk = alg).
Proof.
  unfold key_for. destruct (_ && _) eqn:Ea; [done|]. apply alg_fits in Ea.
  destruct (pk_key pk) eqn:Ek; destruct (eqs alg _) eqn:El; try done; apply eqs_spec in El;
    intros [= <-]; by split_and!.
Qed.

(** The claims name the client's key. *)
Definition bound_to (c : claims) (key : slice) : Prop :=
  exists j, Cnf c = Some (Some j) /\ cj_Kty j = "OKP"%string /\ cj_Crv j = "Ed25519"%string /\
    b64_decode (str_bytes (cj_X j)) = Some (content key) /\ slice_len key = ed25519_PublicKeySize.

Lemma check_binding_ok c key g : check_binding c key = Ok g <-> bound_to c key /\ g = grant c.
Proof.
  unfold check_binding, bound_to. destruct (Cnf c) as [[j|]|]; [|naive_solver..].
  destruct (negb _ || negb _) eqn:Ek.
  { split; [done|]. intros [(j' & [= <-] & H1 & H2 & _) _].
    rewrite H1, H2 in Ek. by vm_compute in Ek. }
  apply orb_false_iff in Ek as [E1 E2]. apply negb_false_iff, eqs_spec in E1, E2.
  destruct (b64_decode (str_bytes (cj_X j))) as [b|] eqn:Ed; [|split; [done|]; intros [(j' & [= <-] & _ & _ & H1 & _) _]; congruence].
  destruct (zlen b =? ed25519_PublicKeySize) eqn:El; bool_hyps; simpl.
  - destruct (bytes_Equal (Some b) key) eqn:Eq; [apply bytes_Equal_spec in Eq; simpl in Eq|].
    + split.
      * intros [= <-]. split; [|done]. exists j. subst b. split_and!; done.
      * by intros [_ ->].
    + split; [done|]. intros [(j' & [= <-] & _ & _ & H1 & _) _]. rewrite Ed in H1. injection H1 as ->.
      assert (bytes_Equal (Some (content key)) key = true) by (by apply bytes_Equal_spec). congruence.
  - split; [done|]. intros [(j' & [= <-] & _ & _ & H1 & H2) _]. rewrite Ed in H1. injection H1 as ->. done.
Qed.

(** The key set of a file, if one is configured. *)
Definition read_file (file : option (list jwk)) (keys : gmap string publicKey) : Prop :=
  match file with Some l => parseJWKS (Some l) = Ok keys | None => keys = ∅ end.

(** What the token service has answered at the time [t]. *)
Definition served (h : list (Time * result string response)) (t : Time) (l : list jwk) : Prop :=
  exists r, (t, Ok r) ∈ h /\ r_status r = 200 /\ r_jwks r = Some l.

(** [pk] is a key of the token service: it is listed under the ID [kid] as a signature key, in the file or, if
    there is a URL, in what the service answered at a time that is not too long ago. *)
Definition current (url : string) (file : option (list jwk)) (h : list (Time * result string response)) (now : Time)
    (kid : string) (pk : publicKey) : Prop :=
  exists l, listed l kid pk /\ usable pk /\
    if eqs url EmptyString then file = Some l else exists t, served h t l /\ now < t + maxCacheAge + maxStale.

Lemma found_current url file keys0 cs c pk :
  read_file file keys0 -> maxStale <= c_now c -> (do_find c (run_finds cs (mkKeySet url keys0 0 0))).1.1 = Ok pk ->
  current url file (offered (cs ++ [c])) (c_now c) (c_kid c) pk.
Proof.
  intros Hfile Hnow Hf. unfold current. destruct (eqs url EmptyString) eqn:Eu.
  - apply eqs_spec in Eu as ->. apply find_file in Hf. destruct file as [l|]; simpl in Hfile.
    + destruct (parsed_keys _ _ _ _ Hfile Hf). by exists l.
    + subst. by rewrite lookup_empty in Hf.
  - apply eqs_false in Eu. destruct (find_recent _ _ _ _ _ Eu Hnow Hf) as (t & r & keys & age & Hin & Hr & Hk & Hlt).
    unfold fetch_keys in Hr. destruct r as [r|]; simpl in Hr; [|done]. destruct (r_status r =? 200) eqn:Es; [|done]. bool_hyps.
    simpl in Hr. destruct (_ <? _); [done|]. destruct (r_jwks r) as [l|] eqn:Ej; [|done].
    destruct (parseJWKS (Some l)) as [ks|] eqn:Hp; simpl in Hr; [|done]. injection Hr as -> _.
    destruct (parsed_keys _ _ _ _ Hp Hk). exists l. split_and!; [done|done|]. exists t. split; [by exists r|done].
Qed.

(** C27: An accepted token is the token service's and the client's own.  Take a verifier that was started with
    a URL or a file and has looked up keys before, for whichever tokens and with whichever answers of
    the token service.  If [Verify] accepts a token for a client key, then the token has a signature
    that verifies under a current key of the token service: one that is listed as a signature key under
    the key ID that the token names, in the file or in what the service answered less than an hour and
    five minutes ago.  The algorithm is the one of that key's type (no algorithm confusion), the
    token has not expired, its claims name exactly the client's Ed25519 key, and the grant is what the
    claims say. *)
Theorem verified_token_is_bound (url : string) (file : option (list jwk)) (keys0 : gmap string publicKey)
    (cs : list lookup_call) (r1 r2 : result string response) (now : Time) (token : string) (key : slice)
    (s' : keySet) (g : Grant) :
  read_file file keys0 -> maxStale <= now ->
  Verify ParseWithClaims header_of_token r1 r2 now token key (run_finds cs (mkKeySet url keys0 0 0)) = (Ok g, s') ->
  exists kid alg pk c, header_of_token token = Some (kid, alg) /\ kid <> EmptyString /\
    current url file (offered (cs ++ [mkCall r1 r2 now kid])) now kid pk /\
    signed token (pk_key pk) alg c /\ fits (pk_key pk) alg /\ (pk_alg pk = EmptyString \/ pk_alg pk = alg) /\
    now < ExpiresAt c + leeway /\ bound_to c key /\ g = mkGrant (ExpiresAt c) (claims_Subject c).
Proof.
  intros Hfile Hnow. set (s := run_finds _ _). unfold Verify, parse. destruct (eqs token EmptyString); [done|].
  intros HV. injection HV as HV _. destruct (ParseWithClaims _ now token) as [c|e] eqn:Hp; [|by destruct e].
  apply check_binding_ok in HV as [Hb ->].
  destruct (jwt_sound _ _ _ _ Hp) as (kid & alg & k & Hh & Hk & Hsig & Hexp). unfold key_func in Hk.
  destruct (eqs kid EmptyString) eqn:Ekid; [done|]. apply eqs_false in Ekid.
  destruct (find r1 r2 now kid s) as [[[pk|e] s1] n] eqn:Ef; simpl in *; [|done].
  apply key_for_ok in Hk as (-> & Hfit & Halg). exists kid, alg, pk, c. split_and!; try done.
  apply (found_current url file keys0 cs (mkCall r1 r2 now kid)); [done|done|].
  unfold do_find. simpl. fold s. by rewrite Ef.
Qed.
End verifier.

(** ** Witnesses *)

Definition x_of_key : string := String.string_of_list_byte (b64_encode (replicate 32 x05)).

Definition jwks1 : list jwk := [mkJwk "OKP" "Ed25519" x_of_key EmptyString "k1" "EdDSA" "sig"].

Definition key1 : publicKey := mkPublicKey (Ed25519Key (replicate 32 x05)) "EdDSA".

Lemma jwks_sound_witness : usable key1 /\ exists keys, parseJWKS (Some jwks1) = Ok keys /\ keys <> ∅.
Proof.
  assert (parseJWKS (Some jwks1) = Ok {[ "k1"%string := key1 ]}) as Hp by (vm_compute; reflexivity).
  destruct (jwks_sound jwks1 {[ "k1"%string := key1 ]} Hp) as [Hne Hall]. split.
  - apply (Hall "k1"%string key1). apply lookup_singleton_eq.
  - by exists {[ "k1"%string := key1 ]}.
Defined.

(** The key set is fetched at [t1], and asked again five minutes later while the service is down. *)
Definition t1 : Time := unix_epoch + 1700000000 * Second.
Definition ok1 : result string response := Ok (mkResponse 200 [] (Some jwks1) "max-age=60").
Definition down : result string response := Err "no route to host"%string.
Definition call1 : lookup_call := mkCall ok1 down t1 "k1".
Definition call2 : lookup_call := mkCall down down (t1 + 5 * Minute) "k1".

Lemma cached_keys_are_recent_witness :
  exists t r keys age, (t, r) ∈ offered [call1; call2] /\ fetch_keys r = Ok (keys, age) /\
    keys !! "k1"%string = Some key1 /\ t1 + 5 * Minute < t + maxCacheAge + maxStale.
Proof.
  destruct (cached_keys_are_recent "https://tokens.example/jwks" [call1] call2) as [Hk _].
  - done.
  - vm_compute. congruence.
  - apply Hk. vm_compute. reflexivity.
Defined.

(** A stand-in for the JWT library: every token names the key [k1] and carries the same claims. *)
Definition claims1 : claims :=
  mkClaims (t1 + Hour) "o" (Some (Some (mkCnfJwk "OKP" "Ed25519" x_of_key))).

Definition header1 (token : string) : option (string * string) := Some ("k1"%string, "EdDSA"%string).

Definition parser1 (kf : string -> string -> result perr anyKey) (now : Time) (token : string) :
    result perr claims :=
  _ ← kf "k1"%string "EdDSA"%string;
  if now <? ExpiresAt claims1 then Ok claims1 else Err (OtherError "token is expired").

Definition signed1 (token : string) (key : anyKey) (alg : string) (c : claims) : Prop := c = claims1.

Lemma parser1_sound kf now token c :
  parser1 kf now token = Ok c ->
  exists kid alg key, header1 token = Some (kid, alg) /\ kf kid alg = Ok key /\
    signed1 token key alg c /\ now < ExpiresAt c + Minute.
Proof.
  unfold parser1. destruct (kf _ _) as [key|e] eqn:Ek; simpl; [|done].
  destruct (now <? t1 + Hour) eqn:Et; [|done]. bool_hyps. intros [= <-].
  exists "k1"%string, "EdDSA"%string, key. split_and!; try done. simpl. unfold Minute, Second. lia.
Qed.

Lemma verified_token_is_bound_witness : bound_to claims1 (Some (replicate 32 x05)).
Proof.
  destruct (verified_token_is_bound parser1 header1 signed1 Minute parser1_sound "https://tokens.example/jwks" None ∅ [call1]
              down down (t1 + 5 * Minute) "token" (Some (replicate 32 x05))
              (mkKeySet "https://tokens.example/jwks" {[ "k1"%string := key1 ]} (t1 + Minute) (t1 + 5 * Minute))
              (mkGrant (t1 + Hour) "o"))
    as (kid & alg & pk & c & _ & _ & _ & Hs & _ & _ & _ & Hb & _).
  - reflexivity.
  - vm_compute. congruence.
  - vm_compute. reflexivity.
  - unfold signed1 in Hs. subst c. exact Hb.
Defined.
