(* ===== verification/Config.v ===== *)
(** * Configuration: [Config], [DefaultConfig] and [Validate] of [src/server/server.go]

    The fields, the defaults and the checks, in the order of the code; 32- and 64-bit arithmetic wraps
    as in the code.  [url.Parse] is an argument. *)

From S2P Require Import Prelude Store Messages Connection ConnWire ConnLease.

Local Open Scope Z_scope.

Definition StoreMemory : string := "memory".
Definition StorePostgres : string := "postgres".

Record Config := mkConfig {
  Addr : string;
  cfg_ServerID : string;
  cfg_Store : string;
  DatabaseURL : string;
  DBMaxConns : Z;
  DBMinConns : Z;
  RequireSyncReplication : bool;
  cfg_MaxFrameBytes : Z;
  cfg_MaxCommitBytes : Z;
  cfg_PingInterval : Duration;
  cfg_LeaseTTL : Duration;
  HelloTimeout : Duration;
  cfg_AllowedOrigins : list string;
  DeleteUnusedAfter : Duration;
  TokenJWKSURL : string;
  TokenJWKSFile : string;
  TokenIssuer : string;
  TokenAudience : string;
  TokenLeeway : Duration }.

Definition DefaultConfig : Config :=
  mkConfig EmptyString EmptyString EmptyString EmptyString 0 0 false (Z.shiftl 1 20) (Z.shiftl 256 20)
    (10 * Second) (5 * Minute) (5 * Second) [] (180 * 24 * Hour)
    EmptyString EmptyString EmptyString EmptyString Minute.

(** What [Validate] reads of a parsed URL. *)
Record URL := mkURL { Scheme : string; Host : string; Hostname : string }.

Definition is_empty (s : string) : bool := bool_decide (s = EmptyString).
Definition is_str (s t : string) : bool := bool_decide (s = t).

Definition tokens (c : Config) : bool := negb (is_empty (TokenJWKSURL c)) || negb (is_empty (TokenJWKSFile c)).

(** [strings.ContainsAny(origin, "/ ")] *)
Definition has_slash_or_space (s : string) : bool :=
  existsb (fun b => bool_decide (b = x2f) || bool_decide (b = x20)) (str_bytes s).

(** The check of the JWKS URL. *)
Definition url_ok (u : option URL) : bool :=
  match u with
  | None => false
  | Some u =>
      let local := is_str (Hostname u) "localhost" || is_str (Hostname u) "127.0.0.1" || is_str (Hostname u) "::1" in
      let secure := is_str (Scheme u) "https" || (is_str (Scheme u) "http" && local) in
      negb (is_empty (Host u)) && secure
  end.

(** The [switch] of [Validate]: the field of the first case that applies. *)
Definition validate_fields (c : Config) : option string :=
  if is_empty (Addr c) then Some "Addr"%string
  else if is_empty (cfg_ServerID c) then Some "ServerID"%string
  else if negb (is_str (cfg_Store c) StoreMemory) && negb (is_str (cfg_Store c) StorePostgres) then
    Some "Store"%string
  else if is_str (cfg_Store c) StorePostgres && is_empty (DatabaseURL c) then Some "DatabaseURL"%string
  else if DBMaxConns c <? 0 then Some "DBMaxConns"%string
  else if DBMinConns c <? 0 then Some "DBMinConns"%string
  else if (0 <? DBMaxConns c) && (DBMaxConns c <? DBMinConns c) then Some "DBMinConns"%string
  else if RequireSyncReplication c && negb (is_str (cfg_Store c) StorePostgres) then
    Some "RequireSyncReplication"%string
  else if cfg_MaxFrameBytes c <? minMaxFrameBytes then Some "MaxFrameBytes"%string
  else if cfg_MaxCommitBytes c <? cfg_MaxFrameBytes c then Some "MaxCommitBytes"%string
  else if cfg_PingInterval c <=? 0 then Some "PingInterval"%string
  else if cfg_LeaseTTL c <? s64 (2 * cfg_PingInterval c) then Some "LeaseTTL"%string
  else if HelloTimeout c <=? 0 then Some "HelloTimeout"%string
  else if (DeleteUnusedAfter c <? 0) || ((0 <? DeleteUnusedAfter c) && (DeleteUnusedAfter c <? 24 * Hour)) then
    Some "DeleteUnusedAfter"%string
  else if negb (is_empty (TokenJWKSURL c)) && negb (is_empty (TokenJWKSFile c)) then Some "TokenJWKSFile"%string
  else if negb (tokens c) && (negb (is_empty (TokenIssuer c)) || negb (is_empty (TokenAudience c))) then
    Some "TokenIssuer"%string
  else if tokens c && is_empty (TokenIssuer c) then Some "TokenIssuer"%string
  else if TokenLeeway c <? 0 then Some "TokenLeeway"%string
  else None.

(** [Validate]: the invalid field, or [None]. *)
Definition Validate (url_Parse : string -> option URL) (c : Config) : option string :=
  match validate_fields c with
  | Some field => Some field
  | None =>
      if negb (is_empty (TokenJWKSURL c)) && negb (url_ok (url_Parse (TokenJWKSURL c))) then
        Some "TokenJWKSURL"%string
      else if existsb (fun origin => is_empty origin || has_slash_or_space origin) (cfg_AllowedOrigins c) then
        Some "AllowedOrigins"%string
      else None
  end.

(** The options that [Run] passes to the protocol server. *)
Definition options_of (c : Config) : Options :=
  mkOptions (cfg_MaxFrameBytes c) (cfg_PingInterval c) (cfg_LeaseTTL c) (cfg_MaxCommitBytes c)
    (cfg_ServerID c) 0 (cfg_AllowedOrigins c).

(** The audience that [newVerifier] requires. *)
Definition audience (c : Config) : string :=
  if is_empty (TokenAudience c) then cfg_ServerID c else TokenAudience c.

(** ** What a valid configuration guarantees *)

(** The widths of the fields. *)
Definition in_widths (c : Config) : Prop :=
  in_u32 (cfg_MaxFrameBytes c) /\ in_u64 (cfg_MaxCommitBytes c) /\ in_s64 (cfg_PingInterval c) /\
  in_s64 (cfg_LeaseTTL c) /\ in_s64 (DeleteUnusedAfter c).

Lemma empty_false s : is_empty s = false <-> s <> EmptyString.
Proof. unfold is_empty. by rewrite bool_decide_eq_false. Qed.

Lemma audience_set c : is_empty (cfg_ServerID c) = false -> audience c <> EmptyString.
Proof.
  intros Hs. unfold audience. destruct (is_empty (TokenAudience c)) eqn:E; by apply empty_false.
Qed.

Lemma one_source c :
  tokens c = true -> negb (is_empty (TokenJWKSURL c)) && negb (is_empty (TokenJWKSFile c)) = false ->
  TokenJWKSURL c = EmptyString <-> TokenJWKSFile c <> EmptyString.
Proof.
  unfold tokens, is_empty. repeat case_bool_decide; simpl; try done; naive_solver.
Qed.

(** A valid configuration is a working one.  The limits of a configuration that [Validate] accepts
    leave room for a block of every page size in a frame and for a frame in a commit; a client that
    pings at the configured interval renews its leases before they expire (for intervals below 2^62
    nanoseconds, for which the doubled interval does not overflow); logins are possible; and where
    tokens are required there is one source of keys, an issuer and an audience. *)
Theorem valid_config_works (url_Parse : string -> option URL) (c : Config) :
  in_widths c -> cfg_PingInterval c < 4611686018427387904 -> Validate url_Parse c = None ->
  let opts := options_of c in
  minMaxFrameBytes <= MaxFrameBytes opts < two32 /\
  (forall pageSize, ValidPageSize pageSize = true ->
     pageSize + pagesBlockOverhead <= MaxFrameBytes opts - pagesFrameOverhead) /\
  MaxFrameBytes opts <= MaxCommitBytes opts /\
  0 < PingInterval opts <= LeaseTTL opts ÷ 2 /\ LeaseTTL opts < two63 /\
  ServerID opts <> EmptyString /\
  (DeleteUnusedAfter c = 0 \/ 24 * Hour <= DeleteUnusedAfter c) /\
  (tokens c = true -> TokenIssuer c <> EmptyString /\ audience c <> EmptyString /\
     (TokenJWKSURL c = EmptyString <-> TokenJWKSFile c <> EmptyString)).
Proof.
  intros (Hf & Hc & Hp & Hl & Hd) Hsmall HV. unfold Validate in HV.
  destruct (validate_fields c) eqn:HF; [done|]. clear HV. unfold validate_fields in HF.
  repeat match type of HF with (if ?b then _ else _) = None => destruct b eqn:?; [done|] end. clear HF.
  bool_hyps. simpl. rewrite s64_small in * by (unfold in_s64, two63 in *; lia).
  split_and!.
  - done.
  - apply Hf.
  - intros ps Hps. unfold ValidPageSize in Hps. bool_hyps.
    unfold MaxPageSize, minMaxFrameBytes, pagesBlockOverhead, pagesFrameOverhead in *. lia.
  - done.
  - done.
  - rewrite Z.quot_div_nonneg by lia. apply Z.div_le_lower_bound; lia.
  - unfold in_s64 in Hl. lia.
  - by apply empty_false.
  - unfold Hour, Minute, Second in *.
    destruct (decide (DeleteUnusedAfter c = 0)); [by left|right].
    repeat match goal with H : (_ && _) = false |- _ => apply andb_false_iff in H as [H|H] end; bool_hyps; lia.
  - intros Ht. match goal with H : tokens c && is_empty _ = false |- _ => rewrite Ht in H; simpl in H; rename H into Hi end.
    match goal with H : negb (is_empty (TokenJWKSURL c)) && _ = false |- _ => rename H into Hone end.
    match goal with H : is_empty (cfg_ServerID c) = false |- _ => rename H into Hid end.
    split_and!; [by apply empty_false|by apply audience_set|by apply one_source].
Qed.

Lemma valid_config_works_witness :
  let c := mkConfig ":8080" "wss://vfs.example/v1/ws" StoreMemory EmptyString 0 0 false 1048576 268435456
             (10 * Second) (5 * Minute) (5 * Second) [] (180 * 24 * Hour)
             "https://tokens.example/jwks" EmptyString "https://tokens.example" EmptyString Minute in
  PingInterval (options_of c) <= LeaseTTL (options_of c) ÷ 2 /\ audience c <> EmptyString.
Proof.
  intros c.
  destruct (valid_config_works (fun _ => Some (mkURL "https" "tokens.example" "tokens.example")) c)
    as (_ & _ & _ & [_ Hp] & _ & _ & _ & Ht).
  - repeat split; vm_compute; congruence.
  - reflexivity.
  - vm_compute. reflexivity.
  - split; [exact Hp|]. apply Ht. reflexivity.
Defined.

(** [2*c.PingInterval] overflows for an interval of 2^62 nanoseconds, and a lease of one nanosecond passes. *)
Theorem huge_ping_interval_accepted :
  Validate (fun _ => None)
    (mkConfig ":8080" "wss://vfs.example/v1/ws" StoreMemory EmptyString 0 0 false 1048576 268435456
       4611686018427387904 1 (5 * Second) [] 0 EmptyString EmptyString EmptyString EmptyString Minute) = None.
Proof. vm_compute. reflexivity. Qed.
