(* ===== verification/ConnRun.v ===== *)
(** * A whole connection: [run] and [serve] of [src/internal/protocol/connection.go]

    The first frame must log in; then frames are handled until one cannot be read or the access token
    has expired; at the end the connection gives up its entries in the table of lease holders. *)

From S2P Require Import Prelude Store Memory Trace Samples Messages Connection ConnFacts ConnSamples ConnCommit Login LoginFacts.

Local Open Scope Z_scope.

(** What [read] returns: a frame, or one of the errors that [readFailed] tells apart. *)
Inductive read_result :=
| Read (frame : pb.ClientFrame)
| NotBinary
| Malformed
| DeadlineExceeded
| ReadError.

Inductive StatusCode :=
| StatusNormalClosure
| StatusUnsupportedData
| StatusInvalidFramePayloadData
| StatusPolicyViolation.

Definition readFailed (r : read_result) : StatusCode :=
  match r with
  | NotBinary => StatusUnsupportedData
  | Malformed => StatusInvalidFramePayloadData
  | DeadlineExceeded => StatusPolicyViolation
  | Read _ | ReadError => StatusNormalClosure
  end.

(** How far a connection got: it is still open, it was closed with a status, or a handler panicked, which
    net/http recovers from after the deferred functions have run; the client sees no status. *)
Inductive ending := StillOpen | Closed (status : StatusCode) | Panicked.

Section run.
Context {S : Type} `{!StoreAPI S}.
Variable sha256_Sum256 : bytes -> bytes.
Variable ed25519_Verify : bytes -> bytes -> bytes -> bool.
Variable opts : Options.
Variable Tokens : option (string -> slice -> result perr Grant).
Variable leeway : Duration.

(** The loop after the login; when the list of reads ends the connection is still open. *)
Fixpoint run_loop (c : session) (reads : list (env * read_result)) (w : world S) : ending * world S :=
  match reads with
  | [] => (StillOpen, w)
  | (e, Read frame) :: rest =>
      if negb (is_ping frame) && tokenExpired c leeway (now e) then (Closed StatusPolicyViolation, w)
      else if panics frame w then (Panicked, handle opts c e frame w)
      else run_loop c rest (handle opts c e frame w)
  | (_, r) :: _ => (Closed (readFailed r), w)
  end.

Definition send_all (frames : list pb.ServerFrame) (w : world S) : world S :=
  foldl (fun w f => send f w) w frames.

(** [run]: the session if there is one, and how the connection ends. *)
Definition run_connection (conn : nat) (first : read_result) (l : login_env) (reads : list (env * read_result)) (w : world S) :
    option session * ending * world S :=
  match first with
  | Read frame =>
      let '(res, sent) := hello sha256_Sum256 ed25519_Verify opts Tokens conn l frame in
      let w := send_all sent w in
      match res with
      | Err _ => (None, Closed StatusPolicyViolation, w)
      | Ok c => let '(status, w) := run_loop c reads w in (Some c, status, w)
      end
  | r => (None, Closed (readFailed r), w)
  end.

(** [serve]: [run], and then the deferred function. *)
Definition serve (conn : nat) (first : read_result) (l : login_env) (reads : list (env * read_result)) (w : world S) :
    ending * world S :=
  let '(c, status, w) := run_connection conn first l reads w in
  match c, status with
  | Some c, (Closed _ | Panicked) => (status, disconnect c w)
  | _, _ => (status, w)
  end.

(** ** Facts *)

Lemma send_all_quiet frames : forall w : world S,
  quiet w (send_all frames w) /\ w_dbs (send_all frames w) = w_dbs w /\ w_holders (send_all frames w) = w_holders w /\
  w_sent (send_all frames w) = w_sent w ++ frames.
Proof.
  induction frames as [|f frames IH]; intros w; simpl; [by rewrite app_nil_r|].
  destruct (IH (send f w)) as ([Hs Hc] & Hd & Hh & Hf). unfold send_all in *. simpl.
  rewrite Hd, Hh, Hf. unfold quiet. rewrite Hs, Hc. simpl. by rewrite <- app_assoc.
Qed.

(** The calls of a loop: own calls of the session, one after the other. *)
Lemma run_loop_calls c reads : forall w : world S, own_dbs c w ->
  exists new, w_calls (run_loop c reads w).2 = w_calls w ++ new /\
    w_store (run_loop c reads w).2 = (run new (w_store w)).1 /\ Forall (own_call c) new.
Proof.
  induction reads as [|[e r] reads IH]; intros w Hw; simpl.
  { exists []. rewrite app_nil_r. done. }
  destruct r as [frame| | | |]; try (exists []; rewrite app_nil_r; done).
  destruct (_ && _); [exists []; rewrite app_nil_r; done|].
  destruct (extends_handle opts c e frame w Hw) as (Hw' & n1 & Hc1 & Hs1 & Ho1 & _).
  destruct (panics _ _); [by exists n1|].
  destruct (IH _ Hw') as (n2 & Hc2 & Hs2 & Ho2). exists (n1 ++ n2).
  rewrite Hc2, Hc1, app_assoc, Hs2, Hs1, run_app. split_and!; [done|done|by apply Forall_app].
Qed.

(** C26: Nothing happens before the login, and afterwards everything in the name of the key that logged
    in.  A connection whose login fails makes no call to the store, and is not sent anything but the
    challenge and an error.  Otherwise its session is one that the login established, all calls it
    makes are on databases of the session's subject or on the slot of its owner, and the store changes
    by these calls only. *)
Theorem calls_need_a_login (conn : nat) (first : read_result) (l : login_env) (reads : list (env * read_result))
    (w : world S) :
  w_dbs w = ∅ ->
  let '(c, status, w') := run_connection conn first l reads w in
  exists new, w_calls w' = w_calls w ++ new /\ w_store w' = (run new (w_store w)).1 /\
    match c with
    | None => new = [] /\ w_holders w' = w_holders w /\ exists code, status = Closed code
    | Some c => Forall (own_call c) new /\
        exists frame, first = Read frame /\
          (hello sha256_Sum256 ed25519_Verify opts Tokens conn l frame).1 = Ok c
    end.
Proof.
  intros Hd. unfold run_connection. destruct first as [frame| | | |];
    try (exists []; rewrite app_nil_r; split_and!; by eauto).
  destruct (hello _ _ _ _ _ _ _) as [res sent] eqn:Hh.
  destruct (send_all_quiet sent w) as ([Hs Hc] & Hd' & Hho & _). destruct res as [c|err].
  - assert (own_dbs c (send_all sent w)) as Hown by (unfold own_dbs; rewrite Hd', Hd; apply map_Forall_empty).
    destruct (run_loop_calls c reads _ Hown) as (new & Hcalls & Hst & Hnew).
    destruct (run_loop c reads (send_all sent w)) as [status w']. simpl in *.
    exists new. rewrite Hcalls, Hst, Hc, Hs. split_and!; try done. exists frame. by rewrite Hh.
  - exists []. rewrite app_nil_r, Hc, Hs. split_and!; by eauto.
Qed.
End run.

(** ** A login with a stand-in for the signature check *)

Definition accept_all (key msg sig : bytes) : bool := true.

Definition hello1 : pb.ClientFrame :=
  frame 1 (pb.ClientFrame_Hello (pb.mkHello 1 (Some [x02]) pb.SIG_ALG_ED25519 key_a EmptyString)).

Definition login1 : login_env :=
  mkLoginEnv (Ok (replicate 32 x01)) t0 (Some (frame 2 (pb.ClientFrame_Proof (pb.mkProof (Some [x07]))))) (t0 + Second) (t0 + Second).

Definition reads1 : list (env * read_result) := [(at_ (t0 + 2 * Second), Read (frame 3 open_main)); (at_ t0, ReadError)].

Definition session_a : session :=
  mkSession 7 (subjectOf last32 pb.SIG_ALG_ED25519 key_a) (Some [x02]) EmptyString 0.

Lemma calls_need_a_login_witness :
  exists new, w_calls (run_connection last32 accept_all opts0 None 0 7 (Read hello1) login1 reads1 (world_of s1)).2 = new /\
    Forall (own_call session_a) new /\ length new = 1%nat.
Proof.
  pose proof (calls_need_a_login last32 accept_all opts0 None 0 7 (Read hello1) login1 reads1 (world_of s1) eq_refl) as H.
  set (r := run_connection last32 accept_all opts0 None 0 7 (Read hello1) login1 reads1 (world_of s1)) in *.
  assert (r.1.1 = Some session_a /\ length (w_calls r.2) = 1%nat) as [Hc Hl] by (vm_compute; split; reflexivity).
  destruct r as [[c status] w']. simpl in Hc, Hl |- *. subst c.
  destruct H as (new & Hw & _ & Ho & _). exists new. simpl in Hw. rewrite Hw in Hl. split_and!; done.
Defined.
