(* ===== verification/ConnPostgres.v ===== *)
(** * A connection on PostgreSQL

    The whole connection, from the login to its end, on the PostgreSQL store: its client is sent the
    same frames as with the memory store.  Everything proved of connections on the memory store
    therefore holds on PostgreSQL. *)

From S2P Require Import Prelude Store StoreFacts Memory Trace MemoryInv MemoryStep Samples Tables Postgres PgRel PgLease PgRefine Messages Connection ConnFacts ConnSamples ConnTyped Login LoginFacts ConnRun.

Local Open Scope Z_scope.

(** ** The loop of a connection on two stores *)

Definition read_calls (er : env * read_result) : Z :=
  match er.2 with Read f => frame_calls er.1 (pb.ClientFrame_Body f) | _ => 0 end.

Definition reads_calls (reads : list (env * read_result)) : Z := foldr (fun er acc => read_calls er + acc) 0 reads.

Lemma read_calls_nonneg er : 0 <= read_calls er.
Proof. unfold read_calls. destruct er as [e [f| | | |]]; simpl; try lia. apply frame_calls_nonneg. Qed.

Lemma reads_calls_nonneg reads : 0 <= reads_calls reads.
Proof. induction reads as [|er reads IH]; simpl; [lia|]. pose proof (read_calls_nonneg er). lia. Qed.

(** A frame that was read is well-typed and, where it matters, in the range of the columns. *)
Definition read_fits (strict : Prop) (er : env * read_result) : Prop :=
  match er.2 with
  | Read f => typed_body (pb.ClientFrame_Body f) /\ (strict -> frame_in_range er.1 (pb.ClientFrame_Body f))
  | _ => True
  end.

Lemma send_all_new {S} sent (x : S) holders : send_all sent (new_world x holders) = mkWorld x [] holders ∅ sent [].
Proof.
  unfold new_world. change sent with ([] ++ sent)%list at 2. generalize (@nil pb.ServerFrame).
  induction sent as [|f sent IH]; intros l; simpl; [by rewrite app_nil_r|].
  etrans; [apply (IH (l ++ [f])%list)|]. by rewrite <- app_assoc.
Qed.

Section loop.
Context {S' : Type} `{StoreAPI S'}.
Variables (R : S' -> MemStore -> Prop) (strict : Prop) (bound : Z).
Hypothesis bound_ok : bound <= two64 - 1.
Hypothesis step_R : forall n o t s,
  0 <= n < bound -> wf_store n s -> R t s -> legal o s -> (strict -> in_range o) ->
  (step o t).2 = (step o s).2 /\ R (step o t).1 (step o s).1.
Variable opts : Options.
Variable leeway : Duration.
Hypothesis ttl_ok : strict -> aligned (LeaseTTL opts).

Lemma sim_loop s0 skip c reads n w v :
  (strict -> texts [owner c; subject c]) ->
  sim R strict s0 skip n w v -> 0 <= n -> n + reads_calls reads <= bound -> Forall (read_fits strict) reads ->
  (run_loop opts leeway c reads w).1 = (run_loop opts leeway c reads v).1 /\
  sim R strict s0 skip (n + reads_calls reads) (run_loop opts leeway c reads w).2 (run_loop opts leeway c reads v).2.
Proof.
  intros Hses. revert n w v. induction reads as [|[e r] reads IH]; intros n w v Hs Hn Hb Hok; simpl in *.
  { by rewrite Z.add_0_r. }
  apply Forall_cons in Hok as [Hr Hok]. pose proof (reads_calls_nonneg reads).
  pose proof (read_calls_nonneg (e, r)).
  assert (sim R strict s0 skip (n + (read_calls (e, r) + reads_calls reads)) w v)
    as Hs' by (eapply sim_mono; [|done]; lia).
  destruct r as [f| | | |]; try done. destruct (_ && _); [done|].
  destruct Hr as [Hty Hin]. unfold read_calls in *. simpl in *.
  rewrite (sim_panics R strict bound bound_ok step_R s0 skip n e f w v) by (done || lia).
  assert (sim R strict s0 skip (n + frame_calls e (pb.ClientFrame_Body f)) (handle opts c e f w) (handle opts c e f v)) as Hs2.
  { apply (sim_handle R strict bound); try done. lia. }
  rewrite Z.add_assoc. destruct (panics f v); [|by apply IH; [|lia|lia|]].
  split; [done|]. simpl. eapply sim_mono; [|exact Hs2]. lia.
Qed.

(** The login only adds frames, the same on both. *)
Lemma sim_send_all sent t s holders n :
  R t s -> wf_store n s -> typed_holders holders ->
  sim R strict s (length sent) n (send_all sent (new_world t holders)) (send_all sent (new_world s holders)).
Proof.
  intros Hr Hwf Hh. rewrite !send_all_new. constructor; simpl; try done.
  - exists []. constructor.
  - by rewrite drop_all.
Qed.
End loop.

Section agree.
Context `{!Timestamptz}.
Variable sha256_Sum256 : bytes -> bytes.
Variable ed25519_Verify : bytes -> bytes -> bytes -> bool.
Variable opts : Options.
Variable Tokens : option (string -> slice -> result perr Grant).
Variable leeway : Duration.

Lemma postgres_step n o t s :
  0 <= n < two63 - 1 -> wf_store n s -> rel t s -> legal o s -> (True -> in_range o) ->
  (step o t).2 = (step o s).2 /\ rel (step o t).1 (step o s).1.
Proof. intros. eapply step_sim; eauto. Qed.

(** C9: A client cannot tell which store the server uses.  A whole connection, from its login to its
    end, on a PostgreSQL store that holds the state of a memory store: it gets the same frames in
    the same order, is closed with the same status, the same pushes go to other connections, the
    same leases are registered, and the stores still hold the same state.  The numbers of its frames
    fit their fields, page counts are below 2^63, the clock ticks in microseconds, and the IDs and labels
    in its frames and the owners of tokens have no byte 0, which PostgreSQL cannot store in a text
    ([nul_id_differs]). *)
Theorem connections_agree (conn : nat) (first : read_result) (l : login_env) (reads : list (env * read_result))
    (holders : gmap Key holder) (n : Z) (t : Tables) (s : MemStore) :
  rel t s -> wf_store n s -> 0 <= n -> n + reads_calls reads <= two63 - 1 ->
  aligned (LeaseTTL opts) -> typed_holders holders -> Forall (read_fits True) reads ->
  (forall verify token key g, Tokens = Some verify -> verify token key = Ok g -> text_ok (Owner g) = true) ->
  let pg := serve sha256_Sum256 ed25519_Verify opts Tokens leeway conn first l reads (new_world t holders) in
  let mem := serve sha256_Sum256 ed25519_Verify opts Tokens leeway conn first l reads (new_world s holders) in
  pg.1 = mem.1 /\ w_sent pg.2 = w_sent mem.2 /\ w_pushes pg.2 = w_pushes mem.2 /\
  w_holders pg.2 = w_holders mem.2 /\ rel (w_store pg.2) (w_store mem.2).
Proof.
  intros Hr Hwf Hn Hb Httl Hh Hok Htok. unfold serve, run_connection.
  destruct first as [frame| | | |]; try (by split_and!).
  pose proof (fun c => hello_texts sha256_Sum256 ed25519_Verify opts Tokens conn l frame c Htok) as Hses.
  destruct (hello _ _ _ _ _ _ _) as [res sent]; simpl in Hses. pose proof (sim_send_all rel True sent t s holders n Hr Hwf Hh) as Hs.
  destruct res as [c|e]; [|split_and!; apply Hs || done].
  destruct (sim_loop rel True (two63 - 1) ltac:(zlia) postgres_step opts leeway (fun _ => Httl) s (length sent) c reads n
              _ _ (fun _ => Hses c eq_refl) Hs Hn Hb Hok) as [Hst Hs'].
  destruct (run_loop opts leeway c reads (send_all sent (new_world t holders))) as [st1 w1].
  destruct (run_loop opts leeway c reads (send_all sent (new_world s holders))) as [st2 w2].
  simpl in *. subst st2. destruct Hs'. destruct st1; simpl; split_and!; try done.
  all: unfold disconnect; simpl; by rewrite sim_dbs, sim_holders.
Qed.
End agree.

(** Alice logs in, opens her database and is cut off, on the empty stores. *)
Lemma connections_agree_witness :
  w_sent (@serve _ (@Tables_api microseconds) last32 accept_all opts0 None 0 7 (Read hello1) login1 reads1
            (new_world empty_tables ∅)).2 =
  w_sent (serve last32 accept_all opts0 None 0 7 (Read hello1) login1 reads1 (new_world New ∅)).2.
Proof.
  refine (proj1 (proj2 (@connections_agree microseconds last32 accept_all opts0 None 0 7 (Read hello1) login1
    reads1 ∅ 0 empty_tables New _ _ _ _ _ _ _ _))).
  - apply rel_empty.
  - apply wf_new.
  - lia.
  - vm_compute. discriminate.
  - reflexivity.
  - apply map_Forall_empty.
  - constructor; [|by constructor]. split; [vm_compute; by split|]. by split.
  - done.
Defined.

(** ** The byte 0 *)

(** An ID of a database that ends with the byte 0, which is UTF-8 and passes the checks of the connection. *)
Definition nul_id : string := String.append "a" (String.String Ascii.zero EmptyString).

Definition open_nul : pb.ClientFrame :=
  frame 1 (pb.ClientFrame_Open (pb.mkOpen nul_id 512 true true None)).

Definition is_opened (f : pb.ServerFrame) : bool :=
  match pb.ServerFrame_Body f with pb.ServerFrame_Opened _ => true | _ => false end.

Definition is_internal (f : pb.ServerFrame) : bool :=
  match pb.ServerFrame_Body f with
  | pb.ServerFrame_Error m => match pb.Error_Code m with pb.ERROR_CODE_INTERNAL => true | _ => false end
  | _ => false
  end.

(** On the memory store it is opened; PostgreSQL cannot store it, and the client is told of an internal error. *)
Theorem nul_id_differs :
  checkDBID nul_id = None /\
  is_opened <$> w_sent (handle opts0 alice (at_ t0) open_nul (new_world New ∅)) = [true] /\
  is_internal <$> w_sent (@handle _ (@Tables_api microseconds) opts0 alice (at_ t0) open_nul (new_world empty_tables ∅)) = [true].
Proof. split_and!; vm_compute; reflexivity. Qed.
