(* ===== verification/WireRun.v ===== *)
(** * A connection on the wire: [read] of [src/internal/protocol/connection.go]

    A connection whose input is what the WebSocket library delivers.  The protobuf library is a
    parameter, [unmarshal], with what is documented of it: a message that it returns has numbers that
    fit their fields, and strings that are UTF-8. *)

From S2P Require Import Prelude Store StoreFacts Memory Trace MemoryInv MemoryStep Typed Samples Messages Connection ConnFacts ConnText ConnTyped ConnSamples Login LoginFacts ConnRun ConnPostgres.

Local Open Scope Z_scope.

Inductive MessageType := MessageText | MessageBinary.

(** What [ws.Read] returns. *)
Inductive ws_result :=
| WsMessage (kind : MessageType) (data : bytes)
| WsDeadline
| WsError.

Definition read (unmarshal : bytes -> option pb.ClientFrame) (r : ws_result) : read_result :=
  match r with
  | WsDeadline => DeadlineExceeded
  | WsError => ReadError
  | WsMessage MessageText _ => NotBinary
  | WsMessage MessageBinary data =>
      match unmarshal data with
      | Some frame => Read frame
      | None => Malformed
      end
  end.

(** A message of the schema, as the library returns it. *)
Definition valid_client (f : pb.ClientFrame) : Prop := clean_client f /\ typed_body (pb.ClientFrame_Body f).

(** ** Frames that fit the schema *)

Section fits.
Variable opts : Options.

(** The numbers of a frame fit their fields, and its strings are UTF-8; the challenge has the server ID
    of the configuration as it is.  (The text of an error is not represented.) *)
Definition fits (f : pb.ServerFrame) : Prop :=
  in_u64 (pb.ServerFrame_RequestId f) /\
  match pb.ServerFrame_Body f with
  | pb.ServerFrame_Challenge m => pb.Challenge_ServerId m = ServerID opts /\ in_u64 (pb.Challenge_ExpiresAtMs m)
  | pb.ServerFrame_HelloOk m =>
      in_u32 (pb.HelloOk_ProtocolVersion m) /\ in_u32 (pb.HelloOk_MaxFrameBytes m) /\
      in_u32 (pb.HelloOk_PingIntervalMs m) /\ in_u32 (pb.HelloOk_LeaseTtlMs m) /\ in_u64 (pb.HelloOk_AccessTokenTtlMs m)
  | pb.ServerFrame_Opened m =>
      in_u64 (pb.Opened_LeaseEpoch m) /\ in_u64 (pb.Opened_Version m) /\ in_u32 (pb.Opened_PageSize m) /\
      in_u64 (pb.Opened_PageCount m)
  | pb.ServerFrame_Pages m => in_u64 (pb.Pages_FirstBlock m)
  | pb.ServerFrame_CommitAck m => in_u64 (pb.CommitAck_Version m)
  | pb.ServerFrame_Pong m => in_u64 (pb.Pong_ClientTimeMs m)
  | pb.ServerFrame_Changes m =>
      in_u64 (pb.Changes_FromVersion m) /\ in_u64 (pb.Changes_ToVersion m) /\ Forall in_u64 (pb.Changes_Blocks m)
  | pb.ServerFrame_Slot m =>
      in_u64 (pb.Slot_ClaimedAtMs m) /\ utf8_ValidString (pb.Slot_Label m) = true /\
      utf8_ValidString (pb.Slot_ReplacedLabel m) = true
  | pb.ServerFrame_Error m => in_u64 (pb.Error_CurrentVersion m) /\ in_u64 (pb.Error_LeaseHolderSinceMs m)
  | pb.ServerFrame_LeaseRevoked _ => False
  | _ => True
  end.

Definition push_fits (p : push) : Prop :=
  in_u64 (pb.LeaseRevoked_NewLeaseEpoch (p_frame p)) /\ utf8_ValidString (pb.LeaseRevoked_DbId (p_frame p)) = true.

(** A frame of the protocol: it fits the schema, and its data are well-formed. *)
Definition sound_frame (f : pb.ServerFrame) : Prop := fits f /\ typed_server f.

Lemma session_frame_sound f : clean_server f -> typed_server f -> sound_frame f.
Proof.
  destruct f as [id b]. intros [Hid Hc] Ht. split; [split; [done|]|done].
  destruct b; simpl in *; try done.
  - destruct Ht as (? & ? & ? & Hp%ValidPageSize_range). unfold MinPageSize, MaxPageSize in Hp. split_and!; [done|done|zlia|done].
  - by destruct Ht as (? & ? & _ & ? & _).
Qed.

(** ** The frames of a login *)

Definition typed_perr (e : perr) : Prop := match e with StoreError e => typed_error e | _ => True end.

Lemma error_sound id e : in_u64 id -> typed_perr e -> sound_frame (errorFrame id e).
Proof.
  intros Hid He. apply session_frame_sound; [by apply clean_error|]. apply typed_error_frame. by destruct e.
Qed.

Variable sha256_Sum256 : bytes -> bytes.
Variable ed25519_Verify : bytes -> bytes -> bytes -> bool.
Variable Tokens : option (string -> slice -> result perr Grant).
Hypothesis max_frame : in_u32 (MaxFrameBytes opts).
Hypothesis token_errors : forall verify token key e, Tokens = Some verify -> verify token key = Err e -> typed_perr e.

Lemma challenge_sound id nonce deadline : in_u64 id -> sound_frame (challenge_frame opts id nonce deadline).
Proof. intros Hid. split; [|done]. split; [done|]. split; [done|]. apply u64_range. Qed.

Lemma hello_ok_sound id exp now : in_u64 id -> sound_frame (hello_ok opts id exp now).
Proof.
  intros Hid. split; [|done]. split; [done|]. cbn -[two64 two32 u32 u64 Z.quot Millisecond tokenTTL protocol_Version].
  assert (in_u64 (tokenTTL exp now)) by (unfold tokenTTL; destruct (time_IsZero exp); [zlia|apply u64_range]).
  split_and!; try done; unfold in_u32, u32, two32; apply Z.mod_pos_bound; lia.
Qed.

(** All frames of a login are errors, or made of the server's own numbers. *)
Lemma login_sound conn l frame :
  in_u64 (pb.ClientFrame_RequestId frame) ->
  (forall answer, l_answer l = Some answer -> in_u64 (pb.ClientFrame_RequestId answer)) ->
  Forall sound_frame (hello sha256_Sum256 ed25519_Verify opts Tokens conn l frame).2.
Proof.
  intros Hid Ha. unfold hello. destruct (check_hello Tokens frame) as [[h grant]|err] eqn:Hc.
  - assert (forall res answering sent, identify sha256_Sum256 ed25519_Verify opts l (pb.ClientFrame_RequestId frame) h =
      (res, answering, sent) -> in_u64 answering /\ Forall sound_frame sent /\
      match res with Err e => typed_perr e | Ok _ => True end) as Hi.
    { intros res answering sent. unfold identify, checkProof, unauthenticated, bad.
      destruct (l_answer l) as [answer|]; [specialize (Ha _ eq_refl)|];
      repeat case_match; intros; simplify_eq; split_and!; try done; apply Forall_singleton;
        by apply challenge_sound. }
    destruct (identify _ _ _ _ _ _) as [[res answering] sent]. destruct (Hi _ _ _ eq_refl) as (Hans & Hs & He).
    destruct res; simpl; apply Forall_app; (split; [done|]); apply Forall_singleton;
      [by apply hello_ok_sound|by apply error_sound].
  - apply Forall_singleton. apply error_sound; [done|]. revert Hc. unfold check_hello, unauthenticated, bad.
    repeat case_match; intros; simplify_eq; try done. unfold admit_hello in *.
    destruct (pb.Hello_SigAlg _); simpl in *; simplify_eq; try done.
    destruct (r _ _) eqn:Hv; simpl in *; simplify_eq. by eapply token_errors.
Qed.
End fits.

(** ** A whole connection *)

Section wire.
Variable unmarshal : bytes -> option pb.ClientFrame.
Hypothesis unmarshal_ok : forall data f, unmarshal data = Some f -> valid_client f.

Variable sha256_Sum256 : bytes -> bytes.
Variable ed25519_Verify : bytes -> bytes -> bytes -> bool.
Variable opts : Options.
Variable Tokens : option (string -> slice -> result perr Grant).
Variable leeway : Duration.

(** What a WebSocket connection delivers in the loop and as the answer to the challenge. *)
Definition reads_of (msgs : list (env * ws_result)) : list (env * read_result) :=
  (fun er => (er.1, read unmarshal er.2)) <$> msgs.

Definition login_of (l : login_env) (answer : ws_result) : login_env :=
  mkLoginEnv (l_nonce l) (l_issued l) (match read unmarshal answer with Read f => Some f | _ => None end)
    (l_checked l) (l_welcomed l).

Lemma read_client r f : read unmarshal r = Read f -> valid_client f.
Proof.
  destruct r as [[] data| |]; simpl; try done. destruct (unmarshal data) eqn:E; intros; simplify_eq. by eapply unmarshal_ok.
Qed.

Lemma reads_fit msgs : Forall (read_fits False) (reads_of msgs).
Proof.
  apply Forall_fmap, Forall_true. intros [e r]. unfold read_fits. simpl.
  destruct (read unmarshal r) eqn:E; try done. apply read_client in E as [_ ?]. by split.
Qed.

Lemma clean_loop login c msgs : forall w, clean login w -> clean login (run_loop opts leeway c (reads_of msgs) w).2.
Proof.
  induction msgs as [|[e r] msgs IH]; intros w Hw; simpl; [done|].
  destruct (read unmarshal r) as [f| | | |] eqn:E; try done. destruct (_ && _); [done|].
  assert (clean login (handle opts c e f w)) by (apply clean_handle; [by apply read_client in E as [? _]|done]).
  destruct (panics f w); [done|]. by apply IH.
Qed.

(** The frames and pushes of a connection. *)
Lemma session_sound login n s w :
  Forall (sound_frame opts) login -> clean login w -> sim eq False s (length login) n w w ->
  Forall (sound_frame opts) (w_sent w) /\ Forall push_fits (w_pushes w).
Proof.
  intros Hl [_ _ (rest & Hsent & Hrest) Hp] Hs. split.
  - pose proof (sim_typed_sent _ _ _ _ _ _ _ Hs) as Ht. rewrite Hsent in Ht |- *. rewrite drop_app_length in Ht.
    apply Forall_app. split; [done|]. rewrite Forall_forall in Hrest, Ht |- *. intros f Hf.
    apply session_frame_sound; auto.
  - pose proof (sim_typed_pushes _ _ _ _ _ _ _ Hs) as Ht. rewrite Forall_forall in Hp, Ht |- *.
    intros p Hin. split; [by apply Ht|by apply Hp].
Qed.

(** C13: Whatever a client sends, the server stays within its protocol.  For every sequence of WebSocket
    messages, of any kind and with any bytes, from the first one on, and for any outcome of the login:
    all calls that the connection makes to the store are legal ones, so the store goes through an
    execution of its contract; every frame that the server sends to this client fits the schema (all
    numbers fit their fields, and its strings are UTF-8, where the challenge has the configured server
    ID as it is and the text of an error is not represented) and is well-formed (page sizes are
    valid, all blocks of a frame have one size, change sets are strictly ascending); and so does
    every push to the clients whose leases are lost. *)
Theorem connection_on_the_wire (conn : nat) (first answer : ws_result) (l : login_env)
    (msgs : list (env * ws_result)) (holders : gmap Key holder) (n : Z) (s : MemStore) :
  wf_store n s -> 0 <= n -> n + reads_calls (reads_of msgs) <= two64 - 1 ->
  typed_holders holders -> clean_holders holders -> clean_labels s -> in_u32 (MaxFrameBytes opts) ->
  (forall verify token key e, Tokens = Some verify -> verify token key = Err e -> typed_perr e) ->
  let w := (serve sha256_Sum256 ed25519_Verify opts Tokens leeway conn (read unmarshal first) (login_of l answer)
              (reads_of msgs) (new_world s holders)).2 in
  (exists answers, steps (w_calls w) s answers (w_store w)) /\
  Forall (sound_frame opts) (w_sent w) /\ Forall push_fits (w_pushes w).
Proof.
  intros Hwf Hn Hb Hth Hch Hlab Hmax Htok. unfold serve, run_connection.
  assert (exists answers, steps [] s answers s) as Hnil by (exists []; constructor).
  destruct (read unmarshal first) as [frame| | | |] eqn:Hf; try by split_and!; try constructor.
  apply read_client in Hf as [[Hid _] _].
  pose proof (login_sound opts sha256_Sum256 ed25519_Verify Tokens Hmax Htok
    conn (login_of l answer) frame Hid) as Hlogin.
  assert (forall a, l_answer (login_of l answer) = Some a -> in_u64 (pb.ClientFrame_RequestId a)) as Hans.
  { intros a. simpl. destruct (read unmarshal answer) as [g| | | |] eqn:E; intros; simplify_eq.
    by apply read_client in E as [[? _] _]. }
  specialize (Hlogin Hans). destruct (hello _ _ _ _ _ _ _) as [res sent]. cbn [snd] in Hlogin.
  pose proof (sim_send_all eq False sent s s holders n eq_refl Hwf Hth) as Hs.
  assert (clean sent (send_all sent (new_world s holders))) as Hcl.
  { rewrite send_all_new. constructor; simpl; try done. exists []. by rewrite app_nil_r. }
  destruct res as [c|e].
  - destruct (sim_loop eq False (two64 - 1) (Z.le_refl _) memory_step opts leeway (False_ind _) s (length sent) c
      (reads_of msgs) n _ _ (False_ind _) Hs Hn Hb (reads_fit msgs)) as [_ Hs'].
    apply (clean_loop sent c msgs) in Hcl. destruct (run_loop _ _ _ _ _) as [status w].
    pose proof (session_sound sent _ s w Hlogin Hcl Hs'). pose proof (sim_steps _ _ _ _ _ _ _ Hs').
    by destruct status.
  - pose proof (session_sound sent _ s _ Hlogin Hcl Hs). pose proof (sim_steps _ _ _ _ _ _ _ Hs). done.
Qed.
End wire.

(** ** A connection with a stand-in for the library *)

(** It knows three messages. *)
Definition three_messages (data : bytes) : option pb.ClientFrame :=
  match data with
  | [x01] => Some hello1
  | [x02] => Some (frame 2 (pb.ClientFrame_Proof (pb.mkProof (Some [x07]))))
  | [x03] => Some (frame 3 open_main)
  | _ => None
  end.

Definition binary (data : bytes) : ws_result := WsMessage MessageBinary data.

(** Alice logs in and opens her database; then comes a message that cannot be decoded, and one more. *)
Definition wire1 : list (env * ws_result) :=
  [ (at_ (t0 + 2 * Second), binary [x03]); (at_ (t0 + 3 * Second), binary [x08; x04]);
    (at_ (t0 + 3 * Second), binary [x03]) ].

Definition wire_world1 : ending * world MemStore :=
  serve last32 accept_all opts0 None 0 7 (read three_messages (binary [x01]))
    (login_of three_messages login1 (binary [x02])) (reads_of three_messages wire1) (new_world New ∅).

Lemma connection_on_the_wire_witness :
  Forall (sound_frame opts0) (w_sent wire_world1.2) /\
  length (w_sent wire_world1.2) = 3%nat /\ wire_world1.1 = Closed StatusInvalidFramePayloadData.
Proof.
  split; [|by vm_compute]. unfold wire_world1.
  refine (proj1 (proj2 (connection_on_the_wire three_messages _ last32 accept_all opts0 None
    0 7 _ _ login1 wire1 ∅ 0 New _ _ _ _ _ _ _ _))).
  - intros data f. unfold three_messages. repeat case_match; intros; simplify_eq; repeat split; vm_compute; try done;
      by split.
  - apply wf_new.
  - lia.
  - vm_compute. discriminate.
  - apply map_Forall_empty.
  - apply map_Forall_empty.
  - apply map_Forall_empty.
  - vm_compute. by split.
  - discriminate.
Defined.
