(* ===== verification/ConnMany.v ===== *)
(** * Many connections: [src/internal/protocol/connection.go] and [holders.go] under concurrency

    [Connection.v] runs the handler of a frame as one step.  Here a handler is a program of effects: calls
    to the store, critical sections of the table of lease holders, and changes of the connection's own
    state.  The effects of all connections of a server, and the calls of other servers on the same
    store, are interleaved in any order.  Without interruption a program is the handler of
    [Connection.v] ([handler_runs]). *)

From S2P Require Import Prelude Store Trace Messages Connection.

Local Open Scope Z_scope.

(** ** Programs *)

(** What a connection keeps for itself: its open databases and the frames it has sent. *)
Record local := mkLocal { l_dbs : gmap string openDB; l_sent : list pb.ServerFrame }.

(** The critical sections of [holders.go]. *)
Inductive table_op :=
| TSet (k : Key) (epoch : Z) (own : nat)
| TRemove (k : Key) (own : nat)
| TPurge (k : Key)
| TRevoke (k : Key) (epoch : Z).

(** [Panic]: the handler panics, and the deferred functions run next. *)
Inductive hprog :=
| Finish
| Panic
| CallStore (o : op) (next : answer -> hprog)
| UseTable (t : table_op) (next : hprog)
| Update (l : local) (next : hprog).

(** A section, with the holder that is to be told of a new epoch. *)
Definition table_run (t : table_op) (m : gmap Key holder) : gmap Key holder * list (Key * holder * Z) :=
  match t with
  | TSet k epoch own =>
      (<[k := mkHolder epoch own]> m,
       match m !! k with
       | Some previous =>
           if negb (bool_decide (h_owner previous = own)) && (h_epoch previous <? epoch) then [(k, previous, epoch)] else []
       | None => []
       end)
  | TRemove k own => (holders_remove k own m, [])
  | TPurge k =>
      match m !! k with
      | Some previous => (delete k m, [(k, previous, u64 (h_epoch previous + 1))])
      | None => (m, [])
      end
  | TRevoke k epoch =>
      match m !! k with
      | Some previous => (delete k m, if h_epoch previous <? epoch then [(k, previous, epoch)] else [])
      | None => (m, [])
      end
  end.

(** The frame of the callback. *)
Definition push_of (r : Key * holder * Z) : push := revoked r.1.2 r.1.1 r.2.

(** ** Handlers *)

Section programs.
Variable opts : Options.
Variable c : session.

Definition l_send (f : pb.ServerFrame) (l : local) : local := mkLocal (l_dbs l) (l_sent l ++ [f]).
Definition l_set_dbs (m : gmap string openDB) (l : local) : local := mkLocal m (l_sent l).
Definition l_set (dbID : string) (db : openDB) (l : local) : local := l_set_dbs (<[dbID := db]> (l_dbs l)) l.

Definition sending (f : pb.ServerFrame) (l : local) : hprog := Update (l_send f l) Finish.
Definition failing (id : Z) (e : perr) (l : local) : hprog := sending (errorFrame id e) l.
Definition answering (id : Z) (b : pb.ServerBody) (l : local) : hprog := sending (pb.mkServerFrame id b) l.

Definition open_h (newID : bytes) (now : Time) (id : Z) (req : pb.Open) (l : local) : hprog :=
  let dbID := pb.Open_DbId req in
  match checkDBID dbID with
  | Some e => failing id e l
  | None =>
      match l_dbs l !! dbID with
      | Some _ => failing id (bad "database is already open on this connection") l
      | None =>
          CallStore (OpOpen newID (open_request opts c req now)) (fun a =>
            match a with
            | AOpen (Err e) => failing id (StoreError e) l
            | AOpen (Ok res) =>
                let key := key_of c dbID in
                let epoch := Epoch (res_Lease res) in
                let l := l_set dbID (mkOpenDB key epoch (PageSize (res_State res)) None now) l in
                Update l (UseTable (TSet key epoch (self c)) (answering id (opened_frame res) l))
            | _ => Finish
            end)
      end
  end.

Fixpoint fetch_runs_h (k : Key) (ver : Z) (ranges : list pb.Range) (next : result Error (list (list bytes)) -> hprog) : hprog :=
  match ranges with
  | [] => next (Ok [])
  | r :: rest =>
      CallStore (OpFetch k ver (pb.Range_FirstBlock r) (pb.Range_Count r)) (fun a =>
        match a with
        | AFetch (Err e) => next (Err e)
        | AFetch (Ok blocks) => fetch_runs_h k ver rest (fun res => next (runs ← res; Ok (blocks :: runs)))
        | _ => Finish
        end)
  end.

Definition fetch_h (id : Z) (req : pb.Fetch) (l : local) : hprog :=
  match l_dbs l !! pb.Fetch_DbId req with
  | None => failing id (bad "database is not open on this connection") l
  | Some db =>
      let ranges := ranges_of req in
      if maxFetchRanges <? zlen ranges then failing id (bad "fetch has too many ranges") l
      else if negb (ranges_sorted None ranges) then failing id (bad "range starts before the end of the previous range") l
      else
        fetch_runs_h (o_key db) (pb.Fetch_Version req) ranges (fun res =>
          match res with
          | Err e => if is_panic e then Panic else failing id (gone e) l
          | Ok runs =>
              match pages_of_runs (perFrame opts (o_pageSize db)) (zip ranges runs) with
              | Some frames =>
                  Update (mkLocal (l_dbs l) (l_sent l ++ ((fun p => pb.mkServerFrame id (pb.ServerFrame_Pages p)) <$> frames))) Finish
              | None => Finish
              end
          end)
  end.

Definition changed_h (id : Z) (req : pb.Changed) (l : local) : hprog :=
  match l_dbs l !! pb.Changed_DbId req with
  | None => failing id (bad "database is not open on this connection") l
  | Some db =>
      CallStore (OpChanges (o_key db) (pb.Changed_FromVersion req)) (fun a =>
        match a with
        | AChanges (Err e) => failing id (gone e) l
        | AChanges (Ok set) =>
            let set := if changesPerFrame opts <? zlen (cs_Blocks set)
                       then mkChangeSet (FromVersion set) (ToVersion set) [] false else set in
            answering id (pb.ServerFrame_Changes
              (pb.mkChanges (FromVersion set) (ToVersion set) (cs_Blocks set) (Complete set))) l
        | _ => Finish
        end)
  end.

Definition commit_h (now : Time) (id : Z) (req : pb.Commit) (l : local) : hprog :=
  let dbID := pb.Commit_DbId req in
  match l_dbs l !! dbID with
  | None => failing id (bad "database is not open on this connection") l
  | Some db =>
      let discarded := l_set dbID (set_pending None db) l in
      if negb (slice_len (pb.Commit_CommitId req) =? commitIDBytes) then
        failing id (bad "commit id must have 16 bytes") discarded
      else match pending_for req (o_pending db) with
      | None => failing id (bad "part does not continue a pending commit") discarded
      | Some p =>
          let p := add_part req p in
          if MaxCommitBytes opts <? size_ p then failing id TooLarge discarded
          else if pb.Commit_More req then Update (l_set dbID (set_pending (Some p) db) l) Finish
          else
            Update discarded (CallStore (OpCommit (commit_request opts db p now)) (fun a =>
              match a with
              | ACommit (Err e) => failing id (gone e) discarded
              | ACommit (Ok version) =>
                  answering id (pb.ServerFrame_CommitAck (pb.mkCommitAck (h_CommitId (header p)) version))
                    (l_set dbID (set_renewed now (set_pending None db)) discarded)
              | _ => Finish
              end))
      end
  end.

Fixpoint ping_h (order : list string) (now : Time) (l : local) (next : local -> hprog) : hprog :=
  match order with
  | [] => next l
  | dbID :: order =>
      match l_dbs l !! dbID with
      | None => ping_h order now l next
      | Some db =>
          if negb (renewDue opts db now) then ping_h order now l next
          else
            CallStore (OpRenew (o_key db) (o_epoch db) now (LeaseTTL opts)) (fun a =>
              match a with
              | ARenew (Err _) => ping_h order now l next
              | ARenew (Ok _) => let l := l_set dbID (set_renewed now db) l in Update l (ping_h order now l next)
              | _ => Finish
              end)
      end
  end.

Definition close_h (id : Z) (req : pb.CloseDb) (l : local) : hprog :=
  let dbID := pb.CloseDb_DbId req in
  match l_dbs l !! dbID with
  | None => failing id (bad "database is not open on this connection") l
  | Some db =>
      CallStore (OpRelease (o_key db) (pb.CloseDb_LeaseEpoch req)) (fun a =>
        match a with
        | ARelease (Err e) => failing id (StoreError e) l
        | ARelease (Ok _) =>
            let l := l_set_dbs (delete dbID (l_dbs l)) l in
            Update l (UseTable (TRemove (o_key db) (self c)) (answering id pb.ServerFrame_Ok l))
        | _ => Finish
        end)
  end.

Definition delete_h (now : Time) (id : Z) (req : pb.Delete) (l : local) : hprog :=
  let dbID := pb.Delete_DbId req in
  match checkDBID dbID with
  | Some e => failing id e l
  | None =>
      match l_dbs l !! dbID with
      | Some _ => failing id (bad "database is open on this connection; close it first") l
      | None =>
          let key := key_of c dbID in
          CallStore (OpDelete (mkDeleteRequest key (pb.Delete_Takeover req) now)) (fun a =>
            match a with
            | ADelete (Err e) => failing id (StoreError e) l
            | ADelete (Ok res) =>
                if 0 <? del_Epoch res then UseTable (TRevoke key (del_Epoch res)) (answering id pb.ServerFrame_Ok l)
                else answering id pb.ServerFrame_Ok l
            | _ => Finish
            end)
      end
  end.

Definition purging (keys : list Key) (next : hprog) : hprog := foldr (fun k p => UseTable (TPurge k) p) next keys.

Definition claim_h (now : Time) (id : Z) (l : local) : hprog :=
  if bool_decide (owner c = EmptyString) then failing id no_owner l
  else
    CallStore (OpClaimSlot (mkClaimRequest (owner c) (subject c) now)) (fun a =>
      match a with
      | AClaimSlot (Err e) => failing id (StoreError e) l
      | AClaimSlot (Ok res) =>
          let replaced := match cres_Replaced res with Some old => slot_Label old | None => EmptyString end in
          purging (cres_Deleted res) (answering id (slotFrame (cres_Slot res) replaced) l)
      | _ => Finish
      end).

Definition label_h (id : Z) (req : pb.SetSlotLabel) (l : local) : hprog :=
  if bool_decide (owner c = EmptyString) then failing id no_owner l
  else if maxSlotLabelBytes <? Z.of_nat (String.length (pb.SetSlotLabel_Label req)) then
    failing id (bad "label must have at most 256 bytes") l
  else
    CallStore (OpSetSlotLabel (owner c) (subject c) (pb.SetSlotLabel_Label req)) (fun a =>
      match a with
      | ASetSlotLabel (Err e) => failing id (StoreError e) l
      | ASetSlotLabel (Ok slot) => answering id (slotFrame slot EmptyString) l
      | _ => Finish
      end).

Definition deleteSlot_h (id : Z) (l : local) : hprog :=
  if bool_decide (owner c = EmptyString) then failing id no_owner l
  else if negb (bool_decide (l_dbs l = ∅)) then
    failing id (bad "databases are open on this connection; close them first") l
  else
    CallStore (OpDeleteSlot (owner c) (subject c)) (fun a =>
      match a with
      | ADeleteSlot (Err e) => failing id (StoreError e) l
      | ADeleteSlot (Ok deleted) => purging deleted (answering id pb.ServerFrame_Ok l)
      | _ => Finish
      end).

Definition handler (e : env) (frame : pb.ClientFrame) (l : local) : hprog :=
  let id := pb.ClientFrame_RequestId frame in
  if id =? 0 then failing 0 (bad "request id must be greater than 0") l
  else match pb.ClientFrame_Body frame with
  | pb.ClientFrame_Open m => open_h (random e) (now e) id m l
  | pb.ClientFrame_Fetch m => fetch_h id m l
  | pb.ClientFrame_Commit m => commit_h (now e) id m l
  | pb.ClientFrame_Changed m => changed_h id m l
  | pb.ClientFrame_Ping m =>
      ping_h (map_order e) (now e) l (answering id (pb.ServerFrame_Pong (pb.mkPong (pb.Ping_ClientTimeMs m))))
  | pb.ClientFrame_CloseDb m => close_h id m l
  | pb.ClientFrame_Delete m => delete_h (now e) id m l
  | pb.ClientFrame_ClaimSlot => claim_h (now e) id l
  | pb.ClientFrame_DeleteSlot => deleteSlot_h id l
  | pb.ClientFrame_SetSlotLabel m => label_h id m l
  | pb.ClientFrame_Hello _ => failing id (bad "Hello was already sent") l
  | pb.ClientFrame_Proof _ | pb.ClientFrame_None => failing id (bad "empty frame") l
  end.

(** The deferred function of [serve]: every open database gives up its entry, in the order of the map. *)
Definition leaving (order : list Key) : hprog := foldr (fun k p => UseTable (TRemove k (self c)) p) Finish order.
End programs.

(** ** The server *)

Record conn := mkConn {
  cn_session : session;
  cn_local : local;
  cn_prog : option hprog  (** the handler that is running *);
  cn_leaving : bool }.

Section system.
Context {S : Type} `{!StoreAPI S}.
Variable opts : Options.

Record system := mkSystem {
  sy_store : S;
  sy_calls : list op;
  sy_table : gmap Key holder;
  sy_conns : gmap nat conn;
  sy_revoked : list (Key * holder * Z)  (** the callbacks that were started *) }.

Inductive sys_event :=
| Login (i : nat) (c : session)
| Frame (i : nat) (e : env) (f : pb.ClientFrame)
| Effect (i : nat)
| Leave (i : nat) (order : list Key)
| Elsewhere (o : op).

Definition set_conn (i : nat) (x : conn) (y : system) : system :=
  mkSystem (sy_store y) (sy_calls y) (sy_table y) (<[i := x]> (sy_conns y)) (sy_revoked y).

(** The next effect of a connection's program. *)
Definition effect (i : nat) (x : conn) (y : system) : option system :=
  p ← cn_prog x;
  match p with
  | Finish =>
      Some (if cn_leaving x then mkSystem (sy_store y) (sy_calls y) (sy_table y) (delete i (sy_conns y)) (sy_revoked y)
            else set_conn i (mkConn (cn_session x) (cn_local x) None false) y)
  | Panic => None
  | CallStore o next =>
      let '(s, a) := step o (sy_store y) in
      Some (mkSystem s (sy_calls y ++ [o]) (sy_table y)
        (<[i := mkConn (cn_session x) (cn_local x) (Some (next a)) (cn_leaving x)]> (sy_conns y)) (sy_revoked y))
  | UseTable t next =>
      let '(m, rs) := table_run t (sy_table y) in
      Some (mkSystem (sy_store y) (sy_calls y) m
        (<[i := mkConn (cn_session x) (cn_local x) (Some next) (cn_leaving x)]> (sy_conns y)) (sy_revoked y ++ rs))
  | Update l next => Some (set_conn i (mkConn (cn_session x) l (Some next) (cn_leaving x)) y)
  end.

(** The keys of a connection's open databases. *)
Definition open_keys (l : local) : gset Key := list_to_set ((fun e => o_key e.2) <$> map_to_list (l_dbs l)).

Definition sys_step (ev : sys_event) (y : system) : option system :=
  match ev with
  | Login i c =>
      if bool_decide (sy_conns y !! i = None) && bool_decide (self c = i) then
        Some (set_conn i (mkConn c (mkLocal ∅ []) None false) y)
      else None
  | Frame i e f =>
      x ← sy_conns y !! i;
      match cn_prog x with
      | Some _ => None
      | None => Some (set_conn i (mkConn (cn_session x) (cn_local x) (Some (handler opts (cn_session x) e f (cn_local x))) false) y)
      end
  | Effect i => x ← sy_conns y !! i; effect i x y
  | Leave i order =>
      x ← sy_conns y !! i;
      match cn_prog x with
      | Some (Finish | CallStore _ _ | UseTable _ _ | Update _ _) => None
      | Some Panic | None =>
          if bool_decide (list_to_set order = open_keys (cn_local x)) then
            Some (set_conn i (mkConn (cn_session x) (cn_local x) (Some (leaving (cn_session x) order)) true) y)
          else None
      end
  | Elsewhere o =>
      let '(s, _) := step o (sy_store y) in
      Some (mkSystem s (sy_calls y ++ [o]) (sy_table y) (sy_conns y) (sy_revoked y))
  end.

(** A connection leaves when no handler runs, or after a panic. *)
Lemma leave_inv i order y y' :
  sys_step (Leave i order) y = Some y' ->
  exists x, sy_conns y !! i = Some x /\ (cn_prog x = None \/ cn_prog x = Some Panic) /\
    list_to_set order = open_keys (cn_local x) /\
    y' = set_conn i (mkConn (cn_session x) (cn_local x) (Some (leaving (cn_session x) order)) true) y.
Proof.
  simpl. intros (x & Hx & Hs)%bind_Some. exists x.
  destruct (cn_prog x) as [[]|]; try done; case_bool_decide as Ho; try done; injection Hs as <-; split_and!; auto.
Qed.

(** The call that an event makes. *)
Definition calls (ev : sys_event) (y : system) : option op :=
  match ev with
  | Effect i => x ← sy_conns y !! i; p ← cn_prog x; match p with CallStore o _ => Some o | _ => None end
  | Elsewhere o => Some o
  | _ => None
  end.

(** [y'] is reached from [y] by the events, and every call to the store is made in a state with [ok]. *)
Inductive sys_runs (ok : op -> S -> Prop) : list sys_event -> system -> system -> Prop :=
| runs_nil y : sys_runs ok [] y y
| runs_snoc evs ev y y1 y2 :
    sys_runs ok evs y y1 -> (forall o, calls ev y1 = Some o -> ok o (sy_store y1)) -> sys_step ev y1 = Some y2 ->
    sys_runs ok (evs ++ [ev]) y y2.

Definition initial (s : S) : system := mkSystem s [] ∅ ∅ [].

(** ** Without interruption *)

Fixpoint run_prog (p : hprog) (w : world S) : world S :=
  match p with
  | Finish | Panic => w
  | CallStore o next =>
      let '(s, a) := step o (w_store w) in
      run_prog (next a) (mkWorld s (w_calls w ++ [o]) (w_holders w) (w_dbs w) (w_sent w) (w_pushes w))
  | UseTable t next =>
      let '(m, rs) := table_run t (w_holders w) in
      run_prog next (mkWorld (w_store w) (w_calls w) m (w_dbs w) (w_sent w) (w_pushes w ++ (push_of <$> rs)))
  | Update l next => run_prog next (mkWorld (w_store w) (w_calls w) (w_holders w) (l_dbs l) (l_sent l) (w_pushes w))
  end.

Definition local_of (w : world S) : local := mkLocal (w_dbs w) (w_sent w).
End system.
Arguments system S : clear implicits.
