(* ===== verification/ConnManyRun.v ===== *)
(** * The handlers of [ConnMany.v] are those of [Connection.v] *)

From S2P Require Import Prelude Store Trace Messages Connection ConnMany.

Local Open Scope Z_scope.

Section runs.
Context {S : Type} `{!StoreAPI S}.
Variable opts : Options.
Variable c : session.

Lemma send_local f (w : world S) : run_prog (sending f (local_of w)) w = send f w.
Proof. done. Qed.

Lemma run_table t next (w : world S) :
  run_prog (UseTable t next) w = run_prog next (with_holders (fun m => (fst (table_run t m), push_of <$> snd (table_run t m))) w).
Proof. simpl. unfold with_holders. by destruct (table_run t (w_holders w)). Qed.

Lemma table_purge k m : (fst (table_run (TPurge k) m), push_of <$> snd (table_run (TPurge k) m)) = holders_purge k m.
Proof. unfold holders_purge. simpl. by destruct (m !! k). Qed.

Lemma with_holders_ext f g (w : world S) : (forall m, f m = g m) -> with_holders f w = with_holders g w.
Proof. intros Hf. unfold with_holders. by rewrite Hf. Qed.

Lemma run_open newID now id req (w : world S) :
  run_prog (open_h opts c newID now id req (local_of w)) w = open opts c newID now id req w.
Proof.
  unfold open_h, open. destruct (checkDBID _); [done|]. simpl. destruct (w_dbs w !! _); [done|]. simpl.
  unfold call_Open, called. destruct (st_Open _ _ _) as [s [res|e]]; simpl; [|done].
  unfold with_holders, holders_set. simpl. destruct (w_holders w !! _); simpl; [|done]. by destruct (_ && _).
Qed.

Lemma run_fetch_runs k ver ranges next (w : world S) :
  run_prog (fetch_runs_h k ver ranges next) w = let '(res, w') := fetch_runs k ver ranges w in run_prog (next res) w'.
Proof.
  revert next w. induction ranges as [|r ranges IH]; intros next w; simpl; [done|].
  unfold call_Fetch, called. simpl. destruct (st_Fetch _ _ _ _ _) as [blocks|e]; simpl; [|done].
  rewrite IH. by destruct (fetch_runs k ver ranges _).
Qed.

Lemma run_fetch id req (w : world S) : run_prog (fetch_h opts id req (local_of w)) w = fetch opts id req w.
Proof.
  unfold fetch_h, fetch. simpl. destruct (w_dbs w !! _) as [db|]; [|done]. destruct (_ <? _); [done|]. destruct (negb _); [done|].
  rewrite run_fetch_runs. assert (forall k ver rs (v : world S), local_of (fetch_runs k ver rs v).2 = local_of v) as Hl.
  { intros k ver rs. induction rs as [|r rs IH]; intros v; simpl; [done|]. unfold call_Fetch, called. simpl.
    destruct (st_Fetch _ _ _ _ _) as [blocks|e]; simpl; [|done]. specialize (IH (mkWorld (w_store v) (w_calls v ++ [OpFetch k ver (pb.Range_FirstBlock r) (pb.Range_Count r)]) (w_holders v) (w_dbs v) (w_sent v) (w_pushes v))).
    by destruct (fetch_runs k ver rs _). }
  specialize (Hl (o_key db) (pb.Fetch_Version req) (ranges_of req) w). destruct (fetch_runs _ _ _ w) as [[runs|e] w'].
  - unfold local_of in Hl. simpl in Hl. injection Hl as <- <-. destruct (pages_of_runs _ _) as [frames|]; [|done]. simpl.
    unfold send_pages. clear. revert w'. induction frames as [|f frames IH]; intros w'; simpl; [rewrite app_nil_r; by destruct w'|].
    rewrite <- IH. simpl. by rewrite <- app_assoc.
  - rewrite <- Hl. destruct (is_panic e); [done|]. apply send_local.
Qed.

Lemma run_changed id req (w : world S) : run_prog (changed_h opts id req (local_of w)) w = changed opts id req w.
Proof.
  unfold changed_h, changed. simpl. destruct (w_dbs w !! _) as [db|]; [|done]. simpl. unfold call_Changes, called. simpl.
  by destruct (st_Changes _ _ _) as [set|e].
Qed.

Lemma run_commit now id req (w : world S) : run_prog (commit_h opts now id req (local_of w)) w = commit opts now id req w.
Proof.
  unfold commit_h, commit. simpl. destruct (w_dbs w !! _) as [db|]; [|done]. destruct (negb _); [done|].
  destruct (pending_for _ _) as [p|]; [|done]. destruct (_ <? _); [done|]. destruct (pb.Commit_More req); [done|]. simpl.
  unfold call_Commit, called. simpl. by destruct (st_Commit _ _) as [s [v|e]].
Qed.

Lemma run_ping order now next (w : world S) :
  run_prog (ping_h opts order now (local_of w) next) w =
  let w' := foldl (ping_one opts now) w order in run_prog (next (local_of w')) w'.
Proof.
  revert w. induction order as [|dbID order IH]; intros w; simpl; [done|]. unfold ping_one at 2 4.
  destruct (w_dbs w !! dbID) as [db|]; [|apply IH]. destruct (negb _); [apply IH|]. simpl. unfold call_Renew, called. simpl.
  destruct (st_Renew _ _ _ _ _) as [s [u|e]]; simpl.
  - exact (IH (set_db dbID (set_renewed now db) (mkWorld s (w_calls w ++ [OpRenew (o_key db) (o_epoch db) now (LeaseTTL opts)]) (w_holders w) (w_dbs w) (w_sent w) (w_pushes w)))).
  - exact (IH (mkWorld s (w_calls w ++ [OpRenew (o_key db) (o_epoch db) now (LeaseTTL opts)]) (w_holders w) (w_dbs w) (w_sent w) (w_pushes w))).
Qed.

Lemma run_close id req (w : world S) : run_prog (close_h c id req (local_of w)) w = closeDB c id req w.
Proof.
  unfold close_h, closeDB. simpl. destruct (w_dbs w !! _) as [db|]; [|done]. simpl. unfold call_Release, called. simpl.
  by destruct (st_Release _ _ _) as [s [u|e]].
Qed.

Lemma run_delete now id req (w : world S) : run_prog (delete_h c now id req (local_of w)) w = deleteDB c now id req w.
Proof.
  unfold delete_h, deleteDB. destruct (checkDBID _); [done|]. simpl. destruct (w_dbs w !! _); [done|]. simpl.
  unfold call_Delete, called. simpl. destruct (st_Delete _ _) as [s [res|e]]; simpl; [|done].
  destruct (0 <? del_Epoch res); [|done]. simpl. unfold with_holders, holders_revoke. simpl.
  destruct (w_holders w !! _); simpl; [|by rewrite app_nil_r]. by destruct (_ <? _).
Qed.

Lemma run_purging keys next (w : world S) : run_prog (purging keys next) w = run_prog next (purge_all keys w).
Proof.
  unfold purge_all. revert w. induction keys as [|k keys IH]; intros w; [done|]. simpl purging. rewrite run_table.
  simpl foldl. rewrite (with_holders_ext _ _ w (table_purge k)). apply IH.
Qed.

Lemma purge_all_local keys (w : world S) : local_of (purge_all keys w) = local_of w.
Proof.
  unfold purge_all. revert w. induction keys as [|k keys IH]; intros w; simpl; [done|]. rewrite IH.
  unfold with_holders. by destruct (holders_purge k (w_holders w)).
Qed.

(** Purges, and then an answer. *)
Lemma run_purged keys id b (w : world S) :
  run_prog (purging keys (answering id b (local_of w))) w = answer_frame id b (purge_all keys w).
Proof. rewrite run_purging, <- (purge_all_local keys w). apply send_local. Qed.

Lemma run_claim now id (w : world S) : run_prog (claim_h c now id (local_of w)) w = claimSlot c now id w.
Proof.
  unfold claim_h, claimSlot. destruct (bool_decide _); [done|]. simpl. unfold call_ClaimSlot, called. simpl.
  destruct (st_ClaimSlot _ _) as [s [res|e]]; simpl; [|done].
  exact (run_purged (cres_Deleted res) id _ (mkWorld s (w_calls w ++ [OpClaimSlot (mkClaimRequest (owner c) (subject c) now)]) (w_holders w) (w_dbs w) (w_sent w) (w_pushes w))).
Qed.

Lemma run_label id req (w : world S) : run_prog (label_h c id req (local_of w)) w = setSlotLabel c id req w.
Proof.
  unfold label_h, setSlotLabel. destruct (bool_decide _); [done|]. destruct (_ <? _); [done|]. simpl. unfold call_SetSlotLabel, called. simpl.
  by destruct (st_SetSlotLabel _ _ _ _) as [s [res|e]].
Qed.

Lemma run_deleteSlot id (w : world S) : run_prog (deleteSlot_h c id (local_of w)) w = deleteSlot c id w.
Proof.
  unfold deleteSlot_h, deleteSlot. destruct (bool_decide _); [done|]. destruct (negb _); [done|]. simpl.
  unfold call_DeleteSlot, called. simpl. destruct (st_DeleteSlot _ _ _) as [s [res|e]]; simpl; [|done].
  exact (run_purged res id _ (mkWorld s (w_calls w ++ [OpDeleteSlot (owner c) (subject c)]) (w_holders w) (w_dbs w) (w_sent w) (w_pushes w))).
Qed.

(** Without interruption, the program of a frame is its handler. *)
Lemma handler_runs e f (w : world S) : run_prog (handler opts c e f (local_of w)) w = handle opts c e f w.
Proof.
  unfold handler, handle. destruct (_ =? 0); [done|]. destruct (pb.ClientFrame_Body f); try done;
    auto using run_open, run_fetch, run_commit, run_changed, run_close, run_delete, run_claim, run_deleteSlot, run_label.
  rewrite run_ping. apply send_local.
Qed.

(** The deferred function gives up the entries of the connection. *)
Lemma leaving_runs order (w : world S) :
  w_holders (run_prog (leaving c order) w) = foldl (fun m k => holders_remove k (self c) m) (w_holders w) order.
Proof. revert w. induction order as [|k order IH]; intros w; simpl; [done|]. by rewrite IH. Qed.
End runs.
