(* ===== verification/ConnManyFacts.v ===== *)
(** * Invariants of a server with many connections

    The entries of the table of lease holders, and the pushes to clients whose lease was taken, in every
    interleaving of the handlers of [ConnMany.v]. *)

From S2P Require Import Prelude Store StoreFacts Memory Trace MemoryInv MemoryStep MemoryLease Samples Messages Connection ConnMany.

Local Open Scope Z_scope.

(** ** Entries belong to connections *)

Definition has_open (l : local) (k : Key) (e : Z) : Prop :=
  exists dbID db, l_dbs l !! dbID = Some db /\ o_key db = k /\ o_epoch db = e.

(** The entries that a program is about to remove. *)
Fixpoint removes (p : hprog) : gset Key :=
  match p with UseTable (TRemove k _) next => {[k]} ∪ removes next | _ => ∅ end.

(** The program registers only databases that its connection has open, and forgets none without removing
    its entry next. *)
Fixpoint fits (i : nat) (l : local) (p : hprog) : Prop :=
  match p with
  | Finish | Panic => True
  | CallStore _ next => forall a, fits i l (next a)
  | UseTable t next =>
      match t with TSet k e own => own = i /\ has_open l k e | TRemove _ own => own = i | _ => True end /\ fits i l next
  | Update l' next => (forall k e, has_open l k e -> has_open l' k e \/ k ∈ removes next) /\ fits i l' next
  end.

Section fits.
Variable opts : Options.
Variable c : session.

Lemma fits_sending f i l : fits i l (sending f l).
Proof. simpl. split; [|done]. intros k e (dbID & db & H). left. by exists dbID, db. Qed.

(** An update of a database that keeps its key and epoch. *)
Lemma has_open_set dbID db db' l k e :
  l_dbs l !! dbID = Some db -> o_key db' = o_key db -> o_epoch db' = o_epoch db ->
  has_open l k e -> has_open (l_set dbID db' l) k e.
Proof.
  intros Hdb Hk He (id & d & Hd & <- & <-). destruct (decide (id = dbID)) as [->|Hne].
  - simplify_eq. exists dbID, db'. simpl. by rewrite lookup_insert_eq.
  - exists id, d. simpl. by rewrite lookup_insert_ne.
Qed.

Lemma fits_set dbID db db' i l next :
  l_dbs l !! dbID = Some db -> o_key db' = o_key db -> o_epoch db' = o_epoch db ->
  fits i (l_set dbID db' l) next -> fits i l (Update (l_set dbID db' l) next).
Proof. intros Hdb Hk He Hn. split; [|done]. intros k e Ho. left. by eapply has_open_set. Qed.

(** The same with a frame that is sent. *)
Lemma fits_set_sending dbID db db' i l f :
  l_dbs l !! dbID = Some db -> o_key db' = o_key db -> o_epoch db' = o_epoch db ->
  fits i l (sending f (l_set dbID db' l)).
Proof.
  intros Hdb Hk He. split; [|done]. intros k e Ho. left.
  destruct (has_open_set dbID db db' l k e Hdb Hk He Ho) as (id & d & H). by exists id, d.
Qed.

Lemma fits_purging keys i l next : fits i l next -> fits i l (purging keys next).
Proof. intros Hn. induction keys as [|k keys IH]; simpl; [done|]. by split. Qed.

Lemma fits_fetch_runs k ver ranges i l next :
  (forall r, fits i l (next r)) -> fits i l (fetch_runs_h k ver ranges next).
Proof.
  revert next. induction ranges as [|r ranges IH]; intros next Hn; simpl; [done|]. intros []; try done. destruct r0; [|done].
  by apply IH.
Qed.

Lemma fits_ping order now i l next :
  (forall l', fits i l' (next l')) -> fits i l (ping_h opts order now l next).
Proof.
  intros Hn. revert l. induction order as [|dbID order IH]; intros l; [apply Hn|]. simpl.
  destruct (l_dbs l !! dbID) as [db|] eqn:Hdb; [|done]. destruct (negb _); [done|]. simpl.
  intros []; try done. destruct r; [|done]. by eapply fits_set.
Qed.

Lemma fits_open newID now id req l : fits (self c) l (open_h opts c newID now id req l).
Proof.
  unfold open_h. destruct (checkDBID _); [apply fits_sending|]. destruct (l_dbs l !! _) eqn:Hdb; [apply fits_sending|].
  intros []; try done. destruct r as [res|]; [|apply fits_sending]. split; [|split; [split|]].
  - intros k e (dbID & d & Hd & Hk). left. exists dbID, d. simpl. rewrite lookup_insert_ne; [done|]. by intros <-; simplify_eq.
  - done.
  - exists (pb.Open_DbId req). eexists. simpl. rewrite lookup_insert_eq. by split_and!.
  - apply fits_sending.
Qed.

Lemma fits_commit now id req i l : fits i l (commit_h opts now id req l).
Proof.
  unfold commit_h. destruct (l_dbs l !! _) as [db|] eqn:Hdb; [|apply fits_sending].
  destruct (negb _); [by eapply fits_set_sending|]. destruct (pending_for _ _) as [p|]; [|by eapply fits_set_sending].
  destruct (_ <? _); [by eapply fits_set_sending|]. destruct (pb.Commit_More req); [by eapply fits_set|].
  eapply fits_set; [done..|]. intros []; try done. destruct r; [|apply fits_sending].
  eapply (fits_set_sending _ (set_pending None db)); [|done..]. simpl. by rewrite lookup_insert_eq.
Qed.

Lemma fits_close id req l : fits (self c) l (close_h c id req l).
Proof.
  unfold close_h. destruct (l_dbs l !! _) as [db|] eqn:Hdb; [|apply fits_sending].
  intros []; try done. destruct r; [|apply fits_sending]. split; [|split; [done|apply fits_sending]].
  intros k e (dbID & d & Hd & <- & <-). simpl. destruct (decide (dbID = pb.CloseDb_DbId req)) as [->|Hne].
  - right. simplify_eq. set_solver.
  - left. exists dbID, d. simpl. by rewrite lookup_delete_ne.
Qed.

Lemma fits_delete now id req i l : fits i l (delete_h c now id req l).
Proof.
  unfold delete_h. destruct (checkDBID _); [apply fits_sending|]. destruct (l_dbs l !! _); [apply fits_sending|].
  intros []; try done. destruct r; [|apply fits_sending]. destruct (0 <? _); [split; [done|]|]; apply fits_sending.
Qed.

Lemma fits_fetch id req i l : fits i l (fetch_h opts id req l).
Proof.
  unfold fetch_h. destruct (l_dbs l !! _); [|apply fits_sending]. destruct (_ <? _); [apply fits_sending|].
  destruct (negb _); [apply fits_sending|]. apply fits_fetch_runs. intros [runs|e]; [|destruct (is_panic e); [done|apply fits_sending]].
  destruct (pages_of_runs _ _); [|done]. split; [|done]. intros k e (dbID & db & H). left. by exists dbID, db.
Qed.

Lemma fits_changed id req i l : fits i l (changed_h opts id req l).
Proof.
  unfold changed_h. destruct (l_dbs l !! _); [|apply fits_sending]. intros []; try done. destruct r; apply fits_sending.
Qed.

Lemma fits_claim now id i l : fits i l (claim_h c now id l).
Proof.
  unfold claim_h. destruct (bool_decide _); [apply fits_sending|]. intros []; try done. destruct r; [|apply fits_sending].
  apply fits_purging, fits_sending.
Qed.

Lemma fits_label id req i l : fits i l (label_h c id req l).
Proof.
  unfold label_h. destruct (bool_decide _); [apply fits_sending|]. destruct (_ <? _); [apply fits_sending|].
  intros []; try done. destruct r; apply fits_sending.
Qed.

Lemma fits_deleteSlot id i l : fits i l (deleteSlot_h c id l).
Proof.
  unfold deleteSlot_h. destruct (bool_decide _); [apply fits_sending|]. destruct (negb _); [apply fits_sending|].
  intros []; try done. destruct r; [|apply fits_sending]. apply fits_purging, fits_sending.
Qed.

Lemma handler_fits e f l : fits (self c) l (handler opts c e f l).
Proof.
  unfold handler. destruct (_ =? 0); [apply fits_sending|].
  destruct (pb.ClientFrame_Body f); try apply fits_sending;
    auto using fits_open, fits_fetch, fits_changed, fits_commit, fits_close, fits_delete, fits_claim, fits_label, fits_deleteSlot.
  apply fits_ping. intros l'. apply fits_sending.
Qed.
End fits.

(** *** The invariant *)

Section table.
Context {S : Type} `{!StoreAPI S}.
Variable opts : Options.

(** A connection that leaves only removes its entries. *)
Fixpoint only_removes (i : nat) (p : hprog) : Prop :=
  match p with
  | Finish => True
  | UseTable (TRemove _ own) next => own = i /\ only_removes i next
  | _ => False
  end.

Definition conn_ok (i : nat) (x : conn) : Prop :=
  self (cn_session x) = i /\
  match cn_prog x with
  | None => cn_leaving x = false
  | Some p => if cn_leaving x then only_removes i p else fits i (cn_local x) p
  end.

(** The entry of [k] with epoch [e] is one of a database that the connection has open, or that it is about
    to remove. *)
Definition covered (x : conn) (k : Key) (e : Z) : Prop :=
  (cn_leaving x = false /\ has_open (cn_local x) k e) \/ exists p, cn_prog x = Some p /\ k ∈ removes p.

Record table_inv (y : system S) : Prop := {
  ti_conns : map_Forall conn_ok (sy_conns y);
  ti_table : forall k h, sy_table y !! k = Some h ->
    exists x, sy_conns y !! h_owner h = Some x /\ covered x k (h_epoch h) }.

(** A change of one connection and of the table. *)
Lemma table_inv_insert y i x s calls m rs :
  table_inv y -> conn_ok i x ->
  (forall k h, m !! k = Some h -> if decide (h_owner h = i) then covered x k (h_epoch h) else sy_table y !! k = Some h) ->
  table_inv (mkSystem s calls m (<[i := x]> (sy_conns y)) rs).
Proof.
  intros [Hc Ht] Hx Hm. split; simpl.
  - by apply map_Forall_insert_2.
  - intros k h Hk. specialize (Hm k h Hk). case_decide as Hi.
    + exists x. subst i. by rewrite lookup_insert_eq.
    + rewrite lookup_insert_ne by congruence. by apply Ht.
Qed.

(** An entry of the connection before its step. *)
Lemma table_covered y i x k h :
  table_inv y -> sy_conns y !! i = Some x -> sy_table y !! k = Some h -> h_owner h = i -> covered x k (h_epoch h).
Proof. intros [_ Ht] Hx Hk Hi. destruct (Ht k h Hk) as (x' & Hx' & Hc). congruence. Qed.

Lemma elem_of_open_keys l k e : has_open l k e -> k ∈ open_keys l.
Proof.
  intros (dbID & db & Hdb & <- & _). unfold open_keys. rewrite elem_of_list_to_set, list_elem_of_fmap.
  exists (dbID, db). split; [done|]. by apply elem_of_map_to_list.
Qed.

Lemma removes_leaving c order : removes (leaving c order) = list_to_set order.
Proof. induction order as [|k order IH]; simpl; [done|]. by rewrite IH. Qed.

Lemma only_removes_leaving c order : only_removes (self c) (leaving c order).
Proof. by induction order. Qed.

Lemma holders_remove_lookup k own m k' h :
  holders_remove k own m !! k' = Some h -> m !! k' = Some h /\ (h_owner h = own -> k' <> k).
Proof.
  unfold holders_remove. destruct (m !! k) as [cur|] eqn:Hk.
  - case_bool_decide as Ho.
    + intros [Hne Hl]%lookup_delete_Some. by split.
    + intros Hl. split; [done|]. intros <- ->. by simplify_eq.
  - intros Hl. split; [done|]. intros _ ->. congruence.
Qed.

(** A section removes entries, or registers its own. *)
Lemma table_run_lookup t m m' rs k h :
  table_run t m = (m', rs) -> m' !! k = Some h ->
  match t with
  | TSet k' e own => (k = k' /\ h = mkHolder e own) \/ (k <> k' /\ m !! k = Some h)
  | TRemove k' own => m !! k = Some h /\ (h_owner h = own -> k <> k')
  | _ => m !! k = Some h
  end.
Proof.
  destruct t as [k' e own|k' own|k'|k' e]; simpl.
  - intros [= <- _] Hl. apply lookup_insert_Some in Hl as [[-> <-]|[? Hl]]; auto.
  - intros [= <- _] Hl. by apply holders_remove_lookup.
  - destruct (m !! k'); intros [= <- _]; [|done]. by intros [_ ?]%lookup_delete_Some.
  - destruct (m !! k'); intros [= <- _]; [|done]. by intros [_ ?]%lookup_delete_Some.
Qed.

Lemma effect_table y i x y' :
  table_inv y -> sy_conns y !! i = Some x -> effect i x y = Some y' -> table_inv y'.
Proof.
  intros Hi Hx He. destruct (ti_conns y Hi i x Hx) as [Hself Hok]. unfold effect in He.
  destruct (cn_prog x) as [p|] eqn:Hp; [|done]. simpl in He.
  assert (forall k h, sy_table y !! k = Some h -> h_owner h = i ->
    (cn_leaving x = false /\ has_open (cn_local x) k (h_epoch h)) \/ k ∈ removes p) as Hcov.
  { intros k h Hk Ho. destruct (table_covered y i x k h Hi Hx Hk Ho) as [?|(p' & Hp' & ?)]; [by left|right; congruence]. }
  assert (forall x', (forall k h, sy_table y !! k = Some h -> h_owner h = i -> covered x' k (h_epoch h)) ->
    forall k h, sy_table y !! k = Some h -> if decide (h_owner h = i) then covered x' k (h_epoch h) else sy_table y !! k = Some h) as Hsame.
  { intros x' Hc k h Hk. case_decide; [by apply Hc|done]. }
  destruct p as [| |o next|t next|l next]; [|done| | |].
  - injection He as <-. destruct (cn_leaving x) eqn:Hl.
    + split; simpl; [apply map_Forall_delete, Hi|]. intros k h Hk. destruct (decide (h_owner h = i)) as [Ho|Ho].
      * destruct (Hcov k h Hk Ho) as [[? _]|Hin]; [done|]. simpl in Hin. set_solver.
      * rewrite lookup_delete_ne by congruence. by apply Hi.
    + apply table_inv_insert; [done|by split|]. apply Hsame. intros k h Hk Ho. left.
      destruct (Hcov k h Hk Ho) as [[_ ?]|Hin]; [by split|]. simpl in Hin. set_solver.
  - destruct (cn_leaving x) eqn:Hl; [done|]. destruct (step o (sy_store y)) as [s a]. injection He as <-. apply table_inv_insert; [done| |].
    + split; [done|]. simpl. apply Hok.
    + apply Hsame. intros k h Hk Ho. left. destruct (Hcov k h Hk Ho) as [[_ ?]|Hin]; [by split|]. simpl in Hin. set_solver.
  - destruct (table_run t (sy_table y)) as [m rs] eqn:Ht. injection He as <-. apply table_inv_insert; [done| |].
    + split; [done|]. simpl. destruct (cn_leaving x); [by destruct t; destruct Hok|by destruct Hok].
    + intros k h Hk. pose proof (table_run_lookup _ _ _ _ _ _ Ht Hk) as Hl.
      assert (sy_table y !! k = Some h -> (forall k' own, t = TRemove k' own -> own = i -> h_owner h = i -> k <> k') ->
        if decide (h_owner h = i) then covered (mkConn (cn_session x) (cn_local x) (Some next) (cn_leaving x)) k (h_epoch h)
        else sy_table y !! k = Some h) as Hkeep.
      { intros Hk' Hne. case_decide as Ho; [|done]. destruct (Hcov k h Hk' Ho) as [?|Hin]; [by left|right].
        exists next. split; [done|]. destruct t as [| k0 own| |]; try by apply not_elem_of_empty in Hin.
        simpl in Hin. apply elem_of_union in Hin as [->%elem_of_singleton|?]; [|done]. exfalso.
        apply (Hne k0 own eq_refl); [|done|done]. destruct (cn_leaving x); by destruct Hok. }
      destruct t as [k' e own|k' own|k'|k' e].
      * destruct Hl as [[-> ->]|[_ Hl]]; [|by apply Hkeep]. simpl. destruct (cn_leaving x) eqn:Hlv; [done|].
        destruct Hok as [[-> Hopen] _]. rewrite decide_True by done. left. by split.
      * destruct Hl as [Hl Hne]. apply Hkeep; [done|]. intros k2 own2 [= <- <-] <- Ho. by apply Hne.
      * by apply Hkeep.
      * by apply Hkeep.
  - injection He as <-. destruct (cn_leaving x) eqn:Hl; [done|]. destruct Hok as [Hup Hok]. apply table_inv_insert; [done|by split|].
    apply Hsame. intros k h Hk Ho. destruct (Hcov k h Hk Ho) as [[_ Hop]|Hin]; [|simpl in Hin; set_solver].
    destruct (Hup _ _ Hop) as [?|?]; [by left|right; by exists next].
Qed.

Lemma table_inv_step ev y y' : table_inv y -> sys_step opts ev y = Some y' -> table_inv y'.
Proof.
  intros Hi Hs. destruct ev as [i c|i e f|i|i order|o]; simpl in Hs.
  - case_bool_decide as Hn; [|done]. case_bool_decide as Hc; [|done]. injection Hs as <-.
    apply table_inv_insert; [done|by split|]. intros k h Hk. case_decide as Ho; [|done].
    destruct (ti_table y Hi k h Hk) as (x & Hx & _). congruence.
  - apply bind_Some in Hs as (x & Hx & Hs). destruct (cn_prog x) eqn:Hp; [done|]. injection Hs as <-.
    destruct (ti_conns y Hi i x Hx) as [Hself Hok]. rewrite Hp in Hok. apply table_inv_insert; [done| |].
    + split; [done|]. simpl. rewrite <- Hself. apply handler_fits.
    + intros k h Hk. case_decide as Ho; [|done]. left. simpl.
      destruct (table_covered y i x k h Hi Hx Hk Ho) as [[_ ?]|(p & Hp' & _)]; [by split|congruence].
  - apply bind_Some in Hs as (x & Hx & Hs). by eapply effect_table.
  - apply (leave_inv opts) in Hs as (x & Hx & Hp & Hord & ->).
    destruct (ti_conns y Hi i x Hx) as [Hself Hok]. apply table_inv_insert; [done| |].
    + split; [done|]. simpl. rewrite <- Hself. apply only_removes_leaving.
    + intros k h Hk. case_decide as Ho; [|done]. right. eexists. split; [done|]. rewrite removes_leaving, Hord.
      destruct (table_covered y i x k h Hi Hx Hk Ho) as [[_ ?]|(p & Hp' & Hin)]; [by eapply elem_of_open_keys|].
      destruct Hp as [?|Hp]; [congruence|]. rewrite Hp in Hp'. injection Hp' as <-. by apply not_elem_of_empty in Hin.
  - destruct (step o (sy_store y)) as [s a]. injection Hs as <-. by destruct Hi.
Qed.

Lemma table_inv_runs ok evs s y : sys_runs opts ok evs (initial s) y -> table_inv y.
Proof.
  intros Hr. remember (initial s) as y0 eqn:Hy0. induction Hr as [y|evs ev y y1 y2 _ IH _ Hs]; subst.
  - split; simpl; [apply map_Forall_empty|done].
  - eapply table_inv_step; [|done]. by apply IH.
Qed.

(** C12: The table of lease holders has no entries of connections that are gone.  However the handlers of
    any number of connections are interleaved, each entry is one of a connection of this server that
    is logged in and that has the database open with the epoch of the entry, or that removes the
    entry next; so once all connections have left, the table is empty. *)
Theorem registered_leases_are_open (ok : op -> S -> Prop) (evs : list sys_event) (s : S) (y : system S) :
  sys_runs opts ok evs (initial s) y ->
  (forall k h, sy_table y !! k = Some h -> exists x, sy_conns y !! h_owner h = Some x /\
     (has_open (cn_local x) k (h_epoch h) \/ exists p, cn_prog x = Some p /\ k ∈ removes p)) /\
  (sy_conns y = ∅ -> sy_table y = ∅).
Proof.
  intros Hr. pose proof (table_inv_runs ok evs s y Hr) as [_ Ht]. split.
  - intros k h Hk. destruct (Ht k h Hk) as (x & Hx & [[_ Ho]|Hp]); exists x; auto.
  - intros He. apply map_empty. intros k. destruct (sy_table y !! k) as [h|] eqn:Hk; [|done].
    destruct (Ht k h Hk) as (x & Hx & _). by rewrite He in Hx.
Qed.
End table.
