(* ===== verification/ConnPush.v ===== *)
(** * Pushes to clients that lost their lease

    A [LeaseRevoked] push is only sent for a lease that has ended, in every interleaving of the handlers of
    a server with calls of other servers. *)

From S2P Require Import Prelude Store StoreFacts Memory Trace MemoryInv MemoryStep MemoryLease MemorySlots Samples Messages Connection ConnSamples ConnMany ConnManyFacts.

Local Open Scope Z_scope.

(** The database [k] has reached the epoch [e]. *)
Definition reached (k : Key) (e : Z) (s : MemStore) : Prop :=
  exists db, dbs s !! k = Some db /\ e <= Epoch (lease db).

(** What a program tells the table of [k] is true of the store: epochs that it registers or revokes have
    been reached, and it purges [k] only if the store has dropped its record. *)
Fixpoint informed (k : Key) (s : MemStore) (p : hprog) : Prop :=
  match p with
  | Finish | Panic => True
  | Update _ next => informed k s next
  | UseTable t next =>
      match t with
      | TSet k' e _ | TRevoke k' e => k' = k -> reached k e s
      | TPurge k' => k' <> k
      | TRemove _ _ => True
      end /\ informed k s next
  | CallStore o next => forall n s0,
      wf_store n s0 -> (has k s0 -> has k (step o s0).1) -> informed k (step o s0).1 (next (step o s0).2)
  end.

Lemma informed_mono k s s' p :
  (forall e, reached k e s -> reached k e s') -> informed k s p -> informed k s' p.
Proof.
  intros Hr. induction p as [| |o next IH|t next IH|l next IH]; simpl; [done|done|done| |done].
  intros [Ht Hn]. split; [|by apply IH]. destruct t; auto.
Qed.

#[local] Arguments purge : simpl never.
#[local] Arguments ClaimSlot : simpl never.
#[local] Arguments DeleteSlot : simpl never.

Section handlers.
Variable opts : Options.
Variable c : session.
Variable k : Key.

Lemma informed_sending f l s : informed k s (sending f l).
Proof. done. Qed.

Lemma open_reaches n newID req s s' res :
  wf_store n s -> Open newID req s = (s', Ok res) -> or_Key req = k -> reached k (Epoch (res_Lease res)) s'.
Proof.
  intros Hs HO <-. destruct (Open_ok _ _ _ _ _ _ Hs HO) as (db & db' & _ & _ & -> & -> & _).
  exists db'. rewrite lookup_put, decide_True by done. split; [done|lia].
Qed.

Lemma delete_reaches req s s' res :
  Delete req s = (s', Ok res) -> 0 < del_Epoch res -> dr_Key req = k -> reached k (del_Epoch res) s'.
Proof.
  intros HD He <-. unfold Delete in HD. destruct (dbs s !! dr_Key req) as [db|]; [|by simplify_eq].
  destruct (deleted db); [by simplify_eq|]. destruct (_ && _); [done|]. injection HD as <- <-.
  exists (remove db). rewrite lookup_put, decide_True by done. split; [done|]. simpl. lia.
Qed.

(** The databases that a purge reports were there and are gone. *)
Lemma purged_gone subject s s' gone :
  purge subject s = (s', gone) -> k ∈ gone -> has k s /\ ~ has k s'.
Proof.
  intros HP Hk. pose proof (purge_lookup subject s s' gone k) as Hl. unfold purge in HP. injection HP as <- <-.
  rewrite merge_sort_Permutation in Hk. apply list_elem_of_fmap in Hk as ([k' db] & -> & Hin). simpl in *.
  apply list_elem_of_filter in Hin as [_ Hin]. apply list_elem_of_filter in Hin as [Hsub Hin]. simpl in Hsub.
  apply elem_of_map_to_list in Hin. split; [by exists db|]. intros [db' Hdb']. 
  apply map_lookup_filter_Some in Hdb' as [_ Hne]. done.
Qed.

Lemma informed_purging keys s next : k ∉ keys -> informed k s next -> informed k s (purging keys next).
Proof.
  intros Hk Hn. induction keys as [|k' keys IH]; simpl; [done|]. apply not_elem_of_cons in Hk as [? ?]. split; [congruence|by apply IH].
Qed.

Lemma informed_fetch_runs ver ranges k' s next :
  (forall r s, informed k s (next r)) -> informed k s (fetch_runs_h k' ver ranges next).
Proof.
  revert s next. induction ranges as [|r ranges IH]; intros s next Hn; simpl; [apply Hn|]. intros n s0 _ _.
  destruct (Fetch k' ver _ _ s0); [|apply Hn]. apply IH. intros. apply Hn.
Qed.

Lemma informed_ping order now l s next :
  (forall l s, informed k s (next l)) -> informed k s (ping_h opts order now l next).
Proof.
  intros Hn. revert l s. induction order as [|dbID order IH]; intros l s; simpl; [apply Hn|].
  destruct (l_dbs l !! dbID) as [db|]; [|apply IH]. destruct (negb _); [apply IH|]. simpl. intros n s0 _ _.
  destruct (Renew _ _ _ _ s0) as [s1 [u|e]]; simpl; apply IH.
Qed.

Lemma informed_open newID now id req l s : informed k s (open_h opts c newID now id req l).
Proof.
  unfold open_h. destruct (checkDBID _); [done|]. destruct (l_dbs l !! _); [done|]. intros n s0 Hs _. simpl.
  destruct (Open newID _ s0) as [s1 [res|e]] eqn:HO; simpl; [|done]. split; [|done]. intros Hk. by eapply open_reaches.
Qed.

Lemma informed_delete now id req l s : informed k s (delete_h c now id req l).
Proof.
  unfold delete_h. destruct (checkDBID _); [done|]. destruct (l_dbs l !! _); [done|]. intros n s0 _ _. simpl.
  destruct (Delete _ s0) as [s1 [res|e]] eqn:HD; simpl; [|done]. destruct (0 <? del_Epoch res) eqn:He; [|done]. simpl.
  split; [|done]. intros Hk. apply Z.ltb_lt in He. by eapply delete_reaches.
Qed.

Lemma claim_gone req s s' res :
  ClaimSlot req s = (s', Ok res) -> k ∈ cres_Deleted res -> has k s /\ ~ has k s'.
Proof.
  unfold ClaimSlot. destruct (slots s !! cl_Owner req) as [old|]; [|by intros [= _ <-] ?%not_elem_of_nil].
  destruct (bool_decide _); [by intros [= _ <-] ?%not_elem_of_nil|].
  destruct (purge (slot_Subject old) s) as [s1 gone] eqn:HP. intros [= <- <-] Hin. exact (purged_gone _ _ _ _ HP Hin).
Qed.

Lemma deleteSlot_gone own sub s s' gone :
  DeleteSlot own sub s = (s', Ok gone) -> k ∈ gone -> has k s /\ ~ has k s'.
Proof.
  unfold DeleteSlot. destruct (slots s !! own) as [slot|].
  - destruct (negb _); [done|]. destruct (purge sub _) as [s1 gone1] eqn:HP. intros [= <- <-] Hin.
    exact (purged_gone _ _ _ _ HP Hin).
  - destruct (purge sub s) as [s1 gone1] eqn:HP. intros [= <- <-] Hin. exact (purged_gone _ _ _ _ HP Hin).
Qed.

Lemma informed_claim now id l s : informed k s (claim_h c now id l).
Proof.
  unfold claim_h. destruct (bool_decide _); [done|]. intros n s0 _. simpl.
  destruct (ClaimSlot _ s0) as [s1 [res|e]] eqn:HC; simpl; [|done]. intros Hkeep. apply informed_purging; [|done].
  intros Hin. destruct (claim_gone _ _ _ _ HC Hin) as [Hh Hn]. by apply Hn, Hkeep.
Qed.

Lemma informed_deleteSlot id l s : informed k s (deleteSlot_h c id l).
Proof.
  unfold deleteSlot_h. destruct (bool_decide _); [done|]. destruct (negb _); [done|]. intros n s0 _. simpl.
  destruct (DeleteSlot _ _ s0) as [s1 [gone|e]] eqn:HC; simpl; [|done]. intros Hkeep. apply informed_purging; [|done].
  intros Hin. destruct (deleteSlot_gone _ _ _ _ _ HC Hin) as [Hh Hn]. by apply Hn, Hkeep.
Qed.

Lemma informed_quiet o next s :
  (forall a s, informed k s (next a)) -> informed k s (CallStore o next).
Proof. intros Hn n s0 _ _. apply Hn. Qed.

Lemma informed_fetch id req l s : informed k s (fetch_h opts id req l).
Proof.
  unfold fetch_h. destruct (l_dbs l !! _); [|done]. destruct (_ <? _); [done|]. destruct (negb _); [done|].
  apply informed_fetch_runs. intros [runs|e'] s'; [|by destruct (is_panic e')]. by destruct (pages_of_runs _ _).
Qed.

Lemma informed_commit now id req l s : informed k s (commit_h opts now id req l).
Proof.
  unfold commit_h. destruct (l_dbs l !! _); [|done]. destruct (negb _); [done|]. destruct (pending_for _ _); [|done].
  destruct (_ <? _); [done|]. destruct (pb.Commit_More _); [done|].
  match goal with |- informed _ _ (Update _ ?p) => change (informed k s p) end. apply informed_quiet. intros [] s'; try done. by destruct r.
Qed.

Lemma informed_changed id req l s : informed k s (changed_h opts id req l).
Proof. unfold changed_h. destruct (l_dbs l !! _); [|done]. apply informed_quiet. intros [] s'; try done. by destruct r. Qed.

Lemma informed_close id req l s : informed k s (close_h c id req l).
Proof. unfold close_h. destruct (l_dbs l !! _); [|done]. apply informed_quiet. intros [] s'; try done. by destruct r. Qed.

Lemma informed_label id req l s : informed k s (label_h c id req l).
Proof.
  unfold label_h. destruct (bool_decide _); [done|]. destruct (_ <? _); [done|]. apply informed_quiet.
  intros [] s'; try done. by destruct r.
Qed.

Lemma handler_informed e f l s : informed k s (handler opts c e f l).
Proof.
  unfold handler. destruct (_ =? 0); [done|].
  destruct (pb.ClientFrame_Body f); try done;
    auto using informed_open, informed_fetch, informed_commit, informed_changed, informed_close, informed_delete,
      informed_claim, informed_deleteSlot, informed_label.
  by apply informed_ping.
Qed.

Lemma leaving_informed order s : informed k s (leaving c order).
Proof. by induction order. Qed.
End handlers.

(** ** The invariant *)

Section pushes.
Variable opts : Options.
Variable k : Key.
Variable n0 : Z.

(** A legal call that does not drop the record of [k]. *)
Definition keeps (o : op) (s : MemStore) : Prop := legal o s /\ (has k s -> has k (step o s).1).

Record push_inv (y : system MemStore) : Prop := {
  pi_wf : wf_store (n0 + zlen (sy_calls y)) (sy_store y);
  pi_table : forall h, sy_table y !! k = Some h -> reached k (h_epoch h) (sy_store y);
  pi_progs : forall i x p, sy_conns y !! i = Some x -> cn_prog x = Some p -> informed k (sy_store y) p;
  pi_revoked : forall h e, (k, h, e) ∈ sy_revoked y ->
    exists db, dbs (sy_store y) !! k = Some db /\ stale (h_epoch h) db }.

(** A call: the epoch of [k] does not decrease, and stale epochs stay stale. *)
Lemma keeps_reached n o s e :
  0 <= n < two64 - 1 -> wf_store n s -> keeps o s -> reached k e s -> reached k e (step o s).1.
Proof.
  intros Hn Hs [Hl Hkeep] (db & Hk & He). destruct (Hkeep (ex_intro _ db Hk)) as [db' Hk'].
  destruct (step o s) as [s' a] eqn:Hst. exists db'. split; [done|].
  destruct (step_epoch n db db') as [[-> _]|Hinc]; [lia|by eapply wf_lookup|by eapply step_db|done|lia].
Qed.

Lemma keeps_stale n o s e db :
  0 <= n < two64 - 1 -> wf_store n s -> keeps o s -> dbs s !! k = Some db -> stale e db ->
  exists db', dbs (step o s).1 !! k = Some db' /\ stale e db'.
Proof.
  intros Hn Hs [Hl Hkeep] Hk He. destruct (Hkeep (ex_intro _ db Hk)) as [db' Hk'].
  destruct (step o s) as [s' a] eqn:Hst. exists db'. split; [done|].
  eapply step_stale; [|by eapply wf_lookup|by eapply step_db|done]. lia.
Qed.

(** The invariant after a call, for the programs that were running. *)
Lemma push_inv_call y o i x :
  push_inv y -> keeps o (sy_store y) -> 0 <= n0 -> n0 + zlen (sy_calls y) < two64 - 1 ->
  (forall p, cn_prog x = Some p -> informed k (step o (sy_store y)).1 p) ->
  push_inv (mkSystem (step o (sy_store y)).1 (sy_calls y ++ [o]) (sy_table y) (<[i := x]> (sy_conns y)) (sy_revoked y)).
Proof.
  intros [Hw Ht Hp Hr] Hk H0 Hb Hx. pose proof (zlen_nonneg (sy_calls y)).
  assert (forall e, reached k e (sy_store y) -> reached k e (step o (sy_store y)).1) as Hreach.
  { intros e. eapply keeps_reached; [|done|done]. lia. }
  split; simpl.
  - rewrite zlen_app. change (zlen [o]) with 1. rewrite Z.add_assoc. destruct (step o (sy_store y)) as [s' a] eqn:Hs.
    eapply wf_step; [|done|apply Hk|done]. lia.
  - auto.
  - intros j z p Hz Hpz. apply lookup_insert_Some in Hz as [[<- <-]|[_ Hz]]; [by apply Hx|].
    eapply informed_mono; [done|]. by eapply Hp.
  - intros h e Hin. destruct (Hr h e Hin) as (db & Hdb & Hst). eapply keeps_stale; [|done..]. lia.
Qed.

(** A section of the table. *)
Lemma push_inv_table y t m rs i x :
  push_inv y -> table_run t (sy_table y) = (m, rs) ->
  match t with
  | TSet k' e _ | TRevoke k' e => k' = k -> reached k e (sy_store y)
  | TPurge k' => k' <> k
  | TRemove _ _ => True
  end ->
  (forall p, cn_prog x = Some p -> informed k (sy_store y) p) ->
  push_inv (mkSystem (sy_store y) (sy_calls y) m (<[i := x]> (sy_conns y)) (sy_revoked y ++ rs)).
Proof.
  intros [Hw Ht Hp Hr] Hrun Hop Hx. split; simpl; [done| | |].
  - intros h Hh. pose proof (table_run_lookup _ _ _ _ _ _ Hrun Hh) as Hl.
    destruct t as [k' e own|k' own|k'|k' e]; [|apply Ht, Hl|by apply Ht..].
    destruct Hl as [[<- ->]|[_ Hl]]; [by apply Hop|by apply Ht].
  - intros j z p Hz Hpz. apply lookup_insert_Some in Hz as [[<- <-]|[_ Hz]]; [by apply Hx|by eapply Hp].
  - intros h e [Hin|Hin]%elem_of_app; [by eapply Hr|].
    assert (forall h e', h_epoch h < e' -> reached k e' (sy_store y) ->
      exists db, dbs (sy_store y) !! k = Some db /\ stale (h_epoch h) db) as Hst.
    { intros h' e' Hlt (db & Hdb & Hle). exists db. split; [done|]. left. lia. }
    destruct t as [k' e1 own|k' own|k'|k' e1]; simpl in Hrun.
    + injection Hrun as _ <-. destruct (sy_table y !! k') as [h'|]; [|by apply not_elem_of_nil in Hin].
      destruct (_ && _) eqn:Hc; [|by apply not_elem_of_nil in Hin]. apply list_elem_of_singleton in Hin as [= <- -> ->].
      apply andb_true_iff in Hc as [_ Hc%Z.ltb_lt]. by apply (Hst _ e1), Hop.
    + injection Hrun as _ <-. by apply not_elem_of_nil in Hin.
    + destruct (sy_table y !! k') as [h'|]; injection Hrun as _ <-; [|by apply not_elem_of_nil in Hin].
      by apply list_elem_of_singleton in Hin as [= <- _ _].
    + destruct (sy_table y !! k') as [h'|]; injection Hrun as _ <-; [|by apply not_elem_of_nil in Hin].
      destruct (_ <? e1) eqn:Hc; [|by apply not_elem_of_nil in Hin]. apply list_elem_of_singleton in Hin as [= <- -> ->].
      apply Z.ltb_lt in Hc. by apply (Hst _ e1), Hop.
Qed.

(** A change of one connection. *)
Lemma push_inv_conn y i x :
  push_inv y -> (forall p, cn_prog x = Some p -> informed k (sy_store y) p) -> push_inv (set_conn i x y).
Proof.
  intros [Hw Ht Hp Hr] Hx. split; simpl; [done|done| |done].
  intros j z p Hz Hpz. apply lookup_insert_Some in Hz as [[<- <-]|[_ Hz]]; [by apply Hx|by eapply Hp].
Qed.

Lemma push_inv_effect y i x y' :
  push_inv y -> sy_conns y !! i = Some x -> effect i x y = Some y' -> 0 <= n0 -> n0 + zlen (sy_calls y) < two64 - 1 ->
  (forall o, calls (Effect i) y = Some o -> keeps o (sy_store y)) -> push_inv y'.
Proof.
  intros Hi Hx He H0 Hb Hok. unfold effect in He. simpl in Hok. rewrite Hx in Hok. simpl in Hok.
  destruct (cn_prog x) as [p|] eqn:Hp; [|done]. simpl in He, Hok.
  pose proof (pi_progs y Hi i x p Hx Hp) as Hinf. destruct p as [| |o next|t next|l next]; [|done| | |].
  - injection He as <-. destruct (cn_leaving x); [|by apply (push_inv_conn y i)]. destruct Hi as [Hw Ht Hps Hr]. split; simpl; [done|done| |done].
    intros j z q [_ Hz]%lookup_delete_Some. by apply (Hps j z).
  - pose proof (push_inv_call y o i (mkConn (cn_session x) (cn_local x) (Some (next (step o (sy_store y)).2)) (cn_leaving x)) Hi
      (Hok o eq_refl) H0 Hb) as Hc. destruct (step o (sy_store y)) as [s a] eqn:Hs. injection He as <-. simpl in Hc. apply Hc. intros p [= <-].
    specialize (Hinf _ _ (pi_wf y Hi)). rewrite Hs in Hinf. apply Hinf. intros Hh.
    destruct (Hok o eq_refl) as [_ Hkeep]. rewrite Hs in Hkeep. by apply Hkeep.
  - destruct (table_run t (sy_table y)) as [m rs] eqn:Ht. injection He as <-. destruct Hinf as [Hop Hn].
    eapply push_inv_table; [done|done|done|]. by intros p [= <-].
  - injection He as <-. apply (push_inv_conn y i); [done|]. by intros p [= <-].
Qed.

Lemma push_inv_step ev y y' :
  push_inv y -> sys_step opts ev y = Some y' -> 0 <= n0 -> n0 + zlen (sy_calls y) < two64 - 1 ->
  (forall o, calls ev y = Some o -> keeps o (sy_store y)) -> push_inv y'.
Proof.
  intros Hi Hs H0 Hb Hok. destruct ev as [i c|i e f|i|i order|o]; simpl in Hs.
  - destruct (_ && _); [|done]. injection Hs as <-. by apply push_inv_conn.
  - apply bind_Some in Hs as (x & Hx & Hs). destruct (cn_prog x) eqn:Hp; [done|]. injection Hs as <-.
    apply push_inv_conn; [done|]. intros p [= <-]. apply handler_informed.
  - apply bind_Some in Hs as (x & Hx & Hs). by eapply push_inv_effect.
  - apply (leave_inv opts) in Hs as (x & Hx & _ & _ & ->).
    apply push_inv_conn; [done|]. intros p [= <-]. apply leaving_informed.
  - specialize (Hok o eq_refl). destruct (step o (sy_store y)) as [s a] eqn:Hs'. injection Hs as <-.
    pose proof (zlen_nonneg (sy_calls y)). destruct Hi as [Hw Ht Hp Hr].
    assert (forall e, reached k e (sy_store y) -> reached k e s) as Hreach.
    { intros e He. apply (keeps_reached (n0 + zlen (sy_calls y)) o) in He; [by rewrite Hs' in He|lia|done|done]. }
    split; simpl.
    + rewrite zlen_app. change (zlen [o]) with 1. rewrite Z.add_assoc. eapply wf_step; [|done|apply Hok|done]. lia.
    + auto.
    + intros i x p Hx Hpx. eapply informed_mono; [done|]. by eapply Hp.
    + intros h e Hin. destruct (Hr h e Hin) as (db & Hdb & Hst).
      eapply (keeps_stale (n0 + zlen (sy_calls y)) o) in Hst; [|lia|done|done|done]. by rewrite Hs' in Hst.
Qed.

Lemma step_calls ev (y y' : system MemStore) : sys_step opts ev y = Some y' -> zlen (sy_calls y) <= zlen (sy_calls y').
Proof.
  intros Hs. assert (exists l, sy_calls y' = sy_calls y ++ l) as [l ->].
  { destruct ev as [i c|i e f|i|i order|o]; simpl in Hs.
    - destruct (_ && _); [|done]. injection Hs as <-. exists []. by rewrite app_nil_r.
    - apply bind_Some in Hs as (x & Hx & Hs). destruct (cn_prog x); [done|]. injection Hs as <-. exists []. by rewrite app_nil_r.
    - apply bind_Some in Hs as (x & Hx & Hs). unfold effect in Hs. destruct (cn_prog x) as [p|]; [|done]. simpl in Hs.
      destruct p; [destruct (cn_leaving x)|done|destruct (step _ _)|destruct (table_run _ _)|]; injection Hs as <-; simpl;
        first [by eexists|by exists []; rewrite app_nil_r].
    - apply (leave_inv opts) in Hs as (x & _ & _ & _ & ->). exists []. by rewrite app_nil_r.
    - destruct (step o (sy_store y)). injection Hs as <-. by exists [o]. }
  rewrite zlen_app. pose proof (zlen_nonneg l). lia.
Qed.

Lemma push_inv_runs evs s y :
  sys_runs opts keeps evs (initial s) y -> wf_store n0 s -> 0 <= n0 -> n0 + zlen (sy_calls y) < two64 - 1 -> push_inv y.
Proof.
  intros Hr Hw H0. remember (initial s) as y0 eqn:Hy0. induction Hr as [y|evs ev y y1 y2 _ IH Hok Hs]; subst; intros Hb.
  - split; simpl; [by rewrite Z.add_0_r|done|done|]. intros h e Hin. by apply not_elem_of_nil in Hin.
  - pose proof (step_calls _ _ _ Hs). eapply push_inv_step; [apply IH; [done|lia]|done|done|lia|done].
Qed.

(** C11: No client is told without reason that it lost its lease.  In every interleaving of the handlers of
    a server's connections with calls of other servers, as long as the record of the database [k] is
    kept: when a push for [k] has been started to the holder [h], then every commit, renewal, release
    and resume with the epoch that [h] had is refused, at that moment and from then on. *)
Theorem pushes_are_true (evs : list sys_event) (s : MemStore) (y : system MemStore) (h : holder) (e : Z) :
  wf_store n0 s -> 0 <= n0 -> n0 + zlen (sy_calls y) < two64 - 1 ->
  sys_runs opts keeps evs (initial s) y -> (k, h, e) ∈ sy_revoked y -> refused k (h_epoch h) (sy_store y).
Proof.
  intros Hw H0 Hb Hr Hin. destruct (push_inv_runs evs s y Hr Hw H0 Hb) as [Hwf _ _ Hrev].
  destruct (Hrev h e Hin) as (db & Hdb & Hst). by eapply stale_refused.
Qed.
End pushes.

(** ** Two connections of one key *)

Definition alice2 : session := mkSession 8 "alice" (Some [x03]) "p" 0.
Definition alice3 : session := mkSession 9 "alice" (Some [x04]) "p" 0.

Definition opening (i : nat) : sys_event := Frame i (at_ t0) (frame 1 open_main).
Definition effects (i n : nat) : list sys_event := replicate n (Effect i).

(** The second connection takes the database over from the first. *)
Definition takeover : list sys_event :=
  [Login 7 alice; Login 8 alice2; opening 7] ++ effects 7 5 ++ [opening 8] ++ effects 8 5.

Fixpoint play_events (evs : list sys_event) (y : system MemStore) : option (system MemStore) :=
  match evs with
  | [] => Some y
  | ev :: evs => y ← sys_step opts0 ev y; play_events evs y
  end.

Definition after_events (evs : list sys_event) : system MemStore := default (initial New) (play_events evs (initial New)).

(** Every call of the events is one with [ok]. *)
Fixpoint calls_ok (ok : op -> MemStore -> bool) (evs : list sys_event) (y : system MemStore) : bool :=
  match evs with
  | [] => true
  | ev :: evs =>
      match calls ev y with Some o => ok o (sy_store y) | None => true end &&
      match sys_step opts0 ev y with Some y => calls_ok ok evs y | None => false end
  end.

Lemma runs_cons ok ev evs (y y1 y2 : system MemStore) :
  (forall o, calls ev y = Some o -> ok o (sy_store y)) -> sys_step opts0 ev y = Some y1 ->
  sys_runs opts0 ok evs y1 y2 -> sys_runs opts0 ok (ev :: evs) y y2.
Proof.
  intros Ho Hs Hr. induction Hr as [y1|evs ev' y1 y2 y3 _ IH Ho' Hs'].
  - apply (runs_snoc _ _ [] ev y y); [constructor|done|done].
  - rewrite app_comm_cons. eapply runs_snoc; [by apply IH|done|done].
Qed.

Lemma calls_ok_runs (ok : op -> MemStore -> Prop) okb evs y :
  (forall o s, okb o s = true -> ok o s) -> calls_ok okb evs y = true ->
  sys_runs opts0 ok evs y (default y (play_events evs y)).
Proof.
  intros Hb. revert y. induction evs as [|ev evs IH]; intros y; simpl; [constructor|].
  intros [Hc Hs]%andb_true_iff. destruct (sys_step opts0 ev y) as [y1|] eqn:Hst; [|done]. simpl.
  assert (is_Some (play_events evs y1)) as [y2 Hy2].
  { clear -Hs. revert y1 Hs. induction evs as [|ev evs IH]; intros y1; simpl; [by eexists|].
    intros [_ Hs]%andb_true_iff. destruct (sys_step opts0 ev y1) as [y2|]; [|done]. by apply IH. }
  specialize (IH y1 Hs). rewrite Hy2 in IH |- *. eapply runs_cons; [|done|done].
  intros o Ho. rewrite Ho in Hc. by apply Hb.
Qed.

Definition opens_kA (o : op) (s : MemStore) : bool :=
  match o with
  | OpOpen _ req => bool_decide (in_u32 (or_PageSize req)) && bool_decide (or_Resume req = None) && bool_decide (has kA (step o s).1)
  | _ => false
  end.

Lemma opens_keep o s : opens_kA o s = true -> keeps kA o s.
Proof.
  destruct o; try done. simpl. intros [[Hp Hr]%andb_true_iff Hh]%andb_true_iff.
  apply bool_decide_eq_true in Hp, Hr, Hh. split; [simpl; by rewrite Hr|]. done.
Qed.

Definition taken_over : system MemStore := Eval vm_compute in after_events takeover.

Lemma taken_over_runs : sys_runs opts0 (keeps kA) takeover (initial New) taken_over.
Proof.
  replace taken_over with (after_events takeover) by (vm_compute; reflexivity).
  apply (calls_ok_runs _ opens_kA); [apply opens_keep|]. vm_compute. reflexivity.
Qed.

(** The first connection is told, and its lease has ended. *)
Lemma pushes_are_true_witness :
  sy_revoked taken_over = [(kA, mkHolder 1 7, 2)] /\ refused kA 1 (sy_store taken_over).
Proof.
  split; [reflexivity|].
  refine (pushes_are_true opts0 kA 0 takeover New taken_over (mkHolder 1 7) 2 (wf_new 0) _ _ taken_over_runs _).
  - reflexivity.
  - vm_compute. reflexivity.
  - apply list_elem_of_singleton. reflexivity.
Defined.

Lemma registered_leases_are_open_witness :
  exists x, sy_conns taken_over !! 8%nat = Some x /\
    (has_open (cn_local x) kA 2 \/ exists p, cn_prog x = Some p /\ kA ∈ removes p).
Proof.
  exact (proj1 (registered_leases_are_open opts0 (keeps kA) takeover New taken_over taken_over_runs) kA (mkHolder 2 8) eq_refl).
Defined.

(** ** Registrations out of order *)

(** The first connection is granted epoch 1, the second one takes over and is registered with epoch 2, and
    only then the first one is registered. *)
Definition overtaking : list sys_event :=
  [Login 7 alice; Login 8 alice2; opening 7; Effect 7; opening 8] ++ effects 8 5 ++ effects 7 4.

(** [set] overwrites the newer entry.  The first connection is not told that it has lost its lease, and when a
    third connection takes over, it is the first one that is told, not the second one, which held the
    lease. *)
Lemma registration_overtaken :
  let y := after_events overtaking in
  let y' := after_events (overtaking ++ [Login 9 alice3; opening 9] ++ effects 9 5) in
  (sy_table y !! kA = Some (mkHolder 1 7) /\ sy_revoked y = [] /\
   (Epoch ∘ lease) <$> dbs (sy_store y) !! kA = Some 2) /\
  sy_revoked y' = [(kA, mkHolder 1 7, 3)].
Proof. vm_compute. repeat split; reflexivity. Qed.
