(* ===== verification/ConnManyPg.v ===== *)
(** * Many connections on PostgreSQL

    The interleavings of [ConnMany.v] on the PostgreSQL store are those on the memory store: everything
    proved of them there holds on PostgreSQL. *)

From S2P Require Import Prelude Store StoreFacts Memory Trace MemoryInv MemoryStep Samples Tables Postgres PgRel PgRefine Messages Connection ConnSamples ConnMany ConnManyFacts ConnPush.

Local Open Scope Z_scope.

Section agree.
Context `{!Timestamptz}.
Variable opts : Options.

(** The same server on the two stores. *)
Record alike (y' : system Tables) (y : system MemStore) : Prop := {
  al_store : rel (sy_store y') (sy_store y);
  al_calls : sy_calls y' = sy_calls y;
  al_table : sy_table y' = sy_table y;
  al_conns : sy_conns y' = sy_conns y;
  al_revoked : sy_revoked y' = sy_revoked y }.

Definition in_contract_at (o : op) (s : MemStore) : Prop := legal o s /\ in_range o.

(** A call has the same answer on both. *)
Lemma alike_call n o y' y :
  0 <= n < two63 - 1 -> wf_store n (sy_store y) -> in_contract_at o (sy_store y) -> alike y' y ->
  (step o (sy_store y')).2 = (step o (sy_store y)).2 /\ rel (step o (sy_store y')).1 (step o (sy_store y)).1 /\
  wf_store (n + 1) (step o (sy_store y)).1.
Proof.
  intros Hn Hw [Hl Hr] Ha. destruct (step_sim n o (sy_store y') (sy_store y)) as [H1 H2]; try done; [apply Ha|].
  split_and!; [done|done|]. destruct (step o (sy_store y)) as [s a] eqn:Hs. eapply wf_step; [|done..]. zlia.
Qed.

Lemma alike_step n ev y' y y2 :
  alike y' y -> 0 <= n -> n + zlen (sy_calls y) < two63 - 1 -> wf_store (n + zlen (sy_calls y)) (sy_store y) ->
  (forall o, calls ev y = Some o -> in_contract_at o (sy_store y)) -> sys_step opts ev y = Some y2 ->
  exists y2', sys_step opts ev y' = Some y2' /\ alike y2' y2 /\ wf_store (n + zlen (sy_calls y2)) (sy_store y2).
Proof.
  intros Ha Hn Hb Hw Hok Hs. pose proof (zlen_nonneg (sy_calls y)).
  assert (forall o, in_contract_at o (sy_store y) ->
    (step o (sy_store y')).2 = (step o (sy_store y)).2 /\ rel (step o (sy_store y')).1 (step o (sy_store y)).1 /\
    wf_store (n + zlen (sy_calls y ++ [o])) (step o (sy_store y)).1) as Hcall.
  { intros o Ho. rewrite zlen_app. change (zlen [o]) with 1. rewrite Z.add_assoc. by apply alike_call; [lia|..]. }
  destruct Ha as [Hst Hc Ht Hcn Hrv]. destruct ev as [i c|i e f|i|i order|o]; simpl in Hs |- *; rewrite ?Hcn.
  - destruct (_ && _); [|done]. injection Hs as <-. eexists. split; [done|]. by split; [split; simpl; rewrite ?Hcn|].
  - destruct (sy_conns y !! i) as [x|]; [|done]. simpl in Hs |- *. destruct (cn_prog x); [done|]. injection Hs as <-.
    eexists. split; [done|]. by split; [split; simpl; rewrite ?Hcn|].
  - simpl in Hok. destruct (sy_conns y !! i) as [x|]; [|done]. simpl in Hs, Hok |- *. unfold effect in *.
    destruct (cn_prog x) as [p|]; [|done]. simpl in Hs, Hok |- *.
    destruct p as [| |o next|t next|l next]; [|done| | |].
    + injection Hs as <-. eexists. split; [done|]. destruct (cn_leaving x); by split; [split; simpl; rewrite ?Hcn|].
    + destruct (Hcall o (Hok o eq_refl)) as (Hans & Hrel & Hwf). destruct (step o (sy_store y')) as [t a], (step o (sy_store y)) as [s b].
      injection Hs as <-. eexists. split; [done|]. simpl in *. subst b. by split; [split; simpl; rewrite ?Hcn, ?Hc|].
    + rewrite Ht. destruct (table_run t (sy_table y)). injection Hs as <-. eexists. split; [done|]. by split; [split; simpl; rewrite ?Hcn, ?Hrv|].
    + injection Hs as <-. eexists. split; [done|]. by split; [split; simpl; rewrite ?Hcn|].
  - apply (leave_inv opts) in Hs as (x & Hx & Hp & Hord & ->). rewrite Hx. simpl.
    exists (set_conn i (mkConn (cn_session x) (cn_local x) (Some (leaving (cn_session x) order)) true) y'). split.
    + destruct Hp as [-> | ->]; by rewrite bool_decide_true.
    + by split; [split; simpl; rewrite ?Hcn|].
  - destruct (Hcall o (Hok o eq_refl)) as (_ & Hrel & Hwf). destruct (step o (sy_store y')) as [t a], (step o (sy_store y)) as [s b].
    injection Hs as <-. simpl in *. eexists. split; [done|]. by split; [split; simpl; rewrite ?Hc|].
Qed.

(** C10: Any number of clients cannot tell which store their server uses.  Whatever the connections of a
    server, and other servers, do on the memory store, in any interleaving of their effects, they do
    on a PostgreSQL store that holds the same state: every connection is sent the same frames, the
    same pushes are started, the same leases are registered, and the stores hold the same state.  The
    calls have legal arguments in the range of the columns: numbers that fit, times of whole
    microseconds, and text without the byte 0. *)
Theorem interleaved_connections_agree (evs : list sys_event) (n : Z) (s : MemStore) (t : Tables) (y : system MemStore) :
  rel t s -> wf_store n s -> 0 <= n -> n + zlen (sy_calls y) < two63 - 1 ->
  sys_runs opts in_contract_at evs (initial s) y ->
  exists y', sys_runs opts (fun _ _ => True) evs (initial t) y' /\ alike y' y.
Proof.
  intros Hr Hw Hn Hb Hs. cut (exists y', sys_runs opts (fun _ _ => True) evs (initial t) y' /\ alike y' y /\
    wf_store (n + zlen (sy_calls y)) (sy_store y)); [naive_solver|].
  remember (initial s) as y0 eqn:Hy0. induction Hs as [y|evs ev y y1 y2 _ IH Hok Hst]; subst.
  - exists (initial t). split; [constructor|]. split; [by split|]. simpl. by rewrite Z.add_0_r.
  - pose proof (step_calls _ _ _ _ Hst). destruct IH as (y' & Hy' & Ha & Hw'); [lia|done|].
    destruct (alike_step n ev y' y1 y2 Ha Hn) as (y2' & Hs' & Ha' & Hw2); [lia|exact Hw'|exact Hok|exact Hst|].
    exists y2'. split; [|done]. by eapply runs_snoc.
Qed.
End agree.

#[local] Existing Instance microseconds.

Definition opens_in_contract (o : op) (s : MemStore) : bool :=
  opens_kA o s && bool_decide (in_range o).

Lemma interleaved_connections_agree_witness :
  exists y', sys_runs opts0 (fun _ _ => True) takeover (initial empty_tables) y' /\ sy_conns y' = sy_conns taken_over.
Proof.
  destruct (@interleaved_connections_agree microseconds opts0 takeover 0 New empty_tables taken_over rel_empty (wf_new 0))
    as (y' & Hy' & Ha); [reflexivity|vm_compute; reflexivity| |].
  - replace taken_over with (after_events takeover) by (vm_compute; reflexivity).
    apply (calls_ok_runs _ opens_in_contract); [|vm_compute; reflexivity].
    intros o s [Ho Hr]%andb_true_iff. apply bool_decide_eq_true in Hr. split; [|done]. by apply opens_keep.
  - exists y'. split; [exact Hy'|exact (al_conns _ _ Ha)].
Defined.
