(* ===== verification/PathMatch.v ===== *)
(** * Shell patterns: Go's [path.Match], with which origins are checked

    The algorithm of the standard library on byte values: a pattern is cut into chunks, each one
    possibly after stars; a chunk is tried at the leftmost position.  [glob] says what a pattern of
    characters, [*] and [?] means, and the algorithm decides exactly that although it never goes
    back. *)

From S2P Require Import Prelude.

Local Open Scope Z_scope.

(** ** Runes: [utf8.DecodeRuneInString] *)

Definition RuneError : Z := 65533.

Definition decode_rune (l : list Z) : Z * nat :=
  let bad := (RuneError, 1%nat) in
  match l with
  | [] => (RuneError, 0%nat)
  | a :: l =>
      if within 0 127 a then (a, 1%nat)
      else if within 194 223 a then
        match l with
        | b :: _ => if within 128 191 b then ((a - 192) * 64 + (b - 128), 2%nat) else bad
        | _ => bad
        end
      else if within 224 239 a then
        match l with
        | b :: c :: _ =>
            if within (if a =? 224 then 160 else 128) (if a =? 237 then 159 else 191) b && within 128 191 c
            then ((a - 224) * 4096 + (b - 128) * 64 + (c - 128), 3%nat) else bad
        | _ => bad
        end
      else if within 240 244 a then
        match l with
        | b :: c :: d :: _ =>
            if within (if a =? 240 then 144 else 128) (if a =? 244 then 143 else 191) b &&
               within 128 191 c && within 128 191 d
            then ((a - 240) * 262144 + (b - 128) * 4096 + (c - 128) * 64 + (d - 128), 4%nat) else bad
        | _ => bad
        end
      else bad
  end.

(** ** The algorithm; [None] is [ErrBadPattern]. *)

(** The scan of [scanChunk] up to a star outside of brackets. *)
Fixpoint scan (inrange : bool) (p : list Z) : list Z * list Z :=
  match p with
  | [] => ([], [])
  | 92 :: c :: p' => let '(a, b) := scan inrange p' in (92 :: c :: a, b)
  | c :: p' =>
      if (c =? 42) && negb inrange then ([], p)
      else let inrange := if c =? 91 then true else if c =? 93 then false else inrange in
           let '(a, b) := scan inrange p' in (c :: a, b)
  end.

Fixpoint skip_stars (p : list Z) : bool * list Z :=
  match p with
  | 42 :: p' => (true, (skip_stars p').2)
  | _ => (false, p)
  end.

Definition scanChunk (p : list Z) : bool * list Z * list Z :=
  let '(star, p) := skip_stars p in
  let '(chunk, rest) := scan false p in
  (star, chunk, rest).

Definition getEsc (chunk : list Z) : option (Z * list Z) :=
  let rune (chunk : list Z) :=
    let '(r, n) := decode_rune chunk in
    if (r =? RuneError) && Nat.eqb n 1 then None
    else if bool_decide (drop n chunk = []) then None else Some (r, drop n chunk) in
  match chunk with
  | [] | 45 :: _ | 93 :: _ => None
  | 92 :: [] => None
  | 92 :: chunk => rune chunk
  | _ => rune chunk
  end.

(** The ranges of a character class, for the rune [r]: whether one of them holds it, and the rest. *)
Fixpoint class_ranges (fuel : nat) (r : Z) (any : bool) (matched : bool) (chunk : list Z) : option (bool * list Z) :=
  match fuel with
  | O => None
  | S fuel =>
      match chunk, any with
      | 93 :: chunk, true => Some (matched, chunk)
      | _, _ =>
          '(lo, chunk) ← getEsc chunk;
          '(hi, chunk) ← match chunk with 45 :: chunk => getEsc chunk | _ => Some (lo, chunk) end;
          class_ranges fuel r true (matched || ((lo <=? r) && (r <=? hi))) chunk
      end
  end.

(** [matchChunk]: [s] is what is left of the name, or [None] once the match has failed. *)
Fixpoint match_chunk (fuel : nat) (chunk : list Z) (s : option (list Z)) : option (option (list Z)) :=
  match fuel with
  | O => None
  | S fuel =>
      match chunk with
      | [] => Some s
      | c :: chunk =>
          let s := match s with Some [] => None | _ => s end in
          let literal (c : Z) (chunk : list Z) :=
            match_chunk fuel chunk
              (match s with Some (x :: s) => if x =? c then Some s else None | _ => None end) in
          if c =? 91 then
            let '(r, s) := match s with
                           | Some s => let '(r, n) := decode_rune s in (r, Some (drop n s))
                           | None => (0, None)
                           end in
            let '(negated, chunk) := match chunk with 94 :: chunk => (true, chunk) | _ => (false, chunk) end in
            '(matched, chunk) ← class_ranges (S (length chunk)) r false false chunk;
            match_chunk fuel chunk (if Bool.eqb matched negated then None else s)
          else if c =? 63 then
            match_chunk fuel chunk
              (match s with
               | Some (x :: s') => if x =? 47 then None else Some (drop (decode_rune (x :: s')).2 (x :: s'))
               | _ => None
               end)
          else if c =? 92 then
            match chunk with [] => None | c :: chunk => literal c chunk end
          else literal c chunk
      end
  end.

Definition matchChunk (chunk s : list Z) : option (option (list Z)) := match_chunk (S (length chunk)) chunk (Some s).

(** The chunk matches and, if it is the last one, uses up the name. *)
Definition accepted (last : bool) (t : option (list Z)) : option (list Z) :=
  match t with
  | Some (_ :: _) => if last then None else t
  | t => t
  end.

(** The loop that skips bytes of the name for a star. *)
Fixpoint star_loop (chunk : list Z) (last : bool) (name : list Z) : option (option (list Z)) :=
  match name with
  | [] => Some None
  | x :: name =>
      if x =? 47 then Some None
      else
        r ← matchChunk chunk name;
        match accepted last r with
        | Some t => Some (Some t)
        | None => star_loop chunk last name
        end
  end.

(** The rest of the pattern is checked before [false] is returned. *)
Fixpoint check_rest (fuel : nat) (p : list Z) : option bool :=
  match fuel with
  | O => None
  | S fuel =>
      match p with
      | [] => Some false
      | _ => let '(_, chunk, rest) := scanChunk p in
             _ ← matchChunk chunk [];
             check_rest fuel rest
      end
  end.

Fixpoint match_loop (fuel : nat) (p name : list Z) : option bool :=
  match fuel with
  | O => None
  | S fuel =>
      match p with
      | [] => Some (bool_decide (name = []))
      | _ =>
          let '(star, chunk, rest) := scanChunk p in
          if star && bool_decide (chunk = []) then Some (bool_decide (47 ∉ name))
          else
            let last := bool_decide (rest = []) in
            r ← matchChunk chunk name;
            match accepted last r with
            | Some t => match_loop fuel rest t
            | None =>
                r ← (if star then star_loop chunk last name else Some None);
                match r with
                | Some t => match_loop fuel rest t
                | None => check_rest (S (length rest)) rest
                end
            end
      end
  end.

(** Every round consumes a part of the pattern. *)
Definition path_Match (pattern name : list Z) : option bool := match_loop (S (length pattern)) pattern name.

(** ** What patterns mean *)

Inductive glob : list Z -> list Z -> Prop :=
| glob_nil : glob [] []
| glob_star p u s : 47 ∉ u -> glob p s -> glob (42 :: p) (u ++ s)
| glob_any p x s : x <> 47 -> glob p s -> glob (63 :: p) (x :: s)
| glob_char c p s : c <> 42 -> c <> 63 -> glob p s -> glob (c :: p) (c :: s).

(** Patterns without character classes, escapes and slashes. *)
Definition plain (p : list Z) : Prop := Forall (fun c => c <> 91 /\ c <> 92 /\ c <> 47) p.
Definition no_star (p : list Z) : Prop := Forall (fun c => c <> 42) p.
Definition ascii (l : list Z) : Prop := Forall (fun c => 0 <= c < 128) l.

(** A chunk of such a pattern at the start of a name. *)
Fixpoint chunk_at (chunk s : list Z) : option (list Z) :=
  match chunk, s with
  | [], _ => Some s
  | c :: chunk, x :: s =>
      if (if c =? 63 then negb (x =? 47) else x =? c) then chunk_at chunk s else None
  | _ :: _, [] => None
  end.

(** ** Chunks *)

Lemma decode_ascii x s : 0 <= x < 128 -> decode_rune (x :: s) = (x, 1%nat).
Proof. intros Hx. unfold decode_rune, within. by rewrite !(proj2 (Z.leb_le _ _)) by lia. Qed.

Lemma match_chunk_failed chunk : plain chunk -> forall fuel,
  (length chunk < fuel)%nat -> match_chunk fuel chunk None = Some None.
Proof.
  induction 1 as [|c chunk (H91 & H92 & _) _ IH]; intros [|fuel] Hf; simpl in *; try lia; [done|].
  rewrite (proj2 (Z.eqb_neq c 91)), (proj2 (Z.eqb_neq c 92)) by done.
  destruct (c =? 63); apply IH; lia.
Qed.

Lemma match_chunk_at chunk : plain chunk -> forall fuel s, ascii s ->
  (length chunk < fuel)%nat -> match_chunk fuel chunk (Some s) = Some (chunk_at chunk s).
Proof.
  induction 1 as [|c chunk (H91 & H92 & _) Hp IH]; intros [|fuel] s Hs Hf; cbn [match_chunk chunk_at length] in *;
    try lia; [by destruct s|].
  rewrite (proj2 (Z.eqb_neq c 91)), (proj2 (Z.eqb_neq c 92)) by done.
  destruct s as [|x s].
  { destruct (c =? 63); apply match_chunk_failed; done || lia. }
  apply Forall_cons in Hs as [Hx Hs]. rewrite decode_ascii by done. simpl drop.
  destruct (c =? 63); [destruct (x =? 47)|destruct (x =? c)]; simpl;
    try (apply match_chunk_failed; done || lia); apply IH; done || lia.
Qed.

Lemma matchChunk_at chunk s : plain chunk -> ascii s -> matchChunk chunk s = Some (chunk_at chunk s).
Proof. intros. apply match_chunk_at; done || lia. Qed.

(** A chunk uses as many characters of the name as it has, none of them a slash. *)
Lemma chunk_at_split chunk s t : plain chunk -> chunk_at chunk s = Some t ->
  exists m, s = m ++ t /\ length m = length chunk /\ 47 ∉ m.
Proof.
  intros Hp. revert s. induction Hp as [|c chunk (_ & _ & H47) _ IH]; intros s; cbn [chunk_at].
  { intros [= <-]. exists []. split_and!; [done|done|set_solver]. }
  destruct s as [|x s]; [done|]. destruct (if c =? 63 then _ else _) eqn:E; [|done].
  intros (m & -> & Hl & Hm)%IH. exists (x :: m). split_and!; [done|by simpl; lia|].
  apply not_elem_of_cons. split; [|done]. destruct (c =? 63); bool_hyps; congruence.
Qed.

(** A chunk in front of a pattern. *)
Lemma glob_chunk chunk rest s : plain chunk -> no_star chunk ->
  glob (chunk ++ rest) s <-> exists t, chunk_at chunk s = Some t /\ glob rest t.
Proof.
  intros Hp Hn. revert s. induction Hp as [|c chunk (_ & _ & H47) _ IH]; intros s; simpl.
  { split; [eauto|naive_solver]. }
  apply Forall_cons in Hn as [Hc Hn]. specialize (IH Hn). destruct s as [|x s].
  { split; [intros H|naive_solver]. inversion H; congruence. }
  split.
  - intros H. inversion H; subst; try congruence.
    + simpl. rewrite (proj2 (Z.eqb_neq x 47)) by done. simpl. by apply IH.
    + rewrite (proj2 (Z.eqb_neq x 63)), Z.eqb_refl by done. by apply IH.
  - intros (t & Ht & Hg). destruct (Z.eqb_spec c 63) as [->|H63].
    + destruct (Z.eqb_spec x 47); [done|]. simpl in Ht. apply glob_any; [done|]. apply IH. eauto.
    + destruct (Z.eqb_spec x c) as [->|]; [|done]. apply glob_char; [done..|]. apply IH. eauto.
Qed.

(** ** Cutting a pattern into chunks *)

Lemma scan_plain p : plain p -> exists chunk rest, scan false p = (chunk, rest) /\ p = chunk ++ rest /\
  no_star chunk /\ (rest = [] \/ exists r, rest = 42 :: r).
Proof.
  induction 1 as [|c p (H91 & H92 & _) _ (chunk & rest & He & -> & Hn & Hr)].
  { exists [], []. split_and!; [done|done|constructor|by left]. }
  assert (scan false (c :: chunk ++ rest) =
    if c =? 42 then ([], c :: chunk ++ rest) else (c :: chunk, rest)) as ->.
  { assert (forall p', scan false (c :: p') = if c =? 42 then ([], c :: p')
      else let '(a, b) := scan false p' in (c :: a, b)) as ->; [|by rewrite He].
    intros p'. destruct (Z.eqb_spec c 42) as [->|H42]; [done|].
    assert (scan false (c :: p') = (let inrange := if c =? 91 then true else if c =? 93 then false else false in
      let '(a, b) := scan inrange p' in (c :: a, b))) as ->.
    { destruct p' as [|c' p']; cbn [scan]; repeat (case_match; simplify_eq/=; try done). }
    cbn zeta. rewrite (proj2 (Z.eqb_neq c 91)) by done. by destruct (c =? 93). }
  destruct (Z.eqb_spec c 42) as [->|H42].
  - exists [], (42 :: chunk ++ rest). split_and!; [done|done|constructor|right; eauto].
  - exists (c :: chunk), rest. split_and!; [done|done|by constructor|done].
Qed.

Lemma skip_stars_spec p : exists n star q, skip_stars p = (star, q) /\ p = (replicate n 42 ++ q)%list /\
  star = negb (Nat.eqb n 0) /\ (forall r, q <> 42 :: r).
Proof.
  induction p as [|c p (n & star & q & He & Hp & Hs & Hq)].
  { exists 0%nat, false, []. by split_and!. }
  destruct (decide (c = 42)) as [->|Hc].
  - exists (S n), true, q. simpl. rewrite He. split_and!; [done|by rewrite <- Hp|done|done].
  - exists 0%nat, false, (c :: p). split_and!; [|done|done|congruence].
    unfold skip_stars. repeat (case_match; simplify_eq; try done).
Qed.

(** Stars in front of a pattern. *)
Lemma glob_stars n p s : (0 < n)%nat ->
  glob (replicate n 42 ++ p) s <-> exists u t, s = u ++ t /\ (47 ∉ u) /\ glob p t.
Proof.
  intros Hn. destruct n as [|n]; [lia|]. clear Hn. revert s. induction n as [|n IH]; intros s.
  - simpl. split.
    + intros H. inversion H; subst; try congruence. eauto.
    + intros (u & t & -> & Hu & Hg). by apply glob_star.
  - change (replicate (S (S n)) 42 ++ p) with (42 :: (replicate (S n) 42 ++ p)). split.
    + intros H. inversion H as [|p' u s' Hu Hg| |]; subst; try congruence.
      apply IH in Hg as (u' & t & -> & Hu' & Hg). exists (u ++ u'), t.
      split_and!; [by rewrite app_assoc|set_solver|done].
    + intros (u & t & -> & Hu & Hg). apply glob_star; [done|]. apply IH. exists [], t.
      split_and!; [done|set_solver|done].
Qed.

Lemma scanChunk_plain p : plain p -> p <> [] ->
  exists n chunk rest, scanChunk p = (negb (Nat.eqb n 0), chunk, rest) /\ p = replicate n 42 ++ chunk ++ rest /\
    plain chunk /\ plain rest /\ no_star chunk /\ (rest = [] \/ exists r, rest = 42 :: r) /\
    (length rest < length p)%nat /\ ((0 < n)%nat \/ chunk <> []) /\ (chunk = [] -> rest = []).
Proof.
  intros Hp Hne. destruct (skip_stars_spec p) as (n & star & q & He & -> & -> & Hq).
  apply Forall_app in Hp as [_ Hq']. destruct (scan_plain q Hq') as (chunk & rest & Hs & -> & Hn & Hr).
  apply Forall_app in Hq' as [Hc Hrest]. exists n, chunk, rest.
  assert (chunk = [] -> rest = []) as Hcr.
  { intros ->. destruct Hr as [|[r ->]]; [done|]. by destruct (Hq r). }
  unfold scanChunk. rewrite He, Hs. split_and!; try done.
  - rewrite !length_app, length_replicate. destruct chunk as [|c chunk]; [|simpl; lia].
    rewrite Hcr by done. destruct n; simpl; [|lia]. exfalso. apply Hne. by rewrite Hcr.
  - destruct n; [right|left; lia]. intros ->. apply Hne. by rewrite Hcr.
Qed.

(** ** The leftmost match *)

Lemma accepted_Some last r t : accepted last r = Some t <-> r = Some t /\ (last = true -> t = []).
Proof. destruct r as [[|x r]|], last; simpl; naive_solver. Qed.

(** A later position of the same chunk leaves less, and a star can bridge the difference. *)
Lemma chunk_later chunk u1 s1 t1 u2 s2 t2 :
  plain chunk -> u1 ++ s1 = u2 ++ s2 -> (length u1 <= length u2)%nat -> 47 ∉ u2 ->
  chunk_at chunk s1 = Some t1 -> chunk_at chunk s2 = Some t2 ->
  exists w, t1 = w ++ t2 /\ 47 ∉ w.
Proof.
  intros Hp He Hl Hu H1 H2.
  apply chunk_at_split in H1 as (m1 & -> & Hm1 & _); [|done].
  apply chunk_at_split in H2 as (m2 & -> & Hm2 & H47); [|done].
  rewrite !app_assoc in He. apply app_eq_inv in He as [(k & Hk & ->)|(k & Hk & ->)].
  - apply (f_equal length) in Hk. rewrite !length_app in Hk. destruct k; [|simpl in Hk; lia].
    exists []. split; [done|set_solver].
  - exists k. split; [done|]. intros Hin. assert (47 ∈ u2 ++ m2) as Hin2 by (rewrite Hk; set_solver). set_solver.
Qed.

(** The loop finds the leftmost accepted position after the first. *)
Lemma star_loop_spec chunk last name : plain chunk -> ascii name ->
  exists r, star_loop chunk last name = Some r /\
    match r with
    | Some t => exists u s, name = u ++ s /\ (47 ∉ u) /\ (0 < length u)%nat /\
        accepted last (chunk_at chunk s) = Some t /\
        (forall u' s', name = u' ++ s' -> (0 < length u' < length u)%nat -> accepted last (chunk_at chunk s') = None)
    | None => forall u s, name = u ++ s -> 47 ∉ u -> (0 < length u)%nat -> accepted last (chunk_at chunk s) = None
    end.
Proof.
  intros Hp. induction 1 as [|x name Hx Hn IH]; cbn [star_loop].
  { exists None. split; [done|]. intros [|y u] s He; [simpl; lia|done]. }
  destruct (Z.eqb_spec x 47) as [->|Hx47].
  { exists None. split; [done|]. intros [|y u] s He Hu; [simpl; lia|]. simpl in He. set_solver. }
  rewrite matchChunk_at by done. cbn [mbind option_bind].
  destruct (accepted last (chunk_at chunk name)) as [t|] eqn:Ha.
  - exists (Some t). split; [done|]. exists [x], name. split_and!; [done|set_solver|simpl; lia|done|].
    intros u' s' _ Hl. simpl in Hl. lia.
  - destruct IH as (r & -> & Hr). exists r. split; [done|]. destruct r as [t|].
    + destruct Hr as (u & s & -> & Hu & Hl & Hacc & Hmin). exists (x :: u), s.
      split_and!; [done|set_solver|simpl; lia|done|]. intros [|y u'] s' He Hl'; [simpl in Hl'; lia|].
      simpl in He. injection He as <- He. destruct u' as [|z u']; [simpl in He; by subst s'|].
      apply (Hmin (z :: u') s' He). simpl in *. lia.
    + intros [|y u] s He Hu Hl; [simpl in Hl; lia|]. simpl in He. injection He as <- He.
      destruct u as [|z u]; [simpl in He; by subst s|]. apply (Hr (z :: u)); [done|set_solver|simpl; lia].
Qed.

(** ** Soundness and completeness *)

Lemma check_rest_plain fuel p : plain p -> (length p < fuel)%nat -> check_rest fuel p = Some false.
Proof.
  revert p. induction fuel as [|fuel IH]; intros p Hp Hl; [lia|]. cbn [check_rest].
  destruct p as [|c p]; [done|].
  destruct (scanChunk_plain (c :: p) Hp) as (n & chunk & rest & He & _ & Hc & Hr & _ & _ & Hlen & _); [done|].
  rewrite He, matchChunk_at by (done || constructor). cbn [mbind option_bind]. apply IH; [done|lia].
Qed.

(** If the pattern matches from some position on, it matches from the leftmost accepted one. *)
Lemma glob_leftmost chunk rest u1 s1 t1 u2 s2 t2 :
  plain chunk -> (rest = [] \/ exists r, rest = 42 :: r) ->
  u1 ++ s1 = u2 ++ s2 -> (length u1 <= length u2)%nat -> 47 ∉ u2 ->
  accepted (bool_decide (rest = [])) (chunk_at chunk s1) = Some t1 ->
  chunk_at chunk s2 = Some t2 -> glob rest t2 -> glob rest t1.
Proof.
  intros Hp Hr He Hl Hu [H1 Hlast]%accepted_Some H2 Hg.
  destruct Hr as [->|[r ->]].
  - rewrite bool_decide_eq_true_2 in Hlast by done. rewrite Hlast by done. constructor.
  - destruct (chunk_later chunk u1 s1 t1 u2 s2 t2) as (w & -> & Hw); [done..|].
    inversion Hg as [|p' u s Hu' Hg' Hpat| |]; subst; try congruence.
    rewrite app_assoc. apply glob_star; [set_solver|done].
Qed.

(** A position at which the whole rest matches is accepted. *)
Lemma glob_accepted chunk rest s t :
  chunk_at chunk s = Some t -> glob rest t -> is_Some (accepted (bool_decide (rest = [])) (chunk_at chunk s)).
Proof.
  intros Hc Hg. exists t. apply accepted_Some. split; [done|]. intros Hl. apply bool_decide_eq_true_1 in Hl as ->.
  by inversion Hg.
Qed.

(** One round of [Match] on a chunk, if the rounds after it are right. *)
Section round.
Variables (fuel : nat) (chunk rest : list Z).
Hypothesis chunk_plain : plain chunk.
Hypothesis rest_plain : plain rest.
Hypothesis chunk_no_star : no_star chunk.
Hypothesis rest_star : rest = [] \/ exists r, rest = 42 :: r.
Hypothesis loop_ok : forall t, ascii t -> exists b, match_loop fuel rest t = Some b /\ (b = true <-> glob rest t).

Let last := bool_decide (rest = []).

Lemma accepted_ascii s t : ascii s -> accepted last (chunk_at chunk s) = Some t -> ascii t.
Proof.
  intros Hs [(m & -> & _)%chunk_at_split _]%accepted_Some; [|done]. by apply Forall_app in Hs as [_ ?].
Qed.

Lemma not_accepted s t : accepted last (chunk_at chunk s) = None -> chunk_at chunk s = Some t -> ~ glob rest t.
Proof. intros Ha Hc Hg. destruct (glob_accepted chunk rest s t Hc Hg) as [x Hx]. fold last in Hx. congruence. Qed.

(** The leftmost accepted position decides. *)
Lemma leftmost_iff name u1 s1 t1 :
  name = u1 ++ s1 -> 47 ∉ u1 -> accepted last (chunk_at chunk s1) = Some t1 ->
  (forall u s, name = u ++ s -> (length u < length u1)%nat -> accepted last (chunk_at chunk s) = None) ->
  glob rest t1 <-> exists u t, name = u ++ t /\ (47 ∉ u) /\ glob (chunk ++ rest) t.
Proof.
  intros He1 Hu1 Ha1 Hmin. split.
  - intros Hg. exists u1, s1. split_and!; [done|done|]. apply glob_chunk; [done|done|].
    apply accepted_Some in Ha1 as [Ha1 _]. eauto.
  - intros (u & s & He2 & Hu & (t & Ht & Hg)%glob_chunk); [|done|done].
    apply (glob_leftmost chunk rest u1 s1 t1 u s t); try done; [congruence|].
    destruct (Nat.le_gt_cases (length u1) (length u)) as [|Hlt]; [done|].
    by destruct (not_accepted s t (Hmin u s He2 Hlt) Ht).
Qed.

(** Without a star before the chunk. *)
Lemma round_fixed name : ascii name ->
  exists b, match accepted last (chunk_at chunk name) with
            | Some t => match_loop fuel rest t
            | None => check_rest (S (length rest)) rest
            end = Some b /\ (b = true <-> glob (chunk ++ rest) name).
Proof.
  intros Hn. pose proof (glob_chunk chunk rest name chunk_plain chunk_no_star) as Hiff.
  destruct (accepted last (chunk_at chunk name)) as [t|] eqn:Ha.
  - destruct (loop_ok t) as (b & -> & Hb); [by eapply accepted_ascii|]. exists b. split; [done|]. rewrite Hb, Hiff.
    apply accepted_Some in Ha as [-> _]. naive_solver.
  - rewrite check_rest_plain by (done || lia). exists false. split; [done|]. rewrite Hiff. split; [done|].
    intros (t & Ht & Hg). by destruct (not_accepted name t).
Qed.

(** After a star. *)
Lemma round_star name : ascii name ->
  exists b, match accepted last (chunk_at chunk name) with
            | Some t => match_loop fuel rest t
            | None =>
                r ← star_loop chunk last name;
                match r with
                | Some t => match_loop fuel rest t
                | None => check_rest (S (length rest)) rest
                end
            end = Some b /\ (b = true <-> exists u t, name = u ++ t /\ (47 ∉ u) /\ glob (chunk ++ rest) t).
Proof.
  intros Hn. destruct (accepted last (chunk_at chunk name)) as [t|] eqn:Ha.
  { destruct (loop_ok t) as (b & -> & Hb); [by eapply accepted_ascii|]. exists b. split; [done|]. rewrite Hb.
    apply (leftmost_iff name [] name t); [done|set_solver|done|]. intros u s _ Hlt. simpl in Hlt. lia. }
  destruct (star_loop_spec chunk last name chunk_plain Hn) as (r & -> & Hr). cbn [mbind option_bind].
  destruct r as [t|].
  - destruct Hr as (u & s & Hname & Hu & Hlu & Hacc & Hmin). destruct (loop_ok t) as (b & -> & Hb).
    { eapply accepted_ascii; [|done]. rewrite Hname in Hn. by apply Forall_app in Hn as [_ ?]. }
    exists b. split; [done|]. rewrite Hb. apply (leftmost_iff name u s t); [done..|]. intros u' s' He' Hlt.
    destruct u' as [|x u']; [simpl in He'; by subst s'|]. apply (Hmin (x :: u')); [done|simpl in *; lia].
  - rewrite check_rest_plain by (done || lia). exists false. split; [done|]. split; [done|].
    intros (u & s & He2 & Hu & (t & Ht & Hg)%glob_chunk); [|done|done].
    destruct u as [|y u]; [simpl in He2; subst s; by destruct (not_accepted name t)|].
    by destruct (not_accepted s t (Hr (y :: u) s He2 Hu ltac:(simpl; lia)) Ht).
Qed.
End round.

Lemma match_loop_plain fuel p name : plain p -> ascii name -> (length p < fuel)%nat ->
  exists b, match_loop fuel p name = Some b /\ (b = true <-> glob p name).
Proof.
  revert p name. induction fuel as [|fuel IH]; intros p name Hp Hn Hl; [lia|]. cbn [match_loop].
  destruct p as [|c p].
  { eexists. split; [done|]. rewrite bool_decide_eq_true. split; [intros ->; constructor|]. by inversion 1. }
  destruct (scanChunk_plain (c :: p) Hp) as (n & chunk & rest & He & Hpat & Hc & Hr & Hns & Hrest & Hlen & _ & Hcr); [done|].
  rewrite He, Hpat, matchChunk_at by done.
  assert (forall t, ascii t -> exists b, match_loop fuel rest t = Some b /\ (b = true <-> glob rest t)) as Hloop
    by (intros t Ht; apply IH; [done|done|lia]).
  destruct (Nat.eqb_spec n 0) as [->|Hn0]; cbn [negb andb mbind option_bind].
  { destruct (round_fixed fuel chunk rest Hc Hr Hns Hrest Hloop name Hn) as (b & Hb & Hbi). by exists b. }
  pose proof (glob_stars n (chunk ++ rest) name ltac:(lia)) as Hiff. case_bool_decide as Hce.
  - exists (bool_decide (47 ∉ name)). split; [done|]. rewrite Hiff, bool_decide_eq_true, Hce, Hcr by done. simpl. split.
    + intros Hs. exists name, []. rewrite app_nil_r. split_and!; [done|done|constructor].
    + intros (u & t & -> & Hu & Hg). inversion Hg. subst. by rewrite app_nil_r.
  - destruct (round_star fuel chunk rest Hc Hr Hns Hrest Hloop name Hn) as (b & Hb & Hbi).
    exists b. split; [exact Hb|]. by rewrite Hiff.
Qed.

Lemma path_Match_plain p name :
  plain p -> ascii name -> exists b, path_Match p name = Some b /\ (b = true <-> glob p name).
Proof. intros. apply match_loop_plain; [done|done|lia]. Qed.

(** The pattern matcher decides what patterns mean.  For every pattern of characters, [*] and [?],
    and every ASCII name, [path.Match] terminates without an error and reports a match exactly if
    the pattern describes the name: a star stands for any characters but slashes, a question mark
    for one.  It tries each chunk only at its leftmost position and never goes back, and still
    misses no match. *)
Theorem path_match_iff (p name : list Z) :
  plain p -> ascii name -> exists b, path_Match p name = Some b /\ (b = true <-> glob p name).
Proof. apply path_Match_plain. Qed.

Lemma path_match_iff_witness :
  exists b, path_Match [42; 46; 97; 42; 98] [120; 46; 97; 97; 98] = Some b /\
    (b = true <-> glob [42; 46; 97; 42; 98] [120; 46; 97; 97; 98]).
Proof. apply path_match_iff; repeat constructor; lia. Defined.
