(* ===== verification/SlotHTTP.v ===== *)
(** * The slot endpoint: [src/internal/protocol/slot.go]

    [ServeSlot] as a function from a request to a response.  The verifier of access tokens and the
    lookup of a slot are arguments, as are [url.Parse] and the Unicode tables behind
    [strings.ToLower] and [strings.EqualFold], which matter for strings that are not ASCII. *)

From S2P Require Import Prelude Store Memory Trace Samples GoStrings PathMatch Messages Connection Login Config.

Local Open Scope Z_scope.

(** ** HTTP *)

Record Request := mkRequest {
  Method : string;
  req_Host : string;
  Origin : string;
  Authorization : string }.

Record SlotInfo := mkSlotInfo { Label : string; ClaimedAtMs : Z }.

Definition SlotResponse : Type := option SlotInfo.

Inductive Body := NoBody | Text (s : string) | Rejected (reason : perr) | Json (res : SlotResponse).

(** Headers in the order in which they were set. *)
Record Response := mkResponse {
  Status : Z;
  Headers : list (string * string);
  RespBody : Body }.

Definition StatusOK : Z := 200.
Definition StatusNoContent : Z := 204.
Definition StatusUnauthorized : Z := 401.
Definition StatusForbidden : Z := 403.
Definition StatusNotFound : Z := 404.
Definition StatusInternalServerError : Z := 500.

(** [http.Error] *)
Definition http_Error (headers : list (string * string)) (body : Body) (status : Z) : Response :=
  mkResponse status
    (headers ++ [("Content-Type", "text/plain; charset=utf-8"); ("X-Content-Type-Options", "nosniff")]%string)%list body.

(** A string in double quotes. *)
Definition quoted (s : string) : string :=
  let q := String (Ascii.ascii_of_nat 34) EmptyString in String.append q (String.append s q).

(** [strings.CutPrefix(s, "Bearer ")], without the result that says whether it was there. *)
Definition cut_bearer (s : string) : string :=
  if String.prefix "Bearer " s then String.substring 7 (String.length s - 7) s else s.

Definition is_ascii (l : list Z) : bool := forallb (fun c => within 0 127 c) l.

Section slot.
Variable url_Parse : string -> option URL.
Variable unicode_lower : list Z -> list Z.
Variable unicode_fold : list Z -> list Z -> bool.
Variable opts : Options.

Definition ToLower (l : list Z) : list Z := if is_ascii l then lower <$> l else unicode_lower l.

Definition EqualFold (a b : list Z) : bool :=
  if is_ascii a && is_ascii b then bool_decide (lower <$> a = lower <$> b) else unicode_fold a b.

(** [originAllowed]; an error of [path.Match] counts as no match. *)
Definition originAllowed (host origin : string) : bool :=
  match url_Parse origin with
  | None => false
  | Some u =>
      if is_empty (Host u) then false
      else if EqualFold (codes (Host u)) (codes host) then true
      else existsb (fun pattern =>
             default false (path_Match (ToLower (codes pattern)) (ToLower (codes (Host u))))) (AllowedOrigins opts)
  end.

Variable VerifyUnbound : option (string -> result perr Grant).
Variable GetSlot : string -> result perr (option Slot).

(** The answer to a request whose origin may read it. *)
Definition serve_get (headers : list (string * string)) (r : Request) : Response :=
  let headers := (headers ++ [("Cache-Control", "no-store")]%string)%list in
  match VerifyUnbound with
  | None => http_Error headers (Text "slots need access tokens") StatusNotFound
  | Some verify =>
      let grant := verify (cut_bearer (Authorization r)) in
      let grant := match grant with
                   | Ok g => if is_empty (Owner g) then Err (Denied "no sub claim") else Ok g
                   | Err e => Err e
                   end in
      match grant with
      | Err (Denied reason) =>
          http_Error (headers ++ [("WWW-Authenticate", String.append "Bearer error=" (quoted "invalid_token"))]%string)%list
            (Rejected (Denied reason)) StatusUnauthorized
      | Err _ => http_Error headers (Text "internal error") StatusInternalServerError
      | Ok g =>
          match GetSlot (Owner g) with
          | Err _ => http_Error headers (Text "internal error") StatusInternalServerError
          | Ok slot =>
              let res := (fun slot => mkSlotInfo (slot_Label slot) (time_UnixMilli (slot_ClaimedAt slot))) <$> slot in
              mkResponse StatusOK (headers ++ [("Content-Type", "application/json")]%string)%list (Json res)
          end
      end
  end.

Definition ServeSlot (r : Request) : Response :=
  if negb (is_empty (Origin r)) && negb (originAllowed (req_Host r) (Origin r)) then
    http_Error [] (Text "origin not allowed") StatusForbidden
  else
    let headers := if is_empty (Origin r) then []
                   else [("Access-Control-Allow-Origin", Origin r); ("Vary", "Origin")]%string in
    if is_str (Method r) "OPTIONS" then
      mkResponse StatusNoContent
        (headers ++ [("Access-Control-Allow-Methods", "GET"); ("Access-Control-Allow-Headers", "Authorization");
                     ("Access-Control-Max-Age", "600")]%string)%list NoBody
    else serve_get headers r.
End slot.

(** ** Origins *)

Lemma is_ascii_spec l : is_ascii l = true <-> ascii l.
Proof.
  unfold is_ascii, ascii. rewrite forallb_forall, Forall_forall. unfold within.
  split; intros Hl x Hx; specialize (Hl x); rewrite list_elem_of_In in *.
  - specialize (Hl Hx). bool_hyps. lia.
  - specialize (Hl Hx). by rewrite !(proj2 (Z.leb_le _ _)) by lia.
Qed.

Lemma lower_ascii l : ascii l -> ascii (lower <$> l).
Proof.
  intros Hl. apply Forall_fmap. apply (Forall_impl _ _ _ Hl). intros x Hx. simpl. unfold lower, within.
  destruct (Z.leb_spec 65 x), (Z.leb_spec x 90); simpl; lia.
Qed.

Lemma lower_plain l : plain l -> plain (lower <$> l).
Proof.
  intros Hl. apply Forall_fmap. apply (Forall_impl _ _ _ Hl). intros x Hx. simpl. unfold lower, within.
  destruct (Z.leb_spec 65 x), (Z.leb_spec x 90); simpl; lia.
Qed.

Section facts.
Variable url_Parse : string -> option URL.
Variable unicode_lower : list Z -> list Z.
Variable unicode_fold : list Z -> list Z -> bool.
Variable opts : Options.

(** The host pattern [p] describes the host [h], without regard to case. *)
Definition host_matches (p h : string) : Prop := glob (lower <$> codes p) (lower <$> codes h).

Lemma originAllowed_iff host origin u :
  url_Parse origin = Some u -> ascii (codes (Host u)) -> ascii (codes host) ->
  Forall (fun p => ascii (codes p) /\ plain (codes p)) (AllowedOrigins opts) ->
  originAllowed url_Parse unicode_lower unicode_fold opts host origin = true <->
  Host u <> EmptyString /\
  (lower <$> codes (Host u) = lower <$> codes host \/
   Exists (fun p => host_matches p (Host u)) (AllowedOrigins opts)).
Proof.
  intros Hu Hh Hr Hp. unfold originAllowed. rewrite Hu. destruct (is_empty (Host u)) eqn:He.
  { apply bool_decide_eq_true_1 in He. naive_solver. }
  apply empty_false in He. unfold EqualFold. rewrite !(proj2 (is_ascii_spec _)) by done. cbn [andb].
  case_bool_decide as Heq; [naive_solver|].
  match goal with |- existsb ?f ?l = true <-> _ =>
    assert (existsb f l = true <-> Exists (fun p => host_matches p (Host u)) (AllowedOrigins opts)) as -> end;
    [|naive_solver].
  rewrite existsb_exists, Exists_exists.
  assert (forall p, p ∈ AllowedOrigins opts ->
    default false (path_Match (ToLower unicode_lower (codes p)) (ToLower unicode_lower (codes (Host u)))) = true <->
    host_matches p (Host u)) as Hone.
  { intros p Hin. rewrite Forall_forall in Hp. destruct (Hp p Hin) as [Ha Hpl]. unfold ToLower, host_matches.
    rewrite !(proj2 (is_ascii_spec _)) by done.
    destruct (path_Match_plain (lower <$> codes p) (lower <$> codes (Host u))) as (b & -> & Hbg);
      [by apply lower_plain|by apply lower_ascii|done]. }
  split; intros (p & Hin & Hm); exists p.
  - apply list_elem_of_In in Hin. split; [done|]. by apply Hone.
  - split; [by apply list_elem_of_In|]. by apply Hone.
Qed.

(** The answer to an allowed request is not 403 and keeps the headers. *)
Lemma serve_get_keeps VerifyUnbound GetSlot headers r :
  Status (serve_get VerifyUnbound GetSlot headers r) <> StatusForbidden /\
  headers ⊆ Headers (serve_get VerifyUnbound GetSlot headers r).
Proof. unfold serve_get, http_Error. repeat case_match; simpl; (split; [done|set_solver]). Qed.

(** Which pages may ask for a slot.  For ASCII host names and patterns of characters, [*] and [?], a
    request with an [Origin] is let in exactly if the origin names a host and that host is the
    server's own or is described by one of the configured patterns, both without regard to case;
    every other origin is answered with 403 and without a header that would let the page read
    anything. *)
Theorem slot_origins (VerifyUnbound : option (string -> result perr Grant))
    (GetSlot : string -> result perr (option Slot)) (r : Request) (u : URL) :
  url_Parse (Origin r) = Some u -> Origin r <> EmptyString ->
  ascii (codes (Host u)) -> ascii (codes (req_Host r)) ->
  Forall (fun p => ascii (codes p) /\ plain (codes p)) (AllowedOrigins opts) ->
  let res := ServeSlot url_Parse unicode_lower unicode_fold opts VerifyUnbound GetSlot r in
  let allowed := Host u <> EmptyString /\
    (lower <$> codes (Host u) = lower <$> codes (req_Host r) \/
     Exists (fun p => host_matches p (Host u)) (AllowedOrigins opts)) in
  (Status res = StatusForbidden <-> ~ allowed) /\
  ((exists h, ("Access-Control-Allow-Origin"%string, h) ∈ Headers res) <-> allowed).
Proof.
  intros Hu Ho Hh Hr Hp res allowed.
  pose proof (originAllowed_iff (req_Host r) (Origin r) u Hu Hh Hr Hp) as Hiff. fold allowed in Hiff.
  unfold res, ServeSlot. rewrite (proj2 (empty_false _) Ho). cbn [negb andb].
  destruct (originAllowed _ _ _ _ _ _) eqn:E; cbn [negb].
  - assert allowed as Ha by (by apply Hiff). set (headers := [(_, Origin r); _]).
    assert (("Access-Control-Allow-Origin"%string, Origin r) ∈ headers) as Hin by (unfold headers; set_solver).
    destruct (serve_get_keeps VerifyUnbound GetSlot headers r) as [Hne Hsub].
    destruct (is_str _ _); (split; [by split|]; split; [done|]); intros _; exists (Origin r); [|by apply Hsub].
    simpl. set_solver.
  - assert (~ allowed) as Ha by (rewrite <- Hiff; congruence). split; [by split|]. split; [|done].
    intros (h & Hin). simpl in Hin. set_solver.
Qed.
End facts.

(** A page of a subdomain, in other letters than the pattern. *)
Definition sample_opts : Options :=
  mkOptions 1048576 (10 * Second) (5 * Minute) 268435456 "wss://vfs.example/v1/ws" 0 ["*.pages.example"]%string.

Definition sample_request (method : string) : Request :=
  mkRequest method "vfs.example" "https://App.Pages.example" "Bearer t".

Definition sample_url (s : string) : option URL :=
  Some (mkURL "https" "App.Pages.example" "App.Pages.example").

Lemma slot_origins_witness :
  exists h, ("Access-Control-Allow-Origin"%string, h) ∈
    Headers (ServeSlot sample_url id (fun _ _ => false) sample_opts None (fun _ => Ok None) (sample_request "GET")).
Proof.
  destruct (slot_origins sample_url id (fun _ _ => false) sample_opts None (fun _ => Ok None) (sample_request "GET")
              (mkURL "https" "App.Pages.example" "App.Pages.example")) as [_ Ha].
  - reflexivity.
  - done.
  - apply is_ascii_spec. reflexivity.
  - apply is_ascii_spec. reflexivity.
  - constructor; [|constructor]. split; [apply is_ascii_spec; reflexivity|].
    apply (bool_decide_unpack _). vm_compute. exact I.
  - apply Ha. split; [done|]. right. constructor. unfold host_matches.
    destruct (path_Match_plain (lower <$> codes "*.pages.example") (lower <$> codes "App.Pages.example"))
      as (b & Hb & Hg).
    + apply (bool_decide_unpack _). vm_compute. exact I.
    + apply is_ascii_spec. reflexivity.
    + apply Hg. vm_compute in Hb. by injection Hb.
Defined.

(** ** What is revealed *)

(** What a response may show of a slot. *)
Definition shown (slot : Slot) : SlotInfo := mkSlotInfo (slot_Label slot) (time_UnixMilli (slot_ClaimedAt slot)).

(** [Store.GetSlot] of a store, for the handler. *)
Definition slot_in (s : MemStore) (owner : string) : result perr (option Slot) :=
  match st_GetSlot owner s with Ok slot => Ok slot | Err e => Err (StoreError e) end.

(** The owner that the token of a request names, if the token is accepted. *)
Definition token_owner (VerifyUnbound : option (string -> result perr Grant)) (r : Request) : option string :=
  match VerifyUnbound with
  | Some verify =>
      match verify (cut_bearer (Authorization r)) with
      | Ok g => if is_empty (Owner g) then None else Some (Owner g)
      | Err _ => None
      end
  | None => None
  end.

(** C34: The slot endpoint shows an owner their own slot and nothing else.  The response depends on the
    store only through the label and the claim time of the slot of the owner that an accepted token
    names: run against two stores that agree on these, it gives the same response, whoever holds the
    slot and whatever other slots and databases there are; without an accepted token it does not
    depend on the store at all.  A slot is shown only with status 200, to an accepted token and to
    an allowed origin. *)
Theorem slot_shows_only_own (url_Parse : string -> option URL) (unicode_lower : list Z -> list Z)
    (unicode_fold : list Z -> list Z -> bool) (opts : Options)
    (VerifyUnbound : option (string -> result perr Grant)) (r : Request) (s1 s2 : MemStore) :
  (forall owner, token_owner VerifyUnbound r = Some owner ->
     shown <$> slots s1 !! owner = shown <$> slots s2 !! owner) ->
  let serve s := ServeSlot url_Parse unicode_lower unicode_fold opts VerifyUnbound (slot_in s) r in
  serve s1 = serve s2 /\
  forall info, RespBody (serve s1) = Json (Some info) ->
    Status (serve s1) = StatusOK /\
    (Origin r = EmptyString \/ originAllowed url_Parse unicode_lower unicode_fold opts (req_Host r) (Origin r) = true) /\
    exists owner slot, token_owner VerifyUnbound r = Some owner /\ slots s1 !! owner = Some slot /\ info = shown slot.
Proof.
  intros Hsame serve. unfold serve, ServeSlot. unfold token_owner in *.
  destruct (is_empty (Origin r)) eqn:Ho; cbn [negb andb];
    [apply bool_decide_eq_true_1 in Ho
    |destruct (originAllowed url_Parse unicode_lower unicode_fold opts (req_Host r) (Origin r)) eqn:Ha; cbn [negb]; [|done]];
    (destruct (is_str _ _); [done|]); unfold serve_get;
    (destruct VerifyUnbound as [verify|]; [|done]);
    (destruct (verify _) as [g|e]; [|by destruct e]); (destruct (is_empty (Owner g)); [done|]);
    specialize (Hsame _ eq_refl); unfold shown in Hsame; unfold slot_in; cbn [st_GetSlot MemStore_api]; unfold GetSlot;
    (split; [by rewrite Hsame|]); clear Hsame; cbn [RespBody Status];
    intros info [= Hi]; (split; [done|]); (split; [by auto|]); exists (Owner g);
    apply fmap_Some in Hi as (slot & ? & ->); by exists slot.
Qed.

(** Bob holds the slot of owner "o" in one store and alice in the other, with the same label and time. *)
Definition other_holder : MemStore := put_slot "o" (mkSlot "alice" EmptyString (1020 * Microsecond)) s4.

Lemma slot_shows_only_own_witness :
  let verify := Some (fun _ : string => Ok (E := perr) (mkGrant 0 "o")) in
  let serve s := ServeSlot sample_url id (fun _ _ => false) sample_opts verify (slot_in s)
                   (sample_request "GET") in
  serve s4 = serve other_holder /\ slots s4 !! "o"%string <> slots other_holder !! "o"%string.
Proof.
  intros verify serve. split; [|by vm_compute].
  apply (slot_shows_only_own sample_url id (fun _ _ => false) sample_opts verify (sample_request "GET") s4 other_holder).
  intros owner [= <-]. vm_compute. reflexivity.
Defined.
