(* ===== verification/ProtoServer.v ===== *)
(** * The protocol server: [NewServer], [ServeHTTP] and [Shutdown] of [src/internal/protocol/server.go]

    The handlers of requests and the calls of [Shutdown] are goroutines that share the mutex, the flag
    [stopped], the channel [stop] and the wait group [conns].  [step] executes one statement of one
    goroutine, so a list of events is an interleaving.  What Go answers with a panic is a flag of the
    state: closing a closed channel, a wait group below zero, and an [Add] from zero while a goroutine
    waits. *)

From S2P Require Import Prelude.

Local Open Scope Z_scope.

(** ** Goroutines *)

(** Why a request ended. *)
Inductive ended := Unavailable | UpgradeFailed | ConnectionEnded.

(** What [run] does: it waits for a frame, or handles one, which can include calls to the store and to the
    token service. *)
Inductive phase := Reading | Handling.

(** A request in [ServeHTTP].  [HServing] is in [run], and [going_away] says that the goroutine of [serve]
    which waits for [stop] has called [ws.Close]; [HClosing] is in the [ws.Close] at the end of [serve], and
    [HLeaving] is about to run the deferred functions. *)
Inductive handler :=
| HEnter
| HLocked
| HAdded
| HAccepting
| HServing (p : phase) (going_away : bool)
| HClosing
| HLeaving (why : ended)
| HEnded (why : ended).

(** A call of [Shutdown]; the goroutine that it starts waits for [conns] and closes [done]. *)
Inductive shutdown :=
| SEnter
| SLocked
| SStopped
| SClosed
| SWaiting
| SDone
| SReturned (err : bool).

(** Who holds the mutex. *)
Inductive goroutine := Handler (i : nat) | Shutdowner (k : nat).

#[export] Instance goroutine_eq_dec : EqDecision goroutine.
Proof. solve_decision. Defined.

Record Server := mkServer {
  mu : option goroutine;
  stopped : bool;
  stop_closed : bool;
  conns : Z;
  handlers : list handler;
  shutdowns : list shutdown;
  panicked : bool }.

Definition NewServer : Server := mkServer None false false 0 [] [] false.

Definition set_mu (g : option goroutine) (s : Server) : Server :=
  mkServer g (stopped s) (stop_closed s) (conns s) (handlers s) (shutdowns s) (panicked s).
Definition set_stopped (s : Server) : Server :=
  mkServer (mu s) true (stop_closed s) (conns s) (handlers s) (shutdowns s) (panicked s).
Definition set_handler (i : nat) (h : handler) (s : Server) : Server :=
  mkServer (mu s) (stopped s) (stop_closed s) (conns s) (<[i:=h]> (handlers s)) (shutdowns s) (panicked s).
Definition set_shutdown (k : nat) (d : shutdown) (s : Server) : Server :=
  mkServer (mu s) (stopped s) (stop_closed s) (conns s) (handlers s) (<[k:=d]> (shutdowns s)) (panicked s).

(** [close(s.stop)] *)
Definition close_stop (s : Server) : Server :=
  mkServer (mu s) (stopped s) true (conns s) (handlers s) (shutdowns s) (panicked s || stop_closed s).

(** A goroutine is in [conns.Wait()], or may still be there after its shutdown returned an error. *)
Definition waits (d : shutdown) : bool := match d with SWaiting | SReturned true => true | _ => false end.

(** [conns.Add(1)] *)
Definition conns_Add (s : Server) : Server :=
  mkServer (mu s) (stopped s) (stop_closed s) (conns s + 1) (handlers s) (shutdowns s)
    (panicked s || ((conns s =? 0) && existsb waits (shutdowns s))).

(** [conns.Done()] *)
Definition conns_Done (s : Server) : Server :=
  mkServer (mu s) (stopped s) (stop_closed s) (conns s - 1) (handlers s) (shutdowns s)
    (panicked s || (conns s <=? 0)).

(** ** Steps *)

(** What a request waits for outside of the server: the upgrade; a frame, or that reading fails, as it does
    after [ws.Close]; the end of handling a frame, after which [run] goes on, returns (the login failed or
    the token has expired) or panics; and the end of the close handshake. *)
Inductive outside :=
| AcceptFails
| AcceptSucceeds
| ClientFrame
| ReadFails
| FrameHandled
| RunReturns
| HandlerPanics
| CloseReturns.

Definition returns (o : outside) (h : handler) : option handler :=
  match o, h with
  | AcceptFails, HAccepting => Some (HLeaving UpgradeFailed)
  | AcceptSucceeds, HAccepting => Some (HServing Reading false)
  | ClientFrame, HServing Reading g => Some (HServing Handling g)
  | ReadFails, HServing Reading _ => Some HClosing
  | FrameHandled, HServing Handling g => Some (HServing Reading g)
  | RunReturns, HServing Handling _ => Some HClosing
  | HandlerPanics, HServing Handling _ => Some (HLeaving ConnectionEnded)
  | CloseReturns, HClosing => Some (HLeaving ConnectionEnded)
  | _, _ => None
  end.

(** [Next] runs the next statement of a goroutine that does not depend on its environment.  The others
    are the environment's: a request comes in, something that a request waits for happens, [Shutdown] is
    called, and the context of a shutdown is done. *)
Inductive event :=
| Request
| Next (g : goroutine)
| Outside (i : nat) (o : outside)
| ShutdownCall
| ContextDone (k : nat).

#[export] Instance outside_eq_dec : EqDecision outside.
Proof. solve_decision. Defined.

#[export] Instance event_eq_dec : EqDecision event.
Proof. solve_decision. Defined.

(** The next statement of a request; in [HServing] it is the one of the goroutine that waits for [stop]. *)
Definition handler_next (i : nat) (h : handler) (s : Server) : option Server :=
  match h with
  | HEnter => match mu s with
              | None => Some (set_handler i HLocked (set_mu (Some (Handler i)) s))
              | Some _ => None
              end
  | HLocked => if stopped s then Some (set_handler i (HEnded Unavailable) (set_mu None s))
               else Some (set_handler i HAdded (conns_Add s))
  | HAdded => Some (set_handler i HAccepting (set_mu None s))
  | HServing p false => if stop_closed s then Some (set_handler i (HServing p true) s) else None
  | HLeaving why => Some (set_handler i (HEnded why) (conns_Done s))
  | HAccepting | HServing _ true | HClosing | HEnded _ => None
  end.

(** The next statement of [Shutdown]. *)
Definition shutdown_next (k : nat) (d : shutdown) (s : Server) : option Server :=
  match d with
  | SEnter => match mu s with
              | None => Some (set_shutdown k SLocked (set_mu (Some (Shutdowner k)) s))
              | Some _ => None
              end
  | SLocked => if stopped s then Some (set_shutdown k SClosed s) else Some (set_shutdown k SStopped (set_stopped s))
  | SStopped => Some (set_shutdown k SClosed (close_stop s))
  | SClosed => Some (set_shutdown k SWaiting (set_mu None s))
  | SWaiting => if conns s =? 0 then Some (set_shutdown k SDone s) else None
  | SDone => Some (set_shutdown k (SReturned false) s)
  | SReturned _ => None
  end.

Definition step (e : event) (s : Server) : option Server :=
  match e with
  | Request => Some (mkServer (mu s) (stopped s) (stop_closed s) (conns s) (handlers s ++ [HEnter]) (shutdowns s) (panicked s))
  | ShutdownCall => Some (mkServer (mu s) (stopped s) (stop_closed s) (conns s) (handlers s) (shutdowns s ++ [SEnter]) (panicked s))
  | Next (Handler i) => h ← handlers s !! i; handler_next i h s
  | Next (Shutdowner k) => d ← shutdowns s !! k; shutdown_next k d s
  | Outside i o => h ← handlers s !! i; h' ← returns o h; Some (set_handler i h' s)
  | ContextDone k => match shutdowns s !! k with
                     | Some (SWaiting | SDone) => Some (set_shutdown k (SReturned true) s)
                     | _ => None
                     end
  end.

Fixpoint steps (es : list event) (s : Server) : option Server :=
  match es with
  | [] => Some s
  | e :: es => s ← step e s; steps es s
  end.

Inductive reachable : Server -> Prop :=
| reachable_new : reachable NewServer
| reachable_step e s s' : reachable s -> step e s = Some s' -> reachable s'.

(** ** Invariant *)

(** The request is counted by [conns]. *)
Definition counted (h : handler) : bool :=
  match h with HAdded | HAccepting | HServing _ _ | HClosing | HLeaving _ => true | _ => false end.

Definition holds_h (h : handler) : bool := match h with HLocked | HAdded => true | _ => false end.
Definition holds_s (d : shutdown) : bool := match d with SLocked | SStopped | SClosed => true | _ => false end.

Definition count (hs : list handler) : Z := foldr (fun h n => Z.b2z (counted h) + n) 0 hs.

(** What a request implies for the state it shares. *)
Definition handler_ok (s : Server) (i : nat) (h : handler) : Prop :=
  (holds_h h = true <-> mu s = Some (Handler i)) /\
  match h with
  | HAdded => stopped s = false
  | HServing _ true => stop_closed s = true
  | _ => True
  end.

(** What a shutdown implies for the state it shares. *)
Definition shutdown_ok (s : Server) (k : nat) (d : shutdown) : Prop :=
  (holds_s d = true <-> mu s = Some (Shutdowner k)) /\
  match d with
  | SEnter | SLocked => True
  | SStopped => stopped s = true /\ stop_closed s = false
  | SClosed | SWaiting | SReturned true => stopped s = true /\ stop_closed s = true
  | SDone | SReturned false => stopped s = true /\ stop_closed s = true /\ conns s = 0
  end.

(** [stopped] and [stop] agree, except while a shutdown is between the two statements. *)
Definition stop_ok (s : Server) : Prop :=
  stop_closed s = stopped s \/ exists k, shutdowns s !! k = Some SStopped.

Record inv (s : Server) : Prop := mkInv {
  inv_handlers : forall i h, handlers s !! i = Some h -> handler_ok s i h;
  inv_shutdowns : forall k d, shutdowns s !! k = Some d -> shutdown_ok s k d;
  inv_owner : match mu s with
              | Some (Handler i) => is_Some (handlers s !! i)
              | Some (Shutdowner k) => is_Some (shutdowns s !! k)
              | None => True
              end;
  inv_count : conns s = count (handlers s);
  inv_stop : stop_ok s;
  inv_panic : panicked s = false }.

Lemma count_app hs hs' : count (hs ++ hs') = count hs + count hs'.
Proof. induction hs as [|h hs IH]; simpl; [done|]. rewrite IH. lia. Qed.

Lemma count_nonneg hs : 0 <= count hs.
Proof. induction hs as [|h hs IH]; simpl; [done|]. destruct (counted h); simpl; lia. Qed.

Lemma count_insert hs i h h' :
  hs !! i = Some h -> count (<[i:=h']> hs) = count hs - Z.b2z (counted h) + Z.b2z (counted h').
Proof.
  revert i. induction hs as [|x hs IH]; intros [|i] Hi; simplify_eq/=; [lia|]. rewrite (IH _ Hi). lia.
Qed.

Lemma count_pos hs i h : hs !! i = Some h -> counted h = true -> 0 < count hs.
Proof.
  revert i. induction hs as [|x hs IH]; intros [|i] Hi Hc; simplify_eq/=.
  - rewrite Hc. pose proof (count_nonneg hs). simpl. lia.
  - specialize (IH _ Hi Hc). destruct (counted x); simpl; lia.
Qed.

(** A step of request [i] preserves the invariant if the new state is all right for it, for the other
    requests and for the shutdowns. *)
Lemma inv_handler_step s s' i h h' :
  inv s -> handlers s !! i = Some h -> handlers s' = <[i:=h']> (handlers s) -> shutdowns s' = shutdowns s ->
  handler_ok s' i h' ->
  (forall j x, j <> i -> handler_ok s j x -> handler_ok s' j x) ->
  (forall k d, shutdown_ok s k d -> shutdowns s !! k = Some d -> shutdown_ok s' k d) ->
  (mu s' = mu s \/ mu s' = None \/ mu s' = Some (Handler i)) ->
  conns s' = conns s - Z.b2z (counted h) + Z.b2z (counted h') ->
  stopped s' = stopped s -> stop_closed s' = stop_closed s -> panicked s' = false ->
  inv s'.
Proof.
  intros Hi Hh Ehs Eds Hok Hoth Hsh Hmu Hc Es Ec Hp. constructor; try done.
  - intros j x Hj. rewrite Ehs in Hj. apply list_lookup_insert_Some in Hj as [(<- & -> & _) | [Hne Hj] ]; [done|].
    apply Hoth; [done|]. by apply (inv_handlers s Hi).
  - intros k d Hk. rewrite Eds in Hk. apply Hsh; [|done]. by apply (inv_shutdowns s Hi).
  - rewrite Ehs, Eds. pose proof (inv_owner s Hi) as Ho.
    assert (forall j, is_Some (handlers s !! j) -> is_Some (<[i:=h']> (handlers s) !! j)) as Hkeep.
    { intros j. by rewrite !lookup_lt_is_Some, length_insert. }
    destruct Hmu as [-> | [-> | ->] ]; [|done|by apply Hkeep; eauto].
    destruct (mu s) as [[j|k]|]; [by apply Hkeep|done|done].
  - rewrite Ehs, (count_insert _ _ _ _ Hh), Hc, (inv_count s Hi). done.
  - destruct (inv_stop s Hi) as [Hst|Hst]; [left; congruence|right; by rewrite Eds].
Qed.

(** The same for a step of shutdown [k]. *)
Lemma inv_shutdown_step s s' k d d' :
  inv s -> shutdowns s !! k = Some d -> shutdowns s' = <[k:=d']> (shutdowns s) -> handlers s' = handlers s ->
  shutdown_ok s' k d' ->
  (forall j x, shutdowns s !! j = Some x -> j <> k -> shutdown_ok s j x -> shutdown_ok s' j x) ->
  (forall i h, handlers s !! i = Some h -> handler_ok s i h -> handler_ok s' i h) ->
  (mu s' = mu s \/ mu s' = None \/ mu s' = Some (Shutdowner k)) ->
  conns s' = conns s -> stop_ok s' -> panicked s' = false ->
  inv s'.
Proof.
  intros Hi Hd Eds Ehs Hok Hoth Hh Hmu Hc Hst Hp. constructor; try done.
  - intros j x Hj. rewrite Ehs in Hj. apply Hh; [done|]. by apply (inv_handlers s Hi).
  - intros j x Hj. rewrite Eds in Hj. apply list_lookup_insert_Some in Hj as [(<- & -> & _) | [Hne Hj] ]; [done|].
    apply Hoth; [done|done|]. by apply (inv_shutdowns s Hi).
  - rewrite Ehs, Eds. pose proof (inv_owner s Hi) as Ho.
    assert (forall j, is_Some (shutdowns s !! j) -> is_Some (<[k:=d']> (shutdowns s) !! j)) as Hkeep.
    { intros j. by rewrite !lookup_lt_is_Some, length_insert. }
    destruct Hmu as [-> | [-> | ->] ]; [|done|by apply Hkeep; eauto].
    destruct (mu s) as [[j|j]|]; [done|by apply Hkeep|done].
  - by rewrite Ehs, Hc, (inv_count s Hi).
Qed.

(** The holder of the mutex is the only one. *)
Ltac owner :=
  unfold handler_ok, shutdown_ok in *; simpl in *; intros;
  repeat match goal with
    | h : handler |- _ => destruct h as [ | | | |p [|] | |w|w]
    | d : shutdown |- _ => destruct d as [ | | | | | | [|] ]
    end; simpl in *; intuition first [congruence | lia].

Lemma waiting_stopped s : inv s -> stopped s = false -> existsb waits (shutdowns s) = false.
Proof.
  intros Hi Hs. apply not_true_iff_false. rewrite existsb_exists. intros (d & Hin & Hw).
  apply list_elem_of_In, list_elem_of_lookup in Hin as [k Hk].
  destruct (inv_shutdowns s Hi k d Hk) as [_ Hd].
  destruct d as [ | | | | | | [|] ]; try done; destruct Hd; congruence.
Qed.

Lemma counted_pos s i h : inv s -> handlers s !! i = Some h -> counted h = true -> 0 < conns s.
Proof. intros Hi Hh Hc. rewrite (inv_count s Hi). by apply (count_pos _ i h). Qed.

(** A step of request [i], with the facts about it at hand. *)
Ltac handler_step Hi Hh :=
  eapply (inv_handler_step _ _ _ _ _ Hi Hh); [reflexivity|reflexivity|..]; simpl; try lia; try done;
  try (by left); try (by right; left); try (by right; right); try solve [owner].

Lemma inv_handler_next s s' i h :
  inv s -> handlers s !! i = Some h -> handler_next i h s = Some s' -> inv s'.
Proof.
  intros Hi Hh Hn. pose proof (inv_handlers s Hi i h Hh) as Hok. pose proof (inv_panic s Hi) as Hp.
  pose proof (counted_pos s i h Hi Hh) as Hc. pose proof (waiting_stopped s Hi) as Hw.
  destruct h as [ | | | |p [|] | |w|w]; simpl in Hn; repeat case_match; simplify_eq; handler_step Hi Hh.
  - rewrite Hp, Hw by done. by rewrite andb_false_r.
  - rewrite Hp. specialize (Hc eq_refl). simpl. lia.
Qed.

(** What is outside does not touch the shared state. *)
Lemma returns_keeps o h h' : returns o h = Some h' ->
  holds_h h = false /\ counted h = true /\ holds_h h' = false /\ counted h' = true /\
  (forall p, h' = HServing p true -> exists q, h = HServing q true).
Proof. destruct o, h as [ | | | |[] g| | |]; intros [= <-]; split_and!; try done; intros p [= ? ->]; by eexists. Qed.

Lemma inv_outside s i o h h' :
  inv s -> handlers s !! i = Some h -> returns o h = Some h' -> inv (set_handler i h' s).
Proof.
  intros Hi Hh Hr. pose proof (inv_handlers s Hi i h Hh) as Hok. pose proof (inv_panic s Hi) as Hp.
  destruct (returns_keeps _ _ _ Hr) as (H1 & H2 & H3 & H4 & H5). handler_step Hi Hh; [|by rewrite H2, H4; lia].
  split; [destruct Hok as [Hm _]; rewrite H1 in Hm; rewrite H3; exact Hm|].
  destruct h' as [ | | | |p [|] | |w|w]; try done. destruct (H5 p eq_refl) as [q ->]. apply Hok.
Qed.

(** While a shutdown that is not between the two statements holds the mutex, [stopped] and [stop] agree. *)
Lemma stop_settled s k d :
  inv s -> shutdowns s !! k = Some d -> holds_s d = true -> d <> SStopped -> stop_closed s = stopped s.
Proof.
  intros Hi Hd Hh Hne. destruct (inv_stop s Hi) as [?|[k' Hk']]; [done|].
  pose proof (proj1 (proj1 (inv_shutdowns s Hi k d Hd)) Hh) as Hm.
  pose proof (proj1 (proj1 (inv_shutdowns s Hi k' _ Hk')) eq_refl) as Hm'. congruence.
Qed.

Lemma stop_ok_keep s s' k d d' :
  inv s -> shutdowns s !! k = Some d -> d <> SStopped -> shutdowns s' = <[k:=d']> (shutdowns s) ->
  stopped s' = stopped s -> stop_closed s' = stop_closed s -> stop_ok s'.
Proof.
  intros Hi Hd Hne Eds Es Ec. destruct (inv_stop s Hi) as [Hst|[k' Hk']]; [left; congruence|].
  right. exists k'. rewrite Eds, list_lookup_insert_ne; [done|]. intros ->. congruence.
Qed.

Ltac shutdown_step Hi Hd :=
  eapply (inv_shutdown_step _ _ _ _ _ Hi Hd); [reflexivity|reflexivity|..]; simpl; try lia; try done;
  try (by left); try (by right; left); try (by right; right); try solve [owner];
  try (by eapply (stop_ok_keep _ _ _ _ _ Hi Hd)).

Lemma inv_shutdown_next s s' k d :
  inv s -> shutdowns s !! k = Some d -> shutdown_next k d s = Some s' -> inv s'.
Proof.
  intros Hi Hd Hn. pose proof (inv_shutdowns s Hi k d Hd) as Hok. pose proof (inv_panic s Hi) as Hp.
  pose proof (stop_settled s k d Hi Hd) as Hset.
  destruct d as [ | | | | | | [|] ]; simpl in Hn; repeat case_match; simplify_eq; simpl in Hset;
    try specialize (Hset eq_refl ltac:(done)); shutdown_step Hi Hd.
  - right. exists k. simpl. apply list_lookup_insert_eq. by eapply lookup_lt_Some.
  - left. simpl. by destruct Hok as (_ & -> & _).
  - rewrite Hp. by destruct Hok as (_ & _ & ->).
Qed.

Lemma inv_returned s k d :
  inv s -> shutdowns s !! k = Some d -> d = SWaiting \/ d = SDone -> inv (set_shutdown k (SReturned true) s).
Proof.
  intros Hi Hd Hw. pose proof (inv_shutdowns s Hi k d Hd) as Hok. pose proof (inv_panic s Hi) as Hp.
  destruct Hw as [-> | ->]; shutdown_step Hi Hd.
Qed.

(** A new goroutine changes nothing for the others. *)
Lemma inv_request s s' : inv s -> step Request s = Some s' -> inv s'.
Proof.
  intros Hi Hs. simpl in Hs. simplify_eq. destruct Hi as [Hh Hd Ho Hc Hst Hp]. constructor; simpl; try done.
  - intros i h Hl. apply lookup_snoc_Some in Hl as [[_ Hl]|[-> <-]]; [by apply Hh|].
    split; [|done]. simpl. split; [done|]. intros Hm. rewrite Hm in Ho. apply lookup_lt_is_Some in Ho. lia.
  - destruct (mu s) as [[j|j]|]; [|done|done]. rewrite lookup_app_l; [done|]. by apply lookup_lt_is_Some.
  - rewrite count_app, Hc. simpl. lia.
Qed.

Lemma inv_shutdown_call s s' : inv s -> step ShutdownCall s = Some s' -> inv s'.
Proof.
  intros Hi Hs. simpl in Hs. simplify_eq. destruct Hi as [Hh Hd Ho Hc Hst Hp]. constructor; simpl; try done.
  - intros i h Hl. apply lookup_snoc_Some in Hl as [[_ Hl]|[-> <-]]; [by apply Hd|].
    split; [|done]. simpl. split; [done|]. intros Hm. rewrite Hm in Ho. apply lookup_lt_is_Some in Ho. lia.
  - destruct (mu s) as [[j|j]|]; [done| |done]. rewrite lookup_app_l; [done|]. by apply lookup_lt_is_Some.
  - destruct Hst as [?|[k Hk]]; [by left|]. right. exists k. by apply lookup_app_l_Some.
Qed.

Lemma inv_step e s s' : inv s -> step e s = Some s' -> inv s'.
Proof.
  intros Hi Hs. destruct e as [|[i|k]|i o| |k].
  - by apply (inv_request s).
  - apply bind_Some in Hs as (h & Hh & Hn). by eapply inv_handler_next.
  - apply bind_Some in Hs as (d & Hd & Hn). by eapply inv_shutdown_next.
  - apply bind_Some in Hs as (h & Hh & (h' & Hr & [= <-])%bind_Some). by eapply inv_outside.
  - by apply (inv_shutdown_call s).
  - simpl in Hs. repeat case_match; simplify_eq; eapply inv_returned; eauto.
Qed.

Lemma inv_reachable s : reachable s -> inv s.
Proof.
  induction 1 as [|e s s' _ IH Hs]; [|by eapply inv_step].
  constructor; try done. by left.
Qed.

(** ** Shutdown is final *)

Lemma reachable_steps es : forall s s', reachable s -> steps es s = Some s' -> reachable s'.
Proof.
  induction es as [|e es IH]; intros s s' Hr Hs; simpl in Hs; [by simplify_eq|].
  apply bind_Some in Hs as (s1 & H1 & Hs). eapply IH; [|done]. by eapply reachable_step.
Qed.


(** A returned shutdown stays returned. *)
Lemma returned_step e s s' k err :
  step e s = Some s' -> shutdowns s !! k = Some (SReturned err) -> shutdowns s' !! k = Some (SReturned err).
Proof.
  intros Hs Hk. destruct e as [|[i|j]|i o| |j]; simpl in Hs.
  - by simplify_eq.
  - apply bind_Some in Hs as (h & _ & Hn). destruct h as [ | | | |p [|] | |w|w]; simpl in Hn; repeat case_match; by simplify_eq.
  - apply bind_Some in Hs as (d & Hd & Hn).
    destruct d; simpl in Hn; repeat case_match; simplify_eq; simpl;
      (rewrite list_lookup_insert_ne; [done|congruence]).
  - by apply bind_Some in Hs as (h & _ & (h' & _ & [= <-])%bind_Some).
  - simplify_eq. by apply lookup_app_l_Some.
  - repeat case_match; simplify_eq; simpl; (rewrite list_lookup_insert_ne; [done|congruence]).
Qed.

Lemma returned_steps es : forall s s' k err,
  steps es s = Some s' -> shutdowns s !! k = Some (SReturned err) -> shutdowns s' !! k = Some (SReturned err).
Proof.
  induction es as [|e es IH]; intros s s' k err Hs Hk; simpl in Hs; [by simplify_eq|].
  apply bind_Some in Hs as (s1 & H1 & Hs). eapply IH; [done|]. by eapply returned_step.
Qed.

(** With [stopped] set, requests that come in end with 503. *)
Definition refused (h : handler) : Prop := h = HEnter \/ h = HLocked \/ h = HEnded Unavailable.

Definition refused_from (n : nat) (s : Server) : Prop :=
  forall i h, (n <= i)%nat -> handlers s !! i = Some h -> refused h.

Lemma refused_step n e s s' :
  stopped s = true -> refused_from n s -> step e s = Some s' -> (n <= length (handlers s))%nat ->
  stopped s' = true /\ refused_from n s' /\ (n <= length (handlers s'))%nat.
Proof.
  intros Hst Hr Hs Hn.
  assert (forall i h h' s1, handlers s !! i = Some h -> (refused h -> refused h') -> handlers s1 = handlers s ->
            refused_from n (set_handler i h' s1)) as Hset.
  { intros i h h' s1 Hi Hh Es j x Hj Hl. simpl in Hl. rewrite Es in Hl.
    apply list_lookup_insert_Some in Hl as [(<- & -> & _) | [_ Hl] ]; eauto. }
  unfold refused in Hset.
  destruct e as [|[i|k]|i o| |k]; simpl in Hs.
  - simplify_eq. split_and!; [done| |simpl; rewrite length_app; simpl; lia].
    intros i h Hi Hl. apply lookup_snoc_Some in Hl as [[_ Hl]|[_ <-]]; [by eapply Hr|by left].
  - apply bind_Some in Hs as (h & Hh & Hq).
    destruct h as [ | | | |p [|] | |w|w]; simpl in Hq; repeat case_match; simplify_eq;
      (split_and!; [done|eapply Hset; [done|naive_solver|done]|simpl; by rewrite length_insert]).
  - apply bind_Some in Hs as (d & Hd & Hq). destruct d; simpl in Hq; repeat case_match; by simplify_eq.
  - apply bind_Some in Hs as (h & Hh & (h' & Hq & [= <-])%bind_Some).
    split_and!; [done| |simpl; by rewrite length_insert]. eapply Hset; [done| |done].
    intros [->|[->| ->]]; by destruct o.
  - by simplify_eq.
  - repeat case_match; by simplify_eq.
Qed.

Lemma refused_steps n es : forall s s',
  stopped s = true -> refused_from n s -> (n <= length (handlers s))%nat -> steps es s = Some s' -> refused_from n s'.
Proof.
  induction es as [|e es IH]; intros s s' Hst Hr Hn Hs; simpl in Hs; [by simplify_eq|].
  apply bind_Some in Hs as (s1 & H1 & Hs). destruct (refused_step n e s s1) as (Hst1 & Hr1 & Hn1); [done..|].
  by eapply IH.
Qed.

(** C30: A shutdown that returned without an error is final.  From then on, in every interleaving, no
    request is being upgraded or served, the wait group stays at zero, and every request that comes
    in afterwards is answered with 503 without touching a connection. *)
Theorem shutdown_is_final (s s' : Server) (k : nat) (es : list event) :
  reachable s -> shutdowns s !! k = Some (SReturned false) -> steps es s = Some s' ->
  conns s' = 0 /\ Forall (fun h => counted h = false) (handlers s') /\ refused_from (length (handlers s)) s'.
Proof.
  intros Hr Hk Hs. pose proof (inv_reachable _ (reachable_steps _ _ _ Hr Hs)) as Hi.
  destruct (inv_shutdowns _ Hi k _ (returned_steps _ _ _ _ _ Hs Hk)) as (_ & _ & _ & Hc).
  destruct (inv_shutdowns _ (inv_reachable _ Hr) k _ Hk) as (_ & Hst & _).
  split_and!; [done| |].
  - apply Forall_forall. intros h Hin. apply list_elem_of_lookup in Hin as [i Hh].
    destruct (counted h) eqn:Hch; [|done]. pose proof (counted_pos _ i h Hi Hh Hch). lia.
  - eapply (refused_steps _ es s); [done| |done|done].
    intros i h Hle Hl. apply lookup_lt_Some in Hl. lia.
Qed.

(** ** Every interleaving *)

(** In every interleaving the server's shared state stays consistent: nothing panics (the channel
    [stop] is closed at most once however often [Shutdown] is called, the wait group never falls below
    zero and is never raised from zero under a waiting shutdown), the wait group counts exactly the
    requests that are being upgraded or served, at most one goroutine is between [Lock] and [Unlock],
    and no connection is told to go away unless the server was stopped. *)
Theorem server_consistent (s : Server) :
  reachable s ->
  panicked s = false /\
  conns s = count (handlers s) /\
  (forall i j h h', handlers s !! i = Some h -> handlers s !! j = Some h' ->
     holds_h h = true -> holds_h h' = true -> i = j) /\
  (forall i k h d, handlers s !! i = Some h -> shutdowns s !! k = Some d ->
     holds_h h = true -> holds_s d = true -> False) /\
  (forall i p, handlers s !! i = Some (HServing p true) -> stopped s = true).
Proof.
  intros Hr. pose proof (inv_reachable s Hr) as [Hh Hd Ho Hc Hst Hp]. split_and!; [done|done| | |].
  - intros i j h h' Hi Hj Hl Hl'. apply (Hh i h Hi) in Hl. apply (Hh j h' Hj) in Hl'. congruence.
  - intros i k h d Hi Hk Hl Hl'. apply (Hh i h Hi) in Hl. apply (Hd k d Hk) in Hl'. congruence.
  - intros i p Hi. destruct (Hh i _ Hi) as [_ Hcl]. destruct Hst as [<-|[k Hk]]; [done|].
    destruct (Hd k _ Hk) as (_ & ? & _). done.
Qed.

(** ** Shutdown terminates *)

(** The steps of its own that a goroutine can still make. *)
Definition rank_h (h : handler) : nat :=
  match h with
  | HEnter => 5 | HLocked => 4 | HAdded => 3 | HAccepting | HServing _ false => 2
  | HServing _ true | HClosing | HLeaving _ => 1
  | HEnded _ => 0
  end.

Definition rank_s (d : shutdown) : nat :=
  match d with
  | SEnter => 6 | SLocked => 5 | SStopped => 4 | SClosed => 3 | SWaiting => 2 | SDone => 1 | SReturned _ => 0
  end.

Definition rank (s : Server) : nat := sum_list_with rank_h (handlers s) + sum_list_with rank_s (shutdowns s).

(** The server's own steps, and new goroutines. *)
Definition own (e : event) : bool := match e with Next _ => true | _ => false end.
Definition starts (e : event) : bool := match e with Request | ShutdownCall => true | _ => false end.

Definition number (f : event -> bool) (es : list event) : nat := length (filter (fun e => f e = true) es).

Lemma number_cons f e es : number f (e :: es) = ((if f e then 1 else 0) + number f es)%nat.
Proof. unfold number. rewrite filter_cons. destruct (f e); by simpl. Qed.

Lemma sum_insert {A} (f : A -> nat) l i x y :
  l !! i = Some x -> (sum_list_with f (<[i:=y]> l) + f x = sum_list_with f l + f y)%nat.
Proof. revert i. induction l as [|a l IH]; intros [|i] Hi; simplify_eq/=; [lia|]. specialize (IH _ Hi). lia. Qed.

Lemma sum_snoc {A} (f : A -> nat) l x : sum_list_with f (l ++ [x]) = (sum_list_with f l + f x)%nat.
Proof. rewrite sum_list_with_app. simpl. lia. Qed.

Lemma returns_rank o h h' : returns o h = Some h' -> (rank_h h' <= rank_h h)%nat.
Proof. destruct o, h as [ | | | |[] []| | |]; intros [= <-]; simpl; lia. Qed.

Lemma rank_step e s s' :
  step e s = Some s' -> ((if own e then 1 else 0) + rank s' <= rank s + 6 * (if starts e then 1 else 0))%nat.
Proof.
  intros Hs. unfold rank. destruct e as [|[i|k]|i o| |k]; simpl in Hs.
  - simplify_eq. simpl. rewrite sum_snoc. simpl. lia.
  - apply bind_Some in Hs as (h & Hh & Hq).
    destruct h as [ | | | |p [|] | |w|w]; simpl in Hq; repeat case_match; simplify_eq; simpl;
      match goal with |- context [<[i:=?y]> (handlers s)] => pose proof (sum_insert rank_h _ _ _ y Hh) end; simpl in *; lia.
  - apply bind_Some in Hs as (d & Hd & Hq).
    destruct d; simpl in Hq; repeat case_match; simplify_eq; simpl;
      match goal with |- context [<[k:=?y]> (shutdowns s)] => pose proof (sum_insert rank_s _ _ _ y Hd) end; simpl in *; lia.
  - apply bind_Some in Hs as (h & Hh & (h' & Hq & [= <-])%bind_Some). simpl.
    pose proof (sum_insert rank_h _ _ _ h' Hh). pose proof (returns_rank _ _ _ Hq). lia.
  - simplify_eq. simpl. rewrite sum_snoc. simpl. lia.
  - destruct (shutdowns s !! k) as [d|] eqn:Hd; [|done]. pose proof (sum_insert rank_s _ _ _ (SReturned true) Hd) as Hsum.
    destruct d; simplify_eq; simpl in *; lia.
Qed.

Lemma rank_steps es : forall s s',
  steps es s = Some s' -> (number own es + rank s' <= rank s + 6 * number starts es)%nat.
Proof.
  induction es as [|e es IH]; intros s s' Hs; simpl in *; [simplify_eq; unfold number; simpl; lia|].
  apply bind_Some in Hs as (s1 & H1 & Hs). rewrite !number_cons.
  pose proof (rank_step _ _ _ H1). specialize (IH _ _ Hs). lia.
Qed.

(** The server can do nothing on its own. *)
Definition stuck (s : Server) : Prop := forall g, step (Next g) s = None.

Definition is_ended (h : handler) : Prop := exists why, h = HEnded why.

(** A request waits for something outside of the server, and if it is served its client was told to go away. *)
Definition waits_outside (h : handler) : Prop :=
  match h with HAccepting | HServing _ true | HClosing => True | _ => False end.

Lemma stuck_free s : inv s -> stuck s -> mu s = None.
Proof.
  intros Hi Hq. destruct (mu s) as [g|] eqn:Hm; [|done]. pose proof (inv_owner s Hi) as Ho. rewrite Hm in Ho.
  specialize (Hq g). destruct g as [i|k]; destruct Ho as [x Hx]; simpl in Hq; rewrite Hx in Hq; simpl in Hq.
  - apply (inv_handlers s Hi i x Hx) in Hm. destruct x; try done; simpl in Hq. by destruct (stopped s).
  - apply (inv_shutdowns s Hi k x Hx) in Hm. destruct x; try done; simpl in Hq. by destruct (stopped s).
Qed.

Lemma stuck_closed s k d : inv s -> stuck s -> shutdowns s !! k = Some d -> stop_closed s = true /\ stopped s = true.
Proof.
  intros Hi Hq Hd. pose proof (stuck_free s Hi Hq) as Hm.
  specialize (Hq (Shutdowner k)). simpl in Hq. rewrite Hd in Hq. simpl in Hq.
  destruct (inv_shutdowns s Hi k d Hd) as [_ Hok].
  destruct d as [ | | | | | | [|] ]; simpl in *; try done; try tauto.
  - by rewrite Hm in Hq.
  - by destruct (stopped s).
Qed.

Lemma stuck_outside s : inv s -> stuck s -> shutdowns s <> [] -> Forall (fun h => is_ended h \/ waits_outside h) (handlers s).
Proof.
  intros Hi Hq Hne. pose proof (stuck_free s Hi Hq) as Hm.
  assert (stop_closed s = true) as Hc.
  { destruct (shutdowns s) as [|d ds] eqn:Hd; [done|].
    refine (proj1 (stuck_closed s 0 d Hi Hq _)). by rewrite Hd. }
  apply Forall_forall. intros h Hin. apply list_elem_of_lookup in Hin as [i Hh].
  specialize (Hq (Handler i)). simpl in Hq. rewrite Hh in Hq. simpl in Hq.
  destruct h as [ | | | |p [|] | |w|w]; simpl in *; try (by right); try done;
    [by rewrite Hm in Hq|by destruct (stopped s)|by rewrite Hc in Hq|by left; eexists].
Qed.

Lemma ended_count hs : Forall is_ended hs -> count hs = 0.
Proof. induction 1 as [|h hs [w ->] _ IH]; simpl; [done|lia]. Qed.

(** Only the context of a shutdown makes it return an error. *)
Lemma error_step e s s' k :
  e <> ContextDone k -> step e s = Some s' -> shutdowns s' !! k = Some (SReturned true) ->
  shutdowns s !! k = Some (SReturned true).
Proof.
  intros He Hs Hk. destruct e as [|[i|j]|i o| |j]; simpl in Hs.
  - by simplify_eq.
  - apply bind_Some in Hs as (h & _ & Hn). destruct h as [ | | | |p [|] | |w|w]; simpl in Hn; repeat case_match; by simplify_eq.
  - apply bind_Some in Hs as (d & Hd & Hn).
    destruct d; simpl in Hn; repeat case_match; simplify_eq; simpl in Hk;
      (apply list_lookup_insert_Some in Hk as [(_ & ? & _)|[_ ?]]; done).
  - by apply bind_Some in Hs as (h & _ & (h' & _ & [= <-])%bind_Some).
  - simplify_eq. simpl in Hk. apply lookup_snoc_Some in Hk as [[_ ?]|[_ ?]]; done.
  - repeat case_match; simplify_eq; simpl in Hk;
      (apply list_lookup_insert_Some in Hk as [(-> & _)|[_ ?]]; done).
Qed.

Lemma error_steps es : forall s s' k,
  ContextDone k ∉ es -> steps es s = Some s' -> shutdowns s' !! k = Some (SReturned true) ->
  shutdowns s !! k = Some (SReturned true).
Proof.
  induction es as [|e es IH]; intros s s' k He Hs Hk; simpl in Hs; [by simplify_eq|].
  apply bind_Some in Hs as (s1 & H1 & Hs). apply not_elem_of_cons in He as [Hne He].
  eapply error_step; [|done|]; [done|]. by eapply IH.
Qed.

Lemma length_steps es : forall s s',
  steps es s = Some s' -> (length (shutdowns s) <= length (shutdowns s'))%nat.
Proof.
  induction es as [|e es IH]; intros s s' Hs; simpl in Hs; [by simplify_eq|].
  apply bind_Some in Hs as (s1 & H1 & Hs). etrans; [|by eapply IH]. clear IH Hs.
  destruct e as [|[i|j]|i o| |j]; simpl in H1;
    try (apply bind_Some in H1 as (x & _ & H1); try (apply bind_Some in H1 as (y & _ & H1)); destruct x; simpl in H1);
    repeat case_match; simplify_eq; simpl; rewrite ?length_insert, ?length_app; lia.
Qed.

(** C31: [Shutdown] terminates as far as the server is concerned.  In every interleaving, with any frames, any
    further requests and calls of [Shutdown], and any ends of what requests wait for, the server makes
    only so many steps of its own: [rank] at the start, and six for each new request or call.  Once
    [Shutdown] was called and no goroutine can make a step of its own, every request has ended or waits
    for something outside: the upgrade; a frame, or a frame that is being handled, where the
    client was told to go away; or the close handshake.  When none of these is left, every call of
    [Shutdown] has returned: without an error, unless it had failed before or its own context was
    done. *)
Theorem shutdown_terminates (s s' : Server) (es : list event) :
  reachable s -> shutdowns s <> [] -> steps es s = Some s' ->
  (number own es <= rank s + 6 * number starts es)%nat /\
  (stuck s' ->
     Forall (fun h => is_ended h \/ waits_outside h) (handlers s') /\
     (Forall is_ended (handlers s') ->
        forall k, (k < length (shutdowns s'))%nat ->
          exists err, shutdowns s' !! k = Some (SReturned err) /\
            (err = true -> ContextDone k ∈ es \/ shutdowns s !! k = Some (SReturned true)))).
Proof.
  intros Hr Hne Hs. pose proof (rank_steps _ _ _ Hs) as Hrank. split; [lia|]. intros Hq.
  pose proof (inv_reachable _ (reachable_steps _ _ _ Hr Hs)) as Hi.
  assert (shutdowns s' <> []) as Hne'.
  { pose proof (length_steps _ _ _ Hs). destruct (shutdowns s), (shutdowns s'); simpl in *; by try lia. }
  split; [by apply stuck_outside|]. intros Hend k Hk.
  apply lookup_lt_is_Some in Hk as [d Hd]. pose proof (stuck_free _ Hi Hq) as Hm.
  destruct (stuck_closed _ _ _ Hi Hq Hd) as [_ Hst].
  specialize (Hq (Shutdowner k)). simpl in Hq. rewrite Hd in Hq.
  destruct d as [ | | | | | |err]; simpl in Hq; try done.
  - by rewrite Hm in Hq.
  - by rewrite Hst in Hq.
  - rewrite (inv_count _ Hi), (ended_count _ Hend) in Hq. done.
  - exists err. split; [done|]. intros ->. destruct (decide (ContextDone k ∈ es)) as [?|Hn]; [by left|].
    right. by eapply error_steps.
Qed.

(** ** A shutdown with one connection *)

(** [Shutdown] is called while a frame is being handled. *)
Definition one_served : list event :=
  [Request; Next (Handler 0); Next (Handler 0); Next (Handler 0); Outside 0 AcceptSucceeds; Outside 0 ClientFrame; ShutdownCall].

Definition shut_down : list event :=
  [Next (Shutdowner 0); Next (Shutdowner 0); Next (Shutdowner 0); Next (Shutdowner 0); Next (Handler 0);
   Outside 0 FrameHandled; Outside 0 ReadFails; Outside 0 CloseReturns; Next (Handler 0);
   Next (Shutdowner 0); Next (Shutdowner 0)].

Definition after (es : list event) (s : Server) : Server := default s (steps es s).

Definition serving_one : Server := Eval vm_compute in after one_served NewServer.
Definition shut : Server := Eval vm_compute in after shut_down serving_one.

Definition refused_one : Server := Eval vm_compute in after [Request; Next (Handler 1); Next (Handler 1)] shut.

Lemma serving_one_reachable : reachable serving_one.
Proof. apply (reachable_steps one_served NewServer); [constructor|vm_compute; reflexivity]. Qed.

Lemma shut_reachable : reachable shut.
Proof. apply (reachable_steps shut_down serving_one); [exact serving_one_reachable|vm_compute; reflexivity]. Qed.

Lemma shutdown_is_final_witness :
  let s' := refused_one in
  handlers s' = [HEnded ConnectionEnded; HEnded Unavailable] /\
  conns s' = 0 /\ Forall (fun h => counted h = false) (handlers s') /\ refused_from 1 s'.
Proof.
  split; [reflexivity|].
  refine (shutdown_is_final shut refused_one 0 [Request; Next (Handler 1); Next (Handler 1)] shut_reachable _ _);
    vm_compute; reflexivity.
Defined.

Lemma server_consistent_witness :
  handlers serving_one = [HServing Handling false] /\ panicked serving_one = false.
Proof. split; [reflexivity|]. refine (proj1 (server_consistent serving_one serving_one_reachable)). Defined.

Lemma shut_stuck : stuck shut.
Proof. intros [[|i]|[|k]]; reflexivity. Qed.

Lemma shutdown_terminates_witness :
  (number own shut_down <= rank serving_one)%nat /\ exists err, shutdowns shut !! 0%nat = Some (SReturned err).
Proof.
  destruct (shutdown_terminates serving_one shut shut_down serving_one_reachable) as [Hb Hq]; [done|vm_compute; reflexivity|].
  split; [etrans; [exact Hb|vm_compute; lia]|].
  destruct (proj2 (Hq shut_stuck)) with (k := 0%nat) as (err & He & _); [|vm_compute; lia|by exists err].
  repeat constructor. by eexists.
Defined.
