(* ===== verification/EnvConfig.v ===== *)
(** * Environment variables: [src/config/config.go]

    The variables, how each is parsed, and [LoadFrom], which builds the configuration of the server
    from them and validates it.  An error is the name of the variable it is about; its text is not
    modelled. *)

From S2P Require Import Prelude GoStrings Config.

Local Open Scope Z_scope.
Local Open Scope string_scope.

(** ** Names *)

Definition EnvPort : string := "SQLITE_REMOTE_PORT".
Definition EnvLogLevel : string := "SQLITE_REMOTE_LOG_LEVEL".
Definition EnvServerID : string := "SQLITE_REMOTE_SERVER_ID".
Definition EnvStore : string := "SQLITE_REMOTE_STORE".
Definition EnvDatabaseURL : string := "SQLITE_REMOTE_DATABASE_URL".
Definition EnvDBMaxConns : string := "SQLITE_REMOTE_DB_MAX_CONNS".
Definition EnvDBMinConns : string := "SQLITE_REMOTE_DB_MIN_CONNS".
Definition EnvRequireSyncReplication : string := "SQLITE_REMOTE_REQUIRE_SYNC_REPLICATION".
Definition EnvMaxFrameBytes : string := "SQLITE_REMOTE_MAX_FRAME_BYTES".
Definition EnvMaxCommitBytes : string := "SQLITE_REMOTE_MAX_COMMIT_BYTES".
Definition EnvPingInterval : string := "SQLITE_REMOTE_PING_INTERVAL".
Definition EnvLeaseTTL : string := "SQLITE_REMOTE_LEASE_TTL".
Definition EnvHelloTimeout : string := "SQLITE_REMOTE_HELLO_TIMEOUT".
Definition EnvAllowedOrigins : string := "SQLITE_REMOTE_ALLOWED_ORIGINS".
Definition EnvDeleteUnusedAfterDays : string := "SQLITE_REMOTE_DELETE_UNUSED_AFTER_DAYS".
Definition EnvTokenJWKSURL : string := "SQLITE_REMOTE_TOKEN_JWKS_URL".
Definition EnvTokenJWKSFile : string := "SQLITE_REMOTE_TOKEN_JWKS_FILE".
Definition EnvTokenIssuer : string := "SQLITE_REMOTE_TOKEN_ISSUER".
Definition EnvTokenAudience : string := "SQLITE_REMOTE_TOKEN_AUDIENCE".
Definition EnvTokenLeeway : string := "SQLITE_REMOTE_TOKEN_LEEWAY".

Definition defaultPort : Z := 8080.

Definition envOf : gmap string string := list_to_map [
  ("Addr", EnvPort); ("ServerID", EnvServerID); ("Store", EnvStore); ("DatabaseURL", EnvDatabaseURL);
  ("DBMaxConns", EnvDBMaxConns); ("DBMinConns", EnvDBMinConns);
  ("RequireSyncReplication", EnvRequireSyncReplication);
  ("MaxFrameBytes", EnvMaxFrameBytes); ("MaxCommitBytes", EnvMaxCommitBytes);
  ("PingInterval", EnvPingInterval); ("LeaseTTL", EnvLeaseTTL); ("HelloTimeout", EnvHelloTimeout);
  ("AllowedOrigins", EnvAllowedOrigins); ("DeleteUnusedAfter", EnvDeleteUnusedAfterDays);
  ("TokenJWKSURL", EnvTokenJWKSURL); ("TokenJWKSFile", EnvTokenJWKSFile);
  ("TokenIssuer", EnvTokenIssuer); ("TokenAudience", EnvTokenAudience); ("TokenLeeway", EnvTokenLeeway)].

(** ** Errors *)

(** An error that names a variable, and a [*server.ConfigError] that names a field. *)
Inductive LoadError :=
| VarError (name : string)
| ConfigError (field : string).

(** [Named] *)
Definition Named (err : LoadError) : LoadError :=
  match err with
  | ConfigError field => match envOf !! field with Some name => VarError name | None => err end
  | _ => err
  end.

(** ** Log levels: [slog.Level.UnmarshalText] *)

Definition LevelDebug : Z := -4.
Definition LevelInfo : Z := 0.
Definition LevelWarn : Z := 4.
Definition LevelError : Z := 8.

(** [strings.ToUpper], as far as it yields ASCII letters: those of ASCII, the dotless i and the long s. *)
Fixpoint ToUpper (l : list Z) : list Z :=
  match l with
  | 196 :: 177 :: l => 73 :: ToUpper l
  | 197 :: 191 :: l => 83 :: ToUpper l
  | c :: l => (if within 97 122 c then c - 32 else c) :: ToUpper l
  | [] => []
  end.

(** [strings.IndexAny(s, "+-")]: what is before the sign, and the rest from the sign on. *)
Fixpoint cut_sign (l : list Z) : list Z * option (list Z) :=
  match l with
  | [] => ([], None)
  | c :: l' =>
      if ((c =? 43) || (c =? 45))%Z then ([], Some l)
      else let '(a, b) := cut_sign l' in (c :: a, b)
  end.

Definition level_of (name : list Z) : option Z :=
  if bool_decide (name = codes "DEBUG") then Some LevelDebug
  else if bool_decide (name = codes "INFO") then Some LevelInfo
  else if bool_decide (name = codes "WARN") then Some LevelWarn
  else if bool_decide (name = codes "ERROR") then Some LevelError
  else None.

Definition UnmarshalLevel (l : list Z) : option Z :=
  let '(name, sign) := cut_sign l in
  offset ← match sign with Some s => ParseInt s | None => Some 0 end;
  level ← level_of (ToUpper name);
  Some (s64 (level + offset)).

(** ** Single variables *)

Section load.
Variable url_Parse : string -> option URL.
Variable getenv : string -> string.

Definition connsVar (name : string) : result LoadError Z :=
  let v := getenv name in
  if is_empty v then Ok 0
  else match parse_signed two31 (codes v) with
  | Some n => if (n <? 1)%Z then Err (VarError name) else Ok n
  | None => Err (VarError name)
  end.

(** [target] is the value that the variable replaces. *)
Definition uint32Var (name : string) (target : Z) : result LoadError Z :=
  let v := getenv name in
  if is_empty v then Ok target
  else match ParseUint two32 (codes v) with Some n => Ok n | None => Err (VarError name) end.

Definition uint64Var (name : string) (target : Z) : result LoadError Z :=
  let v := getenv name in
  if is_empty v then Ok target
  else match ParseUint two64 (codes v) with Some n => Ok n | None => Err (VarError name) end.

Definition durationVar (name : string) (target : Duration) : result LoadError Duration :=
  let v := getenv name in
  if is_empty v then Ok target
  else match ParseDuration (codes v) with
  | Some d => if (d <=? 0)%Z then Err (VarError name) else Ok d
  | None => Err (VarError name)
  end.

(** The parts of [LoadFrom] that are not functions of their own. *)
Definition portVar : result LoadError Z :=
  let v := getenv EnvPort in
  if is_empty v then Ok defaultPort
  else match ParseInt (codes v) with
  | Some n => if ((n <? 1) || (65535 <? n))%Z then Err (VarError EnvPort) else Ok n
  | None => Err (VarError EnvPort)
  end.

Definition levelVar : result LoadError Z :=
  let v := getenv EnvLogLevel in
  if is_empty v then Ok LevelInfo
  else match UnmarshalLevel (codes v) with Some l => Ok l | None => Err (VarError EnvLogLevel) end.

Definition syncVar : result LoadError bool :=
  let v := getenv EnvRequireSyncReplication in
  if is_empty v then Ok false
  else match ParseBool v with Some b => Ok b | None => Err (VarError EnvRequireSyncReplication) end.

Definition daysVar (target : Duration) : result LoadError Duration :=
  let v := getenv EnvDeleteUnusedAfterDays in
  if is_empty v then Ok target
  else match ParseUint two16 (codes v) with
  | Some days => Ok (s64 (s64 (days * 24) * Hour))
  | None => Err (VarError EnvDeleteUnusedAfterDays)
  end.

(** The origins of the comma-separated list. *)
Definition originsVar : list string :=
  omap (fun o => let o := TrimSpace o in if bool_decide (o = []) then None else Some (string_of o))
    (split_at 44 (codes (getenv EnvAllowedOrigins))).

(** ** LoadFrom *)

Record Loaded := mkLoaded { Server : Config; LogLevel : Z }.

Definition LoadFrom : result LoadError Loaded :=
  let d := DefaultConfig in
  port ← portVar;
  level ← levelVar;
  maxConns ← connsVar EnvDBMaxConns;
  minConns ← connsVar EnvDBMinConns;
  sync ← syncVar;
  maxFrame ← uint32Var EnvMaxFrameBytes (cfg_MaxFrameBytes d);
  maxCommit ← uint64Var EnvMaxCommitBytes (cfg_MaxCommitBytes d);
  ping ← durationVar EnvPingInterval (cfg_PingInterval d);
  leaseTTL ← durationVar EnvLeaseTTL (cfg_LeaseTTL d);
  hello ← durationVar EnvHelloTimeout (HelloTimeout d);
  leeway ← durationVar EnvTokenLeeway (TokenLeeway d);
  unused ← daysVar (DeleteUnusedAfter d);
  let s := mkConfig (":" ++ string_of (Itoa port)) (getenv EnvServerID) (getenv EnvStore) (getenv EnvDatabaseURL)
             maxConns minConns sync maxFrame maxCommit ping leaseTTL hello originsVar unused
             (getenv EnvTokenJWKSURL) (getenv EnvTokenJWKSFile) (getenv EnvTokenIssuer) (getenv EnvTokenAudience)
             leeway in
  match Validate url_Parse s with
  | Some field => Err (Named (ConfigError field))
  | None => Ok (mkLoaded s level)
  end.
End load.
