(* ===== verification/EnvFacts.v ===== *)
(** * What the environment variables can and cannot express

    A loaded configuration is valid and every error names a variable; every valid configuration can be
    written as variables.  The number formats of [GoStrings.v] round-trip. *)

From S2P Require Import Prelude GoStrings Config EnvConfig.

Local Open Scope Z_scope.

(** ** Bytes and strings *)

Definition is_code (c : Z) : Prop := 0 <= c < 256.

Lemma codes_string_of l : Forall is_code l -> codes (string_of l) = l.
Proof.
  intros Hl. unfold codes, string_of, str_bytes. rewrite String.list_byte_of_string_of_list_byte.
  induction Hl as [|c l Hc Hl IH]; [done|]. rewrite !fmap_cons, IH, byte_Z_of; done.
Qed.

Lemma byte_of_Z b : byte_of (byte_Z b) = b.
Proof. apply byte_Z_inj, byte_Z_of, byte_Z_range. Qed.

Lemma string_of_codes s : string_of (codes s) = s.
Proof.
  unfold codes, string_of, str_bytes. rewrite <- list_fmap_compose.
  rewrite (list_fmap_ext _ id), list_fmap_id, String.string_of_list_byte_of_string; [done|].
  intros i x _. apply byte_of_Z.
Qed.

Lemma codes_range s : Forall is_code (codes s).
Proof. apply Forall_fmap, Forall_true. intros b. apply byte_Z_range. Qed.

Lemma codes_nil s : codes s = [] -> s = EmptyString.
Proof. intros Hs. by rewrite <- (string_of_codes s), Hs. Qed.

Lemma string_of_empty l : l <> [] -> is_empty (string_of l) = false.
Proof. intros Hl. apply empty_false. by destruct l. Qed.

(** ** Decimal numbers *)

Lemma decimal_fuel n : 0 <= n -> n < 2 ^ Z.of_nat (S (Z.to_nat (Z.log2 n))).
Proof.
  intros Hn. pose proof (Z.log2_nonneg n). replace (Z.of_nat _) with (Z.succ (Z.log2 n)) by lia.
  destruct (decide (n = 0)) as [->|]; [done|]. apply Z.log2_spec. lia.
Qed.

Lemma fuel_step n f : 0 <= n < 2 ^ Z.of_nat (S f) -> 10 <= n -> 0 <= n / 10 < 2 ^ Z.of_nat f.
Proof.
  rewrite Nat2Z.inj_succ, Z.pow_succ_r by lia. intros Hn Ht.
  split; [apply Z.div_pos; lia|]. apply Z.div_lt_upper_bound; lia.
Qed.

(** A loop that reads digits reads a printed number: [step acc c] is what it does with a digit. *)
Section reads.
Context {A : Type} (read : Z -> list Z -> A) (bound : Z).
Hypothesis read_digit : forall x d rest,
  0 <= d < 10 -> 0 <= x -> x * 10 + d <= bound -> read x (48 + d :: rest) = read (x * 10 + d) rest.

Lemma read_decimal f : forall n rest,
  0 <= n < 2 ^ Z.of_nat f -> n <= bound -> read 0 (decimal_digits f n rest) = read n rest.
Proof.
  induction f as [|f IH]; intros n rest Hn Hb; [simpl in *; by replace n with 0 by lia|].
  cbn [decimal_digits]. pose proof (Z.mod_pos_bound n 10 eq_refl). pose proof (Z_div_mod_eq_full n 10).
  destruct (Z.ltb_spec n 10).
  - rewrite Z.mod_small by lia. rewrite read_digit by lia. f_equal; lia.
  - rewrite IH; [|by apply fuel_step|lia]. rewrite read_digit; [f_equal; lia|lia| |lia].
    apply Z.div_pos; lia.
Qed.
End reads.

Lemma digits_decimal n rest : 0 <= n ->
  digits 0 (decimal_digits (S (Z.to_nat (Z.log2 n))) n rest) = digits n rest.
Proof.
  intros Hn. apply (read_decimal digits n); [|split; [done|by apply decimal_fuel]|lia].
  intros x d l Hd _ _. cbn [digits]. unfold within. rewrite !(proj2 (Z.leb_le _ _)) by lia. simpl.
  f_equal. lia.
Qed.

Lemma leadingInt_decimal n rest : 0 <= n <= two63 ->
  leadingInt 0 (decimal_digits (S (Z.to_nat (Z.log2 n))) n rest) = leadingInt n rest.
Proof.
  intros Hn. apply (read_decimal leadingInt two63); [|split; [lia|apply decimal_fuel; lia]|lia].
  intros x d l Hd Hx Hb. cbn [leadingInt]. unfold is_digit, within.
  rewrite !(proj2 (Z.leb_le _ _)) by lia. simpl.
  rewrite (proj2 (Z.ltb_ge (two63 / 10) x)) by (apply Z.div_le_lower_bound; lia).
  replace (x * 10 + (48 + d - 48)) with (x * 10 + d) by lia. by rewrite (proj2 (Z.ltb_ge _ _)) by lia.
Qed.

(** The printed number is not empty, starts with a digit and consists of bytes. *)
Lemma decimal_head f n rest : 0 <= n ->
  exists c l, decimal_digits (S f) n rest = c :: l /\ 48 <= c <= 57 /\ (length rest <= length l)%nat.
Proof.
  revert n rest. induction f as [|f IH]; intros n rest Hn; pose proof (Z.mod_pos_bound n 10 eq_refl).
  - simpl. destruct (n <? 10); eexists _, _; (split; [done|split; [lia|done]]).
  - cbn [decimal_digits]. destruct (n <? 10); [eexists _, _; (split; [done|split; [lia|done]])|].
    destruct (IH (n / 10) ((48 + n mod 10) :: rest)) as (c & l & He & Hc & Hl); [apply Z.div_pos; lia|].
    exists c, l. split; [done|]. split; [done|]. simpl in Hl. lia.
Qed.

Lemma decimal_range f : forall n rest, Forall is_code rest -> Forall is_code (decimal_digits f n rest).
Proof.
  induction f as [|f IH]; intros n rest Hr; simpl; [done|].
  assert (Forall is_code ((48 + n mod 10) :: rest)).
  { constructor; [|done]. unfold is_code. pose proof (Z.mod_pos_bound n 10 eq_refl). lia. }
  destruct (n <? 10); auto.
Qed.

Lemma Itoa_range n : Forall is_code (Itoa n).
Proof.
  unfold Itoa. destruct (n <? 0); [constructor; [unfold is_code; lia|]|]; apply decimal_range; constructor.
Qed.

Lemma Itoa_head n : 0 <= n -> exists c l, Itoa n = c :: l /\ 48 <= c <= 57.
Proof.
  intros Hn. unfold Itoa. rewrite (proj2 (Z.ltb_ge _ _)) by lia.
  destruct (decimal_head (Z.to_nat (Z.log2 n)) n [] Hn) as (c & l & -> & Hc & _). eauto.
Qed.

(** A digit is none of the characters that the parsers look at first. *)
Ltac digit_cases c :=
  assert (c = 48 \/ c = 49 \/ c = 50 \/ c = 51 \/ c = 52 \/ c = 53 \/ c = 54 \/ c = 55 \/ c = 56 \/ c = 57)
    as [->|[->|[->|[->|[->|[->|[->|[->|[->| ->]]]]]]]]] by lia.

Lemma digits_Itoa n : 0 <= n -> digits 0 (Itoa n) = Some n.
Proof.
  intros Hn. unfold Itoa. rewrite (proj2 (Z.ltb_ge _ _)) by lia. by rewrite digits_decimal.
Qed.

Lemma ParseUint_Itoa bound n : 0 <= n < bound -> ParseUint bound (Itoa n) = Some n.
Proof.
  intros Hn. unfold ParseUint. destruct (Itoa_head n) as (c & l & He & Hc); [lia|].
  rewrite He, <- He, digits_Itoa by lia. simpl. by rewrite (proj2 (Z.ltb_lt _ _)) by lia.
Qed.

Lemma parse_signed_plus bound n : 0 <= n < bound -> parse_signed bound (43 :: Itoa n) = Some n.
Proof.
  intros Hn. unfold parse_signed. destruct (Itoa_head n) as (c & l & He & Hc); [lia|].
  rewrite He, <- He, digits_Itoa by lia. simpl.
  by rewrite (proj2 (Z.leb_le _ _)), (proj2 (Z.ltb_lt _ _)) by lia.
Qed.

Lemma parse_signed_Itoa bound n : - bound <= n < bound -> parse_signed bound (Itoa n) = Some n.
Proof.
  intros Hn. destruct (Z.ltb_spec n 0) as [Hneg|Hpos].
  - unfold Itoa. rewrite (proj2 (Z.ltb_lt _ _)) by lia. unfold parse_signed.
    destruct (decimal_head (Z.to_nat (Z.log2 (- n))) (- n) []) as (c & l & He & Hc & _); [lia|].
    rewrite He, <- He, digits_decimal by lia. simpl. rewrite Z.opp_involutive.
    by rewrite (proj2 (Z.leb_le _ _)), (proj2 (Z.ltb_lt _ _)) by lia.
  - rewrite <- (parse_signed_plus bound n) by lia. unfold parse_signed.
    destruct (Itoa_head n) as (c & l & He & Hc); [lia|]. rewrite He. by digit_cases c.
Qed.

(** ** Durations *)

Lemma duration_part_ns n : 0 <= n <= two63 -> duration_part (Itoa n ++ codes "ns") = Some (n, []).
Proof.
  intros Hn. unfold Itoa. rewrite (proj2 (Z.ltb_ge _ _)) by lia.
  assert (forall f m r1 r2, decimal_digits f m (r1 ++ r2) = decimal_digits f m r1 ++ r2)%list as Happ.
  { intros f. induction f as [|f IH]; intros m r1 r2; [done|]. cbn [decimal_digits].
    destruct (m <? 10); [done|]. apply (IH _ (48 + m mod 10 :: r1)). }
  rewrite <- Happ. simpl ([] ++ codes "ns")%list.
  pose proof (leadingInt_decimal n (codes "ns") ltac:(lia)) as Hlead.
  destruct (decimal_head (Z.to_nat (Z.log2 n)) n (codes "ns") ltac:(lia)) as (c & l & He & Hc & Hl).
  rewrite He in *. unfold duration_part.
  assert (is_digit c = true) as -> by (unfold is_digit, within; rewrite !(proj2 (Z.leb_le _ _)) by lia; done).
  rewrite orb_true_r. cbn [negb]. rewrite Hlead.
  change (leadingInt n (codes "ns")) with (Some (n, codes "ns")). cbn [mbind option_bind].
  assert ((zlen (codes "ns") =? zlen (c :: l)) = false) as ->.
  { apply Z.eqb_neq. unfold zlen. simpl in *. lia. }
  simpl. unfold Nanosecond. rewrite Z.div_1_r, (proj2 (Z.ltb_ge _ _)) by lia. do 2 f_equal. lia.
Qed.

Lemma ParseDuration_ns n : 0 <= n < two63 -> ParseDuration (Itoa n ++ codes "ns") = Some n.
Proof.
  intros Hn. pose proof (duration_part_ns n ltac:(lia)) as Hp.
  destruct (Itoa_head n) as (c & l & He & Hc); [lia|]. rewrite He, <- app_comm_cons in *.
  assert (ParseDuration (c :: l ++ codes "ns") =
    d ← duration_parts (length (c :: l ++ codes "ns")) 0 (c :: l ++ codes "ns");
    if two63 - 1 <? d then None else Some d) as ->.
  { unfold ParseDuration. destruct l; by digit_cases c. }
  cbn [duration_parts length]. rewrite Hp. cbn [mbind option_bind]. rewrite Z.add_0_l, (proj2 (Z.ltb_ge _ _)) by lia.
  destruct (length _); cbn [duration_parts mbind option_bind]; by rewrite (proj2 (Z.ltb_ge _ _)) by lia.
Qed.

(** Every round of [ParseDuration] consumes something, so the length of the string is enough fuel. *)
Lemma leadingInt_length l : forall x v rest, leadingInt x l = Some (v, rest) -> (length rest <= length l)%nat.
Proof.
  induction l as [|c l IH]; intros x v rest; cbn [leadingInt]; [by intros [= <- <-]|].
  destruct (negb _); [by intros [= <- <-]|]. repeat (case_match; [done|]). intros Hl%IH. simpl. lia.
Qed.

Lemma leadingFraction_length l : forall x s o v s' rest,
  leadingFraction x s o l = (v, s', rest) -> (length rest <= length l)%nat.
Proof.
  induction l as [|c l IH]; intros x s o v s' rest; cbn [leadingFraction]; [by intros [= <- <- <-]|].
  destruct (negb _); [by intros [= <- <- <-]|].
  destruct o; [|destruct (_ <? _); [|destruct (_ <? _)]]; intros Hl%IH; simpl; lia.
Qed.

Lemma leading_unit_length l u rest : leading_unit l = (u, rest) -> u <> [] -> (length rest < length l)%nat.
Proof.
  revert u. induction l as [|c l IH]; intros u; cbn [leading_unit]; [by intros [= <- <-]|].
  destruct (_ || _); [by intros [= <- <-]|]. destruct (leading_unit l) as [u' r'] eqn:E.
  intros [= <- <-] _. destruct u' as [|x u'].
  - destruct l as [|y l]; cbn [leading_unit] in E; [by simplify_eq/=; lia|].
    destruct (_ || _); [simplify_eq/=; lia|]. by destruct (leading_unit l).
  - specialize (IH _ eq_refl ltac:(done)). simpl. lia.
Qed.

Lemma duration_part_length l v rest : duration_part l = Some (v, rest) -> (length rest < length l)%nat.
Proof.
  unfold duration_part. destruct l as [|c l]; [done|]. destruct (negb _); [done|].
  destruct (leadingInt 0 (c :: l)) as [[v0 r0]|] eqn:E0; [|done]. apply leadingInt_length in E0.
  cbn [mbind option_bind].
  assert (exists f scale r1 post, match r0 with
    | 46 :: r => let '(f, scale, r') := leadingFraction 0 (float64_of 1) false r in
                 (f, scale, r', negb (zlen r' =? zlen r))
    | _ => (0, float64_of 1, r0, false) end = (f, scale, r1, post) /\ (length r1 <= length r0)%nat)
    as (f & scale & r1 & post & -> & H1).
  { assert (exists f scale r1 post, (0, float64_of 1, r0, false) = (f, scale, r1, post) /\ (length r1 <= length r0)%nat)
      as Hdef by (by eexists _, _, _, _).
    destruct r0 as [|x r0]; [done|]. destruct (decide (x = 46)) as [->|Hx].
    - destruct (leadingFraction _ _ _ r0) as [[f s] r'] eqn:E. apply leadingFraction_length in E.
      eexists _, _, _, _. split; [done|]. simpl. lia.
    - repeat (case_match; try done). }
  destruct (_ && _); [done|]. destruct (leading_unit r1) as [u r2] eqn:E2.
  case_bool_decide as Hu; [done|]. apply leading_unit_length in E2; [|done].
  destruct (unit_of u); [|done]. cbn [mbind option_bind].
  repeat case_match; intros; simplify_eq; lia.
Qed.

Lemma duration_fuel fuel : forall l d,
  (length l <= fuel)%nat -> duration_parts fuel d l = duration_parts (length l) d l.
Proof.
  assert (forall n m l d, (length l <= n)%nat -> (length l <= m)%nat ->
            duration_parts n d l = duration_parts m d l) as Hany; [|intros; by apply Hany].
  induction n as [|n IH]; intros m l d Hn Hm.
  { destruct l; [by destruct m|simpl in Hn; lia]. }
  destruct l as [|c l]; [by destruct m|]. destruct m as [|m]; [simpl in Hm; lia|]. cbn [duration_parts].
  destruct (duration_part (c :: l)) as [[v rest]|] eqn:E; [|done]. apply duration_part_length in E.
  cbn [mbind option_bind]. destruct (_ <? _); [done|]. simpl in *. apply IH; lia.
Qed.

(** ** What loading guarantees *)

Definition env_names : list string :=
  [EnvPort; EnvLogLevel; EnvServerID; EnvStore; EnvDatabaseURL; EnvDBMaxConns; EnvDBMinConns;
   EnvRequireSyncReplication; EnvMaxFrameBytes; EnvMaxCommitBytes; EnvPingInterval; EnvLeaseTTL; EnvHelloTimeout;
   EnvAllowedOrigins; EnvDeleteUnusedAfterDays; EnvTokenJWKSURL; EnvTokenJWKSFile; EnvTokenIssuer;
   EnvTokenAudience; EnvTokenLeeway].

(** Every field that [Validate] can name has a variable. *)
Definition has_var (o : option string) : bool :=
  match o with
  | Some f => match envOf !! f with Some n => bool_decide (n ∈ env_names) | None => false end
  | None => true
  end.

Lemma validated_var url_Parse c : has_var (Validate url_Parse c) = true.
Proof.
  assert (has_var (validate_fields c) = true) as Hf.
  { unfold validate_fields.
    repeat match goal with |- has_var (if ?b then _ else _) = true => destruct b; [vm_compute; reflexivity|] end.
    reflexivity. }
  unfold Validate. destruct (validate_fields c); [done|].
  repeat match goal with |- has_var (if ?b then _ else _) = true => destruct b; [vm_compute; reflexivity|] end.
  reflexivity.
Qed.

Lemma validated_fields url_Parse c field :
  Validate url_Parse c = Some field -> exists name, envOf !! field = Some name /\ name ∈ env_names.
Proof.
  intros Hv. pose proof (validated_var url_Parse c) as Hf. rewrite Hv in Hf. unfold has_var in Hf.
  destruct (envOf !! field) as [name|]; [|done]. apply bool_decide_eq_true_1 in Hf. eauto.
Qed.

Section facts.
Variable url_Parse : string -> option URL.
Variable getenv : string -> string.

(** The error of a variable names it. *)
Definition names_var {A} (name : string) (r : result LoadError A) : Prop :=
  forall e, r = Err e -> e = VarError name.

Lemma connsVar_names name : names_var name (connsVar getenv name).
Proof. unfold names_var, connsVar. intros e He. repeat case_match; by simplify_eq. Qed.
Lemma uint32Var_names name d : names_var name (uint32Var getenv name d).
Proof. unfold names_var, uint32Var. intros e He. repeat case_match; by simplify_eq. Qed.
Lemma uint64Var_names name d : names_var name (uint64Var getenv name d).
Proof. unfold names_var, uint64Var. intros e He. repeat case_match; by simplify_eq. Qed.
Lemma durationVar_names name d : names_var name (durationVar getenv name d).
Proof. unfold names_var, durationVar. intros e He. repeat case_match; by simplify_eq. Qed.
Lemma portVar_names : names_var EnvPort (portVar getenv).
Proof. unfold names_var, portVar. intros e He. repeat case_match; by simplify_eq. Qed.
Lemma levelVar_names : names_var EnvLogLevel (levelVar getenv).
Proof. unfold names_var, levelVar. intros e He. repeat case_match; by simplify_eq. Qed.
Lemma syncVar_names : names_var EnvRequireSyncReplication (syncVar getenv).
Proof. unfold names_var, syncVar. intros e He. repeat case_match; by simplify_eq. Qed.
Lemma daysVar_names d : names_var EnvDeleteUnusedAfterDays (daysVar getenv d).
Proof. unfold names_var, daysVar. intros e He. repeat case_match; by simplify_eq. Qed.

Lemma names_bind {A B} (name : string) (r : result LoadError A) (f : A -> result LoadError B) :
  names_var name r -> name ∈ env_names ->
  (forall a, r = Ok a -> forall e, f a = Err e -> exists n, e = VarError n /\ n ∈ env_names) ->
  forall e, r ≫= f = Err e -> exists n, e = VarError n /\ n ∈ env_names.
Proof.
  intros Hr Hn Hf e He. destruct r as [a|e']; simpl in He; [by eapply Hf|].
  injection He as <-. exists name. split; [by apply Hr|done].
Qed.

Ltac in_names := apply (bool_decide_unpack _); vm_compute; exact I.

(** Whatever the environment holds, an error of loading it is about one of the twenty variables: a value
    that cannot be parsed names its variable directly, and a field that [Validate] rejects is
    translated to the variable that sets it. *)
Lemma load_errors_named (e : LoadError) :
  LoadFrom url_Parse getenv = Err e -> exists name, e = VarError name /\ name ∈ env_names.
Proof.
  unfold LoadFrom. revert e.
  apply (names_bind EnvPort); [apply portVar_names|in_names|intros port _].
  apply (names_bind EnvLogLevel); [apply levelVar_names|in_names|intros level _].
  apply (names_bind EnvDBMaxConns); [apply connsVar_names|in_names|intros maxConns _].
  apply (names_bind EnvDBMinConns); [apply connsVar_names|in_names|intros minConns _].
  apply (names_bind EnvRequireSyncReplication); [apply syncVar_names|in_names|intros sync _].
  apply (names_bind EnvMaxFrameBytes); [apply uint32Var_names|in_names|intros maxFrame _].
  apply (names_bind EnvMaxCommitBytes); [apply uint64Var_names|in_names|intros maxCommit _].
  apply (names_bind EnvPingInterval); [apply durationVar_names|in_names|intros ping _].
  apply (names_bind EnvLeaseTTL); [apply durationVar_names|in_names|intros leaseTTL _].
  apply (names_bind EnvHelloTimeout); [apply durationVar_names|in_names|intros hello _].
  apply (names_bind EnvTokenLeeway); [apply durationVar_names|in_names|intros leeway _].
  apply (names_bind EnvDeleteUnusedAfterDays); [apply daysVar_names|in_names|intros unused _ e].
  destruct (Validate url_Parse _) as [field|] eqn:HV; [|done].
  apply validated_fields in HV as (name & Hf & Hn). unfold Named. rewrite Hf. intros [= <-]. eauto.
Qed.
End facts.

(** ** Loaded configurations are valid *)

Lemma digits_nonneg l : forall acc n, 0 <= acc -> digits acc l = Some n -> 0 <= n.
Proof.
  induction l as [|x l IH]; intros acc n Ha; cbn [digits]; [by intros [= <-]|].
  unfold within. destruct (Z.leb_spec 48 x); [|done]. destruct (x <=? 57); [|done]. simpl. apply IH. lia.
Qed.

Lemma ParseUint_range bound l n : ParseUint bound l = Some n -> 0 <= n < bound.
Proof.
  unfold ParseUint. destruct l as [|c l]; [done|]. destruct (digits 0 (c :: l)) as [m|] eqn:E; [|done].
  apply digits_nonneg in E; [|lia]. cbn [mbind option_bind]. destruct (Z.ltb_spec m bound); [|done].
  by intros [= <-].
Qed.

Lemma durationVar_range getenv name d r :
  0 < d < two63 -> durationVar getenv name d = Ok r -> 0 < r < two63.
Proof.
  intros Hd. unfold durationVar. destruct (is_empty _); [by intros [= <-]|].
  destruct (ParseDuration _) as [x|] eqn:E; [|done]. destruct (Z.leb_spec x 0); [done|]. intros [= <-].
  split; [lia|]. revert E. unfold ParseDuration.
  match goal with |- (let '(_, _) := ?x in _) = _ -> _ => destruct x as [neg l] end.
  case_bool_decide; [by intros [= <-]|]. destruct l; [done|]. destruct (duration_parts _ _ _) as [y|]; [|done].
  cbn [mbind option_bind]. destruct neg; [intros [= <-]; apply s64_range|].
  destruct (Z.ltb_spec (two63 - 1) y); [done|]. intros [= <-]. lia.
Qed.

Lemma daysVar_range getenv d r :
  0 <= d < two63 -> daysVar getenv d = Ok r -> 0 <= r < two63.
Proof.
  intros Hd. unfold daysVar. destruct (is_empty _); [by intros [= <-]|].
  destruct (ParseUint _ _) as [n|] eqn:E; [|done]. apply ParseUint_range in E. intros [= <-].
  unfold Hour, Minute, Second, two16 in *. rewrite (s64_small (n * 24)) by (unfold in_s64, two63; lia).
  rewrite s64_small by (unfold in_s64, two63; lia). unfold two63. lia.
Qed.

Lemma portVar_range getenv p : portVar getenv = Ok p -> 1 <= p <= 65535.
Proof.
  unfold portVar. destruct (is_empty _); [intros [= <-]; unfold defaultPort; lia|].
  destruct (ParseInt _) as [n|]; [|done]. destruct (_ || _) eqn:E; [done|]. intros [= <-]. bool_hyps. lia.
Qed.

Lemma uint32Var_range getenv name d r : in_u32 d -> uint32Var getenv name d = Ok r -> in_u32 r.
Proof.
  intros Hd. unfold uint32Var. destruct (is_empty _); [by intros [= <-]|].
  destruct (ParseUint _ _) eqn:E; [|done]. apply ParseUint_range in E. by intros [= <-].
Qed.

Lemma uint64Var_range getenv name d r : in_u64 d -> uint64Var getenv name d = Ok r -> in_u64 r.
Proof.
  intros Hd. unfold uint64Var. destruct (is_empty _); [by intros [= <-]|].
  destruct (ParseUint _ _) eqn:E; [|done]. apply ParseUint_range in E. by intros [= <-].
Qed.

Lemma bind_Ok {E A B} (r : result E A) (f : A -> result E B) b :
  r ≫= f = Ok b -> exists a, r = Ok a /\ f a = Ok b.
Proof. destruct r as [a|e]; simpl; [eauto|done]. Qed.

(** Takes the variables of a successful load apart. *)
Ltac loaded H :=
  repeat (let x := fresh "v" in let Hx := fresh "Hv" in apply bind_Ok in H as (x & Hx & H)).

(** A configuration that loads is a valid one.  Whatever the environment holds, if loading succeeds
    then [Validate] accepts the configuration, every number fits the type of its field, the server
    listens on a port from 1 to 65535, no time is zero or negative, and every origin pattern is
    non-empty. *)
Theorem loaded_config_valid (url_Parse : string -> option URL) (getenv : string -> string) (l : Loaded) :
  LoadFrom url_Parse getenv = Ok l ->
  let c := Server l in
  Validate url_Parse c = None /\ in_widths c /\
  (exists port, 1 <= port <= 65535 /\ Addr c = String.append ":" (string_of (Itoa port))) /\
  0 < cfg_PingInterval c /\ 0 < cfg_LeaseTTL c /\ 0 < HelloTimeout c /\ 0 < TokenLeeway c /\
  Forall (fun o => o <> EmptyString) (cfg_AllowedOrigins c).
Proof.
  unfold LoadFrom. intros H. loaded H.
  destruct (Validate url_Parse _) as [field|] eqn:HV; [done|]. injection H as <-. simpl in *.
  apply portVar_range in Hv. apply uint32Var_range in Hv4; [|by vm_compute].
  apply uint64Var_range in Hv5; [|by vm_compute].
  apply durationVar_range in Hv6; [|by vm_compute].
  apply durationVar_range in Hv7; [|by vm_compute].
  apply durationVar_range in Hv8; [|by vm_compute].
  apply durationVar_range in Hv9; [|by vm_compute].
  apply daysVar_range in Hv10; [|by vm_compute].
  split_and!; try lia; try done.
  - repeat split; simpl; try apply Hv4; try apply Hv5; unfold in_s64; lia.
  - by eexists.
  - apply Forall_forall. intros o Ho. unfold originsVar in Ho.
    apply list_elem_of_omap in Ho as (x & _ & Hx). case_bool_decide as Hne; [done|].
    injection Hx as <-. by apply empty_false, string_of_empty.
Qed.

(** The variables that are required, and nothing else. *)
Definition minimal (name : string) : string :=
  if is_str name EnvServerID then "wss://vfs.test/v1/ws"
  else if is_str name EnvStore then "memory"
  else EmptyString.

Definition minimal_config : Config :=
  mkConfig ":8080" "wss://vfs.test/v1/ws" StoreMemory EmptyString 0 0 false 1048576 268435456 (10 * Second)
    (5 * Minute) (5 * Second) [] (180 * 24 * Hour) EmptyString EmptyString EmptyString EmptyString Minute.

Lemma loaded_config_valid_witness : Validate (fun _ => None) minimal_config = None /\ 0 < TokenLeeway minimal_config.
Proof.
  destruct (loaded_config_valid (fun _ => None) minimal (mkLoaded minimal_config 0))
    as (H1 & _ & _ & _ & _ & _ & H2 & _); [vm_compute; reflexivity|]. split; [exact H1|exact H2].
Defined.

(** ** Every valid configuration can be written as variables *)

(** Variables that set a configuration. *)
Definition level_text (level : Z) : list Z :=
  (codes "INFO" ++ (if (level <? 0)%Z then Itoa level else 43 :: Itoa level))%list.

Definition conns_text (n : Z) : string := if (n =? 0)%Z then EmptyString else string_of (Itoa n).

Definition duration_text (d : Duration) : string := string_of (Itoa d ++ codes "ns")%list.

Fixpoint join_commas (l : list (list Z)) : list Z :=
  match l with
  | [] => []
  | [x] => x
  | x :: rest => (x ++ 44 :: join_commas rest)%list
  end.

Definition env_of (port days : Z) (l : Loaded) (name : string) : string :=
  let c := Server l in
  if is_str name EnvPort then string_of (Itoa port)
  else if is_str name EnvLogLevel then string_of (level_text (LogLevel l))
  else if is_str name EnvServerID then cfg_ServerID c
  else if is_str name EnvStore then cfg_Store c
  else if is_str name EnvDatabaseURL then DatabaseURL c
  else if is_str name EnvDBMaxConns then conns_text (DBMaxConns c)
  else if is_str name EnvDBMinConns then conns_text (DBMinConns c)
  else if is_str name EnvRequireSyncReplication then if RequireSyncReplication c then "true" else "false"
  else if is_str name EnvMaxFrameBytes then string_of (Itoa (cfg_MaxFrameBytes c))
  else if is_str name EnvMaxCommitBytes then string_of (Itoa (cfg_MaxCommitBytes c))
  else if is_str name EnvPingInterval then duration_text (cfg_PingInterval c)
  else if is_str name EnvLeaseTTL then duration_text (cfg_LeaseTTL c)
  else if is_str name EnvHelloTimeout then duration_text (HelloTimeout c)
  else if is_str name EnvAllowedOrigins then string_of (join_commas (codes <$> cfg_AllowedOrigins c))
  else if is_str name EnvDeleteUnusedAfterDays then string_of (Itoa days)
  else if is_str name EnvTokenJWKSURL then TokenJWKSURL c
  else if is_str name EnvTokenJWKSFile then TokenJWKSFile c
  else if is_str name EnvTokenIssuer then TokenIssuer c
  else if is_str name EnvTokenAudience then TokenAudience c
  else if is_str name EnvTokenLeeway then duration_text (TokenLeeway c)
  else EmptyString.

(** An origin pattern that survives the comma-separated list. *)
Definition listable (o : string) : Prop := o <> EmptyString /\ TrimSpace (codes o) = codes o /\ 44 ∉ codes o.

(** What the format of the variables can express: a port, whole days, positive times. *)
Record expressible (port days : Z) (l : Loaded) : Prop := {
  ex_port : 1 <= port <= 65535;
  ex_addr : Addr (Server l) = String.append ":" (string_of (Itoa port));
  ex_level : in_s64 (LogLevel l);
  ex_max : 0 <= DBMaxConns (Server l) < two31;
  ex_min : 0 <= DBMinConns (Server l) < two31;
  ex_frame : in_u32 (cfg_MaxFrameBytes (Server l));
  ex_commit : in_u64 (cfg_MaxCommitBytes (Server l));
  ex_ping : 0 < cfg_PingInterval (Server l) < two63;
  ex_ttl : 0 < cfg_LeaseTTL (Server l) < two63;
  ex_hello : 0 < HelloTimeout (Server l) < two63;
  ex_leeway : 0 < TokenLeeway (Server l) < two63;
  ex_days : 0 <= days < two16;
  ex_unused : DeleteUnusedAfter (Server l) = days * 24 * Hour;
  ex_origins : Forall listable (cfg_AllowedOrigins (Server l)) }.

Lemma Itoa_nonempty n : Itoa n <> [].
Proof.
  unfold Itoa. destruct (Z.ltb_spec n 0); [done|].
  by destruct (decimal_head (Z.to_nat (Z.log2 n)) n []) as (? & ? & -> & _).
Qed.

(** The test for an empty value and the bytes of a printed number. *)
Lemma printed n : is_empty (string_of (Itoa n)) = false /\ codes (string_of (Itoa n)) = Itoa n.
Proof. split; [apply string_of_empty, Itoa_nonempty|apply codes_string_of, Itoa_range]. Qed.

Section writes.
Variable getenv : string -> string.

Lemma connsVar_writes name n :
  getenv name = conns_text n -> 0 <= n < two31 -> connsVar getenv name = Ok n.
Proof.
  intros He Hn. unfold connsVar. rewrite He. unfold conns_text.
  destruct (Z.eqb_spec n 0) as [->|Hz]; [done|]. destruct (printed n) as [-> ->].
  rewrite parse_signed_Itoa by lia. by rewrite (proj2 (Z.ltb_ge _ _)) by lia.
Qed.

Lemma uint32Var_writes name d n :
  getenv name = string_of (Itoa n) -> in_u32 n -> uint32Var getenv name d = Ok n.
Proof.
  intros He Hn. unfold uint32Var. rewrite He. destruct (printed n) as [-> ->]. by rewrite ParseUint_Itoa.
Qed.

Lemma uint64Var_writes name d n :
  getenv name = string_of (Itoa n) -> in_u64 n -> uint64Var getenv name d = Ok n.
Proof.
  intros He Hn. unfold uint64Var. rewrite He. destruct (printed n) as [-> ->]. by rewrite ParseUint_Itoa.
Qed.

Lemma durationVar_writes name d n :
  getenv name = duration_text n -> 0 < n < two63 -> durationVar getenv name d = Ok n.
Proof.
  intros He Hn. unfold durationVar. rewrite He. unfold duration_text. rewrite string_of_empty.
  - rewrite codes_string_of by (apply Forall_app; split; [apply Itoa_range|apply codes_range]).
    rewrite ParseDuration_ns by lia. by rewrite (proj2 (Z.leb_gt _ _)) by lia.
  - intros [Hnil _]%app_eq_nil. by apply Itoa_nonempty in Hnil.
Qed.

Lemma portVar_writes n : getenv EnvPort = string_of (Itoa n) -> 1 <= n <= 65535 -> portVar getenv = Ok n.
Proof.
  intros He Hn. unfold portVar. rewrite He. destruct (printed n) as [-> ->]. unfold ParseInt.
  rewrite parse_signed_Itoa by zlia.
  by rewrite (proj2 (Z.ltb_ge _ _)), (proj2 (Z.ltb_ge _ _)) by lia.
Qed.

Lemma daysVar_writes d n :
  getenv EnvDeleteUnusedAfterDays = string_of (Itoa n) -> 0 <= n < two16 -> daysVar getenv d = Ok (n * 24 * Hour).
Proof.
  intros He Hn. unfold daysVar. rewrite He. destruct (printed n) as [-> ->].
  rewrite ParseUint_Itoa by done. unfold Hour, Minute, Second, two16 in *.
  rewrite (s64_small (n * 24)) by (unfold in_s64, two63; lia). by rewrite s64_small by (unfold in_s64, two63; lia).
Qed.

Lemma syncVar_writes (b : bool) :
  getenv EnvRequireSyncReplication = (if b then "true" else "false")%string -> syncVar getenv = Ok b.
Proof. intros He. unfold syncVar. rewrite He. by destruct b. Qed.

Lemma UnmarshalLevel_text n : in_s64 n -> UnmarshalLevel (level_text n) = Some n.
Proof.
  intros Hn. assert (exists c ds, (if (n <? 0)%Z then Itoa n else 43 :: Itoa n) = c :: ds /\ (c = 43 \/ c = 45) /\
    parse_signed two63 (c :: ds) = Some n) as (c & ds & Heq & Hc & Hp).
  { destruct (Z.ltb_spec n 0) as [Hneg|Hpos].
    - pose proof (parse_signed_Itoa two63 n Hn) as Hp. unfold Itoa in *.
      rewrite (proj2 (Z.ltb_lt n 0)) in * by lia. eauto 6.
    - exists 43, (Itoa n). split_and!; [done|by left|]. apply parse_signed_plus. unfold in_s64 in Hn. lia. }
  unfold UnmarshalLevel, level_text. rewrite Heq.
  assert (cut_sign (codes "INFO" ++ c :: ds) = (codes "INFO", Some (c :: ds))) as -> by (by destruct Hc; subst c).
  cbn [mbind option_bind]. unfold ParseInt. rewrite Hp. simpl. f_equal. by apply s64_small.
Qed.

Lemma levelVar_writes n :
  getenv EnvLogLevel = string_of (level_text n) -> in_s64 n -> levelVar getenv = Ok n.
Proof.
  intros He Hn. unfold levelVar. rewrite He. rewrite string_of_empty by done.
  rewrite codes_string_of, UnmarshalLevel_text; [done|done|].
  unfold level_text. apply Forall_app. split; [apply codes_range|].
  destruct (_ <? _); [|constructor; [unfold is_code; lia|]]; apply Itoa_range.
Qed.

(** The comma-separated list *)

Lemma split_join l : l <> [] -> Forall (fun x => 44 ∉ x) l -> split_at 44 (join_commas l) = l.
Proof.
  intros Hne Hl. induction Hl as [|x l Hx Hl IH]; [done|]. destruct l as [|y l]; [by apply split_at_none|].
  cbn [join_commas]. rewrite split_at_sep by done. f_equal. by apply IH.
Qed.

Lemma join_range l : Forall (Forall is_code) l -> Forall is_code (join_commas l).
Proof.
  intros Hl. induction Hl as [|x l Hx Hl IH]; [constructor|]. destruct l as [|y l]; [done|].
  cbn [join_commas]. apply Forall_app. split; [done|]. constructor; [unfold is_code; lia|done].
Qed.

Lemma originsVar_writes os :
  getenv EnvAllowedOrigins = string_of (join_commas (codes <$> os)) -> Forall listable os ->
  originsVar getenv = os.
Proof.
  intros He Hos. unfold originsVar. rewrite He, codes_string_of.
  2:{ apply join_range, Forall_fmap, Forall_true. intros. apply codes_range. }
  destruct (decide (os = [])) as [->|Hne]; [done|]. rewrite split_join.
  - clear He Hne. induction Hos as [|o os (Ho & Ht & _) Hos IH]; [done|]. cbn [fmap list_fmap omap list_omap].
    rewrite Ht. case_bool_decide as Hc; [by apply codes_nil in Hc|]. by rewrite string_of_codes, IH.
  - by destruct os.
  - apply Forall_fmap. apply (Forall_impl _ _ _ Hos). intros o (_ & _ & ?). done.
Qed.
End writes.

(** C38: The variables can express every valid configuration.  For a configuration that [Validate]
    accepts and that has a port, whole days, positive times and listable origins, loading the
    variables that are written for it gives back exactly that configuration and log level. *)
Theorem every_config_loads (url_Parse : string -> option URL) (port days : Z) (l : Loaded) :
  expressible port days l -> Validate url_Parse (Server l) = None ->
  LoadFrom url_Parse (env_of port days l) = Ok l.
Proof.
  intros [] HV. unfold LoadFrom.
  rewrite (portVar_writes _ port), (levelVar_writes _ (LogLevel l)),
    (connsVar_writes _ EnvDBMaxConns (DBMaxConns (Server l))), (connsVar_writes _ EnvDBMinConns (DBMinConns (Server l))),
    (syncVar_writes _ (RequireSyncReplication (Server l))),
    (uint32Var_writes _ EnvMaxFrameBytes _ (cfg_MaxFrameBytes (Server l))), (uint64Var_writes _ EnvMaxCommitBytes _ (cfg_MaxCommitBytes (Server l))),
    (durationVar_writes _ EnvPingInterval _ (cfg_PingInterval (Server l))), (durationVar_writes _ EnvLeaseTTL _ (cfg_LeaseTTL (Server l))),
    (durationVar_writes _ EnvHelloTimeout _ (HelloTimeout (Server l))), (durationVar_writes _ EnvTokenLeeway _ (TokenLeeway (Server l))),
    (daysVar_writes _ _ days), (originsVar_writes _ (cfg_AllowedOrigins (Server l))) by (reflexivity || assumption).
  cbn [mbind result_bind]. rewrite <- ex_addr0, <- ex_unused0.
  match goal with |- context [Validate url_Parse ?s] => assert (s = Server l) as -> end.
  { destruct l as [[] level]. reflexivity. }
  rewrite HV. by destruct l.
Qed.

(** A configuration with two origins. *)
Definition two_origins : Loaded :=
  mkLoaded (mkConfig ":443" "wss://vfs.test/v1/ws" StorePostgres "postgres://db/vfs" 20 2 true 2097152 1073741824
    (5 * Second) Minute (2 * Second) ["client.example"; "*.pages.example"]%string (30 * 24 * Hour)
    EmptyString EmptyString EmptyString EmptyString (30 * Second)) (-4).

Lemma every_config_loads_witness : LoadFrom (fun _ => None) (env_of 443 30 two_origins) = Ok two_origins.
Proof.
  apply (every_config_loads (fun _ => None) 443 30 two_origins); [|vm_compute; reflexivity].
  constructor; simpl; try zlia; try (unfold Hour, Minute, Second, two16, two63; lia).
  - vm_compute. reflexivity.
  - repeat constructor; try done; by apply (bool_decide_unpack _).
Defined.
