(* ===== verification/Platform.v ===== *)
(** * HTTP: [src/internal/platform/platform.go] and the routes of [src/server/server.go]

    The health probes and the panic guard, on a model of [http.ResponseWriter]; the routes that [Run]
    registers, with what [http.ServeMux] does to a path; and [Serve], with the results of [net/http] as
    arguments. *)

From S2P Require Import Prelude GoStrings.

Local Open Scope Z_scope.

(** ** Responses *)

(** A [ResponseWriter]: the status once the header is written, and what was written after it. *)
Record writer := mkWriter { w_status : option Z; w_body : string }.

Definition fresh_writer : writer := mkWriter None EmptyString.

(** Only the first [WriteHeader] has an effect. *)
Definition WriteHeader (code : Z) (w : writer) : writer :=
  match w_status w with
  | None => mkWriter (Some code) (w_body w)
  | Some _ => w
  end.

(** [Write] writes the header with status 200 if there is none. *)
Definition Write (s : string) (w : writer) : writer :=
  let w := WriteHeader 200 w in mkWriter (w_status w) (String.append (w_body w) s).

(** The status that the client receives once the handler has returned. *)
Definition sent_status (w : writer) : Z := default 200 (w_status w).

(** A handler returns or panics, after it has written. *)
Inductive ending := Returned | Panicked.

Definition Handler : Type := writer -> ending * writer.

Definition OKHandler : Handler := fun w => (Returned, Write "ok" (WriteHeader 200 w)).

(** [ping] is the error of the store's [Ping], which includes the timeout of one second. *)
Definition ReadyHandler (ping : option string) : Handler := fun w =>
  match ping with
  | Some _ => (Returned, Write "not ready" (WriteHeader 503 w))
  | None => (Returned, Write "ok" (WriteHeader 200 w))
  end.

Definition Recover (next : Handler) : Handler := fun w =>
  let '(e, w) := next w in
  match e with
  | Panicked => (Returned, WriteHeader 500 w)
  | Returned => (Returned, w)
  end.

(** ** Routes *)

Definition PathWebSocket : string := "/v1/ws".
Definition PathSlot : string := "/v1/slot".
Definition PathLive : string := "/.well-known/live".
Definition PathReady : string := "/.well-known/ready".

Inductive target := WebSocket | SlotEndpoint | Live | Ready.

#[export] Instance target_eq_dec : EqDecision target.
Proof. solve_decision. Defined.

(** The calls of [mux.Handle] and [mux.HandleFunc] in [Run]. *)
Definition routes : list (string * string * target) :=
  [("GET", PathWebSocket, WebSocket); ("GET", PathSlot, SlotEndpoint); ("OPTIONS", PathSlot, SlotEndpoint);
   ("GET", PathLive, Live); ("GET", PathReady, Ready)]%string.

(** A pattern for GET matches HEAD too. *)
Definition method_matches (pattern method : string) : bool :=
  bool_decide (pattern = method) || (bool_decide (pattern = "GET"%string) && bool_decide (method = "HEAD"%string)).

(** *** Paths *)

Definition slash : Z := 47.

(** A segment of a path in [path.Clean]: nothing and a dot are dropped, two dots drop the segment before. *)
Definition clean_push (segs : list (list Z)) (seg : list Z) : list (list Z) :=
  match seg with
  | [] | [46] => segs
  | [46; 46] => tail segs
  | _ => seg :: segs
  end.

Definition clean_segments (p : list Z) : list (list Z) := reverse (foldl clean_push [] (split_at slash p)).

(** [path.Clean] of a path that begins with a slash. *)
Definition path_Clean (p : list Z) : list Z :=
  match clean_segments p with
  | [] => [slash]
  | segs => segs ≫= fun s => slash :: s
  end.

(** [cleanPath] of [net/http], which keeps a slash at the end. *)
Definition cleanPath (p : list Z) : list Z :=
  match p with
  | [] => [slash]
  | b :: _ =>
      let p := if b =? slash then p else slash :: p in
      let np := path_Clean p in
      if bool_decide (last p = Some slash) && negb (bool_decide (np = [slash])) then np ++ [slash] else np
  end.

Definition unhex (b : Z) : option Z :=
  if within 48 57 b then Some (b - 48)
  else if within 97 102 b then Some (b - 87)
  else if within 65 70 b then Some (b - 55)
  else None.

(** [url.PathUnescape] *)
Fixpoint PathUnescape (s : list Z) : option (list Z) :=
  match s with
  | [] => Some []
  | 37 :: s =>
      match s with
      | a :: b :: s => x ← unhex a; y ← unhex b; rest ← PathUnescape s; Some (16 * x + y :: rest)
      | _ => None
      end
  | b :: s => rest ← PathUnescape s; Some (b :: rest)
  end.

(** The segments of a path, unescaped if they can be.  An empty segment at the end is the slash there. *)
Definition path_segments (p : list Z) : list (list Z) :=
  (fun s => default s (PathUnescape s)) <$> split_at slash (tail p).

(** *** Dispatch *)

Inductive routed := To (t : target) | Redirect (path : list Z) | MethodNotAllowed (allow : list string) | NotFound.

(** The routes for a path. *)
Definition matching (p : list Z) : list (string * string * target) :=
  filter (fun r : string * string * target => path_segments p = split_at slash (tail (codes r.1.2))) routes.

(** The header [Allow]: the methods of the routes and HEAD, in order. *)
Definition allowed (p : list Z) : list string :=
  filter (fun m => existsb (fun r : string * string * target => method_matches r.1.1 m) (matching p) = true)
    ["GET"; "HEAD"; "OPTIONS"]%string.

(** [http.ServeMux] with these routes, for a request with the (escaped) path [path]: one that is not in
    its clean form is redirected, except for the method CONNECT. *)
Definition dispatch (method : string) (path : list Z) : routed :=
  let p := if bool_decide (method = "CONNECT"%string) then path else cleanPath path in
  if negb (bool_decide (p = path)) then Redirect p
  else
    match List.find (fun r => method_matches r.1.1 method) (matching p) with
    | Some r => To r.2
    | None => match matching p with [] => NotFound | _ => MethodNotAllowed (allowed p) end
    end.

(** ** The life of the HTTP server *)

(** What [Serve] does outside: it listens, shuts the HTTP server down, and calls [onShutdown]. *)
Inductive serve_action := Listen (addr : string) | ShutdownHTTP | OnShutdown.

(** What [net/http] and [onShutdown] return, and whether the context is ever done.  [listen_error] is an
    error of [ListenAndServe] that comes before the context is done. *)
Record http_env := mkHttpEnv {
  listen_error : option string;
  ctx_done : bool;
  http_Shutdown : option string;
  onShutdown_error : option string }.

(** A call returns, or it waits for a context that is never done. *)
Inductive outcome (A : Type) := Done (a : A) | Waits.
Arguments Done {A} a.
Arguments Waits {A}.

(** [errors.Join]; no error is [nil]. *)
Definition errors_Join (a b : option string) : list string := option_list a ++ option_list b.

Definition Serve (addr : string) (o : http_env) : list serve_action * outcome (list string) :=
  match listen_error o with
  | Some err => ([Listen addr], Done [err])
  | None =>
      if ctx_done o then
        ([Listen addr; ShutdownHTTP; OnShutdown], Done (errors_Join (http_Shutdown o) (onShutdown_error o)))
      else ([Listen addr], Waits)
  end.

(** ** Facts *)

(** A panic of any handler ends neither the process nor silently: the guarded handler always returns,
    a response whose header was not written becomes a 500, one whose header was written keeps its
    status and body, and a handler that returns is not changed. *)
Lemma recover_contains_panics (next : Handler) (w : writer) :
  (Recover next w).1 = Returned /\
  w_body (Recover next w).2 = w_body (next w).2 /\
  sent_status (Recover next w).2 =
    match (next w).1, w_status (next w).2 with
    | Panicked, None => 500
    | _, _ => sent_status (next w).2
    end.
Proof.
  unfold Recover, WriteHeader, sent_status. destruct (next w) as [[] [[code|] body]]; done.
Qed.

Definition good_segment (s : list Z) : Prop := (slash ∉ s) /\ s <> [] /\ s <> [46] /\ s <> [46; 46].

Lemma clean_push_good segs s : Forall good_segment segs -> slash ∉ s -> Forall good_segment (clean_push segs s).
Proof.
  intros Hs Hn. unfold clean_push.
  assert (s <> [] -> s <> [46] -> s <> [46; 46] -> Forall good_segment (s :: segs)) as Hpush by (intros; by constructor).
  repeat case_match; try done; try (by apply Hpush); destruct segs; [done|]; by apply Forall_cons in Hs as [_ ?].
Qed.

Lemma clean_segments_good p : Forall good_segment (clean_segments p).
Proof.
  unfold clean_segments. apply Forall_reverse. pose proof (split_at_parts slash p) as Hp.
  assert (forall l segs, Forall (fun x => slash ∉ x) l -> Forall good_segment segs -> Forall good_segment (foldl clean_push segs l)) as Hgen.
  { intros l. induction l as [|s l IH]; intros segs Hl Hs; simpl; [done|]. apply Forall_cons in Hl as [Hn Hl].
    apply IH; [done|]. by apply clean_push_good. }
  by apply Hgen.
Qed.

Lemma clean_push_keep segs s : good_segment s -> clean_push segs s = s :: segs.
Proof. intros (_ & H0 & H1 & H2). unfold clean_push. by repeat case_match. Qed.

(** A path of segments, with a slash at the end or not. *)
Definition rooted (segs : list (list Z)) (tl : list Z) : list Z := (segs ≫= fun s => slash :: s) ++ tl.

Lemma rooted_split s segs tl :
  Forall good_segment (s :: segs) -> tl = [] \/ tl = [slash] ->
  split_at slash (rooted (s :: segs) tl) = [] :: (s :: segs) ++ (match tl with [] => [] | _ => [[]] end).
Proof.
  intros Hs Htl. unfold rooted. cbn [mbind list_bind app split_at]. rewrite Z.eqb_refl. f_equal.
  apply Forall_cons in Hs as [Hg Hs]. revert s Hg. induction Hs as [|s' segs Hg' Hs IH]; intros s Hg.
  - cbn [mbind list_bind app]. rewrite app_nil_r. destruct Htl as [-> | ->].
    + rewrite app_nil_r. by apply split_at_none, Hg.
    + by rewrite split_at_sep by apply Hg.
  - cbn [mbind list_bind]. rewrite <- !app_assoc. cbn [app]. rewrite split_at_sep by apply Hg. cbn [app]. f_equal.
    rewrite app_assoc. apply (IH s' Hg').
Qed.

Lemma rooted_segments segs tl :
  Forall good_segment segs -> segs <> [] -> tl = [] \/ tl = [slash] -> clean_segments (rooted segs tl) = segs.
Proof.
  intros Hs Hne Htl. unfold clean_segments. destruct segs as [|s segs]; [done|]. rewrite rooted_split by done.
  assert (forall l acc, Forall good_segment l -> foldl clean_push acc (l ++ (match tl with [] => [] | _ => [[]] end)) = reverse l ++ acc) as Hgen.
  { intros l. induction l as [|x l IH]; intros acc Hl.
    - by destruct Htl as [-> | ->].
    - apply Forall_cons in Hl as [Hx Hl]. simpl. rewrite clean_push_keep by done. rewrite IH by done. by rewrite reverse_cons, <- app_assoc. }
  cbn [foldl clean_push]. rewrite Hgen by done. by rewrite app_nil_r, reverse_involutive.
Qed.

Lemma cleanPath_form p :
  cleanPath p = [slash] \/ exists segs tl, Forall good_segment segs /\ segs <> [] /\ (tl = [] \/ tl = [slash]) /\ cleanPath p = rooted segs tl.
Proof.
  destruct p as [|b p]; [by left|]. unfold cleanPath. set (q := if b =? slash then _ else _).
  pose proof (clean_segments_good q) as Hg. unfold path_Clean. destruct (clean_segments q) as [|s segs] eqn:Hs.
  { left. rewrite (bool_decide_eq_true_2 ([slash] = [slash])) by done. by rewrite andb_false_r. }
  right. case_match; [exists (s :: segs), [slash]|exists (s :: segs), []]; (split_and!; [done|done|by auto|]); unfold rooted; by rewrite ?app_nil_r.
Qed.

Lemma last_rooted segs : Forall good_segment segs -> segs <> [] -> last (rooted segs []) <> Some slash.
Proof.
  intros Hs Hne. unfold rooted. rewrite app_nil_r. destruct segs as [|s l _] using rev_ind; [done|].
  apply Forall_app in Hs as [_ Hs]. apply Forall_singleton in Hs as (Hs & Hn & _). rewrite bind_app. simpl. rewrite app_nil_r.
  destruct s as [|b l' _] using rev_ind; [done|].
  rewrite app_comm_cons, app_assoc, last_snoc. intros [= ->]. apply Hs. set_solver.
Qed.

(** A clean path stays as it is. *)
Lemma cleanPath_idemp p : cleanPath (cleanPath p) = cleanPath p.
Proof.
  destruct (cleanPath_form p) as [->|(segs & tl & Hg & Hne & Htl & ->)]; [done|].
  assert (exists q, rooted segs tl = slash :: q) as [q Hq] by (destruct segs; [done|by eexists]).
  pose proof (rooted_segments segs tl Hg Hne Htl) as Hseg. unfold cleanPath. rewrite Hq. rewrite Z.eqb_refl, <- Hq.
  unfold path_Clean. rewrite Hseg. destruct segs as [|s segs]; [done|]. destruct Htl as [-> | ->].
  - rewrite bool_decide_eq_false_2 by (by apply last_rooted). unfold rooted. by rewrite app_nil_r.
  - rewrite bool_decide_eq_true_2 by apply last_snoc. rewrite bool_decide_eq_false_2; [done|].
    simpl. apply Forall_cons in Hg as [(_ & Hn & _) _]. destruct s; [done|]. discriminate.
Qed.

(** A request reaches a handler only by a route for its method and for the segments of its path. *)
Lemma dispatch_to method path t :
  dispatch method path = To t -> exists pattern p, (pattern, p, t) ∈ routes /\ method_matches pattern method = true /\
    path_segments path = split_at slash (tail (codes p)).
Proof.
  unfold dispatch. set (q := if bool_decide (method = _) then path else cleanPath path).
  destruct (bool_decide (q = path)) eqn:Hq; simpl; [|done]. apply bool_decide_eq_true in Hq as ->.
  destruct (List.find _ (matching path)) as [[[pattern p] t']|] eqn:Hf; [|by case_match].
  intros [= <-]. apply List.find_some in Hf as [[Hp Hin]%list_elem_of_In%list_elem_of_filter Hm]. by exists pattern, p.
Qed.

(** Every route is reached by its own path and method. *)
Lemma routes_reached : Forall (fun r => dispatch r.1.1 (codes r.1.2) = To r.2) routes.
Proof. repeat (constructor; [vm_compute; reflexivity|]). constructor. Qed.

(** A client that follows a redirection is not redirected again. *)
Lemma redirects_end method path q : dispatch method path = Redirect q -> forall q', dispatch method q <> Redirect q'.
Proof.
  unfold dispatch at 1. destruct (bool_decide (method = "CONNECT"%string)) eqn:Hm.
  - rewrite bool_decide_eq_true_2 by done. simpl. repeat case_match; done.
  - case_match; [|by repeat case_match]. intros [= <-] q'. unfold dispatch. rewrite Hm, cleanPath_idemp, bool_decide_eq_true_2 by done.
    simpl. by repeat case_match.
Qed.

(** A path whose segments no route has is answered with 404, another method on a route with 405. *)
Lemma dispatch_not_found method path :
  dispatch method path = NotFound -> Forall (fun r => path_segments path <> split_at slash (tail (codes r.1.2))) routes.
Proof.
  unfold dispatch. set (q := if bool_decide (method = _) then path else cleanPath path).
  destruct (bool_decide (q = path)) eqn:Hq; simpl; [|done]. apply bool_decide_eq_true in Hq as ->.
  destruct (List.find _ _); [done|]. destruct (matching path) as [|r rs] eqn:Hn; [|done]. intros _.
  apply Forall_forall. intros r Hin Hp. assert (r ∈ matching path) as Hx by (by apply list_elem_of_filter). rewrite Hn in Hx.
  by apply elem_of_nil in Hx.
Qed.
