(* ===== verification/ServerRun.v ===== *)
(** * Starting and stopping: [Run], [newVerifier] and [openStore] of [src/server/server.go], [New] of
    [src/internal/token/token.go] with [newKeySet] of [keys.go], [PoolConfig] of
    [src/internal/store/postgres/postgres.go], [Migrate] of [migrate.go], and [src/cmd/sqlite-remote-server/main.go]

    What the outside answers (the JWKS file, the driver of PostgreSQL, the migration, [net/http] and the
    context) is a record; what [Run] does to it is a list of actions in the order of the code, deferred
    calls included. *)

From S2P Require Import Prelude Store Messages Connection Login GoStrings Token Config EnvConfig EnvFacts Platform.

Local Open Scope Z_scope.

(** ** The verifier of access tokens *)

Module token.
Record Config := mkConfig {
  JWKSURL : string;
  JWKSFile : string;
  Issuer : string;
  Audience : string;
  Leeway : Duration }.

(** The signature algorithms that the parser of a [Verifier] accepts. *)
Definition algorithms : list string := ["EdDSA"; "ES256"]%string.

Record Verifier := mkVerifier {
  keys : keySet;
  v_methods : list string;
  v_issuer : string;
  v_audience : string;
  v_leeway : Duration }.

Section new.
(** [os.ReadFile], and what [json.Unmarshal] makes of the data. *)
Variable ReadFile : string -> result string (option (list jwk)).

Definition newKeySet (cfg : Config) : result string keySet :=
  let s := mkKeySet (JWKSURL cfg) ∅ 0 0 in
  if is_empty (JWKSFile cfg) then Ok s
  else
    match ReadFile (JWKSFile cfg) with
    | Err _ => Err "read the JWKS file"%string
    | Ok data =>
        match parseJWKS data with
        | Err e => Err e
        | Ok keys => Ok (mkKeySet (ks_url s) keys (fresh s) (fetched s))
        end
    end.

Definition New (cfg : Config) : result string Verifier :=
  if bool_decide (is_empty (JWKSURL cfg) = is_empty (JWKSFile cfg)) then
    Err "exactly one of the JWKS URL and the JWKS file is required"%string
  else if is_empty (Issuer cfg) || is_empty (Audience cfg) then Err "issuer and audience are required"%string
  else
    match newKeySet cfg with
    | Err e => Err e
    | Ok keys => Ok (mkVerifier keys algorithms (Issuer cfg) (Audience cfg) (Leeway cfg))
    end.
End new.
End token.

(** ** Errors and the outside *)

(** The step of [Migrate] that failed. *)
Inductive migrate_error := SessionLockerError | ProviderError | ApplyError.

Inductive RunError :=
| InvalidField (field : string)
| DatabaseURLError
| ConnectError
| MigrateError (step : migrate_error)
| StandbyNamesError
| ServeError (errs : list string).

(** The fields of a [pgxpool.Config] that the code sets. *)
Record PoolCfg := mkPoolCfg { MaxConns : Z; MinConns : Z; RuntimeParams : gmap string string }.

Record outside := mkOutside {
  ReadFile : string -> result string (option (list jwk));
  ParseConfig : string -> option PoolCfg;
  NewWithConfig : PoolCfg -> bool;
  NewPostgresSessionLocker : bool;
  goose_NewProvider : bool;
  provider_Up : bool;
  SyncStandbyNames : option string;
  http : http_env }.

(** ** The store *)

Inductive opened := MemoryStore | PostgresStore (pool : PoolCfg).

Inductive action :=
| OpenPool (cfg : PoolCfg)
| ClosePool
| StartSweep (after : Duration)
| SweepEnded
| ServeAction (a : serve_action) (opts : Options) (tokens : option token.Verifier) (store : opened).

Definition PoolConfig (o : outside) (databaseURL : string) : option PoolCfg :=
  cfg ← ParseConfig o databaseURL;
  Some (mkPoolCfg (MaxConns cfg) (MinConns cfg) (<["synchronous_commit"%string := "on"%string]> (RuntimeParams cfg))).

(** [Migrate], with the results of the migration library. *)
Definition Migrate (o : outside) : option migrate_error :=
  if negb (NewPostgresSessionLocker o) then Some SessionLockerError
  else if negb (goose_NewProvider o) then Some ProviderError
  else if negb (provider_Up o) then Some ApplyError
  else None.

(** The pool sizes of the configuration. *)
Definition set_sizes (cfg : Config) (p : PoolCfg) : PoolCfg :=
  mkPoolCfg (if 0 <? DBMaxConns cfg then DBMaxConns cfg else MaxConns p)
    (if 0 <? DBMinConns cfg then DBMinConns cfg else MinConns p) (RuntimeParams p).

Definition openStore (o : outside) (cfg : Config) : list action * result RunError opened :=
  if is_str (cfg_Store cfg) StoreMemory then ([], Ok MemoryStore)
  else
    match PoolConfig o (DatabaseURL cfg) with
    | None => ([], Err DatabaseURLError)
    | Some p =>
        let p := set_sizes cfg p in
        if negb (NewWithConfig o p) then ([], Err ConnectError)
        else match Migrate o with
        | Some e => ([OpenPool p; ClosePool], Err (MigrateError e))
        | None =>
            match SyncStandbyNames o with
            | None => ([OpenPool p; ClosePool], Err StandbyNamesError)
            | Some standbys =>
                if negb (is_empty standbys) then ([OpenPool p], Ok (PostgresStore p))
                else if RequireSyncReplication cfg then
                  ([OpenPool p; ClosePool], Err (InvalidField "RequireSyncReplication"))
                else ([OpenPool p], Ok (PostgresStore p))
            end
        end
    end.

(** The function that [openStore] returns with the store. *)
Definition closeStore (st : opened) : list action :=
  match st with MemoryStore => [] | PostgresStore _ => [ClosePool] end.

Definition newVerifier (o : outside) (cfg : Config) : result RunError (option token.Verifier) :=
  if negb (tokens cfg) then Ok None
  else
    match token.New (ReadFile o)
            (token.mkConfig (TokenJWKSURL cfg) (TokenJWKSFile cfg) (TokenIssuer cfg) (audience cfg) (TokenLeeway cfg)) with
    | Err _ => Err (InvalidField "TokenJWKSFile")
    | Ok v => Ok (Some v)
    end.

(** ** [Run] *)

Section run.
Variable url_Parse : string -> option URL.

(** The part of [Run] after the store is open, up to the deferred [closeStore]: the goroutine of
    [deleteUnused] ends when the context is done, and the deferred receive waits for that. *)
Definition run_open (o : outside) (cfg : Config) (tokens : option token.Verifier) (st : opened) :
    list action * outcome (list string) :=
  let '(acts, res) := Serve (Addr cfg) (http o) in
  let serve := (fun a => ServeAction a (options_of cfg) tokens st) <$> acts in
  if 0 <? DeleteUnusedAfter cfg then
    match res with
    | Waits => (StartSweep (DeleteUnusedAfter cfg) :: serve, Waits)
    | Done errs =>
        if ctx_done (http o) then (StartSweep (DeleteUnusedAfter cfg) :: serve ++ [SweepEnded], Done errs)
        else (StartSweep (DeleteUnusedAfter cfg) :: serve, Waits)
    end
  else (serve, res).

(** [Run]: the actions, and the error it returns, if it returns. *)
Definition Run (o : outside) (cfg : Config) : list action * outcome (option RunError) :=
  match Validate url_Parse cfg with
  | Some field => ([], Done (Some (InvalidField field)))
  | None =>
      match newVerifier o cfg with
      | Err e => ([], Done (Some e))
      | Ok tokens =>
          match openStore o cfg with
          | (acts, Err e) => (acts, Done (Some e))
          | (acts, Ok st) =>
              match run_open o cfg tokens st with
              | (acts', Waits) => (acts ++ acts', Waits)
              | (acts', Done errs) =>
                  (acts ++ acts' ++ closeStore st, Done (if decide (errs = []) then None else Some (ServeError errs)))
              end
          end
      end
  end.

(** ** The command *)

(** [Named] on the errors of [Run]: a [*server.ConfigError] gets the name of its variable, and every other error,
    that of a database URL that cannot be parsed among them, is returned as it is. *)
Definition named_error (e : RunError) : LoadError + RunError :=
  match e with
  | InvalidField field => inl (Named (ConfigError field))
  | _ => inr e
  end.

(** [run] of the command: what it does, and the error that makes it exit with status 1. *)
Definition main_run (getenv : string -> string) (o : outside) : list action * outcome (option (LoadError + RunError)) :=
  match LoadFrom url_Parse getenv with
  | Err e => ([], Done (Some (inl e)))
  | Ok loaded =>
      let '(acts, res) := Run o (Server loaded) in
      (acts, match res with Waits => Waits | Done err => Done (named_error <$> err) end)
  end.
End run.

(** ** Facts *)

Section facts.
Variable url_Parse : string -> option URL.

(** The configuration is valid, and the verifier and the store could be made. *)
Definition starts (o : outside) (cfg : Config) (tk : option token.Verifier) (acts : list action) (st : opened) : Prop :=
  Validate url_Parse cfg = None /\ newVerifier o cfg = Ok tk /\ openStore o cfg = (acts, Ok st).

(** Either [Run] gives up, with whatever it opened closed again, or it starts. *)
Lemma Run_cases o cfg :
  (exists acts e, Run url_Parse o cfg = (acts, Done (Some e)) /\ (acts = [] \/ exists p, acts = [OpenPool p; ClosePool])) \/
  (exists tk acts st, starts o cfg tk acts st /\
     Run url_Parse o cfg =
       match run_open o cfg tk st with
       | (acts', Waits) => (acts ++ acts', Waits)
       | (acts', Done errs) =>
           (acts ++ acts' ++ closeStore st, Done (if decide (errs = []) then None else Some (ServeError errs)))
       end).
Proof.
  unfold Run, starts. destruct (Validate url_Parse cfg) as [f|]; [by left; eauto|].
  destruct (newVerifier o cfg) as [tk|e] eqn:Hv; [|by left; eauto].
  destruct (openStore o cfg) as [acts [st|e]] eqn:Ho.
  - right. by exists tk, acts, st.
  - left. exists acts, e. split; [done|]. unfold openStore in Ho. repeat case_match; simplify_eq; eauto.
Qed.

Lemma openStore_cases o cfg acts st :
  openStore o cfg = (acts, Ok st) ->
  match st with
  | MemoryStore => acts = [] /\ cfg_Store cfg = StoreMemory
  | PostgresStore p => acts = [OpenPool p] /\ cfg_Store cfg <> StoreMemory /\ Migrate o = None /\
      RuntimeParams p !! "synchronous_commit"%string = Some "on"%string /\
      (0 < DBMaxConns cfg -> MaxConns p = DBMaxConns cfg) /\ (0 < DBMinConns cfg -> MinConns p = DBMinConns cfg) /\
      exists standbys, SyncStandbyNames o = Some standbys /\ (RequireSyncReplication cfg = true -> standbys <> EmptyString)
  end.
Proof.
  unfold openStore, is_str. intros Ho. case_bool_decide as Hm; [by simplify_eq|].
  destruct (PoolConfig o (DatabaseURL cfg)) as [p0|] eqn:Hp; [|by simplify_eq].
  apply bind_Some in Hp as (c & _ & Hp). simplify_eq.
  destruct (NewWithConfig o _); simpl in Ho; [|by simplify_eq]. destruct (Migrate o) as [e|] eqn:Hmig; [by simplify_eq|].
  destruct (SyncStandbyNames o) as [sb|]; [|by simplify_eq].
  assert (acts = [OpenPool (set_sizes cfg (mkPoolCfg (MaxConns c) (MinConns c)
            (<["synchronous_commit"%string:="on"%string]> (RuntimeParams c))))] /\
          st = PostgresStore (set_sizes cfg (mkPoolCfg (MaxConns c) (MinConns c)
            (<["synchronous_commit"%string:="on"%string]> (RuntimeParams c)))) /\
          (RequireSyncReplication cfg = true -> sb <> EmptyString)) as (-> & -> & Hs).
  { unfold is_empty in Ho. case_bool_decide; simpl in Ho; [|by simplify_eq].
    destruct (RequireSyncReplication cfg); by simplify_eq. }
  unfold set_sizes; simpl. split_and!; [done|done|done|by apply lookup_insert_eq| | |by eauto]; intros Hc;
    by rewrite (proj2 (Z.ltb_lt _ _) Hc).
Qed.

Lemma newVerifier_some o cfg tk :
  newVerifier o cfg = Ok tk ->
  match tk with
  | None => tokens cfg = false
  | Some v => tokens cfg = true /\ token.v_methods v = token.algorithms /\ token.v_issuer v = TokenIssuer cfg /\
      token.v_audience v = audience cfg /\ token.v_leeway v = TokenLeeway cfg /\
      TokenIssuer cfg <> EmptyString /\ audience cfg <> EmptyString /\
      ks_url (token.keys v) = TokenJWKSURL cfg /\ (TokenJWKSURL cfg = EmptyString -> ks_keys (token.keys v) <> ∅)
  end.
Proof.
  unfold newVerifier. destruct (tokens cfg); simpl; [|by intros [= <-]]. unfold token.New, token.newKeySet. simpl.
  intros Hn. destruct (bool_decide _) eqn:Hx; [done|]. apply bool_decide_eq_false_1 in Hx.
  destruct (is_empty (TokenIssuer cfg) || is_empty (audience cfg)) eqn:Hi; [done|].
  apply orb_false_iff in Hi as [Hi Ha]. unfold is_empty in *. apply bool_decide_eq_false_1 in Hi, Ha.
  case_bool_decide as Hf; simplify_eq.
  - simpl. split_and!; try done. intros Hu. rewrite Hu in Hx. by rewrite bool_decide_eq_true_2 in Hx.
  - destruct (ReadFile o _) as [d|]; [|done]. destruct (parseJWKS d) as [keys|] eqn:Hk; [|done]. simplify_eq. simpl.
    split_and!; try done. intros _ ->. unfold parseJWKS in Hk. destruct d as [l|]; [|done].
    simpl in Hk. destruct (collect_keys l ∅) as [k|]; [|done]. simpl in Hk. by case_bool_decide; simplify_eq.
Qed.

Lemma run_open_serve o cfg tk st a opts tk' st' :
  ServeAction a opts tk' st' ∈ (run_open o cfg tk st).1 ->
  opts = options_of cfg /\ tk' = tk /\ st' = st /\ (forall addr, a = Listen addr -> addr = Addr cfg).
Proof.
  assert (forall acts : list serve_action, ServeAction a opts tk' st' ∈ ((fun a => ServeAction a (options_of cfg) tk st) <$> acts : list action) ->
    opts = options_of cfg /\ tk' = tk /\ st' = st /\ a ∈ acts) as Hmap.
  { intros acts Hin. apply list_elem_of_fmap in Hin as (b & Hb & Hin). by simplify_eq. }
  assert (forall addr, Listen addr ∈ (Serve (Addr cfg) (http o)).1 -> addr = Addr cfg) as Haddr.
  { intros addr. unfold Serve. repeat case_match; simpl; set_solver. }
  intros Hin. assert (ServeAction a opts tk' st' ∈
    ((fun a => ServeAction a (options_of cfg) tk st) <$> (Serve (Addr cfg) (http o)).1 : list action)) as Hs.
  { unfold run_open in Hin. destruct (Serve _ _) as [acts [errs|]]; simpl in *; repeat case_match; simpl in Hin; set_solver. }
  apply Hmap in Hs as (-> & -> & -> & Ha). split_and!; [done..|]. intros addr ->. by apply Haddr.
Qed.

(** A server that listens is the one that was configured.  Whenever [Run] starts the HTTP server, the
    configuration is valid and the address is the configured one; clients need an access token exactly
    if a key set is configured, checked against the configured issuer and a named audience, with
    EdDSA and ES256 only and, for a file, with at least one key; and with PostgreSQL the migrations were
    applied, every connection has [synchronous_commit] on, and a required synchronous replication was
    found to be set up. *)
Theorem server_runs_as_configured (o : outside) (cfg : Config) (addr : string) (opts : Options)
    (tk : option token.Verifier) (st : opened) :
  ServeAction (Listen addr) opts tk st ∈ (Run url_Parse o cfg).1 ->
  Validate url_Parse cfg = None /\ addr = Addr cfg /\ opts = options_of cfg /\
  match tk with
  | None => tokens cfg = false
  | Some v => tokens cfg = true /\ token.v_methods v = token.algorithms /\ token.v_issuer v = TokenIssuer cfg /\
      token.v_audience v = audience cfg /\ token.v_leeway v = TokenLeeway cfg /\
      TokenIssuer cfg <> EmptyString /\ audience cfg <> EmptyString /\
      ks_url (token.keys v) = TokenJWKSURL cfg /\ (TokenJWKSURL cfg = EmptyString -> ks_keys (token.keys v) <> ∅)
  end /\
  match st with
  | MemoryStore => cfg_Store cfg = StoreMemory
  | PostgresStore p => cfg_Store cfg <> StoreMemory /\ Migrate o = None /\
      RuntimeParams p !! "synchronous_commit"%string = Some "on"%string /\
      exists standbys, SyncStandbyNames o = Some standbys /\ (RequireSyncReplication cfg = true -> standbys <> EmptyString)
  end.
Proof.
  intros Hin. destruct (Run_cases o cfg) as [(acts & e & Hr & Ha)|(tk' & acts & st' & (Hv & Ht & Ho) & Hr)].
  { rewrite Hr in Hin. simpl in Hin. destruct Ha as [->|[p ->]]; set_solver. }
  assert (opts = options_of cfg /\ tk = tk' /\ st = st' /\ addr = Addr cfg) as (-> & -> & -> & ->).
  { pose proof (openStore_cases o cfg acts st' Ho) as Hst.
    assert (ServeAction (Listen addr) opts tk st ∈ (run_open o cfg tk' st').1) as Hs.
    { rewrite Hr in Hin. destruct (run_open o cfg tk' st') as [acts' [errs|]]; simpl in *;
        destruct st'; destruct_and!; subst; simpl in *; set_solver. }
    apply run_open_serve in Hs. naive_solver. }
  pose proof (newVerifier_some o cfg tk' Ht). pose proof (openStore_cases o cfg acts st' Ho).
  split_and!; try done. destruct st'; naive_solver.
Qed.
(** ** What was opened is closed *)

Lemma last_only {A} (x : A) l pre post : x ∉ l -> l ++ [x] = pre ++ x :: post -> post = [].
Proof.
  revert pre. induction l as [|y l IH]; intros [|z pre] Hx He; simplify_eq/=; try done.
  - destruct pre; discriminate.
  - set_solver.
  - eapply IH; [|done]. set_solver.
Qed.

(** No action of the work between opening and closing the store is one of these. *)
Definition between (a : action) : bool :=
  match a with OpenPool _ | ClosePool => false | _ => true end.

Lemma run_open_work o cfg tk st :
  Forall (fun a => between a = true) (run_open o cfg tk st).1 /\
  (forall errs, (run_open o cfg tk st).2 = Done errs ->
    exists serve : list serve_action, (run_open o cfg tk st).1 =
      let acts := (fun a => ServeAction a (options_of cfg) tk st) <$> serve in
      (if (0 <? DeleteUnusedAfter cfg)%Z then StartSweep (DeleteUnusedAfter cfg) :: acts ++ [SweepEnded] else acts)).
Proof.
  assert (forall l : list serve_action, Forall (fun a => between a = true)
    ((fun a => ServeAction a (options_of cfg) tk st) <$> l)) as Hserve.
  { intros l. apply Forall_fmap, Forall_forall. done. }
  unfold run_open. destruct (Serve _ _) as [acts [errs|]]; destruct (0 <? DeleteUnusedAfter cfg);
    try destruct (ctx_done (http o)); simpl; (split; [|naive_solver]);
    repeat first [apply Hserve | apply Forall_app_2 | apply Forall_cons_2; [done|] | apply Forall_nil_2].
Qed.

Lemma between_not l a : Forall (fun a => between a = true) l -> between a = false -> a ∉ l.
Proof. intros Hl Ha Hin. rewrite Forall_forall in Hl. specialize (Hl a Hin). congruence. Qed.

(** C32: [Run] releases what it acquired.  When it returns, on whatever path, the pool of connections to
    PostgreSQL was closed if and only if it was opened, once and as the last thing; the goroutine that
    deletes unused databases has ended if it was started, so it never finds the store closed; and
    nothing is served after it. *)
Theorem run_releases (o : outside) (cfg : Config) (err : option RunError) :
  (Run url_Parse o cfg).2 = Done err ->
  let acts := (Run url_Parse o cfg).1 in
  ((exists p, OpenPool p ∈ acts) <-> ClosePool ∈ acts) /\
  (forall pre post, acts = pre ++ ClosePool :: post -> post = []) /\
  ((exists d, StartSweep d ∈ acts) <-> SweepEnded ∈ acts) /\
  (forall pre post, acts = pre ++ SweepEnded :: post -> post = [] \/ post = [ClosePool]).
Proof.
  intros Hres acts. subst acts. destruct (Run_cases o cfg) as [(acts & e & Hr & Ha)|(tk & acts & st & (Hv & Ht & Ho) & Hr)].
  { rewrite Hr. simpl. destruct Ha as [->|[p ->]]; [split_and!; [set_solver| |set_solver|]; by intros []|].
    split_and!; [set_solver| |set_solver|].
    - intros [|? [|? pre]] post Hp; simplify_eq/=; [done|]. by destruct pre.
    - intros pre post Hp. assert (SweepEnded ∈ [OpenPool p; ClosePool]) by (rewrite Hp; set_solver). set_solver. }
  destruct (run_open_work o cfg tk st) as [Hwork Hshape]. rewrite Hr in Hres |- *.
  destruct (run_open o cfg tk st) as [acts' [errs|]]; simpl in *; [|done].
  destruct (Hshape errs eq_refl) as [serve ->]. clear Hshape Hr Hres.
  set (w := if 0 <? DeleteUnusedAfter cfg then _ else _) in *.
  pose proof (between_not _ ClosePool Hwork eq_refl) as Hnc.
  assert (forall p, OpenPool p ∉ w) as Hno by (intros p; by apply between_not).
  assert (((exists d, StartSweep d ∈ w) <-> SweepEnded ∈ w) /\
          forall pre post, w = pre ++ SweepEnded :: post -> post = []) as [Hsweep Hlast].
  { subst w. destruct (0 <? DeleteUnusedAfter cfg).
    - split; [set_solver|]. intros pre post Hw. eapply (last_only _ (StartSweep _ :: _)); [|exact Hw].
      apply not_elem_of_cons. split; [done|]. intros (x & Hx & _)%list_elem_of_fmap. done.
    - assert (SweepEnded ∉ (fun a => ServeAction a (options_of cfg) tk st) <$> serve) as Hn.
      { intros (x & Hx & _)%list_elem_of_fmap. done. }
      split; [|intros pre post Hw; rewrite Hw in Hn; set_solver].
      split; [intros [d (x & Hx & _)%list_elem_of_fmap]; done|done]. }
  clearbody w. apply openStore_cases in Ho. destruct st as [|p]; destruct Ho as [-> _]; simpl.
  - rewrite app_nil_r. split_and!; [set_solver| |done|].
    + intros pre post Hw. rewrite Hw in Hnc. set_solver.
    + intros pre post Hw. left. by eapply Hlast.
  - change (OpenPool p :: w ++ [ClosePool]) with ((OpenPool p :: w) ++ [ClosePool]).
    split_and!; [set_solver| |set_solver|].
    + intros pre post Hw. eapply last_only; [|exact Hw]. set_solver.
    + intros [|a pre] post Hw; [done|]. injection Hw as <- Hw. destruct (decide (post = [])) as [->|Hne]; [by left|].
      destruct (exists_last Hne) as (post' & b & ->). rewrite app_comm_cons, app_assoc in Hw.
      apply app_inj_tail in Hw as [Hw <-]. apply Hlast in Hw as ->. by right.
Qed.
(** ** When [Run] returns *)

Lemma run_open_waits o cfg tk st :
  (run_open o cfg tk st).2 = Waits <->
  ctx_done (http o) = false /\ (listen_error (http o) = None \/ 0 < DeleteUnusedAfter cfg).
Proof.
  unfold run_open, Serve. destruct (listen_error (http o)) as [err|], (ctx_done (http o)) eqn:Hd;
    destruct (Z.ltb_spec 0 (DeleteUnusedAfter cfg)); simpl; split; intros Hw; try done; try (split; [done|by auto]);
    try (by destruct Hw); destruct Hw as [_ [?|?]]; [done|lia].
Qed.

(** C33: When [Run] returns.  It always returns once its context is done, and it always returns when it
    cannot start.  Until the context is done, a server that started keeps running: also when it could
    not listen, for instance since the address is in use, if the deletion of unused databases is on,
    which is the default. *)
Theorem run_waits_iff (o : outside) (cfg : Config) :
  (Run url_Parse o cfg).2 = Waits <->
  (exists tk acts st, starts o cfg tk acts st) /\ ctx_done (http o) = false /\
  (listen_error (http o) = None \/ 0 < DeleteUnusedAfter cfg).
Proof.
  destruct (Run_cases o cfg) as [(acts & e & Hr & _)|(tk & acts & st & Hs & Hr)].
  - split; [by rewrite Hr|]. intros [(tk & acts' & st & Hv & Ht & Ho) Hw]. exfalso.
    unfold Run in Hr. rewrite Hv, Ht, Ho in Hr. pose proof (run_open_waits o cfg tk st) as Hq.
    destruct (run_open o cfg tk st) as [a [errs|]]; [|done]. simpl in Hq. by apply Hq in Hw.
  - pose proof (run_open_waits o cfg tk st) as Hq. rewrite Hr.
    destruct (run_open o cfg tk st) as [a [errs|]]; simpl in *; (split; [|try done]).
    + done.
    + intros [_ Hw]. by apply Hq in Hw.
    + intros _. split; [by eauto|by apply Hq].
Qed.

(** ** The command *)




End facts.


(** ** A server on PostgreSQL *)

Definition pg_config (sync : bool) : Config :=
  mkConfig ":8080" "wss://vfs.test/v1/ws" StorePostgres "postgres://db" 8 0 sync 1048576 268435456 (10 * Second)
    (5 * Minute) (5 * Second) [] (180 * 24 * Hour) EmptyString EmptyString EmptyString EmptyString Minute.

(** PostgreSQL with the given standbys, and an HTTP server with the given end. *)
Definition postgres_outside (standbys : string) (h : http_env) : outside :=
  mkOutside (fun _ => Err "no file"%string) (fun _ => Some (mkPoolCfg 4 0 ∅)) (fun _ => true) true true true (Some standbys) h.

(** It serves until the context is done; and: it cannot listen. *)
Definition until_done : http_env := mkHttpEnv None true None None.
Definition in_use : http_env := mkHttpEnv (Some "address already in use"%string) false None None.

Definition the_pool : PoolCfg := mkPoolCfg 8 0 {[ "synchronous_commit"%string := "on"%string ]}.

Lemma server_runs_as_configured_witness :
  let o := postgres_outside "standby" until_done in
  Validate (fun _ => None) (pg_config true) = None /\
  exists standbys, SyncStandbyNames o = Some standbys /\ (RequireSyncReplication (pg_config true) = true -> standbys <> EmptyString).
Proof.
  destruct (server_runs_as_configured (fun _ => None) (postgres_outside "standby" until_done) (pg_config true) ":8080"
    (options_of (pg_config true)) None (PostgresStore the_pool)) as (H1 & _ & _ & _ & _ & _ & _ & H2).
  - vm_compute. right. right. left.
  - split; [exact H1|exact H2].
Defined.

Lemma run_releases_witness :
  let acts := (Run (fun _ => None) (postgres_outside EmptyString until_done) (pg_config true)).1 in
  acts = [OpenPool the_pool; ClosePool] /\ ((exists p, OpenPool p ∈ acts) <-> ClosePool ∈ acts).
Proof.
  split; [vm_compute; reflexivity|].
  refine (proj1 (run_releases (fun _ => None) (postgres_outside EmptyString until_done) (pg_config true)
    (Some (InvalidField "RequireSyncReplication")) _)). vm_compute. reflexivity.
Defined.

(** The address is in use: with the default configuration [Run] does not return. *)
Lemma in_use_waits : (Run (fun _ => None) (postgres_outside "standby" in_use) (pg_config true)).2 = Waits.
Proof. vm_compute. reflexivity. Qed.

(** PostgreSQL with a database URL that cannot be parsed. *)
Definition bad_url (name : string) : string :=
  if is_str name EnvServerID then "wss://vfs.test/v1/ws" else if is_str name EnvStore then "postgres"
  else if is_str name EnvDatabaseURL then "postgres//" else EmptyString.

Definition any_url (_ : string) : option URL := Some (mkURL "wss" "vfs.test" "vfs.test").

(** The command does not say which variable is wrong. *)
Lemma bad_url_not_named :
  let o := mkOutside (fun _ => Err "no file"%string) (fun _ => None) (fun _ => true) true true true None until_done in
  main_run any_url bad_url o = ([], Done (Some (inr DatabaseURLError))).
Proof. vm_compute. reflexivity. Qed.

